(* ===== verification/_CoqProject ===== *)
-Q . S2P
Prelude.v
BTree.v
Parts.v
BufferList.v
BufferListTests.v
BufferListInv.v
BufferListView.v
BufferListRemove.v
BufferListAdd.v
BufferListRead.v
BufferListState.v
BufferListSpec.v
BufferListFlush.v
Queues.v
Locks.v
BufferListClaims.v
ReadAhead.v
MultiReader.v
Pool.v
Errors.v
Attrs.v
Names.v
Listing.v
Children.v
Inode.v
FileIO.v
Upload.v
Machine.v
Tree.v
Frame.v
ListEffect.v
FileSpec.v
FileInv.v
FileSteps.v
FlushSteps.v
RequestSteps.v
Multipart.v
FileExamples.v
MachineSpec.v
TreeInv.v
TreeSteps.v
TreeListing.v
TreeCalls.v
TreeRename.v
TreeSpec.v
TreeEntries.v
TreeLookup.v
TreeExamples.v
UploadSpec.v
ReadWrite.v
MachineExamples.v
Defects.v
Xattrs.v
