(* ===== verification/Prelude.v ===== *)
(** * AkaveFS verification library

    AkaveFS is a FUSE file system over an object store, written in Go
    ([src/core]).  A file is a list of buffers in memory ([buffer_list.go])
    below an inode ([handles.go], [file.go]); inodes are the nodes of a tree of
    directories ([dir.go]).  The kernel's calls change the tree and the buffers;
    a flusher ([goofys.go]) decides which modified inodes to send to the server
    and starts goroutines that send them as small objects, as parts of
    multipart uploads, as server-side copies, or as deletions; clean data and
    unused inodes are evicted.  The library models these parts in Rocq, as
    executable definitions with the names of the source, and proves what makes
    them correct.

    ** How the code is modelled

    - A function that can panic returns an [outcome]; a stateful one is a
      computation of the monad [St] of this file, which passes the state and
      stops at a panic.  [wp m R s] says that [m], run in [s], ends without a
      panic and without running out of fuel, in a result and a state that
      satisfy [R]: every specification is one of total correctness.
    - 64-bit unsigned integers are [Z] with the wrap-around written out
      ([+u], [-u], [*u]).  Strings and byte slices are lists of bytes.
    - A definition is what the code runs between two points where it takes and
      releases the locks.  A function that waits is split there: its result says
      what it waits for, and another definition continues it.  Goroutines are
      values: the constructors of [Inode.task] hold what one of them keeps while
      it does not have the lock.  Concurrency is then any sequence of such
      sections, and invariants are proved by induction over these sequences.
    - The answers of the server, of the operating system and of the clock are
      arguments.  [github.com/tidwall/btree] is the interface [BTree.BTreeMap]
      with laws, instantiated by [gmap]; the helpers a buffer list calls are the
      interface [BufferList.BufferListHelpers] with laws, which
      [Queues.inode_helpers] implements.
    - Loops that are not structural have fuel: the number of parts of the table
      ([Parts]), of buffers or of offsets left ([BufferList], by a measure in
      [ascendChange]), of children left to visit, the length of a path, or the
      number of inodes ever allocated for walks up and down the tree
      ([Tree.depth], enough since a directory is older than those below it).
      That the fuel is enough is part of every specification.

    ** Files

    Data of a file:
    - [BTree], [Parts]: the ordered map; part numbers and ranges ([file.go]).
    - [BufferList]: [buffer_list.go].  [BufferListTests] evaluates the scenarios
      of its Go tests.  [BufferListInv], [BufferListView], [BufferListRemove],
      [BufferListAdd], [BufferListRead], [BufferListState]: invariant, abstract
      contents, and the specification of each operation; [BufferListSpec]: all
      of them together, as a refinement of a map of pending bytes;
      [BufferListFlush]: writes while a flush is running; [BufferListClaims]:
      the theorems.
    - [Queues] ([buffer_queue.go], [fd_queue.go]), [Locks], [ReadAhead],
      [MultiReader] ([buffer_reader.go]), [Pool] ([buffer_pool.go] and the
      eviction of [goofys.go]), [Errors], [Attrs] ([handles.go], [utils.go]).

    One file and its goroutines:
    - [Inode], [FileIO], [Upload]: the state of a file and the sections of
      [file.go]; [Machine] puts them together: [run_action] is one call or one
      turn of a goroutine.
    - [FileSpec]: what writing, resizing and reading do; [ListEffect],
      [FileInv], [FileSteps], [FlushSteps], [RequestSteps]: the invariant of a
      file and that every section keeps it; [MachineSpec], [UploadSpec],
      [ReadWrite], [Multipart]: the theorems; [FileExamples],
      [MachineExamples]: a small file on which they are applied; [Defects]:
      runs in which the code does something other than it means to; [Xattrs]:
      attributes and extended attributes.

    The tree:
    - [Names], [Listing], [Children]: the order of names, cutting pages of a
      listing, keys to skip, the sorted list of children and its readers.
    - [Tree]: the heap of inodes and the operations of [dir.go] and
      [refresh_inode_cache.go], with their parts in [handles.go], [goofys.go]
      and [goofys_fuse.go].  The file part of a node is an [Inode.Inode], on
      which the sections of a file run unchanged ([Tree.on_inode]).
    - [Frame]: what the sections of a file leave alone, so that they compose
      with the tree; [TreeInv]: the invariant of the tree; [TreeSteps],
      [TreeListing], [TreeCalls], [TreeRename]: every operation keeps it;
      [TreeSpec]: runs of the whole file system; [TreeEntries]: the name space;
      [TreeLookup]: the requests of a lookup; [TreeExamples]: a small tree.

    ** What the theorems show

    - Buffer list: no sequence of operations on non-empty ranges panics; it
      refines a map from offsets to pending bytes; a byte written during a flush
      stays dirty, and without such a write the flush completes; reads, holes,
      dirty parts and the memory delta are exact.
    - One file ([MachineSpec], [UploadSpec], [ReadWrite], [Multipart]): in every
      run no section panics; a pending byte is only lost by being overwritten,
      cut off, stored, or dropped with the whole cache after a conflict or a
      deletion ([MachineSpec.drops]); a goroutine that needs the file for itself
      is alone; what was written is read back; requests carry the contents; a
      completed upload leaves the file clean exactly if nothing was modified;
      the flusher makes progress; the copies that complete an upload cover
      exactly the parts that were not uploaded.
    - The tree ([TreeSpec]): from the mount on, no sequence of kernel calls,
      server answers, flusher and goroutine turns, evictions and refreshes
      panics or loops, and the directories form a tree with sorted children.
      Seen as a relation between directories, names and inodes ([TreeEntries]),
      creation, removal and renaming change exactly one entry.  A name is
      reported as absent only if every request says so ([TreeLookup]); a refresh
      keeps a child that has unsent changes when it is checked (the counters of
      directories can change between the check and the removal).
    - Readers of a directory see every child that stays exactly once
      ([Children]); pages of a listing are in order but for the directories
      [Listing.unnoticed] describes, and a listing skips the keys that change
      meanwhile ([Listing]).
    - Freeing memory spares what is modified or locked, and a request for memory
      is granted within the limit, refused when nothing is left to free, or
      waiting for the flusher ([Pool]).
    - The shared queues, retries, read-ahead, range locks and the encoding of
      metadata do what they are named after.

    ** Hypotheses

    - Runs are on a mount without the disk cache and without PATCH requests
      ([FileInv.mount_ok]); the sections for both are modelled.
    - Writes and reads have at least one byte, chunks of answers are complete,
      and stored objects have a tag ([MachineSpec.action_ok]).  Two states in
      which the code goes wrong are left out of the runs: a load while the byte
      at the known end of a longer file is missing ([FileSteps.load_guard]), and
      the end of a truncation that waited while the file became shorter, with a
      buffer around both ends ([FileSteps.resize_guard]); [Defects] shows what
      happens there.
    - The kernel uses directories that are not deleted and names that are not
      empty, unlinks files, and does not rename a directory into itself
      ([TreeSpec.call_ok]).  [CRmDirEnd] assumes that the child is still there:
      otherwise the code dereferences nil ([TreeExamples]).
    - Pages of a listing hold keys with the prefix that was asked for and
      objects below the maximum file size.

    ** Not modelled

    - The clients of the storage services ([backend_*.go], [ycs3ext], the
      signers): remote services, whose answers are arguments here.
    - Cluster mode ([cluster_*.go]) and the generated protocol buffers: remote
      procedure calls between nodes.
    - The loops of the flusher, the evictor and the retry timer: they choose
      which sections run, and the theorems are about every choice.
    - Nested mounts, the index of inodes by expiration time, and the
      notifications to the kernel: the tree has one backend, at the root.
    - The translation of FUSE and WinFsp requests, mounting, flags, logging and
      statistics: input and output around the operations above. *)

From Stdlib Require Export ZArith Lia.
From stdpp Require Export sorting prelude gmap numbers list.

#[global] Open Scope Z_scope.

(** ** Outcomes and the state monad

    Every operation of the Go code that can panic returns an [outcome].
    [OutOfFuel] is the outcome of a loop model that ran out of fuel; no Go
    behaviour corresponds to it and the specifications exclude it. *)

Inductive panic : Type :=
| BufferRefcount      (* "BUG: dirty buffer count of part < 0" *)
| ZeroLengthBuffer    (* "BUG: buffer length should never be 0" *)
| DoubleInsert        (* "BUG: Tried to insert ... but already have ..." *)
| OffsetTooLarge      (* "Offset too large: ..." *)
| PartTooLarge        (* "Part number too large: ..." *)
| DivideByZero        (* runtime error: integer divide by zero *)
| NilDereference      (* runtime error: nil pointer dereference *)
| SliceOutOfRange     (* runtime error: slice bounds or index out of range *)
| HandleUnderflow     (* "Released more file handles than acquired" *)
| ChildNotFound       (* "removeName but child not found" *)
| ChildExists         (* "double insert of ..." *)
| InodeIdSet          (* "inode id is set: ..." *)
| UnknownInode        (* "Unknown inode: ..." *)
| NilMap.             (* runtime error: assignment to entry in nil map *)

Inductive outcome (A : Type) : Type :=
| Ok (a : A)
| Panic (p : panic)
| OutOfFuel.
Arguments Ok {A} a.
Arguments Panic {A} p.
Arguments OutOfFuel {A}.

#[export] Instance panic_eq_dec : EqDecision panic.
Proof. solve_decision. Defined.

Definition bindO {A B} (m : outcome A) (f : A -> outcome B) : outcome B :=
  match m with
  | Ok a => f a
  | Panic p => Panic p
  | OutOfFuel => OutOfFuel
  end.

(** The state monad over outcomes: a panic discards the state, as the process dies. *)
Definition St (S A : Type) : Type := S -> outcome (A * S).

Definition ret {S A} (a : A) : St S A := fun s => Ok (a, s).
Definition bind {S A B} (m : St S A) (f : A -> St S B) : St S B :=
  fun s => match m s with
           | Ok (a, s') => f a s'
           | Panic p => Panic p
           | OutOfFuel => OutOfFuel
           end.
Definition getS {S} : St S S := fun s => Ok (s, s).
Definition gets {S A} (f : S -> A) : St S A := fun s => Ok (f s, s).
Definition modS {S} (f : S -> S) : St S unit := fun s => Ok (tt, f s).
Definition panicS {S A} (p : panic) : St S A := fun _ => Panic p.
Definition liftO {S A} (m : outcome A) : St S A :=
  fun s => match m with
           | Ok a => Ok (a, s)
           | Panic p => Panic p
           | OutOfFuel => OutOfFuel
           end.

Declare Scope go_scope.
Delimit Scope go_scope with go.
Notation "'let!' x ':=' m 'in' k" := (bind m (fun x => k))
  (at level 10, x name, m at level 100, k at level 200) : go_scope.
Notation "'let!' ' p ':=' m 'in' k" := (bind m (fun x => match x with p => k end))
  (at level 10, p pattern, m at level 100, k at level 200) : go_scope.
Notation "m ';;;' k" := (bind m (fun _ => k)) (at level 100, k at level 200, right associativity) : go_scope.
Notation "'letO!' x ':=' m 'in' k" := (bindO m (fun x => k))
  (at level 10, x name, m at level 100, k at level 200) : go_scope.
#[global] Open Scope go_scope.

(** ** Total-correctness assertions

    [wp m Q s]: run from [s], [m] neither panics nor runs out of fuel, and its
    result and final state satisfy [Q]. *)

Definition wp {S A} (m : St S A) (Q : A -> S -> Prop) (s : S) : Prop :=
  match m s with
  | Ok (a, s') => Q a s'
  | _ => False
  end.

Section wp.
Context {S : Type}.

Lemma wp_ret {A} (a : A) (Q : A -> S -> Prop) s : Q a s -> wp (ret a) Q s.
Proof. done. Qed.

Lemma wp_bind {A B} (m : St S A) (f : A -> St S B) (Q : B -> S -> Prop) s :
  wp m (fun a s' => wp (f a) Q s') s -> wp (bind m f) Q s.
Proof. unfold wp, bind. by destruct (m s) as [[a s']| |]. Qed.

Lemma wp_mono {A} (m : St S A) (Q R : A -> S -> Prop) s :
  wp m Q s -> (forall a s', Q a s' -> R a s') -> wp m R s.
Proof. unfold wp. destruct (m s) as [[a s']| |]; naive_solver. Qed.

Lemma wp_getS (Q : S -> S -> Prop) s : Q s s -> wp getS Q s.
Proof. done. Qed.

Lemma wp_gets {A} (f : S -> A) (Q : A -> S -> Prop) s : Q (f s) s -> wp (gets f) Q s.
Proof. done. Qed.

Lemma wp_modS f (Q : unit -> S -> Prop) s : Q tt (f s) -> wp (modS f) Q s.
Proof. done. Qed.

Lemma wp_liftO {A} (m : outcome A) a (Q : A -> S -> Prop) s :
  m = Ok a -> Q a s -> wp (liftO m) Q s.
Proof. by intros ->. Qed.

Lemma wp_seq {A B C} (m1 : St S A) (m2 : St S B) (m3 : St S C) (Q : C -> S -> Prop) s :
  wp (m1 ;;; m2) (fun _ s' => wp m3 Q s') s -> wp (m1 ;;; m2 ;;; m3) Q s.
Proof. unfold wp, bind. destruct (m1 s) as [[? s1]| |]; [|done..]. by destruct (m2 s1) as [[? s2]| |]. Qed.

Lemma wp_run {A} (m : St S A) (Q : A -> S -> Prop) s :
  wp m Q s -> exists a s', m s = Ok (a, s') /\ Q a s'.
Proof. unfold wp. destruct (m s) as [[a s']| |]; naive_solver. Qed.
Lemma wp_run_unit (m : St S unit) (P : S -> Prop) s : wp m (fun _ => P) s -> exists s', m s = Ok (tt, s') /\ P s'.
Proof. intros H. apply wp_run in H as ([] & s' & E & HP). eauto. Qed.

Lemma wp_of_run {A} (m : St S A) (Q : A -> S -> Prop) s a s' :
  m s = Ok (a, s') -> Q a s' -> wp m Q s.
Proof. unfold wp. by intros ->. Qed.

Lemma wp_conj {A} (m : St S A) (Q R : A -> S -> Prop) s :
  wp m Q s -> wp m R s -> wp m (fun a s' => Q a s' /\ R a s') s.
Proof. unfold wp. destruct (m s) as [[a s']| |]; naive_solver. Qed.
End wp.

Create HintDb go.
#[export] Hint Resolve wp_ret wp_getS wp_gets wp_modS : go.

(** Strip the leading monadic operation of a [wp] goal. *)
Ltac wp_step :=
  lazymatch goal with
  | |- wp (bind _ _) _ _ => apply wp_bind
  | |- wp (ret _) _ _ => apply wp_ret
  | |- wp getS _ _ => apply wp_getS
  | |- wp (gets _) _ _ => apply wp_gets
  | |- wp (modS _) _ _ => apply wp_modS
  end.
Ltac wp_steps := repeat (wp_step; cbn beta).
(** Run the leading operation by a specification [H] proved for it. *)
Tactic Notation "wp_use" uconstr(H) := eapply wp_mono; [eapply H|cbn beta].

(** ** Components of the state that a computation leaves alone *)

Definition unchanged {S A T} (f : S -> T) (m : St S A) : Prop := forall s a s', m s = Ok (a, s') -> f s' = f s.

Section unchanged.
Context {S T : Type} (f : S -> T).

Lemma unchanged_ret {A} (a : A) : unchanged f (ret a).
Proof. by intros s a' s' [= _ <-]. Qed.
Lemma unchanged_bind {A B} (m : St S A) (k : A -> St S B) :
  unchanged f m -> (forall a, unchanged f (k a)) -> unchanged f (bind m k).
Proof.
  intros Hm Hk s b s' E. unfold bind in E. destruct (m s) as [[a s1]| |] eqn:E1; [|done..].
  rewrite <- (Hm _ _ _ E1). by eapply Hk.
Qed.
Lemma unchanged_getS : unchanged f getS.
Proof. by intros s a s' [= _ <-]. Qed.
Lemma unchanged_gets {A} (g : S -> A) : unchanged f (gets g).
Proof. by intros s a s' [= _ <-]. Qed.
Lemma unchanged_modS (g : S -> S) : (forall s, f (g s) = f s) -> unchanged f (modS g).
Proof. intros Hg s a s' [= _ <-]. apply Hg. Qed.
Lemma unchanged_panic {A} (p : panic) : unchanged (A := A) f (panicS p).
Proof. by intros s a s' [=]. Qed.
Lemma unchanged_fuel {A} : unchanged (A := A) f (fun _ => OutOfFuel).
Proof. by intros s a s' [=]. Qed.
Lemma unchanged_liftO {A} (m : outcome A) : unchanged f (liftO m).
Proof. intros s a s' E. unfold liftO in E. by destruct m; simplify_eq. Qed.
Lemma wp_unchanged {A} (m : St S A) (P : A -> S -> Prop) s :
  unchanged f m -> wp m P s -> wp m (fun a s' => P a s' /\ f s' = f s) s.
Proof. intros Hm Hw. unfold wp in *. destruct (m s) as [[a s']| |] eqn:E; [|done..]. split; [done|by eapply Hm]. Qed.
End unchanged.
#[export] Hint Resolve unchanged_ret unchanged_getS unchanged_gets unchanged_panic unchanged_fuel unchanged_liftO : go.

(** Follow the structure of a computation down to the operations [auto] knows. *)
Ltac unchanged_step :=
  match goal with
  | |- unchanged _ (bind _ _) => apply unchanged_bind; [|intro]
  | |- unchanged _ (modS _) => apply unchanged_modS; intro; cbn
  | |- unchanged _ (match ?d with _ => _ end) => destruct d
  | |- unchanged _ (let '_ := ?d in _) => destruct d
  | |- _ => solve [eauto with go]
  end.
Ltac unchanged := repeat (first [unchanged_step|reflexivity]).

(** ** 64-bit unsigned arithmetic *)

Abbreviation two64 := 18446744073709551616.
Definition u64 (z : Z) : Z := z mod two64.
Declare Scope u64_scope.
Delimit Scope u64_scope with u64.
Notation "a +u b" := (u64 (a + b)) (at level 50, left associativity) : u64_scope.
Notation "a -u b" := (u64 (a - b)) (at level 50, left associativity) : u64_scope.
Notation "a *u b" := (u64 (a * b)) (at level 40, left associativity) : u64_scope.
#[global] Open Scope u64_scope.

Lemma u64_small z : 0 <= z < two64 -> u64 z = z.
Proof. apply Z.mod_small. Qed.

(** Conversion to a signed 64-bit integer. *)
Definition i64 (z : Z) : Z := u64 (z + 9223372036854775808) - 9223372036854775808.

Lemma i64_small z : -9223372036854775808 <= z < 9223372036854775808 -> i64 z = z.
Proof. intros. unfold i64. rewrite u64_small by lia. lia. Qed.

Lemma u64_add_u64 x y : u64 (x + u64 y) = u64 (x + y).
Proof. unfold u64. by rewrite Zplus_mod_idemp_r. Qed.
Lemma u64_range z : 0 <= u64 z < two64.
Proof. unfold u64. apply Z.mod_pos_bound. lia. Qed.

(** Discharge every wrap-around whose argument is provably in range. *)
Ltac u64s :=
  repeat match goal with
  | |- context [u64 ?e] => rewrite (u64_small e) by lia
  | H : context [u64 ?e] |- _ => rewrite (u64_small e) in H by lia
  end.

(** ** Sums over finite maps *)

Definition map_sum {A} (f : Z -> A -> Z) (m : gmap Z A) : Z :=
  map_fold (fun k v acc => f k v + acc) 0 m.

Section map_sum.
Context {A : Type}.
Implicit Types (m : gmap Z A) (f : Z -> A -> Z).

Lemma map_sum_empty f : map_sum f ∅ = 0.
Proof. apply map_fold_empty. Qed.

Lemma map_sum_insert f m k v :
  m !! k = None -> map_sum f (<[k:=v]> m) = f k v + map_sum f m.
Proof. intros Hk. unfold map_sum. rewrite map_fold_insert_L; [done|lia|done]. Qed.

Lemma map_sum_delete f m k v :
  m !! k = Some v -> map_sum f m = f k v + map_sum f (delete k m).
Proof.
  intros Hk. rewrite <- (insert_delete_id m k v Hk) at 1.
  by rewrite map_sum_insert by apply lookup_delete_eq.
Qed.

Lemma map_sum_update f m k v w :
  m !! k = Some v -> map_sum f (<[k:=w]> m) = map_sum f m - f k v + f k w.
Proof.
  intros Hk. rewrite <- insert_delete_eq, map_sum_insert by apply lookup_delete_eq.
  rewrite (map_sum_delete f m k v) by done. lia.
Qed.

Lemma map_sum_nonneg f m :
  (forall k v, m !! k = Some v -> 0 <= f k v) -> 0 <= map_sum f m.
Proof.
  induction m as [|k v m Hk IH] using map_ind; intros Hf.
  - by rewrite map_sum_empty.
  - rewrite map_sum_insert by done.
    assert (0 <= f k v) by (apply Hf; by rewrite lookup_insert_eq).
    assert (0 <= map_sum f m); [|lia].
    apply IH. intros k' v' Hk'. apply Hf. rewrite lookup_insert_ne; [done|congruence].
Qed.

Lemma map_sum_ext f g m :
  (forall k v, m !! k = Some v -> f k v = g k v) -> map_sum f m = map_sum g m.
Proof.
  induction m as [|k v m Hk IH] using map_ind; intros Hf.
  - by rewrite !map_sum_empty.
  - rewrite !map_sum_insert by done. rewrite IH, Hf; [done|by rewrite lookup_insert_eq|].
    intros k' v' Hk'. apply Hf. rewrite lookup_insert_ne; [done|congruence].
Qed.

Lemma map_sum_ge f m k v :
  (forall k v, m !! k = Some v -> 0 <= f k v) -> m !! k = Some v -> f k v <= map_sum f m.
Proof.
  intros Hf Hk. rewrite (map_sum_delete f m k v Hk).
  assert (0 <= map_sum f (delete k m)); [|lia].
  apply map_sum_nonneg. intros k' v' [_ ?]%lookup_delete_Some. by apply Hf.
Qed.

Lemma map_sum_zero f m :
  (forall k v, m !! k = Some v -> f k v = 0) -> map_sum f m = 0.
Proof.
  intros Hf. rewrite (map_sum_ext f (fun _ _ => 0)) by done.
  induction m as [|k v m Hk IH] using map_ind; [by rewrite map_sum_empty|].
  rewrite map_sum_insert by done. rewrite IH; [done|].
  intros k' v' Hk'. apply (Hf k' v'). rewrite lookup_insert_ne; [done|congruence].
Qed.

Lemma map_sum_subseteq f m m' :
  (forall k v, 0 <= f k v) -> m' ⊆ m -> map_sum f m' <= map_sum f m.
Proof.
  intros Hf. revert m. induction m' as [|k v m' Hk IH] using map_ind; intros m Hsub.
  - rewrite map_sum_empty. by apply map_sum_nonneg.
  - rewrite map_sum_insert by done.
    assert (Hmk : m !! k = Some v) by (eapply lookup_weaken; [apply lookup_insert_eq|done]).
    rewrite (map_sum_delete f m k v Hmk). enough (map_sum f m' <= map_sum f (delete k m)) by lia. apply IH.
    apply map_subseteq_spec. intros i w Hi. rewrite lookup_delete_ne by (intros <-; congruence).
    eapply lookup_weaken; [|done]. rewrite lookup_insert_ne; [done|]. intros <-. congruence.
Qed.

Lemma map_sum_pos_inv f m :
  0 < map_sum f m -> exists k v, m !! k = Some v /\ f k v <> 0.
Proof.
  induction m as [|k v m Hk IH] using map_ind.
  - rewrite map_sum_empty. lia.
  - rewrite map_sum_insert by done. intros Hpos.
    destruct (decide (f k v = 0)).
    + destruct IH as (k' & v' & Hk' & Hne); [lia|].
      exists k', v'. rewrite lookup_insert_ne by congruence. done.
    + exists k, v. by rewrite lookup_insert_eq.
Qed.
End map_sum.

(** Number of entries satisfying a boolean test. *)
Definition ind (b : bool) : Z := if b then 1 else 0.

Lemma ind_nonneg b : 0 <= ind b.
Proof. by destruct b. Qed.
#[export] Hint Resolve ind_nonneg : go.

Lemma ind_elem_cons (p x : Z) (xs : list Z) :
  x ∉ xs ->
  ind (bool_decide (p ∈ x :: xs)) = ind (bool_decide (p = x)) + ind (bool_decide (p ∈ xs)).
Proof.
  intros Hx. repeat case_bool_decide; set_solver.
Qed.

(** ** Slices of lists, indexed by [Z] *)

Definition slice {A} (i j : Z) (l : list A) : list A :=
  take (Z.to_nat (j - i)) (drop (Z.to_nat i) l).
Definition zlen {A} (l : list A) : Z := Z.of_nat (List.length l).
Definition znth {A} (l : list A) (i : Z) : option A :=
  if decide (0 <= i) then l !! Z.to_nat i else None.

Section slices.
Context {A : Type}.
Implicit Types l : list A.

Lemma zlen_nonneg l : 0 <= zlen l.
Proof. unfold zlen. lia. Qed.

Lemma zlen_app l1 l2 : zlen (l1 ++ l2) = zlen l1 + zlen l2.
Proof. unfold zlen. rewrite length_app. lia. Qed.

Lemma zlen_nil : zlen (@nil A) = 0.
Proof. done. Qed.

Lemma zlen_replicate n (x : A) : 0 <= n -> zlen (replicate (Z.to_nat n) x) = n.
Proof. intros. unfold zlen. rewrite length_replicate. lia. Qed.

Lemma zlen_0 l : zlen l = 0 -> l = [].
Proof. unfold zlen. destruct l; [done|simpl; lia]. Qed.

Lemma zlen_slice i j l : 0 <= i <= j -> j <= zlen l -> zlen (slice i j l) = j - i.
Proof. unfold zlen, slice. intros. rewrite length_take, length_drop. lia. Qed.

Lemma znth_Some l i : 0 <= i < zlen l -> is_Some (znth l i).
Proof.
  unfold znth, zlen. intros. rewrite decide_True by lia.
  apply lookup_lt_is_Some. lia.
Qed.

Lemma znth_bound l i x : znth l i = Some x -> 0 <= i < zlen l.
Proof.
  unfold znth, zlen. case_decide; [|done]. intros ?%lookup_lt_Some. lia.
Qed.

Lemma znth_app_l l1 l2 i : i < zlen l1 -> znth (l1 ++ l2) i = znth l1 i.
Proof.
  unfold znth, zlen. intros. case_decide; [|done]. apply lookup_app_l. lia.
Qed.

Lemma znth_app_r l1 l2 i : zlen l1 <= i -> znth (l1 ++ l2) i = znth l2 (i - zlen l1).
Proof.
  unfold znth, zlen. intros. rewrite !decide_True by lia.
  rewrite lookup_app_r by lia. f_equal. lia.
Qed.

Lemma znth_slice i j l x :
  0 <= i -> j <= zlen l -> 0 <= x < j - i -> znth (slice i j l) x = znth l (i + x).
Proof.
  unfold znth, slice, zlen. intros. rewrite !decide_True by lia.
  rewrite lookup_take_lt by lia. rewrite lookup_drop. f_equal. lia.
Qed.

Lemma znth_replicate n (x : A) i : 0 <= i < n -> znth (replicate (Z.to_nat n) x) i = Some x.
Proof.
  intros. unfold znth. rewrite decide_True by lia. apply lookup_replicate_2. lia.
Qed.

Lemma znth_ext l1 l2 :
  zlen l1 = zlen l2 -> (forall i, 0 <= i < zlen l1 -> znth l1 i = znth l2 i) -> l1 = l2.
Proof.
  unfold zlen, znth. intros Hlen H. apply list_eq. intros i.
  destruct (decide (i < List.length l1)%nat).
  - specialize (H (Z.of_nat i)). rewrite !decide_True, Nat2Z.id in H by lia. apply H. lia.
  - rewrite !lookup_ge_None_2 by lia. done.
Qed.

Lemma slice_app_adj i j k l :
  0 <= i <= j -> j <= k -> k <= zlen l -> slice i j l ++ slice j k l = slice i k l.
Proof.
  intros. apply znth_ext.
  - rewrite zlen_app, !zlen_slice by lia. lia.
  - intros x. rewrite zlen_app, !zlen_slice by lia. intros Hx.
    destruct (decide (x < j - i)).
    + rewrite znth_app_l, !znth_slice by (rewrite ?zlen_slice; lia). done.
    + rewrite znth_app_r by (rewrite zlen_slice; lia). rewrite zlen_slice by lia.
      rewrite !znth_slice by lia. f_equal. lia.
Qed.

Lemma slice_full l : slice 0 (zlen l) l = l.
Proof. unfold slice, zlen. rewrite drop_0. apply take_ge. lia. Qed.

Lemma slice_empty i l : slice i i l = [].
Proof. unfold slice. by rewrite Z.sub_diag. Qed.
End slices.

(** ** Iterating with an early stop

    [iter_until f acc l] is a Go iteration whose callback returns whether to go on. *)
Fixpoint iter_until {A B} (f : A -> B -> A * bool) (acc : A) (l : list B) : A :=
  match l with
  | [] => acc
  | x :: l' => match f acc x with
               | (acc', true) => iter_until f acc' l'
               | (acc', false) => acc'
               end
  end.

(** Rewrite booleans in hypotheses and goal into propositions. *)
Ltac bool_prop :=
  repeat match goal with
  | H : _ && _ = true |- _ => apply andb_true_iff in H; destruct H
  | H : negb _ = true |- _ => apply negb_true_iff in H
  | H : negb _ = false |- _ => apply negb_false_iff in H
  | H : _ || _ = false |- _ => apply orb_false_iff in H; destruct H
  | H : (_ <? _) = true |- _ => apply Z.ltb_lt in H
  | H : (_ <? _) = false |- _ => apply Z.ltb_ge in H
  | H : (_ <=? _) = true |- _ => apply Z.leb_le in H
  | H : (_ <=? _) = false |- _ => apply Z.leb_gt in H
  | H : (_ =? _) = true |- _ => apply Z.eqb_eq in H
  | H : (_ =? _) = false |- _ => apply Z.eqb_neq in H
  end.

(** Equivalences between boolean tests on integers. *)
Ltac bool_lia :=
  rewrite ?andb_true_iff, ?orb_true_iff, ?negb_true_iff, ?Z.leb_le, ?Z.ltb_lt, ?Z.eqb_eq,
    ?bool_decide_eq_true; lia.
