(* ===== verification/BTree.v ===== *)
(** * Ordered maps: the interface of [github.com/tidwall/btree]

    The buffer list, the clean-buffer queue, the inode queue and the descriptor
    queue all keep their entries in a [btree.Map] with unsigned 64-bit keys.
    The package is a third-party dependency, so it is a parameter here:
    [BTreeMap] lists the methods the code calls ([Get], [Set], [Delete], [Len],
    [Scan], [Ascend], [Descend]) and [BTreeMapLaws] their documented behaviour.
    An iteration is the list of items its callback is shown, in order; a
    callback that returns false cuts that list short.  [gmap_btree] instantiates
    the interface, so that the theorems proved against it are not vacuous and
    concrete runs evaluate. *)

From S2P Require Import Prelude.

(** Items in the order [Ascend] yields them. *)
Definition item_lt {V} (x y : Z * V) : Prop := x.1 < y.1.
Definition item_gt {V} (x y : Z * V) : Prop := y.1 < x.1.
Definition item_le {V} (x y : Z * V) : Prop := x.1 <= y.1.

Class BTreeMap (M : Type -> Type) : Type := {
  bt_empty : forall {V}, M V;
  bt_get : forall {V}, Z -> M V -> option V;
  bt_set : forall {V}, Z -> V -> M V -> M V;
  bt_delete : forall {V}, Z -> M V -> M V;
  bt_len : forall {V}, M V -> Z;
  bt_scan : forall {V}, M V -> list (Z * V);
  bt_ascend : forall {V}, Z -> M V -> list (Z * V);
  bt_descend : forall {V}, Z -> M V -> list (Z * V);
}.

Class BTreeMapLaws (M : Type -> Type) `{BTreeMap M} : Prop := {
  bt_get_empty : forall {V} k, bt_get k (bt_empty : M V) = None;
  bt_get_set : forall {V} k k' (v : V) (m : M V),
    bt_get k' (bt_set k v m) = if decide (k = k') then Some v else bt_get k' m;
  bt_get_delete : forall {V} k k' (m : M V),
    bt_get k' (bt_delete k m) = if decide (k = k') then None else bt_get k' m;
  bt_scan_sorted : forall {V} (m : M V), StronglySorted item_lt (bt_scan m);
  bt_scan_elem : forall {V} (m : M V) k v, (k, v) ∈ bt_scan m <-> bt_get k m = Some v;
  bt_ascend_sorted : forall {V} p (m : M V), StronglySorted item_lt (bt_ascend p m);
  bt_ascend_elem : forall {V} p (m : M V) k v,
    (k, v) ∈ bt_ascend p m <-> p <= k /\ bt_get k m = Some v;
  bt_descend_sorted : forall {V} p (m : M V), StronglySorted item_gt (bt_descend p m);
  bt_descend_elem : forall {V} p (m : M V) k v,
    (k, v) ∈ bt_descend p m <-> k <= p /\ bt_get k m = Some v;
  bt_len_scan : forall {V} (m : M V), bt_len m = zlen (bt_scan m);
}.

(** ** Sorted item lists *)

Section sorted_items.
Context {V : Type}.
Implicit Types l : list (Z * V).

Lemma item_lt_NoDup l : StronglySorted item_lt l -> NoDup l.*1.
Proof.
  induction 1 as [|x l _ IH Hx]; [constructor|].
  cbn. constructor; [|done].
  intros (y & Hy & Hin)%list_elem_of_fmap.
  rewrite Forall_forall in Hx. specialize (Hx y Hin). unfold item_lt in Hx. lia.
Qed.

Lemma item_lt_unique l1 l2 :
  StronglySorted item_lt l1 -> StronglySorted item_lt l2 ->
  (forall x, x ∈ l1 <-> x ∈ l2) -> l1 = l2.
Proof.
  intros H1 H2 Heq. apply (StronglySorted_unique_strong item_lt); try done.
  - intros x y _ _ Hxy Hyx. unfold item_lt in *. lia.
  - apply NoDup_Permutation; [|by eauto using NoDup_fmap_1, item_lt_NoDup|done].
    by eauto using NoDup_fmap_1, item_lt_NoDup.
Qed.
End sorted_items.

(** ** Consequences of the laws

    [bt_map] is the finite map a tree stands for. *)

Section laws.
Context {M : Type -> Type} `{BTreeMapLaws M} {V : Type}.
Implicit Types (m : M V) (v : V).

Definition bt_map (m : M V) : gmap Z V := list_to_map (bt_scan m).

Lemma bt_map_lookup m k : bt_map m !! k = bt_get k m.
Proof.
  unfold bt_map. destruct (bt_get k m) as [v|] eqn:E.
  - apply elem_of_list_to_map_1; [by apply item_lt_NoDup, bt_scan_sorted|].
    by apply bt_scan_elem.
  - apply not_elem_of_list_to_map_1. intros ([k' v'] & -> & Hin)%list_elem_of_fmap.
    apply bt_scan_elem in Hin. simpl in *. congruence.
Qed.

Lemma bt_map_empty : bt_map bt_empty = ∅.
Proof. apply map_eq. intros k. by rewrite bt_map_lookup, bt_get_empty, lookup_empty. Qed.

Lemma bt_map_set k v m : bt_map (bt_set k v m) = <[k:=v]> (bt_map m).
Proof.
  apply map_eq. intros k'. rewrite lookup_insert, !bt_map_lookup. apply bt_get_set.
Qed.

Lemma bt_map_delete k m : bt_map (bt_delete k m) = delete k (bt_map m).
Proof.
  apply map_eq. intros k'. rewrite lookup_delete, !bt_map_lookup. apply bt_get_delete.
Qed.

Lemma bt_ascend_ext p m m' :
  (forall k, p <= k -> bt_map m !! k = bt_map m' !! k) -> bt_ascend p m = bt_ascend p m'.
Proof.
  intros Heq. apply item_lt_unique; [apply bt_ascend_sorted..|].
  intros [k v]. rewrite !bt_ascend_elem.
  split; intros [Hp Hget]; (split; [done|]).
  - by rewrite <- bt_map_lookup, <- Heq, bt_map_lookup.
  - by rewrite <- bt_map_lookup, Heq, bt_map_lookup.
Qed.

Lemma bt_ascend_nil p m k : bt_ascend p m = [] -> p <= k -> bt_map m !! k = None.
Proof.
  intros E Hp. rewrite bt_map_lookup. destruct (bt_get k m) as [v|] eqn:Ek; [|done].
  assert (Hin : (k, v) ∈ bt_ascend p m) by (by apply bt_ascend_elem).
  rewrite E in Hin. by apply not_elem_of_nil in Hin.
Qed.

(** The first item of an ascending iteration, and what the iteration shows after it. *)
Lemma bt_ascend_cons p m k v rest :
  bt_ascend p m = (k, v) :: rest ->
  p <= k /\ bt_map m !! k = Some v /\
  (forall k', p <= k' < k -> bt_map m !! k' = None) /\
  rest = bt_ascend (k + 1) m.
Proof.
  intros E. pose proof (bt_ascend_sorted p m) as Hs. rewrite E in Hs.
  apply StronglySorted_inv in Hs as [Hs Hall]. rewrite Forall_forall in Hall.
  assert (Hin : (k, v) ∈ bt_ascend p m) by (rewrite E; left).
  apply bt_ascend_elem in Hin as [Hp Hget]. rewrite bt_map_lookup.
  split_and!; [done|done| |].
  - intros k' Hk'. rewrite bt_map_lookup. destruct (bt_get k' m) as [v'|] eqn:E'; [|done].
    assert (Hin' : (k', v') ∈ bt_ascend p m) by (apply bt_ascend_elem; split; [lia|done]).
    rewrite E in Hin'. apply elem_of_cons in Hin' as [[= -> ->]|Hin']; [lia|].
    apply Hall in Hin'. unfold item_lt in Hin'. simpl in Hin'. lia.
  - apply item_lt_unique; [done|apply bt_ascend_sorted|]. intros [k' v'].
    rewrite bt_ascend_elem. split.
    + intros Hin'. assert (Hlt := Hall _ Hin'). unfold item_lt in Hlt. simpl in Hlt.
      assert (Hin2 : (k', v') ∈ bt_ascend p m) by (rewrite E; by right).
      apply bt_ascend_elem in Hin2 as [_ ?]. split; [lia|done].
    + intros [Hle Hget'].
      assert (Hin2 : (k', v') ∈ bt_ascend p m) by (apply bt_ascend_elem; split; [lia|done]).
      rewrite E in Hin2. apply elem_of_cons in Hin2 as [[= -> ->]|Hin2]; [lia|done].
Qed.

Lemma bt_ascend_first p m k v :
  p <= k -> bt_map m !! k = Some v -> (forall k', p <= k' < k -> bt_map m !! k' = None) ->
  bt_ascend p m = (k, v) :: bt_ascend (k + 1) m.
Proof.
  intros Hp Hk Hno. destruct (bt_ascend p m) as [|[k' v'] rest] eqn:E.
  - by rewrite (bt_ascend_nil _ _ k E Hp) in Hk.
  - apply bt_ascend_cons in E as (Hp' & Hk' & Hno' & ->).
    destruct (Z.lt_trichotomy k k') as [?|[->|?]].
    + rewrite Hno' in Hk by lia. done.
    + congruence.
    + rewrite Hno in Hk' by lia. done.
Qed.

Lemma bt_descend_nil p m k : bt_descend p m = [] -> k <= p -> bt_map m !! k = None.
Proof.
  intros E Hp. rewrite bt_map_lookup. destruct (bt_get k m) as [v|] eqn:Ek; [|done].
  assert (Hin : (k, v) ∈ bt_descend p m) by (by apply bt_descend_elem).
  rewrite E in Hin. by apply not_elem_of_nil in Hin.
Qed.

Lemma bt_descend_cons p m k v rest :
  bt_descend p m = (k, v) :: rest ->
  k <= p /\ bt_map m !! k = Some v /\ (forall k', k < k' <= p -> bt_map m !! k' = None).
Proof.
  intros E. pose proof (bt_descend_sorted p m) as Hs. rewrite E in Hs.
  apply StronglySorted_inv in Hs as [Hs Hall]. rewrite Forall_forall in Hall.
  assert (Hin : (k, v) ∈ bt_descend p m) by (rewrite E; left).
  apply bt_descend_elem in Hin as [Hp Hget]. rewrite bt_map_lookup.
  split_and!; [done|done|].
  intros k' Hk'. rewrite bt_map_lookup. destruct (bt_get k' m) as [v'|] eqn:E'; [|done].
  assert (Hin' : (k', v') ∈ bt_descend p m) by (apply bt_descend_elem; split; [lia|done]).
  rewrite E in Hin'. apply elem_of_cons in Hin' as [[= -> ->]|Hin']; [lia|].
  apply Hall in Hin'. unfold item_gt in Hin'. simpl in Hin'. lia.
Qed.

Lemma bt_len_size m : bt_len m = Z.of_nat (size (bt_map m)).
Proof.
  rewrite bt_len_scan. unfold zlen, bt_map.
  rewrite <- length_map_to_list.
  rewrite (Permutation_length (map_to_list_to_map _ (item_lt_NoDup _ (bt_scan_sorted m)))).
  done.
Qed.

Lemma bt_ascend_length_le p q m :
  p <= q -> (List.length (bt_ascend q m) <= List.length (bt_ascend p m))%nat.
Proof.
  intros Hpq. apply submseteq_length, NoDup_submseteq.
  - eapply NoDup_fmap_1, item_lt_NoDup, bt_ascend_sorted.
  - intros [k v]. rewrite !bt_ascend_elem. intros [? ?]. split; [lia|done].
Qed.
End laws.

(** ** An instance *)

#[export] Instance item_le_dec {V} : RelDecision (@item_le V).
Proof. intros x y. unfold item_le. apply _. Defined.

Section gmap_instance.
Definition gmap_scan {V} (m : gmap Z V) : list (Z * V) := merge_sort item_le (map_to_list m).

#[export] Instance gmap_btree : BTreeMap (gmap Z) := {|
  bt_empty := fun V => ∅;
  bt_get := fun V k m => m !! k;
  bt_set := fun V k v m => <[k:=v]> m;
  bt_delete := fun V k m => delete k m;
  bt_len := fun V m => Z.of_nat (size m);
  bt_scan := fun V m => gmap_scan m;
  bt_ascend := fun V p m => filter (fun x => p <= x.1) (gmap_scan m);
  bt_descend := fun V p m => reverse (filter (fun x => x.1 <= p) (gmap_scan m));
|}.

Lemma gmap_scan_perm {V} (m : gmap Z V) : gmap_scan m ≡ₚ map_to_list m.
Proof. apply merge_sort_Permutation. Qed.

Lemma gmap_scan_elem {V} (m : gmap Z V) k v : (k, v) ∈ gmap_scan m <-> m !! k = Some v.
Proof. rewrite gmap_scan_perm. apply elem_of_map_to_list. Qed.

Lemma gmap_scan_sorted {V} (m : gmap Z V) : StronglySorted item_lt (gmap_scan m).
Proof.
  assert (Hle : StronglySorted item_le (gmap_scan m)).
  { apply StronglySorted_merge_sort.
    - intros x y z. unfold item_le. lia.
    - intros x y. unfold item_le. lia. }
  assert (Hnd : NoDup (gmap_scan m).*1).
  { rewrite gmap_scan_perm. apply NoDup_fst_map_to_list. }
  revert Hnd. induction Hle as [|x l _ IH Hx]; intros Hnd; [constructor|].
  cbn in Hnd. apply NoDup_cons in Hnd as [Hnin Hnd]. constructor; [by apply IH|].
  rewrite Forall_forall in *. intros y Hy. specialize (Hx y Hy).
  unfold item_le, item_lt in *. destruct (decide (x.1 = y.1)) as [Heq|]; [|lia].
  exfalso. apply Hnin. rewrite Heq. by apply list_elem_of_fmap_2.
Qed.

Lemma item_sorted_filter {V} (R : Z * V -> Z * V -> Prop) (P : Z * V -> Prop)
    `{!forall x, Decision (P x)} l :
  StronglySorted R l -> StronglySorted R (filter P l).
Proof.
  induction 1 as [|x l _ IH Hx]; [constructor|].
  rewrite filter_cons. case_decide; [|done]. constructor; [done|].
  rewrite Forall_forall in *. intros y [_ Hy]%list_elem_of_filter. by apply Hx.
Qed.

Lemma item_sorted_reverse {V} (l : list (Z * V)) :
  StronglySorted item_lt l -> StronglySorted item_gt (reverse l).
Proof.
  induction 1 as [|x l Hs IH Hx]; [constructor|].
  rewrite reverse_cons. apply StronglySorted_app; split_and!; [|done|repeat constructor].
  intros y z Hy ->%list_elem_of_singleton. rewrite elem_of_reverse in Hy.
  rewrite Forall_forall in Hx. by apply Hx.
Qed.

#[export] Instance gmap_btree_laws : BTreeMapLaws (gmap Z).
Proof.
  split; cbn.
  - intros. apply lookup_empty.
  - intros. apply lookup_insert.
  - intros. apply lookup_delete.
  - intros. apply gmap_scan_sorted.
  - intros. apply gmap_scan_elem.
  - intros. apply item_sorted_filter, gmap_scan_sorted.
  - intros. rewrite list_elem_of_filter, gmap_scan_elem. done.
  - intros. apply item_sorted_reverse, item_sorted_filter, gmap_scan_sorted.
  - intros. rewrite elem_of_reverse, list_elem_of_filter, gmap_scan_elem. done.
  - intros. unfold zlen. rewrite gmap_scan_perm, length_map_to_list. done.
Qed.
End gmap_instance.
