(* ===== verification/Parts.v ===== *)
(** * Part numbering

    Objects are uploaded as multipart uploads whose part sizes come from the
    [--part-sizes] table: [PartCount] parts of [PartSize] bytes per tier.  This
    file models the arithmetic of [core/file.go] that maps byte offsets to part
    numbers and back ([partNum], [partRange], [numParts], [maxParts],
    [getMaxFileSize]), and shows that the table tiles the file: every offset
    below the maximum file size lies in exactly the range of its part.
    [PartNumbering] is what the buffer list relies on. *)

From S2P Require Import Prelude.

Record PartSizeConfig := mkPartSize { PartSize : Z; PartCount : Z }.

(** ** Operations *)

Fixpoint partNum_loop (PartSizes : list PartSizeConfig) (n start offset : Z) : outcome Z :=
  match PartSizes with
  | [] => if offset =? start then Ok n else Panic OffsetTooLarge
  | s :: rest =>
    if PartSize s =? 0 then Panic DivideByZero
    else
      let p := (offset -u start) / PartSize s in
      if p <? PartCount s then Ok (n +u p)
      else partNum_loop rest (n +u PartCount s) (start +u (PartSize s *u PartCount s)) offset
  end.
Definition partNum (PartSizes : list PartSizeConfig) (offset : Z) : outcome Z :=
  partNum_loop PartSizes 0 0 offset.

Fixpoint partRange_loop (PartSizes : list PartSizeConfig) (n start num : Z) : outcome (Z * Z) :=
  match PartSizes with
  | [] => Panic PartTooLarge
  | s :: rest =>
    if num <? n +u PartCount s
    then Ok (start +u ((num -u n) *u PartSize s), PartSize s)
    else partRange_loop rest (n +u PartCount s) (start +u (PartSize s *u PartCount s)) num
  end.
Definition partRange (PartSizes : list PartSizeConfig) (num : Z) : outcome (Z * Z) :=
  partRange_loop PartSizes 0 0 num.

Definition maxParts (PartSizes : list PartSizeConfig) : Z :=
  fold_left (fun parts s => parts +u PartCount s) PartSizes 0.

Definition getMaxFileSize (PartSizes : list PartSizeConfig) : Z :=
  fold_left (fun size s => size +u (PartSize s *u PartCount s)) PartSizes 0.

Definition numParts (PartSizes : list PartSizeConfig) (size : Z) : outcome Z :=
  letO! part := partNum PartSizes size in
  if part =? maxParts PartSizes then Ok part
  else letO! r := partRange PartSizes part in
       if r.1 <? size then Ok (part +u 1) else Ok part.

(** ** Well-formed tables

    [parsePartSizes] only produces tables of positive part sizes with at most
    10000 parts of at most 5 GB each, so nothing overflows 64 bits. *)

Definition tier_ok (s : PartSizeConfig) : Prop := 0 < PartSize s /\ 0 <= PartCount s.
Definition total_count (ps : list PartSizeConfig) : Z := foldr (fun s acc => PartCount s + acc) 0 ps.
Definition total_size (ps : list PartSizeConfig) : Z :=
  foldr (fun s acc => PartSize s * PartCount s + acc) 0 ps.
Definition table_ok (ps : list PartSizeConfig) : Prop :=
  Forall tier_ok ps /\ total_size ps < two64.

(** The default table ([core/cfg/flags.go], [DefaultFlags]). *)
Definition defaultPartSizes : list PartSizeConfig :=
  [mkPartSize (5 * 1024 * 1024) 1000; mkPartSize (25 * 1024 * 1024) 1000;
   mkPartSize (125 * 1024 * 1024) 8000].

(** ** Properties of the loops *)

Section loops.
Implicit Types ps : list PartSizeConfig.

Lemma totals_nonneg ps : Forall tier_ok ps -> 0 <= total_count ps <= total_size ps.
Proof.
  induction 1 as [|s ps [? ?] _ IH]; cbn; [lia|].
  fold (total_count ps) (total_size ps). nia.
Qed.

Lemma total_size_cons s ps :
  total_size (s :: ps) = PartSize s * PartCount s + total_size ps.
Proof. done. Qed.
Lemma total_count_cons s ps : total_count (s :: ps) = PartCount s + total_count ps.
Proof. done. Qed.

(** Side conditions shared by the proofs about one tier [s] followed by [ps]. *)
Lemma tier_bounds s ps n start :
  Forall tier_ok (s :: ps) -> 0 <= n -> 0 <= start ->
  n + total_count (s :: ps) < two64 -> start + total_size (s :: ps) < two64 ->
  0 < PartSize s /\ 0 <= PartCount s /\ Forall tier_ok ps /\
  0 <= PartSize s * PartCount s /\ 0 <= total_count ps <= total_size ps /\
  PartCount s <= PartSize s * PartCount s /\
  n + PartCount s + total_count ps < two64 /\
  start + PartSize s * PartCount s + total_size ps < two64.
Proof.
  intros [[? ?] Hps]%Forall_cons. rewrite total_count_cons, total_size_cons. intros.
  pose proof (totals_nonneg ps Hps). split_and!; try done; nia.
Qed.

(** Arithmetic of one tier of [c] parts of [s] bytes. *)
Lemma tier_lt x s c : 0 < s -> x / s < c <-> x < s * c.
Proof.
  intros Hs. split; intros H.
  - destruct (Z.lt_ge_cases x (s * c)) as [?|Hge]; [done|].
    apply Z.div_le_lower_bound in Hge; lia.
  - apply Z.div_lt_upper_bound; lia.
Qed.
Lemma tier_part q s c : 0 < s -> 0 <= q < c -> 0 <= q * s /\ q * s + s <= s * c.
Proof. intros. nia. Qed.
Lemma tier_div x s : 0 < s -> 0 <= x -> 0 <= x / s /\ x / s * s <= x < x / s * s + s.
Proof.
  intros Hs Hx. pose proof (Z.div_mod x s ltac:(lia)). pose proof (Z.mod_pos_bound x s Hs).
  pose proof (Z.div_pos x s Hx Hs). lia.
Qed.
Lemma tier_step x s : 0 < s -> x / s <= (x - 1) / s + 1.
Proof.
  intros Hs. rewrite <- Z.div_add by lia. apply Z.div_le_mono; lia.
Qed.

(** The tier test of both loops, as a comparison of offsets. *)
Lemma tier_ltb x s c : 0 < s -> (x / s <? c) = (x <? s * c).
Proof.
  intros Hs. pose proof (tier_lt x s c Hs).
  destruct (Z.ltb_spec (x / s) c), (Z.ltb_spec x (s * c)); lia || done.
Qed.

Lemma partNum_loop_spec ps n start offset :
  Forall tier_ok ps -> 0 <= n -> n + total_count ps < two64 ->
  0 <= start -> start + total_size ps < two64 ->
  start <= offset < start + total_size ps ->
  exists p o sz, partNum_loop ps n start offset = Ok p /\ n <= p < n + total_count ps /\
    partRange_loop ps n start p = Ok (o, sz) /\ o <= offset < o + sz.
Proof.
  revert n start. induction ps as [|s ps IH]; intros n start Hok Hn Hnt Hs Hst Hoff.
  { cbn in Hoff. lia. }
  destruct (tier_bounds s ps n start) as (? & ? & Hps & ? & ? & ? & ? & ?); try done.
  rewrite total_size_cons, total_count_cons in *. cbn [partNum_loop partRange_loop].
  destruct (Z.eqb_spec (PartSize s) 0); [lia|]. u64s. rewrite tier_ltb by lia.
  destruct (tier_div (offset - start) (PartSize s)) as [? ?]; [lia..|].
  destruct (Z.ltb_spec (offset - start) (PartSize s * PartCount s)) as [Hlt|Hge].
  - apply tier_lt in Hlt; [|lia]. set (q := (offset - start) / PartSize s) in *.
    destruct (tier_part q (PartSize s) (PartCount s)); [lia..|].
    exists (n + q), (start + q * PartSize s), (PartSize s).
    u64s. replace (n + q - n) with q by lia. u64s.
    destruct (Z.ltb_spec (n + q) (n + PartCount s)); [|lia].
    split_and!; try done; lia.
  - edestruct (IH (n + PartCount s) (start + PartSize s * PartCount s))
      as (p & o & sz & E & Hp & Er & Ho); try done; try lia.
    exists p, o, sz. rewrite E, Er.
    destruct (Z.ltb_spec p (n + PartCount s)); [lia|]. split_and!; try done; lia.
Qed.

Lemma partRange_loop_spec ps n start p :
  Forall tier_ok ps -> 0 <= n -> n + total_count ps < two64 ->
  0 <= start -> start + total_size ps < two64 ->
  n <= p < n + total_count ps ->
  exists o sz, partRange_loop ps n start p = Ok (o, sz) /\ 0 < sz /\
    start <= o /\ o + sz <= start + total_size ps /\
    forall x, o <= x < o + sz -> partNum_loop ps n start x = Ok p.
Proof.
  revert n start. induction ps as [|s ps IH]; intros n start Hok Hn Hnt Hs Hst Hp.
  { cbn in Hp. lia. }
  destruct (tier_bounds s ps n start) as (? & ? & Hps & ? & ? & ? & ? & ?); try done.
  rewrite total_size_cons, total_count_cons in *. cbn [partNum_loop partRange_loop].
  destruct (Z.eqb_spec (PartSize s) 0); [lia|]. u64s.
  destruct (Z.ltb_spec p (n + PartCount s)).
  - destruct (tier_part (p - n) (PartSize s) (PartCount s)); [lia..|].
    exists (start + (p - n) * PartSize s), (PartSize s). u64s.
    split_and!; try done; try lia.
    intros x Hx. u64s.
    assert (E : (x - start) / PartSize s = p - n).
    { symmetry. apply Z.div_unique with (x - start - (p - n) * PartSize s); lia. }
    rewrite E. destruct (Z.ltb_spec (p - n) (PartCount s)); [|lia]. u64s. f_equal. lia.
  - edestruct (IH (n + PartCount s) (start + PartSize s * PartCount s))
      as (o & sz & E & Hsz & Ho & Hosz & Hx); try done; try lia.
    exists o, sz. split_and!; try done; try lia.
    intros x Hxr. u64s. rewrite tier_ltb by lia.
    destruct (Z.ltb_spec (x - start) (PartSize s * PartCount s)); [lia|]. by apply Hx.
Qed.

Lemma partNum_loop_start ps n start :
  Forall tier_ok ps -> 0 <= n -> n + total_count ps < two64 ->
  0 <= start -> start + total_size ps < two64 ->
  partNum_loop ps n start start = Ok n.
Proof.
  revert n start. induction ps as [|s ps IH]; intros n start Hok Hn Hnt Hs Hst.
  { cbn. by rewrite Z.eqb_refl. }
  destruct (tier_bounds s ps n start) as (? & ? & Hps & ? & ? & ? & ? & ?); try done.
  rewrite total_size_cons, total_count_cons in *. cbn [partNum_loop].
  destruct (Z.eqb_spec (PartSize s) 0); [lia|].
  rewrite Z.sub_diag, (u64_small 0), Z.div_0_l by lia.
  destruct (Z.ltb_spec 0 (PartCount s)).
  - rewrite Z.add_0_r. by u64s.
  - assert (PartCount s = 0) as -> by lia. rewrite Z.mul_0_r, Z.add_0_r. u64s.
    rewrite Z.add_0_r. apply IH; try done; lia.
Qed.

(** The end of the table is the one offset past the last part that is accepted. *)
Lemma partNum_loop_end ps n start offset :
  Forall tier_ok ps -> 0 <= n -> n + total_count ps < two64 ->
  0 <= start -> start + total_size ps < two64 ->
  start + total_size ps <= offset < two64 ->
  partNum_loop ps n start offset =
    if offset =? start + total_size ps then Ok (n + total_count ps) else Panic OffsetTooLarge.
Proof.
  revert n start. induction ps as [|s ps IH]; intros n start Hok Hn Hnt Hs Hst Hoff.
  { cbn in *. by rewrite !Z.add_0_r. }
  destruct (tier_bounds s ps n start) as (? & ? & Hps & ? & ? & ? & ? & ?); try done.
  rewrite total_size_cons, total_count_cons in *. cbn [partNum_loop].
  destruct (Z.eqb_spec (PartSize s) 0); [lia|]. u64s.
  rewrite tier_ltb by lia.
  destruct (Z.ltb_spec (offset - start) (PartSize s * PartCount s)); [lia|].
  rewrite IH by (done || lia).
  replace (start + PartSize s * PartCount s + total_size ps)
    with (start + (PartSize s * PartCount s + total_size ps)) by lia.
  by replace (n + PartCount s + total_count ps) with (n + (PartCount s + total_count ps)) by lia.
Qed.

Lemma partRange_loop_end ps n start num :
  Forall tier_ok ps -> 0 <= n -> n + total_count ps < two64 ->
  0 <= start -> start + total_size ps < two64 ->
  n + total_count ps <= num -> partRange_loop ps n start num = Panic PartTooLarge.
Proof.
  revert n start. induction ps as [|s ps IH]; intros n start Hok Hn Hnt Hs Hst Hp; [done|].
  destruct (tier_bounds s ps n start) as (? & ? & Hps & ? & ? & ? & ? & ?); try done.
  rewrite total_size_cons, total_count_cons in *. cbn [partRange_loop]. u64s.
  destruct (Z.ltb_spec num (n + PartCount s)); [lia|]. apply IH; try done; lia.
Qed.

Lemma partNum_loop_mono ps n start x y p q :
  Forall tier_ok ps -> 0 <= n -> n + total_count ps < two64 ->
  0 <= start -> start + total_size ps < two64 ->
  start <= x <= y -> y < start + total_size ps ->
  partNum_loop ps n start x = Ok p -> partNum_loop ps n start y = Ok q -> p <= q.
Proof.
  revert n start. induction ps as [|s ps IH]; intros n start Hok Hn Hnt Hs Hst Hxy Hy Ep Eq.
  { cbn in Hy. lia. }
  destruct (tier_bounds s ps n start) as (? & ? & Hps & ? & ? & ? & ? & ?); try done.
  rewrite total_size_cons, total_count_cons in *. cbn [partNum_loop] in *.
  destruct (Z.eqb_spec (PartSize s) 0); [lia|]. u64s. rewrite tier_ltb in Ep, Eq by lia.
  assert ((x - start) / PartSize s <= (y - start) / PartSize s) by (apply Z.div_le_mono; lia).
  assert (0 <= (x - start) / PartSize s) by (apply Z.div_pos; lia).
  destruct (Z.ltb_spec (x - start) (PartSize s * PartCount s)) as [Hx%tier_lt|Hx]; [|lia|].
  - destruct (Z.ltb_spec (y - start) (PartSize s * PartCount s)) as [Hy'%tier_lt|]; [|lia|].
    + u64s. injection Ep as <-. injection Eq as <-. lia.
    + u64s. injection Ep as <-.
      destruct (partNum_loop_spec ps (n + PartCount s) (start + PartSize s * PartCount s) y)
        as (q1 & o1 & sz1 & E1 & Hq1 & _); try done; try lia.
      assert (q = q1) as -> by congruence. lia.
  - destruct (Z.ltb_spec (y - start) (PartSize s * PartCount s)); [lia|].
    eapply (IH (n + PartCount s) (start + PartSize s * PartCount s)); try done; lia.
Qed.

Lemma partNum_loop_step ps n start x p q :
  Forall tier_ok ps -> 0 <= n -> n + total_count ps < two64 ->
  0 <= start -> start + total_size ps < two64 ->
  start < x < start + total_size ps ->
  partNum_loop ps n start (x - 1) = Ok p -> partNum_loop ps n start x = Ok q -> q <= p + 1.
Proof.
  revert n start. induction ps as [|s ps IH]; intros n start Hok Hn Hnt Hs Hst Hx Ep Eq.
  { cbn in Hx. lia. }
  destruct (tier_bounds s ps n start) as (? & ? & Hps & ? & ? & ? & ? & ?); try done.
  rewrite total_size_cons, total_count_cons in *. cbn [partNum_loop] in *.
  destruct (Z.eqb_spec (PartSize s) 0); [lia|]. u64s. rewrite tier_ltb in Ep, Eq by lia.
  assert (0 <= (x - 1 - start) / PartSize s) by (apply Z.div_pos; lia).
  assert (0 <= (x - start) / PartSize s) by (apply Z.div_pos; lia).
  pose proof (tier_step (x - start) (PartSize s) ltac:(lia)) as Hstep.
  replace (x - start - 1) with (x - 1 - start) in Hstep by lia.
  destruct (Z.ltb_spec (x - 1 - start) (PartSize s * PartCount s)) as [Hp%tier_lt|Hp]; [|lia|].
  - destruct (Z.ltb_spec (x - start) (PartSize s * PartCount s)) as [Hq%tier_lt|Hq]; [|lia|].
    + u64s. injection Ep as <-. injection Eq as <-. lia.
    + u64s. injection Ep as <-.
      assert (HP : x - 1 - start < PartSize s * PartCount s) by (by apply tier_lt).
      assert (x = start + PartSize s * PartCount s) as -> by lia.
      rewrite partNum_loop_start in Eq by (done || lia). injection Eq as <-.
      replace (start + PartSize s * PartCount s - start) with (PartCount s * PartSize s) in Hstep by lia.
      rewrite Z.div_mul in Hstep by lia. lia.
  - destruct (Z.ltb_spec (x - start) (PartSize s * PartCount s)); [lia|].
    destruct (decide (x - 1 = start + PartSize s * PartCount s - 1)); [lia|].
    eapply (IH (n + PartCount s) (start + PartSize s * PartCount s)); try done; lia.
Qed.

Lemma maxParts_total ps : Forall tier_ok ps -> total_count ps < two64 -> maxParts ps = total_count ps.
Proof.
  intros Hok. unfold maxParts.
  assert (Hgen : forall acc, 0 <= acc -> acc + total_count ps < two64 ->
    fold_left (fun parts s => parts +u PartCount s) ps acc = acc + total_count ps).
  { induction Hok as [|s ps [? ?] Hok IH]; intros acc ? Hb; cbn in *; [lia|].
    pose proof (totals_nonneg ps Hok).
    fold (total_count ps) in *. u64s. rewrite IH by lia. lia. }
  intros. rewrite Hgen by lia. lia.
Qed.

Lemma getMaxFileSize_total ps : table_ok ps -> getMaxFileSize ps = total_size ps.
Proof.
  intros [Hok Hb]. unfold getMaxFileSize.
  assert (Hgen : forall acc, 0 <= acc -> acc + total_size ps < two64 ->
    fold_left (fun size s => size +u (PartSize s *u PartCount s)) ps acc = acc + total_size ps).
  { clear Hb. induction Hok as [|s ps [? ?] Hok IH]; intros acc ? Hb; cbn in *; [lia|].
    pose proof (totals_nonneg ps Hok).
    fold (total_size ps) in *.
    assert (0 <= PartSize s * PartCount s) by nia. u64s. rewrite IH by lia. lia. }
  rewrite Hgen by lia. lia.
Qed.
End loops.

(** ** The table as a whole *)

(** What the buffer list asks of a part numbering on the offsets below [limit]:
    it is defined, monotone, and never skips a part. *)
Class PartNumbering (PartNum : Z -> outcome Z) (limit : Z) : Prop := {
  PartNum_total : forall x, 0 <= x < limit -> exists p, PartNum x = Ok p /\ 0 <= p;
  PartNum_mono : forall x y p q, 0 <= x <= y -> y < limit ->
    PartNum x = Ok p -> PartNum y = Ok q -> p <= q;
  PartNum_step : forall x p q, 0 < x < limit ->
    PartNum (x - 1) = Ok p -> PartNum x = Ok q -> q <= p + 1;
  PartNum_limit : 0 <= limit < two64;
}.

Section table.
Context (ps : list PartSizeConfig) (Hps : table_ok ps).

Lemma table_totals : 0 <= total_count ps <= total_size ps /\ total_count ps < two64.
Proof using Hps. destruct Hps as [Hok ?]. pose proof (totals_nonneg ps Hok). lia. Qed.

Lemma table_maxParts : maxParts ps = total_count ps.
Proof using Hps. destruct Hps. pose proof table_totals. by apply maxParts_total; [|lia]. Qed.

Lemma partNum_in_range x :
  0 <= x < getMaxFileSize ps ->
  exists p o sz, partNum ps x = Ok p /\ 0 <= p < maxParts ps /\
    partRange ps p = Ok (o, sz) /\ o <= x < o + sz.
Proof using Hps.
  intros Hx. rewrite getMaxFileSize_total in Hx by done. rewrite table_maxParts.
  pose proof table_totals. destruct Hps as [Hok ?].
  destruct (partNum_loop_spec ps 0 0 x) as (p & o & sz & ? & ? & ? & ?); try done; try lia.
  exists p, o, sz. split_and!; try done; lia.
Qed.

Lemma partRange_in_range p :
  0 <= p < maxParts ps ->
  exists o sz, partRange ps p = Ok (o, sz) /\ 0 < sz /\ 0 <= o /\ o + sz <= getMaxFileSize ps /\
    forall x, o <= x < o + sz -> partNum ps x = Ok p.
Proof using Hps.
  intros Hp. rewrite table_maxParts in Hp. rewrite getMaxFileSize_total by done.
  pose proof table_totals. destruct Hps as [Hok ?].
  destruct (partRange_loop_spec ps 0 0 p) as (o & sz & ? & ? & ? & ? & ?); try done; try lia.
  exists o, sz. split_and!; try done; lia.
Qed.

#[export] Instance table_PartNumbering : PartNumbering (partNum ps) (getMaxFileSize ps).
Proof using Hps.
  pose proof table_totals. split.
  - intros x Hx. destruct (partNum_in_range x Hx) as (p & _ & _ & ? & ? & _). eauto with lia.
  - intros x y p q Hxy Hy. rewrite getMaxFileSize_total in Hy by done. destruct Hps.
    apply partNum_loop_mono; try done; lia.
  - intros x p q Hx. rewrite getMaxFileSize_total in Hx by done. destruct Hps.
    apply partNum_loop_step; try done; lia.
  - rewrite getMaxFileSize_total by done. destruct Hps. lia.
Qed.

(** The size is the maximum: the byte before the end is in the last part. *)
Lemma numParts_full p :
  0 < getMaxFileSize ps -> partNum ps (getMaxFileSize ps - 1) = Ok p -> numParts ps (getMaxFileSize ps) = Ok (p + 1).
Proof using Hps.
  intros Hpos Ep. pose proof table_totals. pose proof table_maxParts as Hmax. pose proof (getMaxFileSize_total ps Hps) as Hm.
  destruct (partNum_in_range (getMaxFileSize ps - 1)) as (p' & o & sz & Ep' & Hp & _ & Ho); [lia|].
  assert (p = p') as -> by congruence. unfold numParts.
  assert (E : partNum ps (getMaxFileSize ps) = Ok (maxParts ps)).
  { destruct Hps as [Hok ?]. unfold partNum. rewrite partNum_loop_end by (done || lia).
    rewrite Hmax, (proj2 (Z.eqb_eq _ _)) by lia. by rewrite Z.add_0_l. }
  rewrite E. cbn. rewrite Z.eqb_refl. f_equal.
  destruct (partRange_in_range (maxParts ps - 1)) as (o' & sz' & Er' & Hsz & Ho' & Hend & Hall); [lia|].
  pose proof (Hall (o' + sz' - 1) ltac:(lia)) as Elast.
  pose proof (PartNum_mono (PartNumbering := table_PartNumbering) (o' + sz' - 1) (getMaxFileSize ps - 1) _ _ ltac:(lia) ltac:(lia) Elast Ep). lia.
Qed.

Lemma numParts_pred size :
  0 < size <= getMaxFileSize ps -> exists p, partNum ps (size - 1) = Ok p /\ numParts ps size = Ok (p + 1).
Proof using Hps.
  intros Hsize. pose proof table_totals. pose proof table_maxParts as Hmax.
  destruct (partNum_in_range (size - 1)) as (p & o & sz & Ep & Hp & Er & Ho); [lia|].
  exists p. split; [done|]. destruct (decide (size = getMaxFileSize ps)) as [->|Hne]; [apply numParts_full; (done || lia)|].
  unfold numParts. destruct (partNum_in_range size) as (q & oq & szq & Eq & Hq & Erq & Hoq); [lia|].
  rewrite Eq. cbn. destruct (Z.eqb_spec q (maxParts ps)); [lia|]. rewrite Erq. cbn.
  destruct (Z.ltb_spec oq size).
  - (* size is inside part q, and so is the byte before it *)
    destruct (partRange_in_range q) as (o' & sz' & Er' & _ & _ & _ & Hall); [lia|].
    rewrite Erq in Er'. injection Er' as <- <-.
    assert (partNum ps (size - 1) = Ok q) as E by (apply Hall; lia).
    assert (p = q) as -> by congruence. u64s. done.
  - (* size is the first offset of part q *)
    pose proof (PartNum_step (PartNumbering := table_PartNumbering) size p q ltac:(lia) Ep Eq).
    destruct (decide (p = q)) as [->|].
    + rewrite Er in Erq. injection Erq as -> ->. lia.
    + pose proof (PartNum_mono (PartNumbering := table_PartNumbering) (size - 1) size p q ltac:(lia) ltac:(lia) Ep Eq). f_equal. lia.
Qed.

Lemma partRange_order p q o sz o' sz' :
  0 <= p < q -> q < maxParts ps -> partRange ps p = Ok (o, sz) -> partRange ps q = Ok (o', sz') -> o + sz <= o'.
Proof using Hps.
  intros Hpq Hq Ep Eq. destruct (partRange_in_range p) as (? & ? & E1 & Hs & Ho & He & Hall); [lia|]. rewrite Ep in E1. injection E1 as <- <-.
  destruct (partRange_in_range q) as (? & ? & E2 & Hs' & Ho' & He' & Hall'); [lia|]. rewrite Eq in E2. injection E2 as <- <-.
  destruct (decide (o + sz <= o')); [done|].
  pose proof (PartNum_mono (PartNumbering := table_PartNumbering) o' (o + sz - 1) _ _ ltac:(lia) ltac:(lia) (Hall' o' ltac:(lia)) (Hall (o + sz - 1) ltac:(lia))). lia.
Qed.

(** The parts follow each other without gaps, from offset 0. *)
Lemma partRange_next p o sz o' sz' :
  0 <= p -> p + 1 < maxParts ps -> partRange ps p = Ok (o, sz) -> partRange ps (p + 1) = Ok (o', sz') -> o' = o + sz.
Proof using Hps.
  intros Hp Hq Ep Eq. pose proof (partRange_order p (p + 1) _ _ _ _ ltac:(lia) Hq Ep Eq).
  destruct (partRange_in_range p) as (? & ? & E1 & Hs & Ho & He & Hall); [lia|]. rewrite Ep in E1. injection E1 as <- <-.
  destruct (partRange_in_range (p + 1)) as (? & ? & E2 & Hs' & Ho' & He' & Hall'); [lia|]. rewrite Eq in E2. injection E2 as <- <-.
  destruct (partNum_in_range (o + sz)) as (r & oo & ss & Er & Hr & Err & Hin); [lia|].
  pose proof (PartNum_step (PartNumbering := table_PartNumbering) (o + sz) p r ltac:(lia) (Hall (o + sz - 1) ltac:(lia)) Er).
  pose proof (PartNum_mono (PartNumbering := table_PartNumbering) (o + sz - 1) (o + sz) p r ltac:(lia) ltac:(lia) (Hall (o + sz - 1) ltac:(lia)) Er).
  destruct (decide (r = p)) as [->|]; [rewrite Ep in Err; injection Err as <- <-; lia|].
  assert (r = p + 1) as -> by lia. rewrite Eq in Err. injection Err as <- <-. lia.
Qed.
Lemma partRange_first : 0 < maxParts ps -> exists sz, partRange ps 0 = Ok (0, sz).
Proof using Hps.
  intros Hm. destruct (partRange_in_range 0) as (o & sz & E & Hs & Ho & He & Hall); [lia|].
  destruct (partNum_in_range 0) as (r & oo & ss & Er & Hr & Err & Hin); [lia|].
  pose proof (PartNum_mono (PartNumbering := table_PartNumbering) 0 o r 0 ltac:(lia) ltac:(lia) Er (Hall o ltac:(lia))).
  assert (r = 0) as -> by lia. rewrite E in Err. injection Err as <- <-. assert (o = 0) as -> by lia. eauto.
Qed.

(** The boundaries of the parts of a file of [size] bytes: each part is cut at the end of the file. *)
Lemma part_layout size n :
  0 < size <= getMaxFileSize ps -> numParts ps size = Ok n ->
  0 < n <= maxParts ps /\ exists bnd : Z -> Z, bnd 0 = 0 /\ bnd n = size /\
    forall i, 0 <= i < n -> exists sz, partRange ps i = Ok (bnd i, sz) /\ 0 < sz /\ bnd i + sz <= getMaxFileSize ps /\
      bnd i < size /\ bnd (i + 1) = Z.min (bnd i + sz) size.
Proof using Hps.
  intros Hsize En. destruct (numParts_pred size Hsize) as (p & Ep & En'). rewrite En in En'. injection En' as ->.
  destruct (partNum_in_range (size - 1)) as (p' & o & sz & Ep' & Hp & Er & Ho); [lia|]. assert (p' = p) as -> by congruence.
  split; [lia|]. exists (fun i => if i <? p + 1 then match partRange ps i with Ok r => r.1 | _ => 0 end else size).
  split_and!.
  - rewrite (proj2 (Z.ltb_lt _ _)) by lia. destruct partRange_first as [sz0 ->]; [lia|done].
  - by rewrite Z.ltb_irrefl.
  - intros i Hi. destruct (partRange_in_range i) as (oi & si & Ei & Hsi & Hoi & Hei & _); [lia|]. exists si.
    rewrite (proj2 (Z.ltb_lt i _)), Ei by lia. cbn [fst].
    assert (Hle : i < p -> oi + si <= o) by (intros ?; eapply (partRange_order i p); [lia|lia|done|done]).
    assert (Heq : i = p -> oi = o /\ si = sz) by (intros ->; rewrite Er in Ei; by injection Ei as <- <-).
    destruct (decide (i = p)) as [->|Hne].
    + destruct Heq as [-> ->]; [done|]. split_and!; try done; try lia. rewrite (proj2 (Z.ltb_ge _ _)) by lia. lia.
    + destruct (partRange_in_range (i + 1)) as (o1 & s1 & E1 & Hs1 & Ho1 & He1 & _); [lia|].
      pose proof (partRange_next i oi si o1 s1 ltac:(lia) ltac:(lia) Ei E1) as ->.
      rewrite (proj2 (Z.ltb_lt (i + 1) _)), E1 by lia. cbn [fst]. split_and!; try done; lia.
Qed.
End table.

Lemma default_table_ok : table_ok defaultPartSizes.
Proof. split; [repeat constructor; cbn; lia|vm_compute; done]. Qed.

(** C28: The two part lookups agree: a byte of the file has part number [p]
    exactly when it lies in the range [partRange] gives for [p]. *)
Theorem partNum_iff_partRange ps x p :
  table_ok ps -> 0 <= x < getMaxFileSize ps -> 0 <= p < maxParts ps ->
  partNum ps x = Ok p <-> exists o sz, partRange ps p = Ok (o, sz) /\ o <= x < o + sz.
Proof.
  intros Hps Hx Hp. split.
  - intros Ep. destruct (partNum_in_range ps Hps x Hx) as (p' & o & sz & Ep' & _ & Er & Ho).
    assert (p = p') as -> by congruence. eauto.
  - intros (o & sz & Er & Ho).
    destruct (partRange_in_range ps Hps p Hp) as (o' & sz' & Er' & _ & _ & _ & Hall).
    rewrite Er in Er'. injection Er' as <- <-. by apply Hall.
Qed.

Lemma partNum_iff_partRange_witness :
  partNum defaultPartSizes 5242880000 = Ok 1000 <->
  exists o sz, partRange defaultPartSizes 1000 = Ok (o, sz) /\ o <= 5242880000 < o + sz.
Proof.
  apply (partNum_iff_partRange defaultPartSizes 5242880000 1000).
  - apply default_table_ok.
  - vm_compute. split; [discriminate|reflexivity].
  - vm_compute. split; [discriminate|reflexivity].
Defined.

(** [numParts] counts exactly the parts that hold data: a part has a byte of
    a non-empty file of an allowed size exactly when its number is below
    [numParts], also when the size falls on a part or tier boundary or is the
    maximum. *)
Theorem numParts_exact ps size i :
  table_ok ps -> 0 < size <= getMaxFileSize ps -> 0 <= i < maxParts ps ->
  exists n o sz, numParts ps size = Ok n /\ partRange ps i = Ok (o, sz) /\ (i < n <-> o < size).
Proof.
  intros Hps Hsize Hi. destruct (numParts_pred ps Hps size Hsize) as (p & Ep & En).
  destruct (part_layout ps Hps size (p + 1) Hsize En) as [Hn (bnd & _ & Hend & Hb)].
  destruct (partRange_in_range ps Hps i Hi) as (o & sz & Er & _). exists (p + 1), o, sz. split_and!; try done.
  destruct (decide (i < p + 1)) as [Hlt|Hge].
  - destruct (Hb i) as (sz' & Er' & _ & _ & ? & _); [lia|]. rewrite Er in Er'. injection Er' as -> ->. done.
  - destruct (Hb p) as (szp & Erp & _ & _ & _ & Hlast); [lia|]. rewrite Hend in Hlast.
    pose proof (partRange_order ps Hps p i _ _ _ _ ltac:(lia) ltac:(lia) Erp Er). lia.
Qed.

Lemma numParts_exact_witness :
  exists n o sz, numParts defaultPartSizes 5242880001 = Ok n /\ partRange defaultPartSizes 1001 = Ok (o, sz) /\ (1001 < n <-> o < 5242880001).
Proof.
  apply (numParts_exact defaultPartSizes 5242880001 1001).
  - apply default_table_ok.
  - vm_compute. split; [reflexivity|discriminate].
  - vm_compute. split; [discriminate|reflexivity].
Defined.

(** Offsets beyond the maximum file size and part numbers beyond the last part
    are rejected by a panic, never answered with a wrong part. *)
Theorem part_overflow_panics ps x p :
  table_ok ps -> getMaxFileSize ps < x < two64 -> maxParts ps <= p ->
  partNum ps x = Panic OffsetTooLarge /\ partRange ps p = Panic PartTooLarge.
Proof.
  intros Hps Hx Hp. rewrite getMaxFileSize_total in Hx by done. rewrite table_maxParts in Hp by done.
  pose proof (table_totals ps Hps). destruct Hps as [Hok ?]. split.
  - unfold partNum. rewrite partNum_loop_end by (done || lia).
    by destruct (Z.eqb_spec x (0 + total_size ps)); [lia|].
  - by apply partRange_loop_end; try done; lia.
Qed.

Lemma part_overflow_panics_witness :
  partNum defaultPartSizes 2000000000000 = Panic OffsetTooLarge /\
  partRange defaultPartSizes 10000 = Panic PartTooLarge.
Proof.
  apply (part_overflow_panics defaultPartSizes 2000000000000 10000).
  - apply default_table_ok.
  - vm_compute. split; reflexivity.
  - vm_compute. discriminate.
Defined.

(** The checks of [core/part_size_test.go]. *)
Example partRange_tiers :
  map (partRange defaultPartSizes) [999; 1000; 1001; 1999; 2000] =
  map (fun r : Z * Z => Ok (r.1 * 1048576, r.2 * 1048576))
    [(4995, 5); (5000, 25); (5025, 25); (29975, 25); (30000, 125)].
Proof. vm_compute. reflexivity. Qed.

Example numParts_boundaries :
  map (numParts defaultPartSizes)
    [0; 1; 5242880; 5242881; 5242880000; 5242880001; 31457280000; getMaxFileSize defaultPartSizes] =
  map Ok [0; 1; 1; 2; 1000; 1001; 2000; 10000].
Proof. vm_compute. reflexivity. Qed.
