(* ===== verification/BufferList.v ===== *)
(** * The buffer list of a file

    Model of [core/buffer_list.go]: the cached extents of one file.  A
    [FileBuffer] covers the bytes [offset .. offset+length); the list keeps its
    buffers in an ordered map keyed by end offset.  The definitions below are
    the operations of the Go file, in its order.

    - Pointers to [FileBuffer] objects that the tree holds are represented by
      the buffer value; a field assignment through such a pointer becomes
      [put_buf], which replaces the value stored under the buffer's end offset.
      [queue] stores its argument for the same reason: it assigns [queueId], and
      every Go caller passes a buffer the tree holds.
    - Several buffers may be slices of one array, so arrays live in a heap of
      [BufferPointer]s: [mem] is the whole backing array (its length is the
      capacity), [mem_len] is [len(ptr.mem)].  The [data] slice of a buffer
      is a position and a length in the array of its [ptr]: every assignment in
      the Go file sets the two together.
    - Offsets and lengths wrap at 64 bits.  The identifiers that only count
      operations ([curDirtyID], [dirtyQid]) and the reference counts are
      unbounded integers.
    - [helpers] is the Go interface [BufferListHelpers]. *)

From S2P Require Import Prelude BTree.

Abbreviation byte := Z.

Inductive BufferState :=
| BUF_CLEAN | BUF_DIRTY | BUF_FLUSHED_FULL | BUF_FLUSHED_CUT | BUF_FL_CLEARED.
#[export] Instance BufferState_eq_dec : EqDecision BufferState.
Proof. solve_decision. Defined.

Definition MAX_BUF : Z := 2 * 1024 * 1024.
Definition zeroBuf_len : Z := 1048576.

Record bslice := mkSlice { sl_off : Z; sl_len : Z }.

Record FileBuffer := mkBuf {
  b_queueId : Z;
  b_offset : Z;
  b_len : Z;
  b_state : BufferState;
  b_loading : bool;
  b_onDisk : bool;
  b_zero : bool;
  b_dirtyID : Z;
  b_data : option bslice;
  b_ptr : option Z;
}.

Record BufferPointer := mkPtr { mem : list byte; mem_len : Z; refs : Z }.

Record dirtyPart := mkPart { dp_queueId : Z; dp_refcnt : Z }.

Record Range := mkRange { Start : Z; End_ : Z }.

Inductive BufferError := ErrBufferIsMissing | ErrBufferIsLoading.

(** Field assignments. *)
Definition set_queueId (q : Z) (b : FileBuffer) : FileBuffer :=
  mkBuf q (b_offset b) (b_len b) (b_state b) (b_loading b) (b_onDisk b) (b_zero b) (b_dirtyID b) (b_data b) (b_ptr b).
Definition set_range (o n : Z) (b : FileBuffer) : FileBuffer :=
  mkBuf (b_queueId b) o n (b_state b) (b_loading b) (b_onDisk b) (b_zero b) (b_dirtyID b) (b_data b) (b_ptr b).
Definition set_state (st : BufferState) (b : FileBuffer) : FileBuffer :=
  mkBuf (b_queueId b) (b_offset b) (b_len b) st (b_loading b) (b_onDisk b) (b_zero b) (b_dirtyID b) (b_data b) (b_ptr b).
Definition set_loading (x : bool) (b : FileBuffer) : FileBuffer :=
  mkBuf (b_queueId b) (b_offset b) (b_len b) (b_state b) x (b_onDisk b) (b_zero b) (b_dirtyID b) (b_data b) (b_ptr b).
Definition set_onDisk (x : bool) (b : FileBuffer) : FileBuffer :=
  mkBuf (b_queueId b) (b_offset b) (b_len b) (b_state b) (b_loading b) x (b_zero b) (b_dirtyID b) (b_data b) (b_ptr b).
Definition set_dirtyID (i : Z) (b : FileBuffer) : FileBuffer :=
  mkBuf (b_queueId b) (b_offset b) (b_len b) (b_state b) (b_loading b) (b_onDisk b) (b_zero b) i (b_data b) (b_ptr b).
Definition set_data (d : option bslice) (p : option Z) (b : FileBuffer) : FileBuffer :=
  mkBuf (b_queueId b) (b_offset b) (b_len b) (b_state b) (b_loading b) (b_onDisk b) (b_zero b) (b_dirtyID b) d p.

(** [buf.offset + buf.length] *)
Definition b_end (b : FileBuffer) : Z := b_offset b +u b_len b.

Definition is_state (b : FileBuffer) (st : BufferState) : bool := bool_decide (b_state b = st).
(** The states whose buffers sit in the clean queue. *)
Definition cleanish (st : BufferState) : bool :=
  match st with BUF_CLEAN | BUF_FLUSHED_FULL => true | _ => false end.

Class BufferListHelpers (Q : Type) : Type := {
  PartNum : Z -> outcome Z;
  QueueCleanBuffer : FileBuffer -> Q -> FileBuffer * Q;
  UnqueueCleanBuffer : FileBuffer -> Q -> Q;
}.
Arguments PartNum Q {_} _.

Record bl (M : Type -> Type) (Q : Type) := mkBL {
  l_at : M FileBuffer;
  l_dirtyQueue : M Z;
  l_dirtyParts : gmap Z dirtyPart;
  l_dirtyQid : Z;
  l_uncleanCount : Z;
  l_curDirtyID : Z;
  l_ptrs : gmap Z BufferPointer;
  l_nextPtr : Z;
  l_helpers : Q;
}.
Arguments mkBL {M Q}.
Arguments l_at {M Q}.
Arguments l_dirtyQueue {M Q}.
Arguments l_dirtyParts {M Q}.
Arguments l_dirtyQid {M Q}.
Arguments l_uncleanCount {M Q}.
Arguments l_curDirtyID {M Q}.
Arguments l_ptrs {M Q}.
Arguments l_nextPtr {M Q}.
Arguments l_helpers {M Q}.

Module BufferList.
Section ops.
Context {M : Type -> Type} `{BTreeMap M} {Q : Type} `{BufferListHelpers Q}.
Abbreviation L := (bl M Q).

Definition set_at (t : M FileBuffer) (l : L) : L :=
  mkBL t (l_dirtyQueue l) (l_dirtyParts l) (l_dirtyQid l) (l_uncleanCount l) (l_curDirtyID l) (l_ptrs l) (l_nextPtr l) (l_helpers l).
Definition set_dirty (q : M Z) (p : gmap Z dirtyPart) (i : Z) (l : L) : L :=
  mkBL (l_at l) q p i (l_uncleanCount l) (l_curDirtyID l) (l_ptrs l) (l_nextPtr l) (l_helpers l).
Definition add_unclean (n : Z) (l : L) : L :=
  mkBL (l_at l) (l_dirtyQueue l) (l_dirtyParts l) (l_dirtyQid l) (l_uncleanCount l + n) (l_curDirtyID l) (l_ptrs l) (l_nextPtr l) (l_helpers l).
Definition set_ids (i : Z) (l : L) : L :=
  mkBL (l_at l) (l_dirtyQueue l) (l_dirtyParts l) (l_dirtyQid l) (l_uncleanCount l) i (l_ptrs l) (l_nextPtr l) (l_helpers l).
Definition set_ptrs (h : gmap Z BufferPointer) (n : Z) (l : L) : L :=
  mkBL (l_at l) (l_dirtyQueue l) (l_dirtyParts l) (l_dirtyQid l) (l_uncleanCount l) (l_curDirtyID l) h n (l_helpers l).
Definition set_helpers (q : Q) (l : L) : L :=
  mkBL (l_at l) (l_dirtyQueue l) (l_dirtyParts l) (l_dirtyQid l) (l_uncleanCount l) (l_curDirtyID l) (l_ptrs l) (l_nextPtr l) q.

(** [l.at.Delete(k)] *)
Definition at_delete (k : Z) : St L unit := modS (fun l => set_at (bt_delete k (l_at l)) l).
(** [l.at.Set(k, b)] *)
Definition at_set (k : Z) (b : FileBuffer) : St L unit := modS (fun l => set_at (bt_set k b (l_at l)) l).
(** Assignment through a pointer to a buffer of the list. *)
Definition put_buf (b : FileBuffer) : St L unit := at_set (b_end b) b.

(** ** The heap of array references *)

Definition get_ptr (p : option Z) : St L (Z * BufferPointer) :=
  match p with
  | None => panicS NilDereference
  | Some i => let! l := getS in
              match l_ptrs l !! i with
              | None => panicS NilDereference
              | Some P => ret (i, P)
              end
  end.
Definition set_ptr (i : Z) (P : BufferPointer) : St L unit :=
  modS (fun l => set_ptrs (<[i:=P]> (l_ptrs l)) (l_nextPtr l) l).
(** [&BufferPointer{mem: data, refs: n}] *)
Definition new_ptr (P : BufferPointer) : St L Z :=
  let! l := getS in
  modS (fun l => set_ptrs (<[l_nextPtr l:=P]> (l_ptrs l)) (l_nextPtr l + 1) l) ;;;
  ret (l_nextPtr l).
(** [ptr.refs--; if ptr.refs == 0 { allocated -= int64(len(ptr.mem)) }] *)
Definition release (p : option Z) : St L Z :=
  let! '(i, P) := get_ptr p in
  set_ptr i (mkPtr (mem P) (mem_len P) (refs P - 1)) ;;;
  ret (if refs P - 1 =? 0 then - mem_len P else 0).
(** [ptr.refs++] *)
Definition retain (p : option Z) : St L unit :=
  let! '(i, P) := get_ptr p in
  set_ptr i (mkPtr (mem P) (mem_len P) (refs P + 1)).

Definition cap_of (P : BufferPointer) (s : bslice) : Z := zlen (mem P) - sl_off s.
(** [copy(arr[i:], d)] into an array with room for [d] *)
Definition splice (arr : list byte) (i : Z) (d : list byte) : list byte :=
  slice 0 i arr ++ d ++ slice (i + zlen d) (zlen arr) arr.

Definition Append (buf : FileBuffer) (d : list byte) : St L (Z * FileBuffer) :=
  let s := default (mkSlice 0 0) (b_data buf) in
  let! '(i, P) := get_ptr (b_ptr buf) in
  let oldLen := sl_len s in
  let newLen := oldLen + zlen d in
  if newLen <=? cap_of P s then
    (* It fits *)
    set_ptr i (mkPtr (splice (mem P) (sl_off s + oldLen) d) (mem_len P) (refs P)) ;;;
    ret (0, set_data (Some (mkSlice (sl_off s) newLen)) (b_ptr buf)
              (set_range (b_offset buf) newLen buf))
  else
    (* Reallocate *)
    let newCap := if newLen <? 2 * oldLen then 2 * oldLen else newLen in
    let newData := slice (sl_off s) (sl_off s + oldLen) (mem P) ++ d
                   ++ replicate (Z.to_nat (newCap - newLen)) 0 in
    let! freed := release (b_ptr buf) in
    let! j := new_ptr (mkPtr newData newCap 1) in
    ret (newCap + freed, set_data (Some (mkSlice 0 newLen)) (Some j)
                           (set_range (b_offset buf) newLen buf)).

(** ** Iteration that revalidates after a change

    [ascendChange]: the callback says whether to go on and whether it changed
    the tree; after a change the iteration restarts at the current key and skips
    that key. *)
Fixpoint ascendChange_loop {A} (fuel : nat)
    (iter : A -> Z -> FileBuffer -> St L (A * (bool * bool)))
    (acc : A) (last : option Z) (items : list (Z * FileBuffer)) : St L A :=
  match fuel with
  | O => fun _ => OutOfFuel
  | S fuel' =>
    match items with
    | [] => ret acc
    | (key, value) :: rest =>
      if bool_decide (last = Some key) then ascendChange_loop fuel' iter acc last rest
      else
        let! '(acc', (cont, chg)) := iter acc key value in
        if chg && cont then
          let! l := getS in
          ascendChange_loop fuel' iter acc' (Some key) (bt_ascend key (l_at l))
        else if cont then ascendChange_loop fuel' iter acc' last rest
        else ret acc'
    end
  end.
Definition ascendChange {A} (start : Z)
    (iter : A -> Z -> FileBuffer -> St L (A * (bool * bool))) (acc : A) : St L A :=
  let! l := getS in
  let items := bt_ascend start (l_at l) in
  ascendChange_loop (S (2 * List.length items)) iter acc None items.

Definition Count (l : L) : Z := bt_len (l_at l).
Definition Get (e : Z) (l : L) : option FileBuffer := bt_get e (l_at l).

Definition Select (start end_ : Z) (cb : FileBuffer -> bool) (l : L) : list FileBuffer :=
  iter_until (fun bufs '(_, buf) =>
      if end_ <=? b_offset buf then (bufs, false)
      else (if cb buf then bufs ++ [buf] else bufs, true))
    [] (bt_ascend (start +u 1) (l_at l)).

(** ** Bookkeeping: dirty parts, clean queue, counters *)

Definition nextID : St L Z :=
  modS (fun l => set_ids (l_curDirtyID l + 1) l) ;;;
  let! l := getS in ret (l_curDirtyID l).

Fixpoint forM_ (xs : list Z) (f : Z -> St L unit) : St L unit :=
  match xs with
  | [] => ret tt
  | x :: xs' => f x ;;; forM_ xs' f
  end.

(** The parts of a buffer: [for i := sp; i <= ep; i++]. *)
Definition for_parts (b : FileBuffer) (f : Z -> St L unit) : St L unit :=
  let! sp := liftO (PartNum Q (b_offset b)) in
  let! ep := liftO (PartNum Q (b_end b -u 1)) in
  forM_ (seqZ sp (ep + 1 - sp)) f.

Definition unreferenceDirtyPart (i : Z) : St L unit :=
  let! l := getS in
  match l_dirtyParts l !! i with
  | None => panicS BufferRefcount
  | Some p =>
    if dp_refcnt p =? 0 then panicS BufferRefcount
    else if dp_refcnt p - 1 =? 0 then
      modS (fun l => set_dirty (bt_delete (dp_queueId p) (l_dirtyQueue l))
                               (delete i (l_dirtyParts l)) (l_dirtyQid l) l)
    else
      modS (fun l => set_dirty (l_dirtyQueue l)
                               (<[i := mkPart (dp_queueId p) (dp_refcnt p - 1)]> (l_dirtyParts l))
                               (l_dirtyQid l) l)
  end.

Definition unqueue (b : FileBuffer) : St L unit :=
  (if is_state b BUF_CLEAN then ret tt else modS (add_unclean (-1))) ;;;
  if is_state b BUF_DIRTY then for_parts b unreferenceDirtyPart
  else if cleanish (b_state b) then
    modS (fun l => set_helpers (UnqueueCleanBuffer b (l_helpers l)) l)
  else ret tt.

Definition referenceDirtyPart (partNum : Z) : St L unit :=
  modS (fun l =>
    let qid := l_dirtyQid l + 1 in
    match l_dirtyParts l !! partNum with
    | None => set_dirty (bt_set qid partNum (l_dirtyQueue l))
                        (<[partNum := mkPart qid 1]> (l_dirtyParts l)) qid l
    | Some p => set_dirty (bt_set qid partNum (bt_delete (dp_queueId p) (l_dirtyQueue l)))
                          (<[partNum := mkPart qid (dp_refcnt p + 1)]> (l_dirtyParts l)) qid l
    end).

(** [l.helpers.QueueCleanBuffer(b)], which assigns [b.queueId] *)
Definition queueClean (b : FileBuffer) : St L FileBuffer :=
  let! l := getS in
  let '(b', q) := QueueCleanBuffer b (l_helpers l) in
  modS (set_helpers q) ;;; ret b'.

Definition queue (b : FileBuffer) : St L unit :=
  if b_len b =? 0 then panicS ZeroLengthBuffer
  else
    (if is_state b BUF_CLEAN then ret tt else modS (add_unclean 1)) ;;;
    if is_state b BUF_DIRTY then for_parts b referenceDirtyPart ;;; put_buf b
    else if cleanish (b_state b) then let! b' := queueClean b in put_buf b'
    else put_buf b.

(** Returns [left] with the [queueId] it was assigned, if any. *)
Definition requeueSplit (left : FileBuffer) : St L FileBuffer :=
  if b_len left =? 0 then panicS ZeroLengthBuffer
  else
    (if is_state left BUF_CLEAN then ret tt else modS (add_unclean 1)) ;;;
    if is_state left BUF_DIRTY then
      (* most refcounts don't change - except if splitting not at part boundary *)
      let! lbound := liftO (PartNum Q (b_end left -u 1)) in
      let! rbound := liftO (PartNum Q (b_end left)) in
      (if lbound =? rbound then referenceDirtyPart lbound else ret tt) ;;;
      ret left
    else if cleanish (b_state left) then
      (* we only have to add the left buffer, right remains as is *)
      let! left' := queueClean left in put_buf left' ;;; ret left'
    else ret left.

(** [IterateDirtyParts]: the callback as a fold that may stop. *)
Definition IterateDirtyParts {A} (cb : A -> Z -> A * bool) (acc : A) (l : L) : A :=
  iter_until (fun a '(_, partNum) => cb a partNum) acc (bt_ascend 0 (l_dirtyQueue l)).

(** ** Splitting and removing *)

Definition split (b : FileBuffer) (off : Z) : St L (FileBuffer * FileBuffer) :=
  let n := off -u b_offset b in
  let! '(startBuf, b1) :=
    match b_data b with
    | None => ret (set_range (b_offset b) n b, b)
    | Some s =>
      if sl_len s <? n then panicS SliceOutOfRange
      else
        retain (b_ptr b) ;;;
        ret (set_data (Some (mkSlice (sl_off s) n)) (b_ptr b) (set_range (b_offset b) n b),
             set_data (Some (mkSlice (sl_off s + n) (sl_len s - n))) (b_ptr b) b)
    end in
  let! b2 := (if b_dirtyID b1 =? 0 then ret b1
              else let! i := nextID in ret (set_dirtyID i b1)) in
  let b3 := set_range off (b_end b2 -u off) b2 in
  put_buf b3 ;;;
  at_set off startBuf ;;;
  let! startBuf' := requeueSplit startBuf in
  ret (startBuf', b3).

Definition delete_ (b : FileBuffer) : St L Z :=
  let! allocated := (match b_data b with None => ret 0 | Some _ => release (b_ptr b) end) in
  at_delete (b_end b) ;;;
  unqueue b ;;;
  ret allocated.

(** The callback of [RemoveRange]. *)
Definition removeCallback (removeOffset endOffset : Z) (filter : option (FileBuffer -> bool))
    (allocated : Z) (b : FileBuffer) : St L (Z * (bool * bool)) :=
  if endOffset <=? b_offset b then ret (allocated, (false, false))
  else
    let bufEnd := b_end b in
    if (match filter with None => true | Some f => f b end)
       && (removeOffset <? bufEnd) && (b_offset b <? endOffset) then
      if (removeOffset <=? b_offset b) && (bufEnd <=? endOffset) then
        (* whole buffer *)
        let! a := delete_ b in ret (allocated + a, (true, true))
      else
        let bufStart := b_offset b in
        (* split-delete is simpler than cut regarding the dirty part reference count *)
        let! rm := (if endOffset <? bufEnd
                    then let! '(lft, _) := split b endOffset in ret lft else ret b) in
        let! rm := (if bufStart <? removeOffset
                    then let! '(_, rgt) := split rm removeOffset in ret rgt else ret rm) in
        if (bufStart <? removeOffset) || (endOffset <? bufEnd) then
          let! a := delete_ rm in ret (allocated + a, (true, true))
        else ret (allocated, (true, false))
    else ret (allocated, (true, false)).
Definition RemoveRange (removeOffset removeSize : Z) (filter : option (FileBuffer -> bool)) : St L Z :=
  let endOffset := removeOffset +u removeSize in
  ascendChange (removeOffset +u 1)
    (fun allocated _ b => removeCallback removeOffset endOffset filter allocated b) 0.

(** ** Inserting *)

Definition hd_buf (items : list (Z * FileBuffer)) : option FileBuffer := snd <$> head items.

(** Whether the data can be appended to [prev] in place (the condition of the
    Go code, evaluated left to right). *)
Definition can_append (copyData : bool) (prev : option FileBuffer) (off n : Z) (st : BufferState) : St L bool :=
  match prev with
  | None => ret false
  | Some pb =>
    if negb (copyData && (b_end pb =? off)) then ret false
    else
      let! p1 := liftO (PartNum Q (b_offset pb)) in
      let! p2 := liftO (PartNum Q off) in
      if negb ((p1 =? p2) && is_state pb st) then ret false
      else match b_ptr pb with
           | None => ret false
           | Some _ =>
             let! '(_, P) := get_ptr (b_ptr pb) in
             let s := default (mkSlice 0 0) (b_data pb) in
             ret ((refs P =? 1) &&
                  ((sl_len s + n <=? cap_of P s) || (cap_of P s <=? MAX_BUF / 2)))
           end
  end.

(** [insertOrAppend(offset, data[lo:hi], state, copyData, dataPtr)], where
    [dataPtr.mem] is [data]. *)
Definition insertOrAppend (off dataPtr lo hi : Z) (st : BufferState) (copyData : bool) : St L Z :=
  if hi - lo =? 0 then ret 0
  else
    let! '(_, D) := get_ptr (Some dataPtr) in
    let d := slice lo hi (mem D) in
    let! dirtyID := (if bool_decide (st = BUF_DIRTY) then nextID else ret 0) in
    let end_ := off +u (hi - lo) in
    let! l := getS in
    let prev := hd_buf (bt_descend end_ (l_at l)) in
    if (match prev with Some pb => b_end pb =? end_ | None => false end) then panicS DoubleInsert
    else
      let! app := can_append copyData prev off (hi - lo) st in
      match app, prev with
      | true, Some pb =>
        unqueue pb ;;;
        at_delete (b_end pb) ;;;
        let! '(allocated, pb') := Append pb d in
        queue (set_dirtyID dirtyID (set_onDisk false pb')) ;;;
        ret allocated
      | _, _ =>
        let! '(p, s) := (if copyData
                         then let! j := new_ptr (mkPtr d (zlen d) 0) in ret (j, mkSlice 0 (zlen d))
                         else ret (dataPtr, mkSlice lo (hi - lo))) in
        retain (Some p) ;;;
        queue (mkBuf 0 off (sl_len s) st false false false dirtyID (Some s) (Some p)) ;;;
        ret (hi - lo)
      end.

(** [fill]: call [cb] on every maximal uncovered range of [offset, offset+size). *)
Fixpoint fill_skip (curOffset endOffset : Z) (items : list (Z * FileBuffer)) : Z * option FileBuffer :=
  match items with
  | [] => (curOffset, None)
  | (_, b) :: rest =>
    if b_offset b <=? curOffset then
      let cur' := b_end b in
      if cur' <? endOffset then fill_skip cur' endOffset rest else (cur', None)
    else (curOffset, Some b)
  end.
Fixpoint fill_loop {A} (fuel : nat) (curOffset endOffset : Z) (cb : A -> Z -> Z -> St L A) (acc : A) : St L A :=
  if curOffset <? endOffset then
    match fuel with
    | O => fun _ => OutOfFuel
    | S fuel' =>
      let! l := getS in
      let '(cur, next) := fill_skip curOffset endOffset (bt_ascend (curOffset +u 1) (l_at l)) in
      if cur <? endOffset then
        let newEnd := match next with
                      | Some b => if b_offset b <? endOffset then b_offset b else endOffset
                      | None => endOffset
                      end in
        let! acc' := cb acc cur newEnd in
        fill_loop fuel' newEnd endOffset cb acc'
      else ret acc
    end
  else ret acc.
Definition fill {A} (off size : Z) (cb : A -> Z -> Z -> St L A) (acc : A) : St L A :=
  let! l := getS in
  fill_loop (S (List.length (bt_ascend (off +u 1) (l_at l)))) off (off +u size) cb acc.

Definition ZeroRange (off size : Z) : St L (bool * Z) :=
  if size =? 0 then ret (false, 0)
  else
    (* Check if it's already zeroed *)
    let! l := getS in
    if (match hd_buf (bt_ascend (off +u 1) (l_at l)) with
        | Some e => b_zero e && (b_offset e <=? off) && (off +u size <=? b_end e)
        | None => false
        end) then ret (false, 0)
    else
      (* Remove intersecting parts as they're being overwritten *)
      let! allocated := RemoveRange off size None in
      (* Insert a zero buffer *)
      let! i := nextID in
      queue (mkBuf 0 off size BUF_DIRTY false false true i None None) ;;;
      ret (true, allocated).

(** [spare] is what the array of [data] holds past [len(data)]. *)
Definition Add (off : Z) (data spare : list byte) (st : BufferState) (copyData : bool) : St L Z :=
  let dataLen := zlen data in
  (* If we're inserting a clean buffer, don't remove dirty ones *)
  let! allocated := RemoveRange off dataLen
    (Some (fun b => is_state b BUF_CLEAN || negb (bool_decide (st = BUF_CLEAN)))) in
  let! dataPtr := new_ptr (mkPtr (data ++ spare) dataLen 0) in
  fill off dataLen (fun a curOffset curEnd =>
    let! n := insertOrAppend curOffset dataPtr (curOffset -u off) (curEnd -u off) st copyData in
    ret (a + n)) allocated.

(** ** Loading *)

Definition AddLoading (off size : Z) : St L unit :=
  fill off size (fun _ curOffset curEnd =>
    queue (mkBuf 0 curOffset (curEnd -u curOffset) BUF_CLEAN true false false 0 None None)) tt.

Definition AddLoadingFromDisk (off size : Z) : St L (list Range) :=
  let endOffset := off +u size in
  ascendChange (off +u 1) (fun readRanges _ b =>
    if endOffset <=? b_offset b then ret (readRanges, (false, false))
    else match b_data b with
    | Some _ => ret (readRanges, (true, false))
    | None =>
      if b_onDisk b && negb (b_loading b) then
        let! '(b1, c1) := (if b_offset b <? off
                           then let! '(_, rgt) := split b off in ret (rgt, true)
                           else ret (b, false)) in
        let! '(b2, c2) := (if endOffset <? b_end b1
                           then let! '(lft, _) := split b1 endOffset in ret (lft, true)
                           else ret (b1, c1)) in
        put_buf (set_loading true b2) ;;;
        ret (readRanges ++ [mkRange (b_offset b2) (b_end b2)], (true, c2))
      else ret (readRanges, (true, false))
    end) [].

Definition ReviveFromDisk (off : Z) (data spare : list byte) : St L unit :=
  let! l := getS in
  match hd_buf (bt_ascend (off +u 1) (l_at l)) with
  | None => ret tt
  | Some b =>
    if (b_offset b =? off) && (b_len b =? zlen data) && b_loading b && b_onDisk b then
      let! p := new_ptr (mkPtr (data ++ spare) (zlen data) 1) in
      let b1 := set_loading false (set_data (Some (mkSlice 0 (zlen data))) (Some p) b) in
      if is_state b1 BUF_FL_CLEARED then
        unqueue b1 ;;; queue (set_state BUF_FLUSHED_FULL b1)
      else put_buf b1
    else ret tt
  end.

Definition RemoveLoading (off size : Z) : St L unit :=
  RemoveRange off size (Some (fun b => negb (b_onDisk b) && b_loading b)) ;;; ret tt.

Definition SplitAt (off : Z) : St L unit :=
  let! l := getS in
  match hd_buf (bt_ascend (off +u 1) (l_at l)) with
  | Some b => if b_offset b <? off then split b off ;;; ret tt else ret tt
  | None => ret tt
  end.

(** ** State changes *)

Fixpoint SetState_loop (items : list (Z * FileBuffer)) (off size : Z) (ids : gset Z) (st : BufferState) : St L unit :=
  match items with
  | [] => ret tt
  | (_, b) :: rest =>
    (if negb (b_dirtyID b =? 0) && bool_decide (b_dirtyID b ∈ ids)
     then unqueue b ;;; queue (set_state st (set_dirtyID 0 b))
     else ret tt) ;;;
    if b_offset b <? off +u size -u 1 then SetState_loop rest off size ids st else ret tt
  end.
Definition SetState (off size : Z) (ids : gset Z) (st : BufferState) : St L unit :=
  let! l := getS in SetState_loop (bt_ascend (off +u 1) (l_at l)) off size ids st.

Definition SetFlushedClean : St L unit :=
  ascendChange 0 (fun _ _ b =>
    if is_state b BUF_FL_CLEARED then delete_ b ;;; ret (tt, (true, true))
    else if is_state b BUF_FLUSHED_FULL || is_state b BUF_FLUSHED_CUT then
      unqueue b ;;; queue (set_state BUF_CLEAN (set_dirtyID 0 b)) ;;; ret (tt, (true, false))
    else ret (tt, (true, false))) tt.

Definition EvictFromMemory (b : FileBuffer) : St L (Z * bool) :=
  (* Release memory *)
  let! allocated := release (b_ptr b) in
  let buf := set_data None None b in
  put_buf buf ;;;
  let! l := getS in
  let prev := hd_buf (bt_descend (b_offset buf) (l_at l)) in
  if b_onDisk buf then
    (* Try to merge it with the previous buffer *)
    match prev with
    | Some pb =>
      if (b_end pb =? b_offset buf) && is_state pb (b_state buf)
         && bool_decide (b_ptr pb = None) && Bool.eqb (b_onDisk pb) (b_onDisk buf) then
        unqueue buf ;;;
        unqueue pb ;;;
        at_delete (b_end pb) ;;;
        queue (set_range (b_offset pb) (b_len buf +u b_len pb) buf) ;;;
        ret (allocated, true)
      else ret (allocated, false)
    | None => ret (allocated, false)
    end
  else match b_state buf with
  | BUF_CLEAN =>
    unqueue buf ;;; at_delete (b_end buf) ;;; ret (allocated, true)
  | BUF_FLUSHED_FULL =>
    unqueue buf ;;;
    let buf1 := set_state BUF_FL_CLEARED buf in
    match prev with
    | Some pb =>
      if (b_end pb =? b_offset buf1) && is_state pb (b_state buf1) then
        unqueue pb ;;;
        at_delete (b_end pb) ;;;
        queue (set_range (b_offset pb) (b_len buf1 +u b_len pb) buf1) ;;;
        ret (allocated, true)
      else queue buf1 ;;; ret (allocated, false)
    | None => queue buf1 ;;; ret (allocated, false)
    end
  | _ => ret (allocated, false)
  end.

(** ** Queries *)

Definition AnyUnclean (l : L) : bool := 0 <? l_uncleanCount l.

Definition AnyFlushed (off size : Z) (l : L) : bool :=
  iter_until (fun flushed '(_, b) =>
      if off +u size <=? b_offset b then (flushed, false)
      else match b_state b with
           | BUF_FLUSHED_FULL | BUF_FLUSHED_CUT | BUF_FL_CLEARED => (true, false)
           | _ => (flushed, true)
           end)
    false (bt_ascend (off +u 1) (l_at l)).

(** [appendZero]: the loop takes a whole [zeroBuf] while more than one is left. *)
Fixpoint appendZero_loop (fuel : nat) (data : list (list byte)) (zeroLen : Z) : list (list byte) :=
  match fuel with
  | S fuel' =>
    if zeroBuf_len <? zeroLen
    then appendZero_loop fuel' (data ++ [replicate (Z.to_nat zeroBuf_len) 0]) (zeroLen - zeroBuf_len)
    else if 0 <? zeroLen then data ++ [replicate (Z.to_nat zeroLen) 0] else data
  | O => data
  end.
Definition appendZero (data : list (list byte)) (zeroLen : Z) : list (list byte) :=
  appendZero_loop (S (Z.to_nat (zeroLen / zeroBuf_len))) data zeroLen.

Definition GetHoles (off size : Z) (l : L) : list Range * bool * bool :=
  let endOffset := off +u size in
  let '(cur, holes, loading, flushCleared) :=
    iter_until (fun '(cur, holes, loading, flushCleared) '(_, b) =>
        if endOffset <=? b_offset b then ((cur, holes, loading, flushCleared), false)
        else
          let holes' := if cur <? b_offset b
                        then holes ++ [mkRange cur (Z.min endOffset (b_offset b))] else holes in
          ((b_end b, holes', loading || b_loading b,
            flushCleared || is_state b BUF_FL_CLEARED), true))
      (off, [], false, false) (bt_ascend (off +u 1) (l_at l)) in
  (if cur <? endOffset then holes ++ [mkRange cur endOffset] else holes, loading, flushCleared).

(** [b.data[i:j]], bounded as in Go by the capacity of the slice. *)
Definition read_slice (b : FileBuffer) (i j : Z) (l : L) : outcome (list byte) :=
  match b_data b, b_ptr b with
  | Some s, Some p =>
    match l_ptrs l !! p with
    | Some P => if (i <=? j) && (j <=? cap_of P s)
                then Ok (slice (sl_off s + i) (sl_off s + j) (mem P)) else Panic SliceOutOfRange
    | None => Panic NilDereference
    end
  | _, _ => if (i =? 0) && (j =? 0) then Ok [] else Panic SliceOutOfRange
  end.

Fixpoint GetData_loop (items : list (Z * FileBuffer)) (cur endOffset : Z) (returnIds : bool)
    (data : list (list byte)) (ids : gset Z) (l : L)
    : outcome (Z * list (list byte) * gset Z * option BufferError) :=
  match items with
  | [] => Ok (cur, data, ids, None)
  | (_, b) :: rest =>
    if cur <? b_offset b then Ok (cur, [], ids, Some ErrBufferIsMissing)
    else if endOffset <=? b_offset b then Ok (cur, data, ids, None)
    else
      let curEnd := Z.min endOffset (b_end b) in
      let ids' := if returnIds && negb (b_dirtyID b =? 0) then {[b_dirtyID b]} ∪ ids else ids in
      if b_loading b then Ok (cur, [], ids', Some ErrBufferIsLoading)
      else
        letO! data' := (if b_zero b then Ok (appendZero data (curEnd -u cur))
                        else letO! d := read_slice b (cur -u b_offset b) (curEnd -u b_offset b) l in
                             Ok (data ++ [d])) in
        if curEnd <? endOffset then GetData_loop rest curEnd endOffset returnIds data' ids' l
        else Ok (curEnd, data', ids', None)
  end.
Definition GetData (off size : Z) (returnIds : bool) (l : L)
    : outcome (list (list byte) * gset Z * option BufferError) :=
  letO! r := GetData_loop (bt_ascend (off +u 1) (l_at l)) off (off +u size) returnIds [] ∅ l in
  let '(cur, data, ids, err) := r in
  match err with
  | None => if cur <? off +u size then Ok ([], ids, Some ErrBufferIsMissing) else Ok (data, ids, None)
  | Some _ => Ok (data, ids, err)
  end.

(** A list with no buffers. *)
Definition empty_list (q : Q) : L := mkBL bt_empty bt_empty ∅ 0 0 0 ∅ 0 q.

End ops.
End BufferList.
