(* ===== verification/BufferListTests.v ===== *)
(** * The unit tests of the buffer list

    The scenarios of [core/buffer_list_test.go], evaluated in the model on the
    instance of the ordered map: the allocation results, identifiers, states and
    data the Go tests expect are what the definitions compute. *)

From S2P Require Import Prelude BTree Parts BufferList.
Import BufferList.

(** [TestBLHelpers]: parts of 5 KB, no clean queue. *)
Definition TestBLHelpers : BufferListHelpers unit := {|
  PartNum := fun off => Ok (off / (5 * 1024));
  QueueCleanBuffer := fun b q => (b, q);
  UnqueueCleanBuffer := fun _ q => q;
|}.
#[local] Existing Instance TestBLHelpers.

Abbreviation L := (bl (gmap Z) unit).
Definition filledBuf (n : Z) (c : byte) : list byte := replicate (Z.to_nat n) c.
Definition get_data (off size : Z) : St L (list (list byte) * gset Z * option BufferError) :=
  let! l := getS in liftO (GetData off size true l).
Definition result {A} (r : outcome (A * L)) : option A :=
  match r with Ok (a, _) => Some a | _ => None end.

Example TestAppend :
  result ((let! a1 := Add 0 (filledBuf 1024 1) [] BUF_DIRTY true in
           let! a2 := Add 1024 (filledBuf 1024 2) [] BUF_DIRTY true in
           let! a3 := Add 1536 (filledBuf 1024 3) [] BUF_DIRTY true in
           let! '(data, ids, err) := get_data 0 2048 in
           let! a4 := Add 1536 (filledBuf 1024 4) [] BUF_DIRTY true in
           SetState 0 2048 ids BUF_CLEAN ;;;
           let! '(data', ids', err') := get_data 0 2048 in
           ret ([a1; a2; a3; a4], data, err, data', err', (size ids, size ids', bool_decide (ids = ids'))))
          (empty_list tt))
  = Some ([1024; 1024; 1024; 0],
          [filledBuf 1024 1 ++ filledBuf 512 2 ++ filledBuf 512 3], None,
          [filledBuf 1024 1 ++ filledBuf 512 2 ++ filledBuf 512 4], None, (1%nat, 1%nat, false)).
Proof. vm_compute. reflexivity. Qed.

Example TestGetHolesEmpty :
  result ((let! a1 := Add 0 (filledBuf 1024 0) [] BUF_DIRTY false in
           let! a2 := Add 1024 (filledBuf 1024 0) [] BUF_DIRTY false in
           let! '(data, ids, err) := get_data 0 2048 in
           let! l := getS in
           ret ([a1; a2], zlen <$> data, bool_decide (ids = {[1; 2]}), err, GetHoles 0 2048 l))
          (empty_list tt))
  = Some ([1024; 1024], [1024; 1024], true, None, ([], false, false)).
Proof. vm_compute. reflexivity. Qed.

Example TestGetHolesEvicted :
  result ((let! a1 := Add 0 (filledBuf (5 * 1024) 0) [] BUF_DIRTY false in
           let! a2 := Add (5 * 1024) (filledBuf (3 * 1024) 0) [] BUF_DIRTY false in
           let! a3 := Add (10 * 1024) (filledBuf (5 * 1024) 0) [] BUF_DIRTY false in
           let! a4 := Add (15 * 1024) (filledBuf (5 * 1024) 0) [] BUF_DIRTY false in
           let! '(data, ids, err) := get_data (10 * 1024) (5 * 1024) in
           SetState (10 * 1024) (5 * 1024) ids BUF_FLUSHED_FULL ;;;
           let! evicted := ascendChange (10 * 1024 + 1) (fun acc end_ b =>
             if 15 * 1024 <? end_ then ret (acc, (false, false))
             else let! '(alloc, del) := EvictFromMemory b in ret (acc ++ [(alloc, del)], (true, del))) [] in
           let! l := getS in
           ret ([a1; a2; a3; a4], bool_decide (ids = {[3]}), evicted,
                GetHoles (10 * 1024) (5 * 1024) l, GetHoles (5 * 1024) (5 * 1024) l))
          (empty_list tt))
  = Some ([5 * 1024; 3 * 1024; 5 * 1024; 5 * 1024], true, [(-5 * 1024, false)],
          ([], false, true), ([mkRange (8 * 1024) (10 * 1024)], false, false)).
Proof. vm_compute. reflexivity. Qed.

(** Splitting not at a part boundary: afterwards no dirty part is left over. *)
Example TestSplitDirtyQueue :
  result ((let! z := ZeroRange 0 (100 * 1024) in
           let! a1 := Add 0 (filledBuf 1024 0) [] BUF_DIRTY false in
           let! a2 := Add 1024 (filledBuf (2 * 1024) 0) [] BUF_DIRTY false in
           let! a3 := Add (3 * 1024) (filledBuf (3 * 1024) 0) [] BUF_DIRTY false in
           let! a4 := Add (6 * 1024) (filledBuf (6 * 1024) 0) [] BUF_DIRTY false in
           let! '(d1, ids1, e1) := get_data (12 * 1024) ((100 - 12) * 1024) in
           SetState (12 * 1024) ((100 - 12) * 1024) ids1 BUF_CLEAN ;;;
           let! '(d2, ids2, e2) := get_data 0 (12 * 1024) in
           SetState 0 (12 * 1024) ids2 BUF_CLEAN ;;;
           let! l := getS in
           ret (z, [a1; a2; a3; a4], zlen <$> d1, bool_decide (ids1 = {[8]}), zlen <$> d2,
                bool_decide (ids2 = {[3; 5; 7; 9]}), IterateDirtyParts (fun n _ => (n + 1, true)) 0 l))
          (empty_list tt))
  = Some ((true, 0), [1024; 2 * 1024; 3 * 1024; 6 * 1024], [88 * 1024], true,
          [1024; 2 * 1024; 3 * 1024; 6 * 1024], true, 0).
Proof. vm_compute. reflexivity. Qed.

Example TestFill :
  result ((let! a1 := Add 1 (filledBuf 1 1) [] BUF_DIRTY true in
           AddLoading 0 4 ;;;
           let! '(_, _, e1) := get_data 0 4 in
           let! a2 := Add 0 (filledBuf 4 2) [] BUF_CLEAN true in
           let! '(d, ids, e2) := get_data 0 4 in
           ret (a1, e1, a2, d, bool_decide (ids = {[1]}), e2)) (empty_list tt))
  = Some (1, Some ErrBufferIsLoading, 3, [filledBuf 1 2; filledBuf 1 1; filledBuf 2 2], true, None).
Proof. vm_compute. reflexivity. Qed.

Example TestCutZero :
  result ((let! a1 := Add 0 (filledBuf 100 1) [] BUF_DIRTY true in
           let! z := ZeroRange 100 1000 in
           let! a2 := Add 1100 (filledBuf 100 2) [] BUF_DIRTY true in
           let! a3 := Add 500 (filledBuf 100 3) [] BUF_DIRTY true in
           let! '(d, ids, e) := get_data 0 1200 in
           ret (a1, z, a2, a3, d, bool_decide (ids = {[1; 2; 3; 4; 6]}), e)) (empty_list tt))
  = Some (100, (true, 0), 100, 100,
          [filledBuf 100 1; filledBuf 400 0; filledBuf 100 3; filledBuf 500 0; filledBuf 100 2], true, None).
Proof. vm_compute. reflexivity. Qed.
