(* ===== verification/BufferListInv.v ===== *)
(** * Invariants of the buffer list

    [Inv] collects what the list keeps true between operations:
    - [Shape]: buffers are non-empty, keyed by their end offset and disjoint;
    - [Trk]: the bookkeeping (unclean counter, dirty-part reference counts and
      queue, clean queue) matches a set of tracked buffers;
    - [Heap]: reference counts equal the number of buffers sharing an array, and
      the data slices lie inside their arrays;
    - [Ids]: dirty buffers carry unique non-zero flush identifiers.
    The lemmas give each primitive operation its total-correctness
    specification; none of the panics of the Go code is reachable. *)

From S2P Require Import Prelude BTree Parts BufferList.

(** What the list relies on its helpers for: a part numbering, and a clean
    queue that remembers the end offset of each queued buffer under the
    [queueId] it assigned. *)
Class BufferListHelpersLaws (Q : Type) `{BufferListHelpers Q} (limit : Z) : Type := {
  helpers_parts :: PartNumbering (PartNum Q) limit;
  queue_view : Q -> gmap Z Z;
  queue_ok : Q -> Prop;
  QueueCleanBuffer_spec : forall b q, queue_ok q ->
    exists i q', QueueCleanBuffer b q = (set_queueId i b, q') /\
      queue_view q !! i = None /\
      queue_view q' = <[i := b_end b]> (queue_view q) /\ queue_ok q';
  UnqueueCleanBuffer_spec : forall b q e, queue_ok q ->
    queue_view q !! b_queueId b = Some e ->
    queue_view (UnqueueCleanBuffer b q) = delete (b_queueId b) (queue_view q) /\
    queue_ok (UnqueueCleanBuffer b q);
}.

Module BufferListInv.
Import BufferList.
Section inv.
Context {M : Type -> Type} `{HBT : BTreeMap M} `{HBL : !BTreeMapLaws M} {Q : Type} `{HQ : BufferListHelpers Q}.
Context {limit : Z} `{!BufferListHelpersLaws Q limit}.
Implicit Types (l : bl M Q) (T : gmap Z FileBuffer) (b : FileBuffer).

(** The buffers of the list, by end offset. *)
Definition bufs l : gmap Z FileBuffer := bt_map (l_at l).

(** ** The invariant *)

Definition range_ok (k : Z) (b : FileBuffer) : Prop :=
  k = b_offset b + b_len b /\ 0 < b_len b /\ 0 <= b_offset b /\ k <= limit.

Record Shape (T : gmap Z FileBuffer) : Prop := {
  sh_ok : forall k b, T !! k = Some b -> range_ok k b;
  sh_disj : forall k1 k2 b1 b2, T !! k1 = Some b1 -> T !! k2 = Some b2 -> k1 < k2 -> k1 <= b_offset b2;
}.

(** Whether part [p] is one of the parts buffer [b] touches. *)
Definition in_parts (b : FileBuffer) (p : Z) : bool :=
  match PartNum Q (b_offset b), PartNum Q (b_offset b + b_len b - 1) with
  | Ok sp, Ok ep => (sp <=? p) && (p <=? ep)
  | _, _ => false
  end.
Definition part_refs T (p : Z) : Z :=
  map_sum (fun _ b => ind (is_state b BUF_DIRTY && in_parts b p)) T.

(** The dirty-part map and queue hold exactly the counts [c]. *)
Record Parts (l : bl M Q) (c : Z -> Z) : Prop := {
  pt_cnt : forall p, match l_dirtyParts l !! p with
                     | Some d => 0 < dp_refcnt d /\ dp_refcnt d = c p
                     | None => c p = 0
                     end;
  pt_queue : forall q p, bt_map (l_dirtyQueue l) !! q = Some p <->
                         exists d, l_dirtyParts l !! p = Some d /\ dp_queueId d = q;
  pt_qid : forall q p, bt_map (l_dirtyQueue l) !! q = Some p -> 0 < q <= l_dirtyQid l;
  pt_pos : 0 <= l_dirtyQid l;
}.

(** The clean queue holds exactly the clean and fully flushed buffers of [T]. *)
Record CleanQ (q : Q) (T : gmap Z FileBuffer) : Prop := {
  cq_ok : queue_ok q;
  cq_view : forall i e, queue_view q !! i = Some e <->
                        exists b, T !! e = Some b /\ cleanish (b_state b) = true /\ b_queueId b = i;
}.

Record Trk (l : bl M Q) (T : gmap Z FileBuffer) : Prop := {
  trk_unclean : l_uncleanCount l = map_sum (fun _ b => ind (negb (is_state b BUF_CLEAN))) T;
  trk_parts : Parts l (part_refs T);
  trk_clean : CleanQ (l_helpers l) T;
}.

(** The data slice of a buffer lies inside the array of its pointer. *)
Definition data_ok (h : gmap Z BufferPointer) (b : FileBuffer) : Prop :=
  match b_data b, b_ptr b with
  | None, None => True
  | Some s, Some i => exists P, h !! i = Some P /\ 0 <= sl_off s /\ sl_len s = b_len b /\
                                sl_off s + sl_len s <= zlen (mem P)
  | _, _ => False
  end.

(** Where the bytes of a buffer are: in memory, all zero, on disk (never the
    only copy of a modification), on their way from the server (and then
    clean), or flushed and dropped. *)
Definition place_ok (b : FileBuffer) : Prop :=
  (b_onDisk b = true -> b_state b <> BUF_DIRTY) /\
  match b_data b with
  | Some _ => b_zero b = false /\ b_loading b = false /\ b_state b <> BUF_FL_CLEARED
  | None => if b_zero b then b_loading b = false /\ b_onDisk b = false /\ b_state b <> BUF_FL_CLEARED
            else if b_onDisk b then b_state b <> BUF_FL_CLEARED
            else if b_loading b then b_state b = BUF_CLEAN
            else b_state b = BUF_FL_CLEARED
  end.

Definition holders (i : Z) T : Z := map_sum (fun _ b => ind (bool_decide (b_ptr b = Some i))) T.

Record Heap (h : gmap Z BufferPointer) (n : Z) (T : gmap Z FileBuffer) : Prop := {
  hp_refs : forall i P, h !! i = Some P -> refs P = holders i T;
  hp_next : forall i P, h !! i = Some P -> i < n;
  hp_len : forall i P, h !! i = Some P -> 0 <= mem_len P <= zlen (mem P);
  hp_data : forall k b, T !! k = Some b -> data_ok h b;
}.

Record Ids (n : Z) (T : gmap Z FileBuffer) : Prop := {
  id_nonneg : 0 <= n;
  id_range : forall k b, T !! k = Some b -> 0 <= b_dirtyID b <= n;
  id_dirty : forall k b, T !! k = Some b -> b_dirtyID b <> 0 <-> b_state b = BUF_DIRTY;
  id_uniq : forall k1 k2 b1 b2, T !! k1 = Some b1 -> T !! k2 = Some b2 ->
    b_dirtyID b1 = b_dirtyID b2 -> b_dirtyID b1 <> 0 -> k1 = k2;
}.

Record Inv (l : bl M Q) : Prop := {
  inv_shape : Shape (bufs l);
  inv_trk : Trk l (bufs l);
  inv_heap : Heap (l_ptrs l) (l_nextPtr l) (bufs l);
  inv_place : forall k b, bufs l !! k = Some b -> place_ok b;
  inv_ids : Ids (l_curDirtyID l) (bufs l);
}.

Lemma empty_list_Inv (q : Q) :
  queue_ok q -> queue_view q = ∅ -> Inv (empty_list q).
Proof.
  intros Hq Hv. assert (E : bufs (empty_list q) = ∅) by apply bt_map_empty.
  split; rewrite ?E.
  - split; intros *; by rewrite lookup_empty.
  - split; cbn.
    + by rewrite map_sum_empty.
    + split; cbn.
      * intros p. rewrite lookup_empty. apply map_sum_empty.
      * intros i p. rewrite bt_map_empty, lookup_empty. split; [done|].
        intros (d & Hd & _). by rewrite lookup_empty in Hd.
      * intros i p. by rewrite bt_map_empty, lookup_empty.
      * done.
    + split; [done|]. intros i e. rewrite Hv, lookup_empty. split; [done|].
      intros (b & Hb & _). by rewrite lookup_empty in Hb.
  - split; cbn [l_ptrs empty_list]; intros *; by rewrite lookup_empty.
  - intros k b. by rewrite lookup_empty.
  - split; [done|..]; intros *; by rewrite lookup_empty.
Qed.

(** ** Dirty parts *)

Lemma limit_range : 0 <= limit < two64.
Proof using Type*. apply (PartNum_limit (PartNumbering := helpers_parts)). Qed.

Lemma range_end k b : range_ok k b -> b_end b = k.
Proof using Type*.
  intros (-> & ? & ? & ?). pose proof limit_range. unfold b_end. apply u64_small. lia.
Qed.

(** The part interval of a buffer. *)
Lemma parts_interval k b :
  range_ok k b -> exists sp ep, PartNum Q (b_offset b) = Ok sp /\
    PartNum Q (b_end b -u 1) = Ok ep /\ PartNum Q (b_offset b + b_len b - 1) = Ok ep /\ sp <= ep.
Proof using Type*.
  intros Hr. pose proof (range_end k b Hr) as Ee. destruct Hr as (-> & ? & ? & ?).
  pose proof limit_range. rewrite Ee.
  destruct (PartNum_total (PartNumbering := helpers_parts) (b_offset b)) as (sp & Esp & _); [lia|].
  destruct (PartNum_total (PartNumbering := helpers_parts) (b_offset b + b_len b - 1)) as (ep & Eep & _); [lia|].
  exists sp, ep. rewrite (u64_small (b_offset b + b_len b - 1)) by lia.
  split_and!; try done.
  apply (PartNum_mono (PartNumbering := helpers_parts) (b_offset b) (b_offset b + b_len b - 1)); try done; lia.
Qed.

Lemma Parts_nonneg l c p : Parts l c -> 0 <= c p.
Proof using Type*. intros HP. pose proof (pt_cnt l c HP p). destruct (l_dirtyParts l !! p); lia. Qed.

Lemma Parts_ext l c c' : (forall p, c p = c' p) -> Parts l c -> Parts l c'.
Proof using Type*.
  intros Hc HP. split; [|apply HP..]. intros p. rewrite <- Hc. apply HP.
Qed.

(** Everything of the state the part bookkeeping does not touch. *)
Definition same_but_parts l l' : Prop :=
  l_at l' = l_at l /\ l_uncleanCount l' = l_uncleanCount l /\ l_curDirtyID l' = l_curDirtyID l /\
  l_ptrs l' = l_ptrs l /\ l_nextPtr l' = l_nextPtr l /\ l_helpers l' = l_helpers l.

Lemma same_but_parts_trans l1 l2 l3 :
  same_but_parts l1 l2 -> same_but_parts l2 l3 -> same_but_parts l1 l3.
Proof using Type*. unfold same_but_parts. intuition congruence. Qed.

Lemma unreference_spec l c i :
  Parts l c -> 0 < c i ->
  wp (unreferenceDirtyPart i)
    (fun _ l' => Parts l' (fun p => c p - ind (bool_decide (p = i))) /\ same_but_parts l l') l.
Proof using Type*.
  intros HP Hi. unfold unreferenceDirtyPart. wp_steps.
  pose proof (pt_cnt l c HP i) as Hc. destruct (l_dirtyParts l !! i) as [d|] eqn:Ed; [|lia].
  destruct Hc as [Hpos Hc]. destruct (Z.eqb_spec (dp_refcnt d) 0); [lia|].
  assert (Hq : forall q, bt_map (l_dirtyQueue l) !! q = Some i <-> q = dp_queueId d).
  { intros q. rewrite (pt_queue l c HP). rewrite Ed. naive_solver. }
  destruct (Z.eqb_spec (dp_refcnt d - 1) 0); wp_steps; (split; [|done]); split; cbn.
  - intros p. rewrite lookup_delete. destruct (decide (i = p)) as [->|].
    + rewrite bool_decide_true by done. cbn. lia.
    + rewrite bool_decide_false by congruence. pose proof (pt_cnt l c HP p). cbn.
      by rewrite Z.sub_0_r.
  - intros q p. rewrite bt_map_delete, lookup_delete, lookup_delete.
    destruct (decide (dp_queueId d = q)) as [<-|Hne].
    + split; [done|]. intros (d' & Hd' & Eq). destruct (decide (i = p)); [done|].
      assert (bt_map (l_dirtyQueue l) !! dp_queueId d = Some p) by (apply HP; eauto).
      assert (bt_map (l_dirtyQueue l) !! dp_queueId d = Some i) by (by apply Hq). congruence.
    + rewrite (pt_queue l c HP). destruct (decide (i = p)) as [<-|]; [|done].
      rewrite Ed. naive_solver.
  - intros q p. rewrite bt_map_delete. intros [_ ?]%lookup_delete_Some. by eapply HP.
  - apply HP.
  - intros p. rewrite lookup_insert. destruct (decide (i = p)) as [->|].
    + rewrite bool_decide_true by done. cbn. lia.
    + rewrite bool_decide_false by congruence. cbn. rewrite Z.sub_0_r. apply HP.
  - intros q p. rewrite (pt_queue l c HP), lookup_insert.
    destruct (decide (i = p)) as [<-|]; [|done]. rewrite Ed. naive_solver.
  - apply HP.
  - apply HP.
Qed.

Lemma reference_spec l c i :
  Parts l c ->
  wp (referenceDirtyPart i)
    (fun _ l' => Parts l' (fun p => c p + ind (bool_decide (p = i))) /\ same_but_parts l l') l.
Proof using Type*.
  intros HP. unfold referenceDirtyPart. wp_steps. pose proof (pt_cnt l c HP i) as Hc. pose proof (pt_pos l c HP).
  assert (Hfresh : bt_map (l_dirtyQueue l) !! (l_dirtyQid l + 1) = None).
  { destruct (bt_map (l_dirtyQueue l) !! (l_dirtyQid l + 1)) as [p|] eqn:E; [|done].
    apply (pt_qid l c HP) in E. lia. }
  destruct (l_dirtyParts l !! i) as [d|] eqn:Ed; (split; [|done]); split; cbn.
  - intros p. rewrite lookup_insert. destruct (decide (i = p)) as [->|].
    + rewrite bool_decide_true by done. cbn. lia.
    + rewrite bool_decide_false by congruence. cbn. rewrite Z.add_0_r. apply HP.
  - intros q p. rewrite bt_map_set, bt_map_delete, lookup_insert, lookup_delete, lookup_insert.
    destruct (decide (l_dirtyQid l + 1 = q)) as [<-|Hne].
    + split; [intros [= <-]; rewrite decide_True by done; eauto|].
      intros (d' & Hd' & Eq). destruct (decide (i = p)) as [->|]; [done|].
      assert (bt_map (l_dirtyQueue l) !! (l_dirtyQid l + 1) = Some p) by (apply HP; eauto). congruence.
    + destruct (decide (dp_queueId d = q)) as [<-|].
      * split; [done|]. intros (d' & Hd' & Eq). destruct (decide (i = p)) as [->|]; [naive_solver lia|].
        assert (bt_map (l_dirtyQueue l) !! dp_queueId d = Some p) by (apply HP; eauto).
        assert (bt_map (l_dirtyQueue l) !! dp_queueId d = Some i) by (apply HP; eauto). congruence.
      * rewrite (pt_queue l c HP). destruct (decide (i = p)) as [<-|]; [|done]. rewrite Ed. naive_solver.
  - intros q p. rewrite bt_map_set, bt_map_delete, lookup_insert, lookup_delete.
    case_decide; [lia|]. case_decide; [done|]. intros ?%(pt_qid l c HP). lia.
  - lia.
  - intros p. rewrite lookup_insert. destruct (decide (i = p)) as [->|].
    + rewrite bool_decide_true by done. cbn. lia.
    + rewrite bool_decide_false by congruence. cbn. rewrite Z.add_0_r. apply HP.
  - intros q p. rewrite bt_map_set, lookup_insert, lookup_insert.
    destruct (decide (l_dirtyQid l + 1 = q)) as [<-|Hne].
    + split; [intros [= <-]; rewrite decide_True by done; eauto|].
      intros (d' & Hd' & Eq). destruct (decide (i = p)) as [->|]; [done|].
      assert (bt_map (l_dirtyQueue l) !! (l_dirtyQid l + 1) = Some p) by (apply HP; eauto). congruence.
    + rewrite (pt_queue l c HP). destruct (decide (i = p)) as [<-|]; [|done]. rewrite Ed. naive_solver.
  - intros q p. rewrite bt_map_set, lookup_insert. case_decide; [lia|].
    intros ?%(pt_qid l c HP). lia.
  - lia.
Qed.

Lemma forM_unreference_spec xs l c :
  NoDup xs -> (forall i, i ∈ xs -> 0 < c i) -> Parts l c ->
  wp (forM_ xs unreferenceDirtyPart)
    (fun _ l' => Parts l' (fun p => c p - ind (bool_decide (p ∈ xs))) /\ same_but_parts l l') l.
Proof using Type*.
  revert l c. induction xs as [|x xs IH]; intros l c Hnd Hpos HP; cbn [forM_]; wp_steps.
  - split; [|done]. eapply Parts_ext; [|done]. intros p. cbn.
    rewrite bool_decide_false by apply not_elem_of_nil. cbn. lia.
  - apply NoDup_cons in Hnd as [Hx Hnd].
    wp_use (unreference_spec l c x HP); [apply Hpos; left|].
    intros _ l1 [HP1 Hs1]. wp_use (IH l1 (fun p => c p - ind (bool_decide (p = x))) Hnd); [| |].
    + intros i Hi. cbn. rewrite bool_decide_false by (intros ->; done). cbn.
      rewrite Z.sub_0_r. apply Hpos. by right.
    + done.
    + cbn. intros _ l2 [HP2 Hs2]. split; [|by eapply same_but_parts_trans].
      eapply Parts_ext; [|done]. intros p. cbn.
      rewrite ind_elem_cons by done. lia.
Qed.

Lemma forM_reference_spec xs l c :
  NoDup xs -> Parts l c ->
  wp (forM_ xs referenceDirtyPart)
    (fun _ l' => Parts l' (fun p => c p + ind (bool_decide (p ∈ xs))) /\ same_but_parts l l') l.
Proof using Type*.
  revert l c. induction xs as [|x xs IH]; intros l c Hnd HP; cbn [forM_]; wp_steps.
  - split; [|done]. eapply Parts_ext; [|done]. intros p. cbn.
    rewrite bool_decide_false by apply not_elem_of_nil. cbn. lia.
  - apply NoDup_cons in Hnd as [Hx Hnd].
    wp_use (reference_spec l c x HP). intros _ l1 [HP1 Hs1].
    wp_use (IH l1 _ Hnd); [done|].
    cbn. intros _ l2 [HP2 Hs2]. split; [|by eapply same_but_parts_trans].
    eapply Parts_ext; [|done]. intros p. cbn.
    rewrite ind_elem_cons by done. lia.
Qed.

Lemma for_parts_range k b (f : Z -> St (bl M Q) unit) (R : unit -> bl M Q -> Prop) l :
  range_ok k b ->
  (forall xs, NoDup xs -> (forall p, bool_decide (p ∈ xs) = in_parts b p) -> wp (forM_ xs f) R l) ->
  wp (for_parts b f) R l.
Proof using Type*.
  intros Hr Hwp. destruct (parts_interval k b Hr) as (sp & ep & Esp & Eep & Eep' & Hle).
  unfold for_parts. apply wp_bind. eapply wp_liftO; [done|].
  apply wp_bind. eapply wp_liftO; [done|]. apply Hwp; [apply NoDup_seqZ|].
  intros p. unfold in_parts. rewrite Esp, Eep'.
  destruct (Z.leb_spec sp p), (Z.leb_spec p ep); cbn;
    first [apply bool_decide_true | apply bool_decide_false]; rewrite elem_of_seqZ; lia.
Qed.
(** ** Queueing and unqueueing *)

(** The clean queue after a buffer outside of it comes or goes. *)
Lemma CleanQ_delete q T k b :
  CleanQ q T -> T !! k = Some b -> cleanish (b_state b) = false -> CleanQ q (delete k T).
Proof using Type*.
  intros HC Hk Hs. split; [apply HC|]. intros i e. rewrite (cq_view q T HC).
  setoid_rewrite lookup_delete_Some. split; [|naive_solver].
  intros (b' & Hb' & Hs' & <-). exists b'. split_and!; try done. congruence.
Qed.

Lemma CleanQ_insert q T k b :
  CleanQ q T -> T !! k = None -> cleanish (b_state b) = false -> CleanQ q (<[k:=b]> T).
Proof using Type*.
  intros HC Hk Hs. split; [apply HC|]. intros i e. rewrite (cq_view q T HC).
  setoid_rewrite lookup_insert_Some. split; [|naive_solver congruence].
  intros (b' & Hb' & Hs' & <-). exists b'. split_and!; try done. right. split; [congruence|done].
Qed.

Lemma CleanQ_unqueue q T k b :
  CleanQ q T -> T !! k = Some b -> cleanish (b_state b) = true ->
  CleanQ (UnqueueCleanBuffer b q) (delete k T).
Proof using Type*.
  intros HC Hk Hs.
  assert (Hv : queue_view q !! b_queueId b = Some k) by (apply HC; eauto).
  destruct (UnqueueCleanBuffer_spec b q k (cq_ok q T HC) Hv) as [Ev Hok].
  split; [done|]. intros i e. rewrite Ev, lookup_delete_Some, (cq_view q T HC).
  setoid_rewrite lookup_delete_Some. split.
  - intros (Hi & b' & Hb' & Hs' & <-). exists b'. split_and!; try done. intros ->.
    naive_solver congruence.
  - intros (b' & [Hne Hb'] & Hs' & <-). split; [|eauto]. intros Eq.
    assert (queue_view q !! b_queueId b' = Some e) by (apply HC; eauto). congruence.
Qed.

Lemma CleanQ_queue q T b :
  CleanQ q T -> T !! b_end b = None -> cleanish (b_state b) = true ->
  exists i q', QueueCleanBuffer b q = (set_queueId i b, q') /\
    CleanQ q' (<[b_end b := set_queueId i b]> T).
Proof using Type*.
  intros HC Hk Hs. destruct (QueueCleanBuffer_spec b q (cq_ok q T HC)) as (i & q' & E & Hi & Ev & Hok).
  exists i, q'. split; [done|]. split; [done|]. intros j e.
  rewrite Ev, lookup_insert_Some, (cq_view q T HC). setoid_rewrite lookup_insert_Some. split.
  - intros [[<- <-]|(Hj & b' & Hb' & Hs' & <-)].
    + exists (set_queueId i b). split_and!; auto.
    + exists b'. split_and!; try done. right. split; [congruence|done].
  - intros (b' & [[<- <-]|[Hne Hb']] & Hs' & <-); [by left|]. right.
    split; [|eauto]. intros ->.
    assert (queue_view q !! b_queueId b' = Some e) by (apply HC; eauto). congruence.
Qed.

Lemma part_refs_delete T k b p :
  T !! k = Some b ->
  part_refs (delete k T) p = part_refs T p - ind (is_state b BUF_DIRTY && in_parts b p).
Proof using Type*. intros Hk. unfold part_refs. rewrite (map_sum_delete _ T k b Hk). lia. Qed.

Lemma part_refs_insert T k b p :
  T !! k = None ->
  part_refs (<[k:=b]> T) p = part_refs T p + ind (is_state b BUF_DIRTY && in_parts b p).
Proof using Type*. intros Hk. unfold part_refs. rewrite map_sum_insert by done. lia. Qed.

(** The parts of the state the bookkeeping operations leave alone. *)
Definition same_mem l l' : Prop :=
  l_at l' = l_at l /\ l_curDirtyID l' = l_curDirtyID l /\ l_ptrs l' = l_ptrs l /\ l_nextPtr l' = l_nextPtr l.
(** The bookkeeping part of the state. *)
Definition same_book l l' : Prop :=
  l_dirtyQueue l' = l_dirtyQueue l /\ l_dirtyParts l' = l_dirtyParts l /\ l_dirtyQid l' = l_dirtyQid l /\
  l_uncleanCount l' = l_uncleanCount l /\ l_helpers l' = l_helpers l.

Lemma Parts_frame l l' c :
  l_dirtyQueue l' = l_dirtyQueue l -> l_dirtyParts l' = l_dirtyParts l -> l_dirtyQid l' = l_dirtyQid l ->
  Parts l c -> Parts l' c.
Proof using Type*. intros E1 E2 E3 [P1 P2 P3 P4]. split; rewrite ?E1, ?E2, ?E3; done. Qed.

Lemma Trk_frame l l' T : same_book l l' -> Trk l T -> Trk l' T.
Proof using Type*.
  intros (E1 & E2 & E3 & E4 & E5) [P1 P2 P3].
  split; [by rewrite E4|by eapply Parts_frame|by rewrite E5].
Qed.

Lemma is_state_true b st : is_state b st = true <-> b_state b = st.
Proof using Type*. unfold is_state. apply bool_decide_eq_true. Qed.
Lemma is_state_false b st : is_state b st = false <-> b_state b <> st.
Proof using Type*. unfold is_state. apply bool_decide_eq_false. Qed.

Lemma wp_unclean b d (R : unit -> bl M Q -> Prop) l :
  R tt (add_unclean (d * ind (negb (is_state b BUF_CLEAN))) l) ->
  wp (if is_state b BUF_CLEAN then ret tt else modS (add_unclean d)) R l.
Proof using Type*.
  destruct (is_state b BUF_CLEAN); cbn; intros HR; wp_steps; [|by rewrite Z.mul_1_r in HR].
  revert HR. unfold add_unclean. rewrite Z.mul_0_r, Z.add_0_r. by destruct l.
Qed.

Lemma unqueue_spec l T k b :
  Trk l T -> T !! k = Some b -> range_ok k b ->
  wp (unqueue b) (fun _ l' => Trk l' (delete k T) /\ same_mem l l') l.
Proof using Type*.
  intros [HU HP HC] Hk Hr. unfold unqueue. apply wp_bind.
  set (u := ind (negb (is_state b BUF_CLEAN))).
  apply wp_unclean. cbn beta. fold u. set (l1 := add_unclean (-1 * u) l).
  assert (HU1 : l_uncleanCount l1 = map_sum (fun _ b => ind (negb (is_state b BUF_CLEAN))) (delete k T)).
  { cbn. rewrite HU, (map_sum_delete _ T k b Hk). unfold u. lia. }
  assert (HP1 : Parts l1 (part_refs T)) by (by apply (Parts_frame l)).
  destruct (is_state b BUF_DIRTY) eqn:Ed; [|destruct (cleanish (b_state b)) eqn:Ec].
  - apply is_state_true in Ed. eapply for_parts_range; [done|]. intros xs Hnd Hxs.
    wp_use (forM_unreference_spec xs l1 (part_refs T) Hnd); [|done|].
    + intros i Hi. assert (Hin : in_parts b i = true) by (rewrite <- Hxs; by apply bool_decide_eq_true).
      eapply Z.lt_le_trans; [|eapply (map_sum_ge _ T k b)]; [|auto with go|done].
      cbn. apply is_state_true in Ed. rewrite Ed, Hin. done.
    + intros _ l' [HP' (E1 & E2 & E3 & E4 & E5 & E6)]. split; [|done].
      split; [by rewrite E2| |rewrite E6; eapply CleanQ_delete; [done..|by rewrite Ed]].
      eapply Parts_ext; [|done]. intros p. cbn. rewrite (part_refs_delete T k b) by done.
      apply is_state_true in Ed. by rewrite Ed, Hxs.
  - wp_steps. split; [|done]. split; [done| |by eapply CleanQ_unqueue].
    eapply Parts_ext; [|by apply (Parts_frame l1)].
    intros p. rewrite (part_refs_delete T k b), Ed by done. cbn. lia.
  - wp_steps. split; [|done]. split; [done| |by eapply CleanQ_delete].
    eapply Parts_ext; [|exact HP1].
    intros p. rewrite (part_refs_delete T k b), Ed by done. cbn. lia.
Qed.

Lemma put_buf_at k b l :
  range_ok k b -> put_buf b l = Ok (tt, set_at (bt_set k b (l_at l)) l).
Proof using Type*. intros Hr. unfold put_buf, at_set, modS. by rewrite (range_end k b Hr). Qed.

Lemma queue_spec l T k b :
  Trk l T -> T !! k = None -> range_ok k b ->
  wp (queue b) (fun _ l' => exists i, Trk l' (<[k := set_queueId i b]> T) /\
    l_at l' = bt_set k (set_queueId i b) (l_at l) /\ l_curDirtyID l' = l_curDirtyID l /\
    l_ptrs l' = l_ptrs l /\ l_nextPtr l' = l_nextPtr l) l.
Proof using Type*.
  intros [HU HP HC] Hk Hr. unfold queue. pose proof (range_end k b Hr) as Ee.
  destruct (Z.eqb_spec (b_len b) 0) as [|_]; [destruct Hr; lia|]. apply wp_bind.
  set (u := ind (negb (is_state b BUF_CLEAN))).
  apply wp_unclean. cbn beta. fold u. set (l1 := add_unclean (1 * u) l).
  assert (HU1 : forall i, l_uncleanCount l1 =
    map_sum (fun _ b => ind (negb (is_state b BUF_CLEAN))) (<[k:=set_queueId i b]> T)).
  { intros i. rewrite map_sum_insert by done. cbn. rewrite HU.
    change (is_state (set_queueId i b) BUF_CLEAN) with (is_state b BUF_CLEAN). fold u. lia. }
  assert (HP1 : Parts l1 (part_refs T)) by (by apply (Parts_frame l)).
  assert (Eq : b = set_queueId (b_queueId b) b) by (by destruct b).
  destruct (is_state b BUF_DIRTY) eqn:Ed; [|destruct (cleanish (b_state b)) eqn:Ec].
  - apply wp_bind. apply is_state_true in Ed. eapply for_parts_range; [done|]. intros xs Hnd Hxs.
    wp_use (forM_reference_spec xs l1 (part_refs T) Hnd); [done|].
    intros _ l' [HP' (E1 & E2 & E3 & E4 & E5 & E6)].
    eapply wp_of_run; [by apply put_buf_at|]. exists (b_queueId b). rewrite <- Eq. cbn.
    split_and!; [|by rewrite ?E1, ?E3, ?E4, ?E5..]. split; cbn.
    + rewrite E2, (HU1 (b_queueId b)). by rewrite <- Eq.
    + eapply Parts_ext; [|by apply (Parts_frame l')].
      intros p. cbn. rewrite part_refs_insert by done. apply is_state_true in Ed. by rewrite Ed, Hxs.
    + rewrite E6. eapply CleanQ_insert; [done..|by rewrite Ed].
  - unfold queueClean. wp_steps.
    destruct (CleanQ_queue (l_helpers l) T b HC) as (i & q' & EQ & HC'); [by rewrite Ee|done|].
    change (l_helpers l1) with (l_helpers l). rewrite EQ. wp_steps.
    eapply wp_of_run; [by apply (put_buf_at k (set_queueId i b))|]. exists i.
    split_and!; try done. split; [apply HU1| |by rewrite <- Ee].
    eapply Parts_ext; [|by apply (Parts_frame l1)].
    intros p. rewrite part_refs_insert by done.
    change (is_state (set_queueId i b) BUF_DIRTY) with (is_state b BUF_DIRTY). rewrite Ed. cbn. lia.
  - eapply wp_of_run; [by apply put_buf_at|]. exists (b_queueId b). rewrite <- Eq. cbn.
    split_and!; try done. split; cbn.
    + rewrite Eq at 1. apply HU1.
    + eapply Parts_ext; [|by apply (Parts_frame l1)].
      intros p. rewrite part_refs_insert, Ed by done. cbn. lia.
    + by apply CleanQ_insert.
Qed.
(** ** Updates of the tracked set

    What each conjunct of the invariant asks of an insertion, a removal or a
    field assignment. *)

Lemma CleanQ_update q T k b b' :
  CleanQ q T -> T !! k = Some b -> b_state b' = b_state b -> b_queueId b' = b_queueId b ->
  CleanQ q (<[k:=b']> T).
Proof using Type*.
  intros HC Hk Es Eq. split; [apply HC|]. intros i e. rewrite (cq_view q T HC).
  setoid_rewrite lookup_insert_Some. split.
  - intros (b0 & Hb0 & Hs & <-). destruct (decide (k = e)) as [->|].
    + exists b'. assert (b0 = b) as -> by congruence. rewrite Es, Eq. auto.
    + exists b0. auto.
  - intros (b0 & [[<- <-]|[Hne Hb0]] & Hs & <-); [|eauto].
    exists b. rewrite <- Es, <- Eq. auto.
Qed.

Lemma in_parts_ext b b' p :
  b_offset b = b_offset b' -> b_len b = b_len b' -> in_parts b p = in_parts b' p.
Proof using Type*. unfold in_parts. by intros -> ->. Qed.

(** Field assignments that do not touch what is tracked. *)
Lemma Trk_update l T k b b' :
  Trk l T -> T !! k = Some b -> b_state b' = b_state b -> b_queueId b' = b_queueId b ->
  b_offset b' = b_offset b -> b_len b' = b_len b -> Trk l (<[k:=b']> T).
Proof using Type*.
  intros [HU HP HC] Hk Es Eq Eo El.
  assert (Est : forall st, is_state b' st = is_state b st) by (intros; unfold is_state; by rewrite Es).
  split; [| |by eapply CleanQ_update].
  - rewrite HU, (map_sum_update _ T k b b' Hk), Est. lia.
  - eapply Parts_ext; [|done]. intros p. unfold part_refs.
    rewrite (map_sum_update _ T k b b' Hk), Est, (in_parts_ext b' b) by done. lia.
Qed.

Lemma Shape_delete T k : Shape T -> Shape (delete k T).
Proof using Type*.
  intros [S1 S2]. split.
  - intros k' b [_ ?]%lookup_delete_Some. by apply S1.
  - intros k1 k2 b1 b2 [_ ?]%lookup_delete_Some [_ ?]%lookup_delete_Some. by eapply S2.
Qed.

Definition apart T (k : Z) (b : FileBuffer) : Prop :=
  forall k' b', T !! k' = Some b' -> k' <= b_offset b \/ k <= b_offset b'.

Lemma Shape_insert T k b : Shape T -> range_ok k b -> apart T k b -> Shape (<[k:=b]> T).
Proof using Type*.
  intros [S1 S2] Hr Ha. split.
  - intros k' b' [[<- <-]|[_ ?]]%lookup_insert_Some; [done|by apply S1].
  - intros k1 k2 b1 b2 [[<- <-]|[Hk1 Hb1]]%lookup_insert_Some [[<- <-]|[Hk2 Hb2]]%lookup_insert_Some Hlt;
      [lia| | |by eapply S2].
    + destruct (Ha k2 b2 Hb2) as [|]; [|done]. destruct Hr. specialize (S1 _ _ Hb2). unfold range_ok in S1. lia.
    + destruct (Ha k1 b1 Hb1) as [|]; [done|]. specialize (S1 _ _ Hb1). unfold range_ok in S1. lia.
Qed.

Lemma apart_fresh T k b : Shape T -> range_ok k b -> apart T k b -> T !! k = None.
Proof using Type*.
  intros HS Hr Ha. destruct (T !! k) as [b'|] eqn:E; [|done].
  pose proof (sh_ok T HS k b' E). destruct (Ha k b' E); unfold range_ok in *; lia.
Qed.

Lemma apart_delete_self T k b b' :
  Shape T -> T !! k = Some b -> b_offset b <= b_offset b' -> forall k', k' <= k -> apart (delete k T) k' b'.
Proof using Type*.
  intros HS Hk Ho k' Hk' k2 b2 [Hne Hb2]%lookup_delete_Some.
  destruct (decide (k2 < k)).
  - left. pose proof (sh_disj T HS k2 k b2 b Hb2 Hk). lia.
  - right. pose proof (sh_disj T HS k k2 b b2 Hk Hb2). lia.
Qed.

Lemma apart_insert T k b k0 b0 :
  apart T k b -> (k0 <= b_offset b \/ k <= b_offset b0) -> apart (<[k0:=b0]> T) k b.
Proof using Type*.
  intros Ha H0 k' b' [[<- <-]|[_ ?]]%lookup_insert_Some; [done|by apply Ha].
Qed.

Lemma holders_delete i T k b :
  T !! k = Some b -> holders i (delete k T) = holders i T - ind (bool_decide (b_ptr b = Some i)).
Proof using Type*. intros Hk. unfold holders. rewrite (map_sum_delete _ T k b Hk). lia. Qed.
Lemma holders_insert i T k b :
  T !! k = None -> holders i (<[k:=b]> T) = holders i T + ind (bool_decide (b_ptr b = Some i)).
Proof using Type*. intros Hk. unfold holders. rewrite map_sum_insert by done. lia. Qed.

(** Changing a reference count, or writing an array in place, keeps the slices valid. *)
Lemma data_ok_upd h i P P' b :
  h !! i = Some P -> zlen (mem P) <= zlen (mem P') -> data_ok h b -> data_ok (<[i:=P']> h) b.
Proof using Type*.
  intros Hi Hl. unfold data_ok. destruct (b_data b) as [s|], (b_ptr b) as [j|]; try done.
  intros (P0 & Hj & H1 & H2 & H3). destruct (decide (i = j)) as [->|].
  - exists P'. rewrite lookup_insert_eq. assert (P0 = P) by congruence. subst. split_and!; (done || lia).
  - exists P0. by rewrite lookup_insert_ne.
Qed.

Definition with_refs (n : Z) (P : BufferPointer) : BufferPointer := mkPtr (mem P) (mem_len P) n.

Lemma Heap_delete_data h n T k b i P :
  Heap h n T -> T !! k = Some b -> b_ptr b = Some i -> h !! i = Some P ->
  Heap (<[i := with_refs (refs P - 1) P]> h) n (delete k T).
Proof using Type*.
  intros [H1 H2 H3 H4] Hk Hp Hi. split.
  - intros j P' [[<- <-]|[Hne HP']]%lookup_insert_Some; rewrite (holders_delete _ T k b Hk), Hp.
    + rewrite bool_decide_true by done. cbn. rewrite (H1 i P Hi). lia.
    + rewrite bool_decide_false by congruence. cbn. rewrite (H1 j P' HP'). lia.
  - intros j P' [[<- <-]|[Hne HP']]%lookup_insert_Some; eauto.
  - intros j P' [[<- <-]|[Hne HP']]%lookup_insert_Some; eauto. apply (H3 i P Hi).
  - intros k' b' [_ ?]%lookup_delete_Some. eapply data_ok_upd; eauto. cbn. lia.
Qed.

Lemma Heap_delete_nodata h n T k b :
  Heap h n T -> T !! k = Some b -> b_ptr b = None -> Heap h n (delete k T).
Proof using Type*.
  intros [H1 H2 H3 H4] Hk Hp. split; [|done|done|].
  - intros j P' HP'. rewrite (holders_delete _ T k b Hk), Hp, bool_decide_false by done.
    rewrite (H1 j P' HP'). cbn. lia.
  - intros k' b' [_ ?]%lookup_delete_Some. eauto.
Qed.

Lemma Heap_insert_data h n T k b i P :
  Heap h n T -> T !! k = None -> b_ptr b = Some i -> h !! i = Some P -> data_ok h b ->
  Heap (<[i := with_refs (refs P + 1) P]> h) n (<[k:=b]> T).
Proof using Type*.
  intros [H1 H2 H3 H4] Hk Hp Hi Hd. split.
  - intros j P' [[<- <-]|[Hne HP']]%lookup_insert_Some; rewrite (holders_insert _ T k b Hk), Hp.
    + rewrite bool_decide_true by done. cbn. rewrite (H1 i P Hi). lia.
    + rewrite bool_decide_false by congruence. cbn. rewrite (H1 j P' HP'). lia.
  - intros j P' [[<- <-]|[Hne HP']]%lookup_insert_Some; eauto.
  - intros j P' [[<- <-]|[Hne HP']]%lookup_insert_Some; eauto. apply (H3 i P Hi).
  - intros k' b' [[<- <-]|[_ ?]]%lookup_insert_Some; (eapply data_ok_upd; [done|cbn; lia|eauto]).
Qed.

Lemma Heap_insert_nodata h n T k b :
  Heap h n T -> T !! k = None -> b_ptr b = None -> b_data b = None -> Heap h n (<[k:=b]> T).
Proof using Type*.
  intros [H1 H2 H3 H4] Hk Hp Hd. split; [|done|done|].
  - intros j P' HP'. rewrite (holders_insert _ T k b Hk), Hp, bool_decide_false by done.
    rewrite (H1 j P' HP'). cbn. lia.
  - intros k' b' [[<- <-]|[_ ?]]%lookup_insert_Some; [unfold data_ok; by rewrite Hp, Hd|eauto].
Qed.

Lemma Heap_update h n T k b b' :
  Heap h n T -> T !! k = Some b -> b_ptr b' = b_ptr b -> data_ok h b' -> Heap h n (<[k:=b']> T).
Proof using Type*.
  intros [H1 H2 H3 H4] Hk Hp Hd. split; [|done|done|].
  - intros j P' HP'. unfold holders. rewrite (map_sum_update _ T k b b' Hk), Hp.
    rewrite (H1 j P' HP'). unfold holders. lia.
  - intros k2 b2 [[<- <-]|[_ ?]]%lookup_insert_Some; eauto.
Qed.

(** No buffer refers to an array that has not been allocated yet. *)
Lemma Heap_fresh h n T j : Heap h n T -> n <= j -> h !! j = None /\ holders j T = 0.
Proof using Type*.
  intros [H1 H2 H3 H4] Hj.
  assert (Hn : h !! j = None).
  { destruct (h !! j) as [P|] eqn:E; [|done]. apply H2 in E. lia. }
  split; [done|]. apply map_sum_zero. intros k b Hb. rewrite bool_decide_false; [done|].
  intros Hp. specialize (H4 k b Hb). unfold data_ok in H4. rewrite Hp in H4.
  destruct (b_data b); [|done]. destruct H4 as (P & HP & _). congruence.
Qed.

Lemma Heap_new h n T P :
  Heap h n T -> refs P = 0 -> 0 <= mem_len P <= zlen (mem P) -> Heap (<[n:=P]> h) (n + 1) T.
Proof using Type*.
  intros HH Hr Hl. destruct (Heap_fresh h n T n HH) as [Hn Hh]; [lia|].
  destruct HH as [H1 H2 H3 H4]. split.
  - intros j P' [[<- <-]|[Hne HP']]%lookup_insert_Some; [by rewrite Hr|eauto].
  - intros j P' [[<- <-]|[Hne HP']]%lookup_insert_Some; [lia|]. apply H2 in HP'. lia.
  - intros j P' [[<- <-]|[Hne HP']]%lookup_insert_Some; eauto.
  - intros k b Hb. specialize (H4 k b Hb). unfold data_ok in *.
    destruct (b_data b) as [s|], (b_ptr b) as [j|]; try done.
    destruct H4 as (P0 & Hj & ?). exists P0. rewrite lookup_insert_ne; [done|congruence].
Qed.

Lemma Ids_delete n T k : Ids n T -> Ids n (delete k T).
Proof using Type*.
  intros [I0 I1 I2 I3]. split; [done|..].
  - intros k' b [_ ?]%lookup_delete_Some. eauto.
  - intros k' b [_ ?]%lookup_delete_Some. eauto.
  - intros k1 k2 b1 b2 [_ ?]%lookup_delete_Some [_ ?]%lookup_delete_Some. eauto.
Qed.

Lemma Ids_mono n n' T : n <= n' -> Ids n T -> Ids n' T.
Proof using Type*. intros Hn [I0 I1 I2 I3]. split; [lia| |done|done]. intros k b Hb. apply I1 in Hb. lia. Qed.

Lemma Ids_insert n T k b :
  Ids n T -> 0 <= b_dirtyID b <= n -> (b_dirtyID b <> 0 <-> b_state b = BUF_DIRTY) ->
  (forall k' b', T !! k' = Some b' -> k' <> k -> b_dirtyID b' = b_dirtyID b -> b_dirtyID b = 0) ->
  Ids n (<[k:=b]> T).
Proof using Type*.
  intros [I0 I1 I2 I3] Hr Hd Hu. split; [done|..].
  - intros k' b' [[<- <-]|[_ ?]]%lookup_insert_Some; eauto.
  - intros k' b' [[<- <-]|[_ ?]]%lookup_insert_Some; eauto.
  - intros k1 k2 b1 b2 [[<- <-]|[Hk1 Hb1]]%lookup_insert_Some [[<- <-]|[Hk2 Hb2]]%lookup_insert_Some E Hne; eauto.
    + exfalso. apply Hne. by eapply Hu.
    + exfalso. apply Hne. rewrite E. by eapply Hu.
Qed.

(** A fresh identifier, or none, keeps the identifiers unique. *)
Lemma Ids_insert_fresh n T k b :
  Ids (n - 1) T -> 0 <= n -> b_dirtyID b = 0 \/ b_dirtyID b = n /\ 0 < n ->
  (b_dirtyID b <> 0 <-> b_state b = BUF_DIRTY) -> Ids n (<[k:=b]> T).
Proof using Type*.
  intros HI Hn Hb Hd. apply Ids_insert; [eapply Ids_mono; [|done]; lia|lia|done|].
  intros k' b' Hk' _ E. pose proof (id_range _ _ HI _ _ Hk'). lia.
Qed.
(** ** Reference counts *)

(** Add [d] to the reference count of an optional pointer. *)
Definition bump (d : Z) (p : option Z) (h : gmap Z BufferPointer) : gmap Z BufferPointer :=
  match p with
  | Some i => match h !! i with Some P => <[i := with_refs (refs P + d) P]> h | None => h end
  | None => h
  end.

(** Bytes of memory the referenced arrays occupy. *)
Definition held (h : gmap Z BufferPointer) : Z :=
  map_sum (fun _ P => if 0 <? refs P then mem_len P else 0) h.

Lemma Heap_delete h n T k b :
  Heap h n T -> T !! k = Some b -> Heap (bump (-1) (b_ptr b) h) n (delete k T).
Proof using Type*.
  intros HH Hk. pose proof (hp_data h n T HH k b Hk) as Hd. unfold data_ok in Hd. unfold bump.
  destruct (b_ptr b) as [i|] eqn:Ep; [|by eapply Heap_delete_nodata].
  destruct (b_data b); [|done]. destruct Hd as (P & HP & _). rewrite HP.
  by eapply Heap_delete_data.
Qed.

Lemma Heap_insert h n T k b :
  Heap h n T -> T !! k = None -> data_ok h b -> Heap (bump 1 (b_ptr b) h) n (<[k:=b]> T).
Proof using Type*.
  intros HH Hk Hd. pose proof Hd as Hd'. unfold data_ok in Hd'. unfold bump.
  destruct (b_ptr b) as [i|] eqn:Ep, (b_data b) eqn:Ed; try done; [|by apply Heap_insert_nodata].
  destruct Hd' as (P & HP & _). rewrite HP. by eapply Heap_insert_data.
Qed.

Lemma bump_mem d p h i : mem <$> bump d p h !! i = mem <$> h !! i.
Proof using Type*.
  unfold bump. destruct p as [j|]; [|done]. destruct (h !! j) as [P|] eqn:E; [|done].
  destruct (decide (j = i)) as [->|]; [by rewrite lookup_insert_eq, E|by rewrite lookup_insert_ne].
Qed.

Lemma bump_data_ok d p h b : data_ok h b -> data_ok (bump d p h) b.
Proof using Type*.
  unfold bump. destruct p as [j|]; [|done]. destruct (h !! j) as [P|] eqn:E; [|done].
  eapply data_ok_upd; [done|cbn; lia].
Qed.

(** A buffer with data holds a reference. *)
Lemma Heap_ref h n T k b s :
  Heap h n T -> T !! k = Some b -> b_data b = Some s ->
  exists i P, b_ptr b = Some i /\ h !! i = Some P /\ 0 < refs P /\
    0 <= sl_off s /\ sl_len s = b_len b /\ sl_off s + sl_len s <= zlen (mem P) /\
    0 <= mem_len P <= zlen (mem P).
Proof using Type*.
  intros HH Hk Ed. pose proof (hp_data h n T HH k b Hk) as Hd. unfold data_ok in Hd. rewrite Ed in Hd.
  destruct (b_ptr b) as [i|] eqn:Ep; [|done]. destruct Hd as (P & HP & ?). exists i, P.
  split_and!; try naive_solver; try apply (hp_len h n T HH i P HP).
  rewrite (hp_refs h n T HH i P HP). unfold holders.
  rewrite (map_sum_delete _ T k b Hk), Ep, bool_decide_true by done. cbn.
  pose proof (map_sum_nonneg (fun _ b => ind (bool_decide (b_ptr b = Some i))) (delete k T)) as Hnn.
  assert (0 <= map_sum (fun _ b => ind (bool_decide (b_ptr b = Some i))) (delete k T)); [|lia].
  apply Hnn. auto with go.
Qed.

Lemma nodata_noptr h b : data_ok h b -> b_data b = None -> b_ptr b = None.
Proof using Type*. unfold data_ok. by destruct (b_data b), (b_ptr b). Qed.

Lemma release_run l i P :
  l_ptrs l !! i = Some P -> 0 < refs P ->
  release (Some i) l = Ok (held (bump (-1) (Some i) (l_ptrs l)) - held (l_ptrs l),
                           set_ptrs (bump (-1) (Some i) (l_ptrs l)) (l_nextPtr l) l).
Proof using Type*.
  intros HP Hr. unfold release, get_ptr, set_ptr, bind, getS, ret, modS, bump. rewrite HP. cbn.
  f_equal. f_equal. unfold held. rewrite (map_sum_update _ _ i P _ HP). cbn.
  destruct (Z.ltb_spec 0 (refs P)); [|lia].
  destruct (Z.eqb_spec (refs P - 1) 0), (Z.ltb_spec 0 (refs P + -1)); lia.
Qed.

Lemma retain_run l i P :
  l_ptrs l !! i = Some P ->
  retain (Some i) l = Ok (tt, set_ptrs (bump 1 (Some i) (l_ptrs l)) (l_nextPtr l) l).
Proof using Type*.
  intros HP. unfold retain, get_ptr, set_ptr, bind, getS, ret, modS, bump. by rewrite HP.
Qed.

Lemma held_retain h i P : h !! i = Some P -> 0 < refs P -> held (bump 1 (Some i) h) = held h.
Proof using Type*.
  intros HP Hr. unfold bump, held. rewrite HP, (map_sum_update _ _ i P _ HP). cbn.
  destruct (Z.ltb_spec 0 (refs P)), (Z.ltb_spec 0 (refs P + 1)); lia.
Qed.

Lemma held_release_le h n T p : Heap h n T -> held (bump (-1) p h) <= held h.
Proof using Type*.
  intros HH. destruct p as [i|]; cbn; [|lia]. destruct (h !! i) as [P|] eqn:HP; [|lia].
  pose proof (hp_len _ _ _ HH i P HP). unfold held. rewrite (map_sum_update _ _ i P _ HP). cbn.
  destruct (Z.ltb_spec 0 (refs P)), (Z.ltb_spec 0 (refs P + -1)); lia.
Qed.

(** ** Splitting *)

Definition left_part (b : FileBuffer) (off : Z) : FileBuffer :=
  set_data ((fun s => mkSlice (sl_off s) (off - b_offset b)) <$> b_data b) (b_ptr b)
    (set_range (b_offset b) (off - b_offset b) b).
Definition right_part (b : FileBuffer) (off id : Z) : FileBuffer :=
  set_dirtyID id
    (set_data ((fun s => mkSlice (sl_off s + (off - b_offset b)) (sl_len s - (off - b_offset b))) <$> b_data b)
       (b_ptr b) (set_range off (b_offset b + b_len b - off) b)).

(** A split counts the part at the boundary twice iff both sides touch it. *)
Lemma in_parts_split k b off :
  range_ok k b -> b_offset b < off < k ->
  exists lb rb, PartNum Q (off - 1) = Ok lb /\ PartNum Q off = Ok rb /\
    forall p id, ind (in_parts (left_part b off) p) + ind (in_parts (right_part b off id) p)
               = ind (in_parts b p) + ind ((lb =? rb) && (p =? lb)).
Proof using Type*.
  intros Hr Ho. destruct (parts_interval k b Hr) as (sp & ep & Esp & _ & Eep & _).
  destruct Hr as (-> & ? & ? & ?). pose proof limit_range.
  pose proof (helpers_parts (limit := limit)) as PN.
  destruct (PartNum_total (off - 1)) as (lb & Elb & _); [lia|].
  destruct (PartNum_total off) as (rb & Erb & _); [lia|].
  exists lb, rb. split_and!; try done. intros p id. unfold in_parts. cbn.
  replace (b_offset b + (off - b_offset b) - 1) with (off - 1) by lia.
  replace (off + (b_offset b + b_len b - off) - 1) with (b_offset b + b_len b - 1) by lia.
  rewrite Esp, Eep, Elb, Erb.
  assert (sp <= lb) by (eapply (PartNum_mono (b_offset b) (off - 1)); eauto; lia).
  assert (lb <= rb) by (eapply (PartNum_mono (off - 1) off); eauto; lia).
  assert (rb <= ep) by (eapply (PartNum_mono off (b_offset b + b_len b - 1)); eauto; lia).
  assert (rb <= lb + 1) by (eapply (PartNum_step off); eauto; lia).
  destruct (Z.leb_spec sp p), (Z.leb_spec p lb), (Z.leb_spec rb p), (Z.leb_spec p ep),
    (Z.eqb_spec lb rb), (Z.eqb_spec p lb); cbn; lia.
Qed.

(** The counters of the tracked set after a split. *)
Lemma split_counts T k b off id i lb rb :
  T !! k = Some b -> T !! off = None -> off <> k ->
  (forall p id, ind (in_parts (left_part b off) p) + ind (in_parts (right_part b off id) p)
              = ind (in_parts b p) + ind ((lb =? rb) && (p =? lb))) ->
  let T' := <[off := set_queueId i (left_part b off)]> (<[k := right_part b off id]> T) in
  map_sum (fun _ b => ind (negb (is_state b BUF_CLEAN))) T'
    = map_sum (fun _ b => ind (negb (is_state b BUF_CLEAN))) T + ind (negb (is_state b BUF_CLEAN)) /\
  forall p, part_refs T' p
    = part_refs T p + (if is_state b BUF_DIRTY then ind ((lb =? rb) && (p =? lb)) else 0).
Proof using Type*.
  intros Hk Hoff Hne Hsum T'. set (lp := left_part b off) in *. set (rp := right_part b off id) in *.
  assert (HT1 : <[k:=rp]> T !! off = None) by (rewrite lookup_insert_ne by lia; done).
  split; [|intros p].
  - unfold T'. rewrite map_sum_insert, (map_sum_update _ T k b rp Hk) by done.
    change (is_state rp BUF_CLEAN) with (is_state b BUF_CLEAN).
    change (is_state (set_queueId i lp) BUF_CLEAN) with (is_state b BUF_CLEAN). lia.
  - unfold T'. rewrite part_refs_insert by done. unfold part_refs at 1.
    rewrite (map_sum_update _ T k b rp Hk). fold (part_refs T p).
    change (is_state rp BUF_DIRTY) with (is_state b BUF_DIRTY).
    change (is_state (set_queueId i lp) BUF_DIRTY) with (is_state b BUF_DIRTY).
    rewrite (in_parts_ext (set_queueId i lp) lp) by done.
    specialize (Hsum p id). fold rp in Hsum. destruct (is_state b BUF_DIRTY); cbn; lia.
Qed.

Lemma requeueSplit_spec l T k b off id :
  Trk l T -> T !! k = Some b -> T !! off = None -> range_ok k b -> b_offset b < off < k ->
  wp (requeueSplit (left_part b off))
    (fun lft l' => exists i, lft = set_queueId i (left_part b off) /\
      Trk l' (<[off := lft]> (<[k := right_part b off id]> T)) /\
      (bufs l !! off = Some (left_part b off) -> bufs l' = <[off := lft]> (bufs l)) /\
      l_curDirtyID l' = l_curDirtyID l /\ l_ptrs l' = l_ptrs l /\ l_nextPtr l' = l_nextPtr l) l.
Proof using Type*.
  intros [HU HP HC] Hk Hoff Hr Ho. pose proof limit_range.
  destruct (in_parts_split k b off Hr Ho) as (lb & rb & Elb & Erb & Hsum).
  assert (Hl : range_ok off (left_part b off)) by (unfold range_ok in *; cbn; lia).
  pose proof (range_end _ _ Hl) as Ee.
  assert (Hcnt := fun i => split_counts T k b off id i lb rb Hk Hoff ltac:(lia) Hsum).
  set (lp := left_part b off) in *. set (T1 := <[k:=right_part b off id]> T) in *.
  assert (HC1 : CleanQ (l_helpers l) T1) by (by eapply CleanQ_update).
  assert (HT1 : T1 !! off = None) by (unfold T1; rewrite lookup_insert_ne by lia; done).
  destruct (Hcnt (b_queueId lp)) as [HU1 HPr].
  change (set_queueId (b_queueId lp) lp) with lp in HU1, HPr.
  unfold requeueSplit. destruct (Z.eqb_spec (b_len lp) 0) as [|_]; [cbn in *; lia|].
  apply wp_bind, wp_unclean. cbn beta. change (is_state lp) with (is_state b).
  set (u := ind (negb (is_state b BUF_CLEAN))) in *. set (l1 := add_unclean (1 * u) l).
  assert (HP1 : Parts l1 (part_refs T)) by (by apply (Parts_frame l)).
  change (b_state lp) with (b_state b).
  destruct (is_state b BUF_DIRTY) eqn:Ed; [|destruct (cleanish (b_state b)) eqn:Ec].
  - rewrite Ee, (u64_small (off - 1)) by (unfold range_ok in *; lia).
    apply wp_bind. eapply wp_liftO; [done|]. apply wp_bind. eapply wp_liftO; [done|]. apply wp_bind.
    apply (wp_mono _ (fun _ l' => Parts l' (part_refs (<[off:=lp]> T1)) /\ same_but_parts l1 l')).
    { destruct (Z.eqb_spec lb rb) as [->|Hne].
      - wp_use (reference_spec l1 (part_refs T) rb HP1). intros _ l' [HP' Hs]. split; [|done].
        eapply Parts_ext; [|exact HP']. intros p. cbn beta. rewrite HPr. cbn.
        case_bool_decide; destruct (Z.eqb_spec p rb); done.
      - wp_steps. split; [|done]. eapply Parts_ext; [|exact HP1]. intros p. rewrite HPr. cbn. lia. }
    intros _ l' [HP' (E1 & E2 & E3 & E4 & E5 & E6)]. wp_steps. exists (b_queueId lp).
    split_and!; try done.
    + split; [rewrite E2, HU1; cbn; lia|done|]. rewrite E6. apply CleanQ_insert; [done..|].
      apply is_state_true in Ed. cbn. by rewrite Ed.
    + intros Hb. unfold bufs in *. rewrite E1. cbn. by rewrite insert_id.
  - unfold queueClean. wp_steps. change (l_helpers l1) with (l_helpers l).
    destruct (CleanQ_queue (l_helpers l) T1 lp HC1) as (i & q' & EQ & HC'); [by rewrite Ee|done|].
    rewrite EQ. wp_steps. eapply wp_of_run; [apply (put_buf_at off); unfold range_ok in *; cbn in *; lia|].
    wp_steps. exists i. destruct (Hcnt i) as [HUi HPi]. split_and!; try done.
    + split; [rewrite HUi; cbn; lia| |by rewrite <- Ee].
      eapply Parts_ext; [|by apply (Parts_frame l1)]. intros p. rewrite HPi. lia.
    + intros _. unfold bufs. cbn. by rewrite bt_map_set.
  - wp_steps. exists (b_queueId lp). split_and!; try done.
    + split; [rewrite HU1; cbn; lia| |by apply CleanQ_insert].
      eapply Parts_ext; [|exact HP1]. intros p. rewrite HPr. lia.
    + intros Hb. unfold bufs in *. cbn. by rewrite insert_id.
Qed.
Lemma inside_fresh T k b off :
  Shape T -> T !! k = Some b -> b_offset b < off < k -> T !! off = None.
Proof using Type*.
  intros HS Hk Ho. destruct (T !! off) as [b'|] eqn:E; [|done].
  pose proof (sh_disj T HS off k b' b E Hk). lia.
Qed.

(** A split keeps every conjunct of the invariant other than the bookkeeping. *)
Lemma Shape_split T k b off id i :
  Shape T -> T !! k = Some b -> b_offset b < off < k ->
  Shape (<[off := set_queueId i (left_part b off)]> (<[k := right_part b off id]> T)).
Proof using Type*.
  intros HS Hk Ho. pose proof (sh_ok T HS k b Hk) as Hr.
  rewrite <- insert_delete_eq with (i := k). apply Shape_insert; [apply Shape_insert|..].
  - by apply Shape_delete.
  - unfold range_ok in *. cbn. lia.
  - eapply apart_delete_self; [done..|cbn; lia|lia].
  - unfold range_ok in *. cbn. lia.
  - apply apart_insert; [|cbn; lia]. eapply apart_delete_self; [done..|cbn; lia|lia].
Qed.

Lemma data_ok_slice h b b' (i n : Z) :
  data_ok h b -> b_ptr b' = b_ptr b -> b_len b' = n -> 0 <= i -> 0 <= n -> i + n <= b_len b ->
  b_data b' = (fun s => mkSlice (sl_off s + i) n) <$> b_data b -> data_ok h b'.
Proof using Type*.
  intros Hd Ep En Hi Hn Hle Ed. unfold data_ok in *. rewrite Ep, Ed, En.
  destruct (b_data b) as [s|], (b_ptr b); cbn in *; try done.
  destruct Hd as (P & HP & ? & ? & ?). exists P. split_and!; (done || lia).
Qed.

Lemma data_ok_len h b s : data_ok h b -> b_data b = Some s -> sl_len s = b_len b.
Proof using Type*.
  unfold data_ok. intros Hd E. rewrite E in Hd. destruct (b_ptr b); [|done]. naive_solver.
Qed.

Lemma left_part_data_ok h b off :
  data_ok h b -> 0 < off - b_offset b < b_len b -> data_ok h (left_part b off).
Proof using Type*.
  intros Hd Ho. apply (data_ok_slice h b _ 0 (off - b_offset b)); try done; try lia.
  cbn. destruct (b_data b); cbn; [by rewrite Z.add_0_r|done].
Qed.

Lemma right_part_data_ok h b off id :
  data_ok h b -> 0 < off - b_offset b < b_len b -> data_ok h (right_part b off id).
Proof using Type*.
  intros Hd Ho. apply (data_ok_slice h b _ (off - b_offset b) (b_offset b + b_len b - off)); try done; try lia.
  cbn. destruct (b_data b) as [s|] eqn:E; cbn; [|done]. do 2 f_equal.
  rewrite (data_ok_len h b s Hd E). lia.
Qed.

Lemma Heap_split h n T k b off id i :
  Shape T -> Heap h n T -> T !! k = Some b -> b_offset b < off < k ->
  Heap (bump 1 (b_ptr b) h) n (<[off := set_queueId i (left_part b off)]> (<[k := right_part b off id]> T)).
Proof using Type*.
  intros HS HH Hk Ho. pose proof (sh_ok T HS k b Hk) as Hr.
  pose proof (hp_data h n T HH k b Hk) as Hd.
  apply (Heap_insert h n _ off (set_queueId i (left_part b off))).
  - eapply Heap_update; [done..|]. apply right_part_data_ok; [done|]. unfold range_ok in *. lia.
  - rewrite lookup_insert_ne by lia. by eapply inside_fresh.
  - apply left_part_data_ok; [done|]. unfold range_ok in *. lia.
Qed.

Definition split_id (b : FileBuffer) (n : Z) : Z := if b_dirtyID b =? 0 then 0 else n + 1.
Definition split_cur (b : FileBuffer) (n : Z) : Z := if b_dirtyID b =? 0 then n else n + 1.

Lemma Ids_split n T k b off i :
  Shape T -> Ids n T -> T !! k = Some b -> b_offset b < off < k ->
  Ids (split_cur b n) (<[off := set_queueId i (left_part b off)]> (<[k := right_part b off (split_id b n)]> T)).
Proof using Type*.
  intros HS HI Hk Ho. pose proof (id_range n T HI k b Hk). pose proof (id_dirty n T HI k b Hk) as Hd.
  unfold split_cur, split_id. destruct (Z.eqb_spec (b_dirtyID b) 0) as [E|E].
  - apply Ids_insert; [|cbn; lia|exact Hd|cbn; lia].
    apply Ids_insert; [done|cbn; lia|cbn; rewrite <- Hd; lia|cbn; lia].
  - apply Ids_insert; [|cbn; lia|exact Hd|].
    + apply Ids_insert_fresh; [by rewrite Z.add_simpl_r|lia|right; cbn; lia|cbn].
      rewrite <- Hd. lia.
    + intros k' b' [[<- <-]|[Hne Hb']]%lookup_insert_Some _ E'; cbn in E'; [lia|].
      exfalso. apply Hne. eapply (id_uniq n T HI); [exact Hk|exact Hb'|done|done].
Qed.

Lemma place_part b b' :
  place_ok b -> b_state b' = b_state b -> b_zero b' = b_zero b -> b_loading b' = b_loading b ->
  b_onDisk b' = b_onDisk b -> (b_data b' = None <-> b_data b = None) -> place_ok b'.
Proof using Type*.
  intros Hp E1 E2 E3 E4 Hd. unfold place_ok in *. rewrite E1, E2, E3, E4.
  destruct (b_data b), (b_data b'); naive_solver.
Qed.

Lemma split_spec l k b off :
  Inv l -> bufs l !! k = Some b -> b_offset b < off < k ->
  wp (split b off)
    (fun '(lft, rgt) l' => exists i, lft = set_queueId i (left_part b off) /\
      rgt = right_part b off (split_id b (l_curDirtyID l)) /\
      bufs l' = <[off := lft]> (<[k := rgt]> (bufs l)) /\
      l_ptrs l' = bump 1 (b_ptr b) (l_ptrs l) /\ l_nextPtr l' = l_nextPtr l /\
      l_curDirtyID l' = split_cur b (l_curDirtyID l) /\ Inv l') l.
Proof using Type*.
  intros [HS HT HH HPl HI] Hk Ho. pose proof limit_range.
  pose proof (sh_ok _ HS k b Hk) as Hr. pose proof (hp_data _ _ _ HH k b Hk) as Hd.
  pose proof Hr as (Hrk & ? & ? & ?).
  set (id := split_id b (l_curDirtyID l)). set (h' := bump 1 (b_ptr b) (l_ptrs l)).
  set (l1 := set_ids (split_cur b (l_curDirtyID l)) (set_ptrs h' (l_nextPtr l) l)).
  set (l2 := set_at (bt_set off (left_part b off) (bt_set k (right_part b off id) (l_at l))) l1).
  unfold split. rewrite (u64_small (off - b_offset b)) by lia.
  apply wp_bind. apply (wp_mono _ (fun r l' => r = (left_part b off, set_data (b_data (right_part b off 0)) (b_ptr b) b)
      /\ l' = set_ptrs h' (l_nextPtr l) l)).
  { unfold left_part, right_part, h'. destruct (b_data b) as [s|] eqn:Ed.
    - destruct (Heap_ref _ _ _ k b s HH Hk Ed) as (i & P & Ep & HP & _ & _ & El & _).
      destruct (Z.ltb_spec (sl_len s) (off - b_offset b)); [lia|]. apply wp_bind. rewrite Ep.
      eapply wp_of_run; [by eapply retain_run|]. by wp_steps.
    - pose proof (nodata_noptr _ b Hd Ed) as Ep. rewrite Ep. wp_steps. split; [|by destruct l].
      clear -Ep Ed. destruct b; cbn in *; by subst. }
  intros [? ?] ? [[= -> ->] ->]. cbn beta iota zeta. apply wp_bind.
  apply (wp_mono _ (fun r l' => r = set_dirtyID id (set_data (b_data (right_part b off 0)) (b_ptr b) b) /\ l' = l1)).
  { unfold l1, id, split_id, split_cur. cbn. destruct (Z.eqb_spec (b_dirtyID b) 0) as [E|E]; wp_steps.
    - split; [destruct b; cbn in *; by rewrite E|done].
    - unfold nextID. wp_steps. done. }
  intros ? ? [-> ->]. cbn beta zeta.
  replace (set_range _ _ _) with (right_part b off id).
  2: { unfold right_part, b_end, set_range, set_dirtyID, set_data. cbn.
       rewrite (u64_small (b_offset b + b_len b)), u64_small by lia. done. }
  apply wp_bind. eapply wp_of_run; [apply (put_buf_at k); unfold range_ok; cbn; lia|].
  unfold at_set. wp_steps. fold l2.
  assert (Hoff : bufs l !! off = None) by (by eapply inside_fresh).
  wp_use (requeueSplit_spec l2 (bufs l) k b off id); [|done..|].
  { apply (Trk_frame l); done. }
  intros lft l' (i & -> & HT' & Hb & E1 & E2 & E3). wp_steps. exists i.
  assert (Eb : bufs l' = <[off:=set_queueId i (left_part b off)]> (<[k:=right_part b off id]> (bufs l))).
  { rewrite Hb; unfold bufs, l2; cbn; rewrite !bt_map_set.
    - by rewrite insert_insert_eq.
    - by rewrite lookup_insert_eq. }
  split_and!; try done. split; rewrite ?Eb, ?E1, ?E2, ?E3.
  - by apply Shape_split.
  - done.
  - by apply Heap_split.
  - intros k' b' [[<- <-]|[_ [[<- <-]|[_ ?]]%lookup_insert_Some]]%lookup_insert_Some; [| |eauto];
      (eapply place_part; [by apply (HPl k b)|done..|cbn; destruct (b_data b); naive_solver]).
  - by apply Ids_split.
Qed.
End inv.
End BufferListInv.
