(* ===== verification/BufferListRemove.v ===== *)
(** * Removing ranges from the buffer list

    The proof rule of [ascendChange], and the specifications of [delete],
    [RemoveRange] and [RemoveLoading]: what is in the range and passes the
    filter disappears, everything else keeps its cell, and the returned memory
    delta is the change of the memory held. *)

From S2P Require Import Prelude BTree Parts BufferList BufferListInv BufferListView.

Module BufferListRemove.
Import BufferList BufferListInv BufferListView.
Section remove.
Context {M : Type -> Type} `{HBT : BTreeMap M} `{HBL : !BTreeMapLaws M} {Q : Type} `{HQ : BufferListHelpers Q}.
Context {limit : Z} `{HLaws : !BufferListHelpersLaws Q limit}.
Implicit Types (l : bl M Q) (T : gmap Z FileBuffer) (b : FileBuffer) (x : Z).
Abbreviation Inv := (@Inv M HBT Q HQ limit HLaws).

(** ** The revalidating iteration *)

Lemma bt_ascend_skip {V} k (m : M V) : bt_map m !! k = None -> bt_ascend k m = bt_ascend (k + 1) m.
Proof using HBL.
  intros Hk. apply item_lt_unique; [apply bt_ascend_sorted..|]. intros [k' v].
  rewrite !bt_ascend_elem. split; intros [Hle Hget]; (split; [|done]); [|lia].
  assert (k <> k'); [|lia]. intros <-. rewrite bt_map_lookup in Hk. congruence.
Qed.

Section rule.
Context {A : Type} (iter : A -> Z -> FileBuffer -> St (bl M Q) (A * (bool * bool))).
Context (I : Z -> A -> bl M Q -> Prop) (R : A -> bl M Q -> Prop).
(** [I c acc l]: the invariant once every key below [c] has been visited. *)
Context (Hstep : forall c acc l k b,
  I c acc l -> c <= k -> bufs l !! k = Some b -> (forall k', c <= k' < k -> bufs l !! k' = None) ->
  wp (iter acc k b) (fun '(acc', (cont, _)) l' =>
    if (cont : bool) then I (k + 1) acc' l' /\ (forall k', k < k' -> bufs l' !! k' = bufs l !! k')
    else R acc' l') l).
Context (Hend : forall c acc l, I c acc l -> (forall k, c <= k -> bufs l !! k = None) -> R acc l).

Lemma ascendChange_loop_rule fuel c last acc l :
  I c acc l -> (forall k, last = Some k -> k < c) ->
  (2 * List.length (bt_ascend c (l_at l)) < fuel)%nat ->
  wp (ascendChange_loop fuel iter acc last (bt_ascend c (l_at l))) R l.
Proof using Hend Hstep HBL.
  clear HLaws.
  revert fuel c last acc l. induction fuel as [fuel IH] using lt_wf_ind. intros c last acc l HI Hlast Hfuel.
  destruct fuel as [|fuel]; [lia|]. cbn [ascendChange_loop].
  destruct (bt_ascend c (l_at l)) as [|[k b] rest] eqn:E.
  { wp_steps. eapply Hend; [done|]. intros k. by apply bt_ascend_nil. }
  pose proof (bt_ascend_cons _ _ _ _ _ E) as (Hck & Hk & Hno & Erest). cbn in Hfuel.
  rewrite bool_decide_false by (intros Hl; apply Hlast in Hl; lia).
  apply wp_bind. eapply wp_mono; [by eapply Hstep|]. intros [acc' [cont chg]] l' Hpost. cbn beta iota.
  destruct cont; [|rewrite andb_false_r; by wp_steps]. destruct Hpost as [HI' Hsame].
  assert (Easc : bt_ascend (k + 1) (l_at l') = rest).
  { rewrite Erest. apply bt_ascend_ext. intros k' Hk'. apply Hsame. lia. }
  rewrite andb_true_r. destruct chg.
  - wp_steps. destruct (bt_map (l_at l') !! k) as [b'|] eqn:Ek.
    + rewrite (bt_ascend_first k _ k b') by (done || lia). destruct fuel as [|fuel]; [lia|].
      cbn [ascendChange_loop]. rewrite bool_decide_true by done.
      apply IH; [lia|done|intros ? [= <-]; lia|]. rewrite Easc. lia.
    + rewrite bt_ascend_skip by done. apply IH; [lia|done|intros ? [= <-]; lia|]. rewrite Easc. lia.
  - rewrite <- Easc. apply IH; [lia|done| |rewrite Easc; lia]. intros k0 Hk0%Hlast. lia.
Qed.

Lemma ascendChange_rule start acc l : I start acc l -> wp (ascendChange start iter acc) R l.
Proof using Hend Hstep HBL.
  intros HI. unfold ascendChange. wp_steps. apply ascendChange_loop_rule; [done|done|lia].
Qed.
End rule.

(** ** Deleting one buffer *)

Lemma delete_spec l k b :
  Inv l -> bufs l !! k = Some b ->
  wp (delete_ b) (fun a l' => Inv l' /\ bufs l' = delete k (bufs l) /\
    l_ptrs l' = bump (-1) (b_ptr b) (l_ptrs l) /\ a = held (l_ptrs l') - held (l_ptrs l) /\
    l_nextPtr l' = l_nextPtr l /\ l_curDirtyID l' = l_curDirtyID l) l.
Proof using Type*.
  intros [HS HT HH HPl HI] Hk. pose proof (sh_ok _ HS k b Hk) as Hr.
  unfold delete_. apply wp_bind.
  set (h' := bump (-1) (b_ptr b) (l_ptrs l)). set (l1 := set_ptrs h' (l_nextPtr l) l).
  apply (wp_mono _ (fun a l' => a = held h' - held (l_ptrs l) /\ l' = l1)).
  { destruct (b_data b) as [s|] eqn:Ed.
    - destruct (Heap_ref _ _ _ k b s HH Hk Ed) as (i & P & Ep & HP & Hpos & _). unfold l1, h'. rewrite Ep.
      by eapply wp_of_run; [eapply release_run|].
    - pose proof (nodata_noptr _ b (hp_data _ _ _ HH k b Hk) Ed) as Ep. unfold l1, h'. rewrite Ep. cbn.
      wp_steps. split; [lia|by destruct l]. }
  intros a ? [-> ->]. unfold at_delete. wp_steps. rewrite (range_end k b Hr).
  wp_use (unqueue_spec (set_at (bt_delete k (l_at l1)) l1) (bufs l) k b); [by apply (Trk_frame l)|done|done|].
  intros _ l' [HT' (E1 & E2 & E3 & E4)]. wp_steps.
  assert (Eb : bufs l' = delete k (bufs l)) by (unfold bufs; rewrite E1; apply bt_map_delete).
  rewrite E3. split_and!; try done. split; rewrite ?Eb, ?E2, ?E3, ?E4.
  - by apply Shape_delete.
  - done.
  - by apply Heap_delete.
  - intros k' b' [_ ?]%lookup_delete_Some. eauto.
  - by apply Ids_delete.
Qed.

Lemma delete_owner l l' k b x :
  Inv l -> Inv l' -> bufs l !! k = Some b -> bufs l' = delete k (bufs l) ->
  (forall i, mem <$> l_ptrs l' !! i = mem <$> l_ptrs l !! i) ->
  if bool_decide (b_offset b <= x < k) then owner l' x = None else keeps l l' x.
Proof using Type*.
  intros HI HI' Hk Eb Em. pose proof (inv_shape _ HI) as HS. pose proof (inv_shape _ HI') as HS'.
  case_bool_decide as Hx.
  - apply (owner_None l' x HS'). rewrite Eb. intros k' b' [Hne Hb']%lookup_delete_Some Hx'.
    assert (owner l x = Some b) by (by eapply owner_intro).
    pose proof (owner_intro l x k' b' HS Hb' Hx').
    destruct (Z.lt_trichotomy k k') as [?|[?|?]]; [|done|].
    + pose proof (sh_disj _ HS k k' b b' Hk Hb'). lia.
    + pose proof (sh_disj _ HS k' k b' b Hb' Hk). lia.
  - apply keeps_refl_mem; [|done]. destruct (owner l x) as [b0|] eqn:E.
    + apply (owner_lookup l x b0 HS) in E as (k0 & Hk0 & Hx0). apply (owner_intro l' x k0 b0 HS'); [|done].
      rewrite Eb, lookup_delete_ne; [done|congruence].
    + rewrite (owner_None l x HS) in E. apply (owner_None l' x HS'). rewrite Eb. intros k0 b0 [_ ?]%lookup_delete_Some. eauto.
Qed.

(** ** Removing a range *)

(** The two halves of a removal's spec: what an operation [l => l'] with memory delta [a] did to byte [x]. *)
Record cut (gone : Z -> bool) l (a : Z) l' : Prop := {
  cut_inv : Inv l';
  cut_own : forall x, if gone x then owner l' x = None else keeps l l' x;
  cut_held : a = held (l_ptrs l') - held (l_ptrs l);
  cut_cur : l_curDirtyID l <= l_curDirtyID l';
  cut_mem : forall i, mem <$> l_ptrs l' !! i = mem <$> l_ptrs l !! i;
  cut_next : l_nextPtr l' = l_nextPtr l;
}.

Lemma keeps_self l x : keeps l l x.
Proof using Type*. by apply keeps_refl_mem. Qed.

Lemma cut_none l : Inv l -> cut (fun _ => false) l 0 l.
Proof using Type*. intros HI. split; try done; [|lia]. intros x. apply keeps_self. Qed.

Lemma cut_trans g1 g2 l1 a1 l2 a2 l3 :
  cut g1 l1 a1 l2 -> cut g2 l2 a2 l3 -> cut (fun x => g1 x || g2 x) l1 (a1 + a2) l3.
Proof using Type*.
  intros [I1 O1 H1 C1 M1 N1] [I2 O2 H2 C2 M2 N2].
  split; [done| |lia|lia|by intros; rewrite M2|by rewrite N2].
  intros x. specialize (O1 x). specialize (O2 x). destruct (g1 x), (g2 x); cbn; try done.
  - by eapply keeps_none.
  - by eapply keeps_trans.
Qed.

Lemma cut_ext g g' l a l' : (forall x, g x = true <-> g' x = true) -> cut g l a l' -> cut g' l a l'.
Proof using Type*.
  intros Hg [I1 O1 H1 C1 M1 N1]. split; try done. intros x. specialize (O1 x). specialize (Hg x).
  destruct (g x), (g' x); naive_solver.
Qed.

Definition same_flags (b b' : FileBuffer) : Prop :=
  b_state b' = b_state b /\ b_loading b' = b_loading b /\ b_onDisk b' = b_onDisk b /\ b_zero b' = b_zero b /\
  (b_data b' = None <-> b_data b = None).

Lemma split_cut l k b off :
  Inv l -> bufs l !! k = Some b -> b_offset b < off < k ->
  wp (split b off)
    (fun '(lft, rgt) l' => cut (fun _ => false) l 0 l' /\
      bufs l' = <[off := lft]> (<[k := rgt]> (bufs l)) /\
      b_offset lft = b_offset b /\ b_offset rgt = off /\ same_flags b lft /\ same_flags b rgt) l.
Proof using Type*.
  intros HI Hk Ho. wp_use (split_spec l k b off HI Hk Ho).
  intros [lft rgt] l' (i & -> & -> & Eb & Eh & En & Ec & HI').
  assert (Em : forall i, mem <$> l_ptrs l' !! i = mem <$> l_ptrs l !! i) by (intros; rewrite Eh; apply bump_mem).
  split_and!; try done; [|split_and!; try done; cbn; by destruct (b_data b)..]. split; try done.
  - intros x. by eapply split_keeps.
  - rewrite Eh. destruct (b_data b) as [s|] eqn:Ed.
    + destruct (Heap_ref _ _ _ k b s (inv_heap _ HI) Hk Ed) as (j & P & -> & HP & Hpos & _).
      rewrite (held_retain _ j P) by done. lia.
    + rewrite (nodata_noptr _ b (hp_data _ _ _ (inv_heap _ HI) k b Hk) Ed). cbn. lia.
  - rewrite Ec. unfold split_cur. case_match; lia.
Qed.

Lemma delete_cut l k b :
  Inv l -> bufs l !! k = Some b ->
  wp (delete_ b) (fun a l' => cut (fun x => bool_decide (b_offset b <= x < k)) l a l' /\
                              bufs l' = delete k (bufs l)) l.
Proof using Type*.
  intros HI Hk. wp_use (delete_spec l k b HI Hk). intros a l' (HI' & Eb & Eh & -> & En & Ec).
  assert (Em : forall i, mem <$> l_ptrs l' !! i = mem <$> l_ptrs l !! i) by (intros; rewrite Eh; apply bump_mem).
  split; [|done]. split; try done; [|lia]. intros x. by eapply delete_owner.
Qed.
Lemma split_left_cut l k b hi :
  Inv l -> bufs l !! k = Some b -> b_offset b < hi ->
  wp (if hi <? k then let! '(lft, _) := split b hi in ret lft else ret b)
    (fun rm l' => cut (fun _ => false) l 0 l' /\ bufs l' !! (Z.min hi k) = Some rm /\
      b_offset rm = b_offset b /\ (forall k', k < k' -> bufs l' !! k' = bufs l !! k')) l.
Proof using Type*.
  intros HI Hk Ho. destruct (Z.ltb_spec hi k); wp_steps.
  - wp_use (split_cut l k b hi HI Hk); [lia|]. intros [lft rgt] l' (HC & Eb & Eo & _ & Hfl & _). wp_steps.
    rewrite Z.min_l by lia. split_and!; try done; [by rewrite Eb, lookup_insert_eq|].
    intros k' Hk'. by rewrite Eb, !lookup_insert_ne by lia.
  - rewrite Z.min_r by lia. split_and!; try done. by apply cut_none.
Qed.

Lemma split_right_cut l k b lo :
  Inv l -> bufs l !! k = Some b -> lo < k ->
  wp (if b_offset b <? lo then let! '(_, rgt) := split b lo in ret rgt else ret b)
    (fun rm l' => cut (fun _ => false) l 0 l' /\ bufs l' !! k = Some rm /\
      b_offset rm = Z.max lo (b_offset b) /\ (forall k', k < k' -> bufs l' !! k' = bufs l !! k')) l.
Proof using Type*.
  intros HI Hk Ho. destruct (Z.ltb_spec (b_offset b) lo); wp_steps.
  - wp_use (split_cut l k b lo HI Hk); [lia|]. intros [lft rgt] l' (HC & Eb & _ & Eo & _ & Hfl). wp_steps.
    rewrite Z.max_l by lia. split_and!; try done.
    + by rewrite Eb, lookup_insert_ne, lookup_insert_eq by lia.
    + intros k' Hk'. by rewrite Eb, !lookup_insert_ne by lia.
  - rewrite Z.max_r by lia. split_and!; try done. by apply cut_none.
Qed.

Definition sel (f : option (FileBuffer -> bool)) (b : FileBuffer) : bool :=
  match f with None => true | Some f => f b end.

Lemma removeCallback_spec l k b lo hi f acc :
  Inv l -> bufs l !! k = Some b -> 0 <= lo < hi ->
  wp (removeCallback lo hi f acc b) (fun '(acc', (cont, _)) l' =>
    if (cont : bool)
    then cut (fun x => sel f b && (lo <=? x) && (x <? hi) && bool_decide (b_offset b <= x < k)) l (acc' - acc) l' /\
         (forall k', k < k' -> bufs l' !! k' = bufs l !! k')
    else hi <= b_offset b /\ acc' = acc /\ l' = l) l.
Proof using Type*.
  intros HI Hk Hlo. pose proof (sh_ok _ (inv_shape _ HI) k b Hk) as Hr.
  unfold removeCallback. destruct (Z.leb_spec hi (b_offset b)); wp_steps; [done|].
  rewrite (range_end k b Hr). fold (sel f b).
  assert (Hno : forall g, (forall x, g x = false) -> cut g l (acc - acc) l).
  { intros g Hg. rewrite Z.sub_diag. eapply cut_ext; [|by apply cut_none]. intros x. by rewrite Hg. }
  destruct (sel f b); cbn; [|wp_steps; split; [by apply Hno|done]].
  destruct (Z.ltb_spec lo k); cbn; [|wp_steps; split; [|done]; apply Hno; intros x].
  2: { destruct (Z.leb_spec lo x); [|done]. rewrite bool_decide_false by lia. by rewrite andb_false_r. }
  destruct (Z.ltb_spec (b_offset b) hi); [|lia].
  destruct (Z.leb_spec lo (b_offset b)); cbn; [destruct (Z.leb_spec k hi)|]; cbn.
  { wp_steps. wp_use (delete_cut l k b HI Hk). intros a l' [HC Eb]. wp_steps. split.
    - rewrite Z.add_simpl_l. eapply cut_ext; [|done]. intros x. bool_lia.
    - intros k' ?. by rewrite Eb, lookup_delete_ne by lia. }
  all: apply wp_bind; wp_use (split_left_cut l k b hi HI Hk); [done|];
    intros rm1 l1 (HC1 & Hk1 & Eo1 & Hs1); apply wp_bind; rewrite <- Eo1;
    (wp_use (split_right_cut l1 (Z.min hi k) rm1 lo (cut_inv _ _ _ _ HC1) Hk1); [lia|]);
    intros rm2 l2 (HC2 & Hk2 & Eo2 & Hs2);
    rewrite (proj2 (orb_true_iff _ _)) by (rewrite Eo1; destruct (Z.ltb_spec (b_offset b) lo), (Z.ltb_spec hi k); lia || auto);
    apply wp_bind; wp_use (delete_cut l2 (Z.min hi k) rm2 (cut_inv _ _ _ _ HC2) Hk2);
    intros a l3 [HC3 Eb3]; wp_steps; split;
    [|intros k' ?; rewrite Eb3, lookup_delete_ne, Hs2, Hs1 by lia; done];
    rewrite Z.add_simpl_l;
    (eapply cut_ext; [|exact (cut_trans _ _ _ _ _ _ _ (cut_trans _ _ _ _ _ _ _ HC1 HC2) HC3)]);
    intros x; cbn; rewrite Eo2, Eo1; bool_lia.
Qed.

(** ** Bytes selected by a pass over a range

    [hit l lo hi g x]: [x] lies in [lo, hi) and its buffer satisfies [g];
    [hit_below] restricts it to the buffers an iteration has passed. *)
Definition hit (l : bl M Q) (lo hi : Z) (g : FileBuffer -> bool) (x : Z) : bool :=
  (lo <=? x) && (x <? hi) && match owner l x with Some b => g b | None => false end.
Definition hit_below (l : bl M Q) (lo hi : Z) (g : FileBuffer -> bool) (c x : Z) : bool :=
  hit l lo hi (fun b => g b && (b_end b <? c)) x.

Lemma hit_start l lo hi g x : Shape (limit := limit) (bufs l) -> hit_below l lo hi g (lo + 1) x = false.
Proof using Type*.
  intros HS. unfold hit_below, hit. destruct (owner l x) as [b|] eqn:E; [|by rewrite andb_false_r].
  apply (owner_lookup l x b HS) in E as (k & Hk & Hx). rewrite (range_end k b) by (by apply (sh_ok _ HS)).
  destruct (Z.leb_spec lo x), (Z.ltb_spec k (lo + 1)); try lia; by rewrite ?andb_false_r.
Qed.

Lemma hit_end l lo hi g c x :
  Shape (limit := limit) (bufs l) -> (forall k b, bufs l !! k = Some b -> c <= k -> hi <= b_offset b) ->
  hit_below l lo hi g c x = hit l lo hi g x.
Proof using Type*.
  intros HS Hc. unfold hit_below, hit. destruct (owner l x) as [b|] eqn:E; [|done].
  apply (owner_lookup l x b HS) in E as (k & Hk & Hx). rewrite (range_end k b) by (by apply (sh_ok _ HS)).
  destruct (Z.ltb_spec k c) as [|Hge]; [by rewrite andb_true_r|]. specialize (Hc k b Hk Hge).
  destruct (Z.ltb_spec x hi); [lia|]. by rewrite !andb_false_r.
Qed.

Lemma hit_step l lo hi g c k b x :
  Shape (limit := limit) (bufs l) -> bufs l !! k = Some b -> c <= k -> (forall k', c <= k' < k -> bufs l !! k' = None) ->
  hit_below l lo hi g (k + 1) x =
  hit_below l lo hi g c x || g b && (lo <=? x) && (x <? hi) && bool_decide (b_offset b <= x < k).
Proof using Type*.
  intros HS Hk Hck Hno. unfold hit_below, hit. pose proof (owner_intro l x k b HS Hk) as Hown.
  case_bool_decide as Hx.
  - rewrite Hown by done. rewrite (range_end k b) by (by apply (sh_ok _ HS)).
    destruct (Z.ltb_spec k (k + 1)), (Z.ltb_spec k c), (g b), (lo <=? x), (x <? hi); try lia; done.
  - rewrite andb_false_r, orb_false_r. destruct (owner l x) as [b0|] eqn:E; [|done].
    apply (owner_lookup l x b0 HS) in E as (k0 & Hk0 & Hx0). rewrite (range_end k0 b0) by (by apply (sh_ok _ HS)).
    destruct (Z.ltb_spec k0 (k + 1)), (Z.ltb_spec k0 c); try lia; try done.
    destruct (decide (k0 = k)) as [->|]; [naive_solver|]. rewrite Hno in Hk0 by lia. done.
Qed.

(** The bytes [RemoveRange] removes from [l]. *)
Definition gone (l : bl M Q) (lo hi : Z) (f : option (FileBuffer -> bool)) (x : Z) : bool := hit l lo hi (sel f) x.

Lemma RemoveRange_cut l lo n f :
  Inv l -> 0 <= lo -> 0 < n -> lo + n < two64 ->
  wp (RemoveRange lo n f) (fun a l' => cut (gone l lo (lo + n) f) l a l') l.
Proof using Type*.
  intros HI Hlo Hn Hlim. unfold RemoveRange. rewrite !u64_small by lia. set (hi := lo + n).
  pose proof (inv_shape _ HI) as HS.
  apply ascendChange_rule with (I := fun c a l' => cut (hit_below l lo hi (sel f) c) l a l' /\
    forall k, c <= k -> bufs l' !! k = bufs l !! k).
  - intros c a l1 k b [HC Hsame] Hck Hk Hno.
    assert (Hk0 : bufs l !! k = Some b) by (rewrite <- Hsame; done || lia).
    assert (Hno0 : forall k', c <= k' < k -> bufs l !! k' = None) by (intros; rewrite <- Hsame by lia; by apply Hno).
    wp_use (removeCallback_spec l1 k b lo hi f a (cut_inv _ _ _ _ HC) Hk); [lia|].
    intros [a' [cont chg]] l2. destruct cont.
    + intros [HC2 Hs2]. split; [split|]; [|intros k' ?; rewrite Hs2, Hsame by lia; done|done].
      replace a' with (a + (a' - a)) by lia. eapply cut_ext; [|exact (cut_trans _ _ _ _ _ _ _ HC HC2)].
      intros x. by rewrite (hit_step l lo hi (sel f) c k b).
    + intros (Hhi & -> & ->). eapply cut_ext; [|exact HC]. intros x. unfold gone. rewrite (hit_end _ _ _ _ c); [done|done|].
      intros k2 b2 Hk2 Hge. destruct (Z.lt_trichotomy k2 k) as [?|[->|?]]; [rewrite Hno0 in Hk2 by lia; done|naive_solver|].
      pose proof (sh_disj _ HS k k2 b b2 Hk0 Hk2). pose proof (sh_ok _ HS k b Hk0) as (? & ? & ?). lia.
  - intros c a l1 [HC Hsame] Hno. eapply cut_ext; [|exact HC]. intros x. unfold gone. rewrite (hit_end _ _ _ _ c); [done|done|].
    intros k b Hk Hge. rewrite <- Hsame, Hno in Hk by lia. done.
  - split; [|done]. eapply cut_ext; [|by apply cut_none]. intros x. by rewrite hit_start.
Qed.
(** A range that ends before it starts: only a buffer around all of it would be touched. *)
Lemma RemoveRange_nothing l lo n f hi :
  Inv l -> 0 <= lo < two64 - 1 -> lo +u n = hi -> (forall k b, bufs l !! k = Some b -> lo < k -> hi <= b_offset b) ->
  wp (RemoveRange lo n f) (fun a l' => a = 0 /\ l' = l) l.
Proof using Type*.
  intros HI Hlo Hhi Hno. unfold RemoveRange. rewrite Hhi, (u64_small (lo + 1)) by lia.
  apply ascendChange_rule with (I := fun c a l' => lo < c /\ a = 0 /\ l' = l).
  - intros c a l1 k b (Hc & -> & ->) Hck Hk _. unfold removeCallback. rewrite (proj2 (Z.leb_le _ _)) by (eapply Hno; [done|lia]). by wp_steps.
  - by intros c a l1 (_ & ? & ?).
  - split_and!; [lia|done..].
Qed.
End remove.
End BufferListRemove.
