(* ===== verification/BufferListAdd.v ===== *)
(** * Inserting into the buffer list

    Specifications of [Append], [insertOrAppend], [fill], [Add], [AddLoading]
    and [ZeroRange]: after a write every byte of the range reads back the new
    data in the new state, every other byte keeps its contents, and the
    returned memory delta is exact.  In particular appending in place to a
    shared array never happens. *)

From S2P Require Import Prelude BTree Parts BufferList BufferListInv BufferListView.
From S2P Require Import BufferListRemove.

Module BufferListAdd.
Import BufferList BufferListInv BufferListView BufferListRemove.
Section add.
Context {M : Type -> Type} `{HBT : BTreeMap M} `{HBL : !BTreeMapLaws M} {Q : Type} `{HQ : BufferListHelpers Q}.
Context {limit : Z} `{HLaws : !BufferListHelpersLaws Q limit}.
Implicit Types (l : bl M Q) (T : gmap Z FileBuffer) (b : FileBuffer) (x : Z).
Abbreviation Inv := (@Inv M HBT Q HQ limit HLaws).
Abbreviation Shape := (@Shape limit).
Abbreviation range_ok := (@range_ok limit).

(** ** Appending to the data of a buffer *)

Lemma Heap_write h n T i P m' :
  Heap h n T -> h !! i = Some P -> zlen m' = zlen (mem P) ->
  Heap (<[i := mkPtr m' (mem_len P) (refs P)]> h) n T.
Proof.
  intros [H1 H2 H3 H4] Hi Hm. split.
  - intros j P' [[<- <-]|[Hne HP']]%lookup_insert_Some; cbn; eauto.
  - intros j P' [[<- <-]|[Hne HP']]%lookup_insert_Some; eauto.
  - intros j P' [[<- <-]|[Hne HP']]%lookup_insert_Some; cbn; eauto. rewrite Hm. eauto.
  - intros k b Hb. eapply data_ok_upd; [done|cbn; lia|eauto].
Qed.

Lemma zlen_splice arr i d : 0 <= i -> i + zlen d <= zlen arr -> zlen (splice arr i d) = zlen arr.
Proof. intros. pose proof (zlen_nonneg d). unfold splice. rewrite !zlen_app, !zlen_slice by lia. lia. Qed.

Lemma znth_splice_in arr i d y :
  0 <= i -> i + zlen d <= zlen arr -> 0 <= y < zlen d -> znth (splice arr i d) (i + y) = znth d y.
Proof.
  intros. unfold splice. rewrite znth_app_r by (rewrite zlen_slice; lia).
  rewrite zlen_slice by lia. rewrite znth_app_l by lia. f_equal. lia.
Qed.

Lemma znth_splice_before arr i d y :
  0 <= i -> i + zlen d <= zlen arr -> 0 <= y < i -> znth (splice arr i d) y = znth arr y.
Proof.
  intros. pose proof (zlen_nonneg d). unfold splice. rewrite znth_app_l by (rewrite zlen_slice; lia).
  rewrite znth_slice by lia. done.
Qed.

(** What a buffer looks like after [Append]. *)
Definition appended (b : FileBuffer) (s' : bslice) (j : Z) : FileBuffer :=
  set_data (Some s') (Some j) (set_range (b_offset b) (sl_len s') b).

Lemma Append_spec l T k b s d i P :
  Heap (l_ptrs l) (l_nextPtr l) T -> T !! k = Some b -> b_data b = Some s -> b_ptr b = Some i ->
  l_ptrs l !! i = Some P -> refs P = 1 -> 0 <= b_len b ->
  wp (Append b d) (fun '(a, b') l' => exists s' j P',
    b' = appended b s' j /\ sl_len s' = sl_len s + zlen d /\
    l_ptrs l' !! j = Some P' /\
    (forall y, 0 <= y < sl_len s -> znth (mem P') (sl_off s' + y) = znth (mem P) (sl_off s + y)) /\
    (forall y, 0 <= y < zlen d -> znth (mem P') (sl_off s' + sl_len s + y) = znth d y) /\
    (forall i', i' <> i -> i' < l_nextPtr l -> l_ptrs l' !! i' = l_ptrs l !! i') /\
    a = held (l_ptrs l') - held (l_ptrs l) /\
    (forall k' b'', delete k T !! k' = None -> b_data b'' = Some s' -> b_ptr b'' = Some j ->
       b_len b'' = sl_len s' -> Heap (l_ptrs l') (l_nextPtr l') (<[k':=b'']> (delete k T))) /\
    l_at l' = l_at l /\ same_book l l' /\ l_curDirtyID l' = l_curDirtyID l) l.
Proof.
  intros HH Hk Ed Ep HP Hr Hlen.
  destruct (Heap_ref _ _ _ k b s HH Hk Ed) as (i0 & P0 & Ep0 & HP0 & _ & Hs1 & Hs2 & Hs3 & Hml).
  assert (i0 = i) as -> by congruence. assert (P0 = P) as -> by congruence. clear Ep0 HP0.
  pose proof (zlen_nonneg d). pose proof (Heap_delete _ _ _ k b HH Hk) as HD. rewrite Ep in HD.
  pose proof (hp_next _ _ _ HH i P HP) as Hin.
  unfold Append. rewrite Ed, Ep. change (default (mkSlice 0 0) (Some s)) with s. unfold get_ptr. wp_steps.
  rewrite HP. wp_steps. cbn beta zeta iota.
  set (nl := sl_len s + zlen d). destruct (Z.leb_spec nl (cap_of P s)) as [Hc|Hc]; unfold cap_of in Hc.
  - unfold set_ptr. wp_steps. set (m' := splice (mem P) (sl_off s + sl_len s) d).
    assert (Hm' : zlen m' = zlen (mem P)) by (apply zlen_splice; lia).
    cbn beta iota. exists (mkSlice (sl_off s) nl), i, (mkPtr m' (mem_len P) (refs P)).
    split_and!; cbn; try done.
    + by rewrite lookup_insert_eq.
    + intros y ?. apply znth_splice_before; lia.
    + intros y ?. apply znth_splice_in; lia.
    + intros i' ? _. by rewrite lookup_insert_ne.
    + unfold held. rewrite (map_sum_update _ _ i P _ HP). cbn. lia.
    + intros k' b'' Hk' Hd' Hp' Hl'.
      assert (E : <[i:=mkPtr m' (mem_len P) (refs P)]> (l_ptrs l)
        = bump 1 (b_ptr b'') (<[i:=mkPtr m' (mem_len P) (refs P - 1)]> (bump (-1) (Some i) (l_ptrs l)))).
      { rewrite Hp'. unfold bump. rewrite HP, lookup_insert_eq, !insert_insert_eq. unfold with_refs. cbn.
        do 2 f_equal. lia. }
      rewrite E. apply Heap_insert; [|done|].
      * apply (Heap_write _ _ _ i (with_refs (refs P - 1) P)); [done| |done].
        unfold bump. by rewrite HP, lookup_insert_eq.
      * unfold data_ok. rewrite Hd', Hp'. exists (mkPtr m' (mem_len P) (refs P - 1)).
        rewrite lookup_insert_eq, Hl'. cbn. split_and!; try done; lia.
  - set (nc := if nl <? 2 * sl_len s then 2 * sl_len s else nl).
    assert (Hnc : nl <= nc) by (unfold nc; destruct (Z.ltb_spec nl (2 * sl_len s)); lia).
    apply wp_bind. eapply wp_of_run; [eapply release_run; [done|lia]|]. cbn beta.
    unfold new_ptr. wp_steps. cbn [set_ptrs l_ptrs l_nextPtr].
    set (old := slice (sl_off s) (sl_off s + sl_len s) (mem P)).
    set (nd := old ++ d ++ replicate (Z.to_nat (nc - nl)) 0).
    set (h1 := bump (-1) (Some i) (l_ptrs l)). set (n := l_nextPtr l).
    assert (Hold : zlen old = sl_len s) by (unfold old; rewrite zlen_slice; lia).
    assert (Hnd : zlen nd = nc).
    { unfold nd. rewrite !zlen_app, Hold, zlen_replicate by lia. lia. }
    destruct (Heap_fresh _ _ _ n HD) as [Hfr _]; [lia|]. fold h1 in Hfr, HD.
    cbn beta iota. exists (mkSlice 0 nl), n, (mkPtr nd nc 1).
    split_and!; cbn; try done.
    + by rewrite lookup_insert_eq.
    + intros y ?. unfold nd. rewrite znth_app_l by lia. apply znth_slice; lia.
    + intros y ?. unfold nd. rewrite znth_app_r, Hold, znth_app_l by lia. f_equal. lia.
    + intros i' Hi' Hlt. rewrite lookup_insert_ne by lia. unfold h1, bump.
      by rewrite HP, lookup_insert_ne.
    + assert (Eh : held (<[n:=mkPtr nd nc 1]> h1) = nc + held h1) by (unfold held; by rewrite map_sum_insert).
      change (nc + (held h1 - held (l_ptrs l)) = held (<[n:=mkPtr nd nc 1]> h1) - held (l_ptrs l)).
      rewrite Eh. lia.
    + intros k' b'' Hk' Hd' Hp' Hl'.
      replace (<[n:=mkPtr nd nc 1]> h1) with (bump 1 (b_ptr b'') (<[n:=mkPtr nd nc 0]> h1)).
      2: { rewrite Hp'. unfold bump. by rewrite lookup_insert_eq, insert_insert_eq. }
      apply Heap_insert; [|done|].
      * apply Heap_new; [done|done|cbn; lia].
      * unfold data_ok. rewrite Hd', Hp'. exists (mkPtr nd nc 0).
        rewrite lookup_insert_eq, Hl'. cbn. split_and!; try done; lia.
Qed.
(** ** Putting one buffer into the list *)

Lemma free_apart l e b :
  Shape (bufs l) -> range_ok e b -> (forall x, b_offset b <= x < e -> owner l x = None) -> apart (bufs l) e b.
Proof using Type*.
  intros HS Hr Hfree k' b' Hk'. pose proof (sh_ok _ HS k' b' Hk') as (? & ? & ? & ?).
  destruct Hr as (? & ? & ? & ?).
  destruct (decide (k' <= b_offset b)); [by left|]. destruct (decide (e <= b_offset b')); [by right|].
  assert (Hx : owner l (Z.max (b_offset b) (b_offset b')) = None) by (apply Hfree; lia).
  rewrite (owner_intro l _ k' b' HS Hk') in Hx; [done|lia].
Qed.

(** [queue] of a buffer the other conjuncts of the invariant already count. *)
Lemma queue_new_spec l e b :
  Shape (bufs l) -> Trk l (bufs l) -> (forall k b', bufs l !! k = Some b' -> place_ok b') ->
  (forall i, Heap (l_ptrs l) (l_nextPtr l) (<[e := set_queueId i b]> (bufs l))) ->
  (forall i, Ids (l_curDirtyID l) (<[e := set_queueId i b]> (bufs l))) ->
  place_ok b -> range_ok e b -> apart (bufs l) e b ->
  wp (queue b) (fun _ l' => Inv l' /\ exists i, bufs l' = <[e := set_queueId i b]> (bufs l) /\
    l_ptrs l' = l_ptrs l /\ l_nextPtr l' = l_nextPtr l /\ l_curDirtyID l' = l_curDirtyID l) l.
Proof using Type*.
  intros HS HT HPl HH HI Hp Hr Ha.
  wp_use (queue_spec l (bufs l) e b HT); [by eapply apart_fresh|done|].
  intros _ l' (i & HT' & E1 & E2 & E3 & E4).
  assert (Eb : bufs l' = <[e:=set_queueId i b]> (bufs l)) by (unfold bufs; rewrite E1; apply bt_map_set).
  split; [|by exists i]. split; rewrite ?Eb, ?E2, ?E3, ?E4; try done.
  - by apply Shape_insert.
  - intros k b' [[<- <-]|[_ ?]]%lookup_insert_Some; [done|eauto].
Qed.

Lemma insert_owner l l' e b x :
  Shape (bufs l) -> Shape (bufs l') -> apart (bufs l) e b -> range_ok e b ->
  bufs l' = <[e := b]> (bufs l) ->
  owner l' x = if bool_decide (b_offset b <= x < e) then Some b else owner l x.
Proof using Type*.
  intros HS HS' Ha Hr Eb. case_bool_decide as Hx.
  - apply (owner_intro l' x e b HS'); [by rewrite Eb, lookup_insert_eq|done].
  - destruct (owner l x) as [b0|] eqn:E.
    + apply (owner_lookup l x b0 HS) in E as (k0 & Hk0 & Hx0). apply (owner_intro l' x k0 b0 HS'); [|done].
      rewrite Eb, lookup_insert_ne; [done|]. intros <-. by rewrite (apart_fresh _ e b HS Hr Ha) in Hk0.
    + rewrite (owner_None l x HS) in E. apply (owner_None l' x HS'). rewrite Eb.
      intros k0 b0 [[<- <-]|[_ ?]]%lookup_insert_Some; [done|eauto].
Qed.

(** ** Specifications of insertions *)

(** Byte [x] has cell [c], under a flush identifier newer than [n] if it is dirty. *)
Definition new_at (n : Z) l x (c : cell) : Prop :=
  exists b, owner l x = Some b /\ cell_at (l_ptrs l) b x = c /\
            (c_state c = BUF_DIRTY -> n < b_dirtyID b).

(** As [keeps], except that a cached byte may lose its copy on disk. *)
Definition keepsW l l' x : Prop :=
  match owner l x with
  | None => owner l' x = None
  | Some b => exists b', owner l' x = Some b' /\
      b_state b' = b_state b /\ b_loading b' = b_loading b /\ b_zero b' = b_zero b /\
      (b_onDisk b' = true -> b_onDisk b = true) /\
      buf_byte (l_ptrs l') b' x = buf_byte (l_ptrs l) b x /\
      newer (l_curDirtyID l) (b_dirtyID b) (b_dirtyID b')
  end.

Lemma keeps_keepsW l l' x : keeps l l' x -> keepsW l l' x.
Proof using Type*.
  unfold keeps, keepsW. destruct (owner l x); [|done].
  intros (b' & ? & [= E1 E2 E3 E4 E5] & ?). exists b'. rewrite E1, E2, E3, E4, E5. done.
Qed.

Lemma keepsW_trans l1 l2 l3 x :
  l_curDirtyID l1 <= l_curDirtyID l2 -> keepsW l1 l2 x -> keepsW l2 l3 x -> keepsW l1 l3 x.
Proof using Type*.
  intros Hc. unfold keepsW. destruct (owner l1 x) as [b|]; [|by intros ->].
  intros (b' & -> & ? & ? & ? & ? & ? & Hn) (b'' & -> & ? & ? & ? & ? & ? & Hn').
  exists b''. split_and!; try congruence; try tauto. unfold newer in *. lia.
Qed.

Lemma keepsW_none l l' x : keepsW l l' x -> owner l x = None -> owner l' x = None.
Proof using Type*. unfold keepsW. intros Hk E. by rewrite E in Hk. Qed.

(** A new byte keeps its cell through operations that only split or append elsewhere. *)
Lemma new_at_keepsW n l l' x c :
  n <= l_curDirtyID l -> c_onDisk c = false -> new_at n l x c -> keepsW l l' x -> new_at n l' x c.
Proof using Type*.
  intros Hn Hd (b & E & <- & Hid) Hk. unfold keepsW in Hk. rewrite E in Hk.
  destruct Hk as (b' & E' & E1 & E2 & E3 & E4 & E5 & Hnew). exists b'. split_and!; [done| |].
  - unfold cell_at in *. rewrite E1, E2, E3, E5. f_equal. cbn in Hd.
    destruct (b_onDisk b'), (b_onDisk b); naive_solver.
  - cbn in *. intros Hs. specialize (Hid Hs). unfold newer in Hnew. lia.
Qed.

Lemma no_overlap_none l x : (forall k b, bufs l !! k = Some b -> ~ (b_offset b <= x < k)) -> owner l x = None.
Proof using Type*.
  intros Hno. unfold owner. destruct (bt_ascend (x + 1) (l_at l)) as [|[k b] rest] eqn:E; [done|].
  apply bt_ascend_cons in E as (? & Hk & _). cbn.
  destruct (Z.leb_spec (b_offset b) x); [|done]. destruct (Hno k b Hk). lia.
Qed.

(** Inserting a buffer that shares array [p] (or none). *)
Lemma queue_keeps l0 l e b (c : Z -> cell) :
  Inv l0 -> range_ok e b -> (forall x, b_offset b <= x < e -> owner l0 x = None) ->
  bufs l = bufs l0 -> same_book l0 l -> place_ok b ->
  (forall i, Heap (l_ptrs l) (l_nextPtr l) (<[e := set_queueId i b]> (bufs l))) ->
  l_curDirtyID l0 <= l_curDirtyID l ->
  (b_dirtyID b = 0 /\ b_state b <> BUF_DIRTY \/
   b_dirtyID b = l_curDirtyID l /\ l_curDirtyID l0 < l_curDirtyID l /\ b_state b = BUF_DIRTY) ->
  (forall i P, l_ptrs l0 !! i = Some P -> mem <$> l_ptrs l !! i = Some (mem P)) ->
  (forall x, b_offset b <= x < e -> cell_at (l_ptrs l) b x = c x) ->
  wp (queue b) (fun _ l' => Inv l' /\
    (forall x, if bool_decide (b_offset b <= x < e) then new_at (l_curDirtyID l0) l' x (c x) else keepsW l0 l' x) /\
    (forall k, e < k -> bufs l' !! k = bufs l0 !! k) /\
    l_ptrs l' = l_ptrs l /\ l_curDirtyID l' = l_curDirtyID l) l.
Proof using Type*.
  intros HI0 Hr Hfree Eb0 Hbook Hp HH Hcur Hid Hmem Hc.
  pose proof (inv_shape _ HI0) as HS0. pose proof (free_apart l0 e b HS0 Hr Hfree) as Ha.
  wp_use (queue_new_spec l e b); try (rewrite Eb0; apply HI0); try done.
  - rewrite Eb0. apply (Trk_frame l0); [done|apply HI0].
  - intros i. pose proof (inv_ids _ HI0) as HId. pose proof (id_nonneg _ _ HId). rewrite Eb0. apply Ids_insert; cbn.
    + by eapply Ids_mono.
    + intuition lia.
    + intuition (congruence || lia).
    + intros k' b' Hk' _ E. pose proof (id_range _ _ HId k' b' Hk'). intuition lia.
  - by rewrite Eb0.
  - intros _ l' (HI' & i & Eb & E1 & _ & E2). split_and!; try done.
    + intros x. pose proof (insert_owner l0 l' e (set_queueId i b) x HS0 (inv_shape _ HI') Ha Hr) as Ho.
      rewrite Eb, Eb0 in Ho. specialize (Ho eq_refl). cbn in Ho. case_bool_decide as Hx.
      * exists (set_queueId i b). split_and!; [done|rewrite E1; by rewrite <- Hc|].
        cbn. rewrite <- Hc by done. cbn. intros Hs. intuition (congruence || lia).
      * apply keeps_keepsW. unfold keeps. rewrite Ho. destruct (owner l0 x) as [b0|] eqn:E; [|done].
        exists b0. split_and!; [done| |by left]. unfold cell_at. f_equal. rewrite E1.
        apply (owner_lookup l0 x b0 HS0) in E as (k0 & Hk0 & _).
        pose proof (hp_data _ _ _ (inv_heap _ HI0) k0 b0 Hk0) as Hd.
        unfold buf_byte, data_ok in *. destruct (b_zero b0), (b_data b0), (b_ptr b0) as [j|]; try done.
        destruct Hd as (P & HP & _). specialize (Hmem j P HP). rewrite HP.
        destruct (l_ptrs l !! j); simpl in Hmem; simplify_eq. by f_equal.
    + intros k Hk. rewrite Eb, Eb0, lookup_insert_ne by lia. done.
Qed.
(** An array with one reference belongs to one buffer. *)
Lemma Heap_unique h n T i P k k' b b' :
  Heap h n T -> h !! i = Some P -> refs P = 1 -> T !! k = Some b -> T !! k' = Some b' ->
  b_ptr b = Some i -> b_ptr b' = Some i -> k' = k.
Proof.
  intros HH HP Hr Hk Hk' Ep Ep'. destruct (decide (k' = k)) as [|Hne]; [done|exfalso].
  rewrite (hp_refs _ _ _ HH i P HP) in Hr. unfold holders in Hr.
  rewrite (map_sum_delete _ T k b Hk), Ep, bool_decide_true in Hr by done.
  assert (Hd : delete k T !! k' = Some b') by (by rewrite lookup_delete_ne).
  rewrite (map_sum_delete _ _ k' b' Hd), Ep', bool_decide_true in Hr by done. cbn in Hr.
  pose proof (map_sum_nonneg (fun _ b => ind (bool_decide (b_ptr b = Some i))) (delete k' (delete k T))) as Hnn.
  assert (0 <= map_sum (fun _ b => ind (bool_decide (b_ptr b = Some i))) (delete k' (delete k T))); [|lia].
  apply Hnn. auto with go.
Qed.

(** What an insertion of bytes [d] at [off] in state [st] did. *)
Record inserted (off : Z) (d : list byte) (st : BufferState) l0 l : Prop := {
  ins_inv : Inv l;
  ins_view : forall x, if bool_decide (off <= x < off + zlen d)
    then exists v, znth d (x - off) = Some v /\ new_at (l_curDirtyID l0) l x (mkCell st false false false (Some v))
    else keepsW l0 l x;
  ins_above : forall k, off + zlen d < k -> bufs l !! k = bufs l0 !! k;
  ins_cur : l_curDirtyID l0 <= l_curDirtyID l;
}.

Lemma appended_range l off b (d : list byte) :
  Shape (bufs l) -> bufs l !! off = Some b -> off + zlen d <= limit -> 0 < zlen d ->
  (forall x, off <= x < off + zlen d -> owner l x = None) ->
  forall b', b_offset b' = b_offset b -> b_len b' = b_len b + zlen d ->
  range_ok (off + zlen d) b' /\ apart (delete off (bufs l)) (off + zlen d) b'.
Proof using Type*.
  intros HS Hk Hlim Hd Hfree b' Eo El. pose proof (sh_ok _ HS off b Hk) as (? & ? & ? & ?). split.
  - unfold BufferListInv.range_ok. lia.
  - intros k2 b2 [Hne Hb2]%lookup_delete_Some. pose proof (sh_ok _ HS k2 b2 Hb2) as (? & ? & ? & ?).
    rewrite Eo. destruct (decide (k2 < off)).
    + left. pose proof (sh_disj _ HS k2 off b2 b Hb2 Hk). lia.
    + right. pose proof (sh_disj _ HS off k2 b b2 Hk Hb2).
      destruct (decide (off + zlen d <= b_offset b2)); [done|].
      assert (owner l (b_offset b2) = None) as Hn by (apply Hfree; lia).
      rewrite (owner_intro l _ k2 b2 HS Hb2) in Hn; [done|lia].
Qed.

Lemma append_owner l0 l' off b (d : list byte) b'' x :
  Shape (bufs l0) -> Shape (bufs l') -> bufs l0 !! off = Some b -> 0 < zlen d ->
  (forall x, off <= x < off + zlen d -> owner l0 x = None) ->
  bufs l' = <[off + zlen d := b'']> (delete off (bufs l0)) -> b_offset b'' = b_offset b ->
  owner l' x = if bool_decide (b_offset b <= x < off + zlen d) then Some b'' else owner l0 x.
Proof using Type*.
  intros HS HS' Hk Hd Hfree Eb Eo. pose proof (sh_ok _ HS off b Hk) as (? & ? & ? & ?). case_bool_decide as Hx.
  - apply (owner_intro l' x (off + zlen d) b'' HS'); [by rewrite Eb, lookup_insert_eq|lia].
  - destruct (owner l0 x) as [b0|] eqn:E.
    + apply (owner_lookup l0 x b0 HS) in E as (k0 & Hk0 & Hx0). apply (owner_intro l' x k0 b0 HS'); [|done].
      rewrite Eb, lookup_insert_ne, lookup_delete_ne; [done| |].
      * intros <-. assert (b0 = b) by congruence. subst. lia.
      * intros <-. pose proof (sh_ok _ HS _ _ Hk0) as (? & ? & ? & ?).
        assert (Hn : owner l0 (off + zlen d - 1) = None) by (apply Hfree; lia).
        pose proof (sh_disj _ HS off (off + zlen d) b b0 Hk Hk0).
        rewrite (owner_intro l0 _ _ b0 HS Hk0) in Hn; [done|lia].
    + rewrite (owner_None l0 x HS) in E. apply (owner_None l' x HS'). rewrite Eb.
      intros k0 b0 [[<- <-]|[_ [_ ?]%lookup_delete_Some]]%lookup_insert_Some; [lia|eauto].
Qed.

Lemma append_spec l0 l off b s d i P st id :
  Inv l0 -> l = set_ids (l_curDirtyID l) l0 -> l_curDirtyID l0 <= l_curDirtyID l ->
  bufs l0 !! off = Some b -> b_state b = st -> b_data b = Some s -> b_ptr b = Some i ->
  l_ptrs l0 !! i = Some P -> refs P = 1 -> off + zlen d <= limit -> 0 < zlen d ->
  (forall x, off <= x < off + zlen d -> owner l0 x = None) ->
  (id = 0 /\ st <> BUF_DIRTY \/ id = l_curDirtyID l /\ l_curDirtyID l0 < id /\ st = BUF_DIRTY) ->
  wp (unqueue b ;;; at_delete (b_end b) ;;;
      let! '(allocated, pb') := Append b d in
      queue (set_dirtyID id (set_onDisk false pb')) ;;; ret allocated)
    (fun a l' => inserted off d st l0 l' /\ a = held (l_ptrs l') - held (l_ptrs l0) /\
      (forall i', i' <> i -> i' < l_nextPtr l0 -> l_ptrs l' !! i' = l_ptrs l0 !! i')) l.
Proof using Type*.
  intros HI0 El Hcur Hk Es Ed Ep HP Hr Hlim Hd Hfree Hid. pose proof HI0 as [HS HT HH HPl HId].
  pose proof (sh_ok _ HS off b Hk) as Hrb. pose proof Hrb as (? & ? & ? & ?).
  pose proof (HPl off b Hk) as Hpl. unfold place_ok in Hpl. rewrite Ed in Hpl. destruct Hpl as (_ & Hz & Hl & Hfc).
  apply wp_bind. wp_use (unqueue_spec l (bufs l0) off b); [|done|done|].
  { apply (Trk_frame l0); [|done]. by rewrite El. }
  intros _ l1 [HT1 (E1 & E2 & E3 & E4)]. unfold at_delete. wp_steps. rewrite (range_end off b Hrb).
  set (l2 := set_at (bt_delete off (l_at l1)) l1). rewrite El in E1, E3, E4. cbn in E1, E3, E4.
  assert (Eb2 : bufs l2 = delete off (bufs l0)) by (unfold bufs, l2; cbn; rewrite E1; apply bt_map_delete).
  wp_use (Append_spec l2 (bufs l0) off b s d i P); unfold l2; cbn; rewrite ?E3, ?E4; try done; [lia|]. fold l2.
  intros [a b'] l3 (s' & j & P' & -> & Esl & HP' & Hold & Hnew & Hoth & -> & HH3 & Eat & Hbk & Ecur).
  assert (Eb3 : bufs l3 = delete off (bufs l0)) by (unfold bufs in *; by rewrite Eat).
  pose proof (data_ok_len _ b s (hp_data _ _ _ HH off b Hk) Ed) as Esb.
  set (b'' := set_dirtyID id (set_onDisk false (appended b s' j))).
  destruct (appended_range l0 off b d HS Hk Hlim Hd Hfree b'') as [Hr'' Ha'']; [done|cbn; lia|].
  assert (Ec3 : l_curDirtyID l3 = l_curDirtyID l) by (rewrite Ecur; unfold l2; cbn; by rewrite E2).
  wp_steps. wp_use (queue_new_spec l3 (off + zlen d) b''); rewrite ?Eb3; try done.
  - by apply Shape_delete.
  - eapply Trk_frame; [exact Hbk|]. by apply (Trk_frame l1).
  - intros k0 b0 [_ ?]%lookup_delete_Some. eauto.
  - intros q. apply HH3; try done. by eapply apart_fresh; [apply Shape_delete|..].
  - intros q. rewrite Ec3. pose proof (id_nonneg _ _ HId). apply Ids_insert; cbn.
    + apply Ids_delete. by eapply Ids_mono.
    + intuition lia.
    + rewrite Es. intuition (congruence || lia).
    + intros k0 b0 [_ Hk0]%lookup_delete_Some _ E. pose proof (id_range _ _ HId k0 b0 Hk0). intuition lia.
  - intros _ l' (HI' & q & Eb' & Eh & En & Ec). wp_steps. rewrite Eh.
    split_and!; [split; [done| | |]|done|].
    + intros x. pose proof (append_owner l0 l' off b d (set_queueId q b'') x HS (inv_shape _ HI') Hk Hd Hfree) as Ho.
      rewrite Eb' in Ho. specialize (Ho eq_refl eq_refl).
      destruct (decide (off <= x < off + zlen d)) as [Hx|Hx];
        [rewrite (bool_decide_true (off <= _ < _)) by done|rewrite (bool_decide_false (off <= _ < _)) by done].
      * rewrite bool_decide_true in Ho by lia. destruct (znth_Some d (x - off)) as [v Hv]; [lia|].
        exists v. split; [done|]. exists (set_queueId q b''). split_and!; [done| |cbn; intuition (congruence || lia)].
        unfold cell_at. cbn. rewrite Es, Hl, Hz. f_equal. unfold buf_byte. cbn. rewrite Hz, Eh, HP'.
        rewrite <- Hv, <- Hnew by lia. f_equal. lia.
      * unfold keepsW. case_bool_decide as Hx2.
        -- rewrite (owner_intro l0 x off b HS Hk) by lia. exists (set_queueId q b''). split_and!; try done.
           ++ unfold buf_byte. cbn. rewrite Hz, Eh, HP', Ed, Ep, HP. apply Hold. lia.
           ++ cbn. unfold newer. pose proof (id_dirty _ _ HId off b Hk). rewrite Es in *. 
              assert (b_dirtyID b = 0 \/ b_dirtyID b <> 0) by lia. intuition (congruence || lia).
        -- rewrite Ho. destruct (owner l0 x) as [b0|] eqn:E; [|done]. exists b0.
           split_and!; try done; [|by left]. rewrite Eh.
           apply (owner_lookup l0 x b0 HS) in E as (k0 & Hk0 & Hx0).
           unfold buf_byte. destruct (b_zero b0), (b_data b0), (b_ptr b0) as [i0|] eqn:Ep0; try done.
           pose proof (hp_data _ _ _ HH k0 b0 Hk0) as Hd0. unfold data_ok in Hd0.
           rewrite Hoth; [done| |].
           ++ intros ->. assert (k0 = off) as -> by (by eapply (Heap_unique _ _ _ i P off k0 b b0)).
              assert (b0 = b) by congruence. subst b0. lia.
           ++ destruct (b_data b0); [|by rewrite Ep0 in Hd0].
              rewrite Ep0 in Hd0. destruct Hd0 as (P0 & HP0 & _). eapply (hp_next _ _ _ HH); eauto.
    + intros k0 Hk0. rewrite Eb', lookup_insert_ne, lookup_delete_ne by lia. done.
    + rewrite Ec, Ec3. done.
    + intros i' Hi' Hlt. by apply Hoth.
Qed.
Lemma can_append_spec l copyData off n st k b :
  Inv l -> bufs l !! k = Some b -> 0 <= off < limit ->
  wp (can_append copyData (Some b) off n st) (fun app l' => l' = l /\
    (app = true -> copyData = true /\ k = off /\ b_state b = st /\ exists s i P,
       b_data b = Some s /\ b_ptr b = Some i /\ l_ptrs l !! i = Some P /\ refs P = 1)) l.
Proof using Type*.
  intros HI Hk Hoff. pose proof (sh_ok _ (inv_shape _ HI) k b Hk) as Hr. unfold can_append.
  rewrite (range_end k b Hr). pose proof Hr as (? & ? & ? & ?).
  destruct copyData, (Z.eqb_spec k off); cbn; wp_steps; try done.
  destruct (PartNum_total (PartNumbering := helpers_parts) (b_offset b)) as (p1 & E1 & _); [lia|].
  destruct (PartNum_total (PartNumbering := helpers_parts) off) as (p2 & E2 & _); [lia|].
  eapply wp_liftO; [done|]. wp_steps. eapply wp_liftO; [done|].
  destruct (p1 =? p2); cbn; wp_steps; [|done]. destruct (is_state b st) eqn:Es; cbn; wp_steps; [|done].
  apply is_state_true in Es. pose proof (hp_data _ _ _ (inv_heap _ HI) k b Hk) as Hd. unfold data_ok in Hd.
  destruct (b_ptr b) as [i|] eqn:Ep; wp_steps; [|done]. destruct (b_data b) as [s|] eqn:Ed; [|done].
  destruct Hd as (P & HP & _). unfold get_ptr. wp_steps. rewrite HP. wp_steps. split; [done|].
  intros [Hr1 _]%andb_true_iff. apply Z.eqb_eq in Hr1. split_and!; try done. eauto 10.
Qed.

(** The buffer [insertOrAppend] inspects ends where the new data begins, or earlier. *)
Lemma prev_below l end_ b rest k off :
  Shape (bufs l) -> bt_descend end_ (l_at l) = (k, b) :: rest ->
  (forall x, off <= x < end_ -> owner l x = None) -> off < end_ -> bufs l !! k = Some b /\ k <= off.
Proof using Type*.
  intros HS E Hfree Hlt. apply bt_descend_cons in E as (Hle & Hk & _). split; [done|].
  pose proof (sh_ok _ HS k b Hk) as (? & ? & ? & ?). destruct (decide (k <= off)); [done|].
  assert (Hn : owner l (Z.max off (b_offset b)) = None) by (apply Hfree; lia).
  rewrite (owner_intro l _ k b HS Hk) in Hn; [done|lia].
Qed.

Lemma nextID_if l st :
  wp (if bool_decide (st = BUF_DIRTY) then nextID else ret 0)
    (fun id l' => l' = set_ids (l_curDirtyID l') l /\ l_curDirtyID l <= l_curDirtyID l' /\
      (id = 0 /\ st <> BUF_DIRTY \/ id = l_curDirtyID l' /\ l_curDirtyID l < id /\ st = BUF_DIRTY)) l.
Proof.
  case_bool_decide; unfold nextID; wp_steps; cbn.
  - split_and!; [done|lia|]. right. split_and!; (done || lia).
  - split_and!; [by destruct l|lia|by left].
Qed.

(** Inserting a new buffer that refers to array [p] at [s]. *)
Lemma insert_new_spec l0 l off (d : list byte) st id p s P :
  Inv l0 -> bufs l = bufs l0 -> same_book l0 l -> Heap (l_ptrs l) (l_nextPtr l) (bufs l0) ->
  (forall i P, l_ptrs l0 !! i = Some P -> mem <$> l_ptrs l !! i = Some (mem P)) ->
  l_curDirtyID l0 <= l_curDirtyID l ->
  (id = 0 /\ st <> BUF_DIRTY \/ id = l_curDirtyID l /\ l_curDirtyID l0 < id /\ st = BUF_DIRTY) ->
  st <> BUF_FL_CLEARED -> 0 <= off -> off + zlen d <= limit -> 0 < zlen d ->
  (forall x, off <= x < off + zlen d -> owner l0 x = None) ->
  l_ptrs l !! p = Some P -> 0 <= sl_off s -> sl_len s = zlen d -> sl_off s + zlen d <= zlen (mem P) ->
  (forall y, 0 <= y < zlen d -> znth (mem P) (sl_off s + y) = znth d y) ->
  wp (retain (Some p) ;;;
      queue (mkBuf 0 off (sl_len s) st false false false id (Some s) (Some p)) ;;; ret (zlen d))
    (fun a l' => inserted off d st l0 l' /\ a = zlen d /\ l_ptrs l' = bump 1 (Some p) (l_ptrs l)) l.
Proof using Type*.
  intros HI0 Eb Hbk HH Hmem Hcur Hid Hst Ho Hlim Hd Hfree HP Hs1 Hs2 Hs3 Hbytes.
  pose proof (inv_shape _ HI0) as HS. apply wp_bind. eapply wp_of_run; [by eapply retain_run|]. cbn beta.
  set (l1 := set_ptrs (bump 1 (Some p) (l_ptrs l)) (l_nextPtr l) l).
  set (b := mkBuf 0 off (sl_len s) st false false false id (Some s) (Some p)).
  assert (Hr : range_ok (off + zlen d) b) by (unfold BufferListInv.range_ok; cbn; lia).
  pose proof (free_apart l0 _ b HS Hr Hfree) as Ha.
  assert (HP1 : mem <$> l_ptrs l1 !! p = Some (mem P)) by (unfold l1; cbn [set_ptrs l_ptrs]; rewrite bump_mem, HP; done).
  assert (Hcell : forall x, off <= x < off + zlen d ->
    cell_at (l_ptrs l1) b x = mkCell st false false false (znth d (x - off))).
  { intros x Hx. change (cell_at (l_ptrs l1) b x) with (mkCell st false false false (buf_byte (l_ptrs l1) b x)). f_equal. 
    change (buf_byte (l_ptrs l1) b x) with
      (match l_ptrs l1 !! p with Some P => znth (mem P) (sl_off s + (x - off)) | None => None end).
    destruct (l_ptrs l1 !! p) as [P1|]; simpl in HP1; [|done]. injection HP1 as E1. rewrite E1. apply Hbytes. lia. }
  wp_steps. wp_use (queue_keeps l0 l1 (off + zlen d) b (fun x => mkCell st false false false (znth d (x - off))) HI0 Hr Hfree);
    try done.
  - intros i. replace (bufs l1) with (bufs l0) by (by rewrite <- Eb).
    apply (Heap_insert (l_ptrs l) (l_nextPtr l) (bufs l0) (off + zlen d) (set_queueId i b)); [done|by eapply apart_fresh|].
    exists P. split_and!; try done; cbn; lia.
  - cbn. destruct Hid as [?|(-> & ? & ?)]; [by left|by right].
  - intros i P0 HP0. cbn [l1 set_ptrs l_ptrs]. rewrite bump_mem. by apply Hmem.
  - intros _ l' (HI' & Hv & Habove & Eh & Ec). wp_steps. split_and!; [|done|by rewrite Eh].
    split; [done| |done|rewrite Ec; done]. intros x. specialize (Hv x). cbn in Hv.
    case_bool_decide as Hx; [|done]. destruct (znth_Some d (x - off)) as [v Hv']; [lia|].
    exists v. split; [done|]. by rewrite Hv' in Hv.
Qed.
(** The array of the data being inserted, after an insertion. *)
Definition source_kept (dp : Z) (D : BufferPointer) (copyData : bool) l : Prop :=
  l_ptrs l !! dp = Some (with_refs (refs D + ind (negb copyData)) D).
(** By how much the returned delta exceeds the change of the memory held. *)
Definition overcount (D : BufferPointer) (copyData : bool) (n : Z) : Z :=
  if copyData then 0 else n - (if refs D =? 0 then mem_len D else 0).

Lemma held_new h n T (P : BufferPointer) :
  Heap h n T -> refs P = 0 -> held (<[n := P]> h) = held h.
Proof.
  intros HH Hr. destruct (Heap_fresh h n T n HH) as [Hn _]; [lia|].
  unfold held. rewrite map_sum_insert, Hr by done. done.
Qed.

Lemma held_bump_first h i P :
  h !! i = Some P -> 0 <= refs P -> held (bump 1 (Some i) h) = held h + (if refs P =? 0 then mem_len P else 0).
Proof.
  intros HP Hr. unfold bump, held. rewrite HP, (map_sum_update _ _ i P _ HP). cbn.
  destruct (Z.ltb_spec 0 (refs P)), (Z.ltb_spec 0 (refs P + 1)), (Z.eqb_spec (refs P) 0); lia.
Qed.

Lemma insertOrAppend_spec l off dp D lo hi st copyData :
  Inv l -> l_ptrs l !! dp = Some D -> 0 <= lo < hi -> hi <= zlen (mem D) ->
  (copyData = true -> refs D = 0) -> st <> BUF_FL_CLEARED -> 0 <= off -> off + (hi - lo) <= limit ->
  (forall x, off <= x < off + (hi - lo) -> owner l x = None) ->
  wp (insertOrAppend off dp lo hi st copyData) (fun a l' =>
    inserted off (slice lo hi (mem D)) st l l' /\ source_kept dp D copyData l' /\
    a = held (l_ptrs l') - held (l_ptrs l) + overcount D copyData (hi - lo)) l.
Proof using Type*.
  intros HI HD Hlo Hhi Hcopy Hst Hoff Hlim Hfree. pose proof limit_range.
  pose proof (inv_shape _ HI) as HS. pose proof (inv_heap _ HI) as HH.
  set (d := slice lo hi (mem D)). assert (Hd : zlen d = hi - lo) by (unfold d; rewrite zlen_slice; lia).
  unfold insertOrAppend. destruct (Z.eqb_spec (hi - lo) 0) as [|_]; [lia|].
  apply wp_bind. unfold get_ptr at 1. wp_steps. rewrite HD. wp_steps. cbn beta iota zeta. fold d.
  wp_use (nextID_if l st). intros id l1 (E1 & Hcur & Hid). wp_steps. rewrite u64_small by lia.
  assert (Eat : l_at l1 = l_at l) by (by rewrite E1). rewrite Eat.
  assert (Eh : l_ptrs l1 = l_ptrs l) by (by rewrite E1).
  assert (En : l_nextPtr l1 = l_nextPtr l) by (by rewrite E1).
  assert (Hbk : same_book l l1) by (by rewrite E1).
  rewrite <- Hd in *. set (end_ := off + zlen d) in *.
  set (k := fun app : bool => _).
  assert (Hnew : wp (if copyData
                     then let! j := new_ptr (mkPtr d (zlen d) 0) in ret (j, mkSlice 0 (zlen d))
                     else ret (dp, mkSlice lo (zlen d))) (fun '(p, s) l' =>
             wp (retain (Some p) ;;; queue (mkBuf 0 off (sl_len s) st false false false id (Some s) (Some p)) ;;;
                 ret (zlen d))
               (fun a l' => inserted off d st l l' /\ source_kept dp D copyData l' /\
                  a = held (l_ptrs l') - held (l_ptrs l) + overcount D copyData (zlen d)) l') l1).
  { destruct copyData.
    - apply wp_bind. eapply wp_of_run; [done|]. apply wp_ret. cbn beta iota.
      set (n := l_nextPtr l1). set (P := mkPtr d (zlen d) 0).
      assert (Hnd : n <> dp) by (unfold n; rewrite En; pose proof (hp_next _ _ _ HH dp D HD); lia).
      assert (HHn : Heap (<[n:=P]> (l_ptrs l)) (n + 1) (bufs l)).
      { unfold n. rewrite En. apply Heap_new; [done|done|cbn; lia]. }
      destruct (Heap_fresh _ _ _ n HH) as [Hfr _]; [unfold n; lia|].
      wp_use (insert_new_spec l (set_ptrs (<[n:=P]> (l_ptrs l1)) (n + 1) l1) off d st id n (mkSlice 0 (zlen d)) P);
        cbn [set_ptrs l_ptrs l_nextPtr]; rewrite ?Eh; try done; try (cbn; lia).
      + unfold bufs. cbn. by rewrite Eat.
      + intros i P0 HP0. rewrite lookup_insert_ne by (intros <-; congruence). by rewrite HP0.
      + by apply lookup_insert_eq.
      + intros a l' (Hins & -> & Ep). split_and!; [done| |]; rewrite ?Ep.
        * unfold source_kept. rewrite Ep. unfold bump. rewrite lookup_insert_eq.
          rewrite !lookup_insert_ne, HD by done. cbn. rewrite Z.add_0_r. by destruct D.
        * rewrite (held_bump_first _ n P), (held_new _ _ (bufs l)) by (done || by rewrite lookup_insert_eq || (unfold n; by rewrite En)).
          cbn. lia.
    - apply wp_ret. cbn beta iota. wp_use (insert_new_spec l l1 off d st id dp (mkSlice lo (zlen d)) D); rewrite ?Eh; try done; try (cbn; lia).
      + unfold bufs. by rewrite Eat.
      + by rewrite En.
      + intros i P0 HP0. by rewrite HP0.
      + intros y Hy. cbn. unfold d. rewrite znth_slice by lia. done.
      + intros a l' (Hins & -> & Ep). split_and!; [done| |]; rewrite ?Ep.
        * unfold source_kept. rewrite Ep. unfold bump. by rewrite HD, lookup_insert_eq.
        * rewrite (held_bump_first _ dp D) by (done || (rewrite (hp_refs _ _ _ HH dp D HD); apply map_sum_nonneg; auto with go)).
          cbn. lia. }
  destruct (bt_descend end_ (l_at l)) as [|[kp pb] rest] eqn:E; cbn [hd_buf head fmap option_fmap option_map snd].
  { apply wp_bind. unfold can_append. wp_steps. unfold k. apply wp_bind. wp_use Hnew. by intros []. }
  destruct (prev_below l end_ pb rest kp off HS E) as [Hkp Hle]; [done|unfold end_; lia|].
  rewrite (range_end kp pb) by (by apply (sh_ok _ HS)). destruct (Z.eqb_spec kp end_); [unfold end_ in *; lia|].
  apply wp_bind. wp_use (can_append_spec l1 copyData off (zlen d) st kp pb); [|unfold bufs; by rewrite Eat|unfold end_ in *; lia|].
  { destruct HI as [? ? ? ? HId]. split; unfold bufs in *; rewrite ?Eat, ?Eh, ?En; try done;
      [by apply (Trk_frame l)|by eapply Ids_mono]. }
  intros app l2 [-> Happ]. unfold k. destruct app; [|apply wp_bind; wp_use Hnew; by intros []].
  destruct Happ as (Hc & -> & Es & s & i & P & Ed & Ep & HP & Hr1); [done|].
  rewrite Eh in HP. wp_use (append_spec l l1 off pb s d i P st id); try done; try lia.
  intros a l' (Hins & -> & Hoth). split_and!; [done| |unfold overcount; rewrite Hc; lia].
  unfold source_kept. rewrite Hoth, HD, Hc; [cbn; rewrite Z.add_0_r; by destruct D| |by eapply (hp_next _ _ _ HH)].
  intros ->. specialize (Hcopy Hc). assert (D = P) by congruence. subst. lia.
Qed.
(** ** Filling the uncovered ranges *)

Definition covered l (a e : Z) : Prop := forall x, a <= x < e -> owner l x <> None.

Lemma fill_skip_spec l items cur hi cur' next :
  Shape (bufs l) -> items = bt_ascend (cur + 1) (l_at l) ->
  fill_skip cur hi items = (cur', next) ->
  cur <= cur' /\ covered l cur cur' /\
  (List.length (bt_ascend (cur' + 1) (l_at l)) <= List.length items)%nat /\
  (owner l cur <> None -> cur' < hi -> (List.length (bt_ascend (cur' + 1) (l_at l)) < List.length items)%nat) /\
  (cur' < hi -> next = hd_buf (bt_ascend (cur' + 1) (l_at l)) /\ (forall b, next = Some b -> cur' < b_offset b)).
Proof using Type*.
  intros HS. revert cur. induction items as [|[k b] rest IH]; intros cur Eit Efs; cbn in Efs.
  - injection Efs as <- <-. split_and!; try lia.
    + intros x ?. lia.
    + by rewrite <- Eit.
    + intros Hc. unfold owner in Hc. by rewrite <- Eit in Hc.
    + intros _. split; [by rewrite <- Eit|done].
  - symmetry in Eit. pose proof (bt_ascend_cons _ _ _ _ _ Eit) as (Hk1 & Hk & Hno & ->).
    pose proof (sh_ok _ HS k b Hk) as Hr. rewrite (range_end k b Hr) in Efs. pose proof Hr as (? & ? & ? & ?).
    destruct (Z.leb_spec (b_offset b) cur) as [Ho|Ho].
    + assert (Hcov : covered l cur k).
      { intros x Hx. rewrite (owner_intro l x k b HS Hk) by lia. done. }
      destruct (Z.ltb_spec k hi).
      * destruct (IH k eq_refl Efs) as (? & Hc & Hl & _ & Hn). split_and!; [lia| |cbn; lia|cbn; lia|done].
        intros x Hx. destruct (decide (x < k)); [apply Hcov; lia|apply Hc; lia].
      * injection Efs as <- <-. split_and!; [lia|done|cbn; lia|lia|lia].
    + injection Efs as <- <-. split_and!; [lia|intros x ?; lia|by rewrite Eit| |].
      * intros Hc. unfold owner in Hc. rewrite Eit in Hc. cbn in Hc.
        destruct (Z.leb_spec (b_offset b) cur); [lia|done].
      * intros _. split; [by rewrite Eit|]. by intros ? [= <-].
Qed.

(** The uncovered range [fill] finds next: it ends at the next buffer or at the end. *)
Lemma fill_gap l cur hi next :
  Shape (bufs l) -> cur < hi -> next = hd_buf (bt_ascend (cur + 1) (l_at l)) ->
  (forall b, next = Some b -> cur < b_offset b) ->
  let e := match next with Some b => if b_offset b <? hi then b_offset b else hi | None => hi end in
  cur < e <= hi /\ (forall x, cur <= x < e -> owner l x = None) /\
  (e < hi -> owner l e <> None /\ bt_ascend (e + 1) (l_at l) = bt_ascend (cur + 1) (l_at l)).
Proof using Type*.
  intros HS Hlt En Hnext e. destruct (bt_ascend (cur + 1) (l_at l)) as [|[k b] rest] eqn:E; cbn in En; subst next.
  - subst e. split_and!; [lia|lia| |lia]. intros x Hx. apply (owner_None l x HS). intros k b Hk ?.
    assert (cur + 1 <= k) by lia. unfold bufs in Hk. by rewrite (bt_ascend_nil _ _ k E) in Hk.
  - specialize (Hnext b eq_refl). pose proof (bt_ascend_cons _ _ _ _ _ E) as (Hk1 & Hk & Hno & Er).
    pose proof (sh_ok _ HS k b Hk) as (? & ? & ? & ?).
    assert (He : e <= b_offset b /\ e <= hi /\ cur < e /\ (e < hi -> e = b_offset b)).
    { subst e. destruct (Z.ltb_spec (b_offset b) hi); lia. }
    split_and!; [lia|lia| |].
    + intros x Hx. apply (owner_None l x HS). intros k2 b2 Hk2 Hx2. destruct (decide (k2 < k)).
      * unfold bufs in Hk2. rewrite Hno in Hk2 by lia. done.
      * destruct (decide (k2 = k)) as [->|]; [assert (b2 = b) by (unfold bufs in Hk2; congruence); subst; lia|].
        pose proof (sh_disj _ HS k k2 b b2 Hk Hk2). lia.
    + intros He2. assert (Ee : e = b_offset b) by tauto.
      split; [rewrite (owner_intro l e k b HS Hk) by lia; done|]. rewrite Er.
      apply bt_ascend_first; [lia|done|]. intros k' ?. apply Hno. lia.
Qed.

Section fill_rule.
Context {A : Type} (cb : A -> Z -> Z -> St (bl M Q) A) (lo hi : Z).
Context (J : Z -> A -> bl M Q -> Prop) (R : A -> bl M Q -> Prop).
(** [J c acc l]: every byte of the range below [c] is covered. *)
Context (HJ : forall c acc l, J c acc l -> Shape (bufs l)).
Context (Hskip : forall c c' acc l, J c acc l -> c <= c' -> covered l c c' -> J c' acc l).
Context (Hcb : forall c e acc l, J c acc l -> lo <= c < e -> e <= hi -> (forall x, c <= x < e -> owner l x = None) ->
  wp (cb acc c e) (fun acc' l' => J e acc' l' /\ (forall k, e < k -> bufs l' !! k = bufs l !! k)) l).
Context (Hend : forall c acc l, J c acc l -> hi <= c -> R acc l).

Lemma fill_loop_rule fuel cur acc l :
  J cur acc l -> 0 <= lo <= cur -> hi < two64 ->
  (cur < hi -> owner l cur = None -> (List.length (bt_ascend (cur + 1) (l_at l)) < fuel)%nat) ->
  (cur < hi -> owner l cur <> None -> (List.length (bt_ascend (cur + 1) (l_at l)) <= fuel)%nat) ->
  wp (fill_loop fuel cur hi cb acc) R l.
Proof using Type*.
  revert cur acc l. induction fuel as [|fuel IH]; intros cur acc l HJl Hlo Hhi Hf1 Hf2; cbn [fill_loop];
    (destruct (Z.ltb_spec cur hi); [|by eapply wp_ret, Hend]); pose proof (HJ _ _ _ HJl) as HS.
  { exfalso. destruct (owner l cur) as [b|] eqn:E.
    - unfold owner in E. destruct (bt_ascend (cur + 1) (l_at l)); [done|]. cbn in *.
      specialize (Hf2 ltac:(lia) ltac:(done)). lia.
    - specialize (Hf1 ltac:(lia) eq_refl). lia. }
  wp_steps. rewrite u64_small by lia.
  destruct (fill_skip cur hi (bt_ascend (cur + 1) (l_at l))) as [cur' next] eqn:Efs.
  destruct (fill_skip_spec l _ cur hi cur' next HS eq_refl Efs) as (Hle & Hcov & Hlen & Hlen' & Hn).
  destruct (Z.ltb_spec cur' hi) as [Hc'|]; [|wp_steps; eapply Hend; [eapply Hskip|]; eauto].
  destruct (Hn Hc') as [En Hnb]. destruct (fill_gap l cur' hi next HS Hc' En Hnb) as (He & Hfree & He2).
  set (e := match next with Some b => _ | None => _ end) in *.
  wp_steps. eapply wp_mono; [apply (Hcb cur' e acc l); [by eapply Hskip|lia|lia|done]|]. cbn beta.
  intros acc' l' [HJ' Hab]. destruct (decide (e < hi)) as [Hlt|].
  2: { destruct fuel; cbn [fill_loop]; (destruct (Z.ltb_spec e hi); [lia|]); eapply wp_ret, Hend; eauto; lia. }
  destruct (He2 Hlt) as [Hcov2 Easc].
  assert (Easc' : bt_ascend (e + 1) (l_at l') = bt_ascend (e + 1) (l_at l)).
  { apply bt_ascend_ext. intros k Hk. apply Hab. lia. }
  assert (Hown : owner l' e <> None).
  { unfold owner in *. by rewrite Easc'. }
  apply IH; [done|lia|done|done|]. intros _ _. rewrite Easc', Easc.
  destruct (owner l cur) as [b|] eqn:Eo.
  - specialize (Hf2 ltac:(lia) ltac:(done)). specialize (Hlen' ltac:(done) Hc'). lia.
  - specialize (Hf1 ltac:(lia) eq_refl). lia.
Qed.

Lemma fill_rule acc l :
  J lo acc l -> 0 <= lo < hi -> hi < two64 -> wp (fill lo (hi - lo) cb acc) R l.
Proof using Type*.
  intros HJl Hlo Hhi. unfold fill. wp_steps. rewrite !u64_small by lia.
  replace (lo + (hi - lo)) with hi by lia. apply fill_loop_rule; try done; try lia.
Qed.
End fill_rule.

(** On an uncovered range [fill] makes exactly one call. *)
Lemma fill_free {A} (cb : A -> Z -> Z -> St (bl M Q) A) (lo hi : Z) acc (R : A -> bl M Q -> Prop) l :
  Shape (bufs l) -> 0 <= lo < hi -> hi < two64 -> (forall x, lo <= x < hi -> owner l x = None) ->
  wp (cb acc lo hi) R l -> wp (fill lo (hi - lo) cb acc) R l.
Proof using Type*.
  intros HS Hlo Hhi Hfree Hwp. unfold fill. wp_steps. rewrite !u64_small by lia.
  replace (lo + (hi - lo)) with hi by lia. set (fuel := List.length _). cbn [fill_loop].
  destruct (Z.ltb_spec lo hi); [|lia]. wp_steps. rewrite u64_small by lia.
  destruct (fill_skip lo hi (bt_ascend (lo + 1) (l_at l))) as [cur' next] eqn:Efs.
  destruct (fill_skip_spec l _ lo hi cur' next HS eq_refl Efs) as (Hle & Hcov & _ & _ & Hn).
  assert (cur' = lo) as ->.
  { destruct (decide (cur' = lo)); [done|]. destruct (Hcov lo); [lia|apply Hfree; lia]. }
  destruct (Z.ltb_spec lo hi); [|lia]. destruct (Hn ltac:(lia)) as [En Hnb].
  destruct (fill_gap l lo hi next HS ltac:(lia) En Hnb) as (He & _ & He2).
  set (e := match next with Some b => _ | None => _ end) in *.
  assert (e = hi) as ->.
  { destruct (decide (e < hi)) as [Hlt|]; [|lia]. destruct (He2 Hlt) as [Hc _]. destruct Hc. apply Hfree. lia. }
  wp_steps. wp_use Hwp. intros a l' HR. destruct fuel; cbn [fill_loop]; rewrite Z.ltb_irrefl; by wp_steps.
Qed.
(** ** Add *)

(** Growing the heap keeps every cell. *)
Lemma keeps_heap l l' x :
  Inv l -> owner l' x = owner l x ->
  (forall i P, l_ptrs l !! i = Some P -> mem <$> l_ptrs l' !! i = Some (mem P)) -> keeps l l' x.
Proof using Type*.
  intros HI Eo Hmem. unfold keeps. destruct (owner l x) as [b|] eqn:E; [|done].
  exists b. split_and!; [done| |by left]. unfold cell_at. f_equal.
  apply (owner_lookup l x b (inv_shape _ HI)) in E as (k & Hk & _).
  pose proof (hp_data _ _ _ (inv_heap _ HI) k b Hk) as Hd. unfold buf_byte, data_ok in *.
  destruct (b_zero b), (b_data b), (b_ptr b) as [j|]; try done.
  destruct Hd as (P & HP & _). specialize (Hmem j P HP). rewrite HP.
  destruct (l_ptrs l' !! j); simpl in Hmem; simplify_eq. by f_equal.
Qed.

Lemma new_ptr_spec l P :
  Inv l -> refs P = 0 -> 0 <= mem_len P <= zlen (mem P) ->
  wp (new_ptr P) (fun p l' => Inv l' /\ p = l_nextPtr l /\ l_ptrs l' !! p = Some P /\ (forall x, keeps l l' x) /\
    held (l_ptrs l') = held (l_ptrs l) /\ l_curDirtyID l' = l_curDirtyID l /\ l_at l' = l_at l) l.
Proof using Type*.
  intros HI Hr Hl. pose proof HI as [HS HT HH HPl HId]. eapply wp_of_run; [done|]. cbn.
  destruct (Heap_fresh _ _ _ (l_nextPtr l) HH) as [Hfr _]; [lia|].
  split_and!; try done; [split; try done| | |].
  - by apply (Trk_frame l).
  - by apply Heap_new.
  - by rewrite lookup_insert_eq.
  - intros x. apply keeps_heap; [done..|]. intros i P0 HP0. cbn. rewrite lookup_insert_ne; [by rewrite HP0|congruence].
  - by eapply held_new.
Qed.

(** The filter [Add] passes to [RemoveRange]. *)
Definition add_filter (st : BufferState) (b : FileBuffer) : bool :=
  is_state b BUF_CLEAN || negb (bool_decide (st = BUF_CLEAN)).
(** The bytes of the range that an [Add] in state [st] writes. *)
Definition writes l (st : BufferState) (x : Z) : bool :=
  match owner l x with Some b => add_filter st b | None => true end.

(** [Add] up to the insertions: the overwritten bytes are gone, the data array is allocated. *)
Lemma Add_prefix l off (data spare : list byte) st (R : Z -> bl M Q -> Prop) (k : Z -> Z -> St (bl M Q) Z) :
  Inv l -> 0 <= off -> 0 < zlen data -> off + zlen data < two64 ->
  (forall l2 dp a, Inv l2 -> l_ptrs l2 !! dp = Some (mkPtr (data ++ spare) (zlen data) 0) ->
    (forall x, if gone l off (off + zlen data) (Some (add_filter st)) x then owner l2 x = None else keepsW l l2 x) ->
    a = held (l_ptrs l2) - held (l_ptrs l) -> l_curDirtyID l <= l_curDirtyID l2 -> wp (k a dp) R l2) ->
  wp (let! a := RemoveRange off (zlen data) (Some (add_filter st)) in
      let! dp := new_ptr (mkPtr (data ++ spare) (zlen data) 0) in k a dp) R l.
Proof using Type*.
  intros HI Hoff Hn Hlim Hk. apply wp_bind.
  wp_use (RemoveRange_cut l off (zlen data) (Some (add_filter st)) HI); [lia..|].
  intros a l1 [HI1 Hown Ha Hcur _ _]. apply wp_bind. wp_use (new_ptr_spec l1 _ HI1); [done| |].
  { cbn. rewrite zlen_app. pose proof (zlen_nonneg spare). lia. }
  intros dp l2 (HI2 & -> & HP & Hkeep & Hheld & Ec & _). apply Hk; try done; [|lia|lia].
  intros x. specialize (Hown x). specialize (Hkeep x). destruct (gone _ _ _ _ x).
  - by eapply keeps_none.
  - apply keeps_keepsW. by eapply keeps_trans.
Qed.

(** What [Add] did. *)
Record added (off : Z) (data : list byte) (st : BufferState) l l' : Prop := {
  add_inv : Inv l';
  add_view : forall x, if bool_decide (off <= x < off + zlen data) && writes l st x
    then exists v, znth data (x - off) = Some v /\ new_at (l_curDirtyID l) l' x (mkCell st false false false (Some v))
    else keepsW l l' x;
  add_cur : l_curDirtyID l <= l_curDirtyID l';
}.

Lemma gone_writes l off n st x :
  gone l off (off + n) (Some (add_filter st)) x =
  bool_decide (off <= x < off + n) && writes l st x && negb (bool_decide (owner l x = None)).
Proof.
  unfold gone, hit, writes.
  assert (E : bool_decide (off <= x < off + n) = (off <=? x) && (x <? off + n)).
  { destruct (Z.leb_spec off x), (Z.ltb_spec x (off + n)); cbn;
      first [apply bool_decide_true|apply bool_decide_false]; lia. }
  rewrite E. destruct (owner l x); cbn; by rewrite ?andb_true_r, ?andb_false_r.
Qed.

(** New bytes written after a prefix that only removed or split. *)
Lemma new_at_le n n' l x c : n <= n' -> new_at n' l x c -> new_at n l x c.
Proof. intros Hn (b & ? & ? & Hid). exists b. split_and!; try done. intros ?. specialize (Hid ltac:(done)). lia. Qed.

(** A write that is not of clean data replaces the whole range at once. *)
Lemma Add_dirty_spec l off (data spare : list byte) st copyData :
  Inv l -> 0 <= off -> 0 < zlen data -> off + zlen data <= limit -> st <> BUF_FL_CLEARED -> st <> BUF_CLEAN ->
  wp (Add off data spare st copyData) (fun a l' => added off data st l l' /\
    a = held (l_ptrs l') - held (l_ptrs l)) l.
Proof using Type*.
  intros HI Hoff Hn Hlim Hst Hst2. pose proof limit_range. pose proof (zlen_nonneg spare).
  unfold Add. apply Add_prefix; [done|lia..|].
  intros l2 dp a HI2 HP Hown Ha Hcur. pose proof (inv_shape _ HI2) as HS2.
  assert (Hw : forall x, writes l st x = true).
  { intros x. unfold writes, add_filter. destruct (owner l x); [|done]. by rewrite bool_decide_false, orb_true_r by done. }
  assert (Hfree : forall x, off <= x < off + zlen data -> owner l2 x = None).
  { intros x Hx. specialize (Hown x). rewrite gone_writes, Hw, bool_decide_true in Hown by done. cbn in Hown.
    destruct (bool_decide (owner l x = None)) eqn:E; cbn in Hown; [|done].
    apply bool_decide_eq_true in E. by eapply keepsW_none. }
  replace (zlen data) with ((off + zlen data) - off) at 1 by lia.
  apply fill_free; [done|lia|lia|done|]. wp_steps. rewrite Z.sub_diag, !u64_small by lia.
  replace (off + zlen data - off) with (zlen data) by lia.
  wp_use (insertOrAppend_spec l2 off dp _ 0 (zlen data) st copyData HI2 HP);
    rewrite ?Z.sub_0_r; try done; try lia; [cbn; rewrite zlen_app; lia|].
  cbn [mem]. intros a' l' ([HI' Hv _ Hc'] & _ & Ha'). wp_steps.
  assert (Esl : slice 0 (zlen data) (data ++ spare) = data).
  { unfold slice, zlen. rewrite Z.sub_0_r, Nat2Z.id. apply take_app_length. }
  rewrite Esl in Hv. split.
  - split; [done| |lia]. intros x. specialize (Hv x). specialize (Hown x). rewrite Hw, andb_true_r.
    rewrite gone_writes, Hw, andb_true_r in Hown. case_bool_decide.
    + destruct Hv as (v & ? & ?). exists v. split; [done|]. by eapply new_at_le.
    + cbn in Hown. by eapply keepsW_trans.
  - unfold overcount in Ha'. cbn in Ha'. destruct copyData; lia.
Qed.
(** ** Insertions into the holes of a range *)

(** The holes of [l2] in [lo, c) now hold [cellf]; the rest of [l2] is kept. *)
Record filled l2 (lo c : Z) (cellf : Z -> cell) l : Prop := {
  fl_inv : Inv l;
  fl_view : forall x, if bool_decide (lo <= x < c) && bool_decide (owner l2 x = None)
    then new_at (l_curDirtyID l2) l x (cellf x) else keepsW l2 l x;
  fl_cur : l_curDirtyID l2 <= l_curDirtyID l;
}.

Lemma filled_start l2 lo cellf : Inv l2 -> filled l2 lo lo cellf l2.
Proof using Type*.
  intros HI. split; [done| |lia]. intros x. rewrite bool_decide_false by lia.
  apply keeps_keepsW, keeps_self.
Qed.

Lemma filled_skip l2 lo c c' cellf l :
  filled l2 lo c cellf l -> lo <= c <= c' -> covered l c c' -> filled l2 lo c' cellf l.
Proof using Type*.
  intros [HI Hv Hc] Hlo Hcov. split; [done| |done]. intros x. specialize (Hv x).
  destruct (decide (c <= x < c')) as [Hx|Hx].
  - rewrite (bool_decide_false (lo <= x < c)) in Hv by lia. cbn in Hv.
    rewrite (bool_decide_false (owner l2 x = None)), andb_false_r; [done|].
    intros E. by apply (Hcov x Hx), (keepsW_none l2).
  - rewrite (bool_decide_ext (lo <= x < c') (lo <= x < c)) by lia. done.
Qed.

Lemma filled_step l2 lo c e cellf l l' :
  filled l2 lo c cellf l -> lo <= c <= e -> (forall x, c <= x < e -> owner l x = None) ->
  (forall x, c_onDisk (cellf x) = false) -> Inv l' -> l_curDirtyID l <= l_curDirtyID l' ->
  (forall x, if bool_decide (c <= x < e) then new_at (l_curDirtyID l) l' x (cellf x) else keepsW l l' x) ->
  filled l2 lo e cellf l'.
Proof using Type*.
  intros [HI Hv Hc] Hlo Hfree Hod HI' Hc' Hnew. split; [done| |lia].
  intros x. specialize (Hv x). specialize (Hnew x).
  destruct (decide (c <= x < e)) as [Hx|Hx].
  - rewrite (bool_decide_true (c <= x < e)) in Hnew by done.
    rewrite (bool_decide_false (lo <= x < c)) in Hv by lia. cbn in Hv.
    rewrite !bool_decide_true; [by eapply new_at_le| |lia].
    destruct (owner l2 x) as [b|] eqn:E; [|done]. unfold keepsW in Hv. rewrite E in Hv.
    destruct Hv as (b' & E' & _). by rewrite (Hfree x Hx) in E'.
  - rewrite (bool_decide_false (c <= x < e)) in Hnew by done.
    rewrite (bool_decide_ext (lo <= x < e) (lo <= x < c)) by lia.
    destruct (bool_decide (lo <= x < c) && bool_decide (owner l2 x = None)).
    + by eapply new_at_keepsW.
    + by eapply keepsW_trans.
Qed.

Lemma Add_clean_spec l off (data spare : list byte) copyData :
  Inv l -> 0 <= off -> 0 < zlen data -> off + zlen data <= limit ->
  wp (Add off data spare BUF_CLEAN copyData) (fun a l' => added off data BUF_CLEAN l l' /\
    (copyData = true -> a = held (l_ptrs l') - held (l_ptrs l))) l.
Proof using Type*.
  intros HI Hoff Hn Hlim. pose proof limit_range. pose proof (zlen_nonneg spare).
  unfold Add. apply Add_prefix; [done|lia..|]. intros l2 dp a0 HI2 HP Hown Ha Hcur.
  set (hi := off + zlen data). set (D := mkPtr (data ++ spare) (zlen data) 0).
  set (cellf := fun x => mkCell BUF_CLEAN false false false (znth data (x - off))).
  replace (zlen data) with (hi - off) by (unfold hi; lia).
  apply fill_rule with (lo := off) (hi := hi) (J := fun c a l' => off <= c /\ filled l2 off (Z.min c hi) cellf l' /\
    (exists r, l_ptrs l' !! dp = Some (with_refs r D) /\ (copyData = true -> r = 0)) /\
    (copyData = true -> a = held (l_ptrs l') - held (l_ptrs l))).
  - intros c a l1 (_ & HF & _). apply (fl_inv _ _ _ _ _ HF).
  - intros c c' a l1 (Hc & HF & Hr & Ha1) Hle Hcov. split_and!; [lia| |done|done].
    eapply filled_skip; [done|unfold hi; lia|]. intros x ?. apply Hcov. lia.
  - intros c e a l1 (Hc & HF & (r & Hr & Hr0) & Hacc) Hce He Hfree. rewrite Z.min_l in HF by lia. rewrite Z.min_l by lia. unfold hi in He.
    rewrite !u64_small by lia. apply wp_bind.
    wp_use (insertOrAppend_spec l1 c dp (with_refs r D) (c - off) (e - off) BUF_CLEAN copyData (fl_inv _ _ _ _ _ HF) Hr);
      try done; try lia; [cbn; rewrite zlen_app; lia|intros x Hx; apply Hfree; lia|].
    intros a' l' ([HI' Hv Habove Hc'] & Hsrc & Ha'). wp_steps. cbn [mem with_refs D] in Hv, Habove.
    assert (Esl : zlen (slice (c - off) (e - off) (data ++ spare)) = e - c).
    { rewrite zlen_slice; [lia|lia|]. rewrite zlen_app. lia. }
    rewrite Esl in *. replace (c + (e - c)) with e in * by lia.
    split; [|done]. split_and!; [lia| | |].
    + eapply filled_step; try done; [lia|]. intros x. specialize (Hv x). case_bool_decide as Hx; [|done].
      destruct Hv as (v & Hv & Hnew). rewrite znth_slice in Hv by (rewrite ?zlen_app; lia).
      rewrite znth_app_l in Hv by lia. unfold cellf. replace (x - off) with (c - off + (x - c)) by lia.
      by rewrite Hv.
    + exists (r + ind (negb copyData)). split; [exact Hsrc|]. intros Hcp. rewrite Hcp, (Hr0 Hcp). done.
    + intros Hcp. rewrite Hacc, Ha' by done. unfold overcount. rewrite Hcp. lia.
  - intros c a l' (_ & [HI' Hv Hc'] & _ & Hacc) Hhi. split; [|done]. split; [done| |lia].
    intros x. specialize (Hv x). specialize (Hown x). rewrite gone_writes in Hown. fold hi in Hown. fold hi.
    rewrite Z.min_r in Hv by done. destruct (bool_decide (off <= x < hi)) eqn:Ein; cbn in *.
    + apply bool_decide_eq_true in Ein. unfold hi in Ein. destruct (writes l BUF_CLEAN x) eqn:Ew; cbn in *.
      * rewrite bool_decide_true in Hv.
        2: { destruct (bool_decide (owner l x = None)) eqn:E; cbn in Hown; [|done].
             apply bool_decide_eq_true in E. by eapply keepsW_none. }
        destruct (znth_Some data (x - off)) as [v Hv']; [lia|]. exists v. split; [done|].
        unfold cellf in Hv. rewrite Hv' in Hv. by eapply new_at_le.
      * rewrite bool_decide_false in Hv; [by eapply keepsW_trans|].
        unfold writes in Ew. unfold keepsW in Hown. destruct (owner l x); [|done].
        destruct Hown as (b' & -> & _). done.
    + by eapply keepsW_trans.
  - split_and!; [lia|unfold hi; rewrite Z.min_l by lia; by apply filled_start| |].
    + exists 0. split; [exact HP|done].
    + intros _. lia.
  - unfold hi. lia.
  - unfold hi. lia.
Qed.
(** Queueing a buffer without data (loading or zero) into a free range. *)
Lemma queue_nodata_spec l0 l b e :
  Inv l0 -> l = set_ids (l_curDirtyID l) l0 -> l_curDirtyID l0 <= l_curDirtyID l -> range_ok e b ->
  (forall x, b_offset b <= x < e -> owner l0 x = None) -> b_data b = None -> b_ptr b = None -> place_ok b ->
  (b_dirtyID b = 0 /\ b_state b <> BUF_DIRTY \/
   b_dirtyID b = l_curDirtyID l /\ l_curDirtyID l0 < l_curDirtyID l /\ b_state b = BUF_DIRTY) ->
  wp (queue b) (fun _ l' => Inv l' /\
    (forall x, if bool_decide (b_offset b <= x < e)
               then new_at (l_curDirtyID l0) l' x (cell_at ∅ b x) else keepsW l0 l' x) /\
    (forall k, e < k -> bufs l' !! k = bufs l0 !! k) /\
    l_ptrs l' = l_ptrs l0 /\ l_curDirtyID l' = l_curDirtyID l) l.
Proof using Type*.
  intros HI0 El Hcur Hr Hfree Hd Hp Hpl Hid. pose proof (inv_shape _ HI0) as HS.
  assert (Eh : l_ptrs l = l_ptrs l0) by (by rewrite El).
  wp_use (queue_keeps l0 l e b (cell_at ∅ b) HI0 Hr Hfree); try done.
  - unfold bufs. by rewrite El.
  - by rewrite El.
  - intros i. rewrite El. apply Heap_insert_nodata; try done; [apply HI0|].
    eapply apart_fresh; [done..|]. by apply free_apart.
  - intros i P HP. by rewrite Eh, HP.
  - intros x _. unfold cell_at, buf_byte. by rewrite Hd.
  - by rewrite Eh.
Qed.

Definition loading_cell : cell := mkCell BUF_CLEAN true false false None.

Lemma AddLoading_spec l off n :
  Inv l -> 0 <= off -> 0 < n -> off + n <= limit ->
  wp (AddLoading off n) (fun _ l' => filled l off (off + n) (fun _ => loading_cell) l' /\
    held (l_ptrs l') = held (l_ptrs l)) l.
Proof using Type*.
  intros HI Hoff Hn Hlim. pose proof limit_range. unfold AddLoading. set (hi := off + n).
  replace n with (hi - off) by (unfold hi; lia).
  apply fill_rule with (lo := off) (hi := hi) (J := fun c (_ : unit) l' => off <= c /\
    filled l off (Z.min c hi) (fun _ => loading_cell) l' /\ l_ptrs l' = l_ptrs l).
  - intros c a l1 (_ & HF & _). apply (fl_inv _ _ _ _ _ HF).
  - intros c c' a l1 (Hc & HF & Hh) Hle Hcov. split_and!; [lia| |done].
    eapply filled_skip; [done|unfold hi; lia|]. intros x ?. apply Hcov. lia.
  - intros c e _ l1 (Hc & HF & Hh) Hce He Hfree. rewrite Z.min_l in HF by lia. rewrite Z.min_l by lia.
    unfold hi in He. rewrite u64_small by lia.
    set (b := mkBuf 0 c (e - c) BUF_CLEAN true false false 0 None None).
    wp_use (queue_nodata_spec l1 l1 b e (fl_inv _ _ _ _ _ HF)); try done.
    + by destruct l1.
    + unfold BufferListInv.range_ok. cbn. lia.
    + by left.
    + intros _ l' (HI' & Hv & Hab & Eh & Ec). split; [|done]. split_and!; [lia| |congruence].
      eapply filled_step; try done; [lia|lia].
  - intros c _ l' (_ & HF & Hh) Hc. rewrite Z.min_r in HF by lia. by rewrite Hh.
  - split_and!; [lia| |done]. rewrite Z.min_l by (unfold hi; lia). by apply filled_start.
  - unfold hi. lia.
  - unfold hi. lia.
Qed.

Definition zero_cell : cell := mkCell BUF_DIRTY false false true (Some 0).

Lemma ZeroRange_spec l off n :
  Inv l -> 0 <= off -> 0 < n -> off + n <= limit ->
  wp (ZeroRange off n) (fun '(zeroed, a) l' =>
    if (zeroed : bool)
    then Inv l' /\ a = held (l_ptrs l') - held (l_ptrs l) /\ l_curDirtyID l <= l_curDirtyID l' /\
         forall x, if bool_decide (off <= x < off + n) then new_at (l_curDirtyID l) l' x zero_cell else keepsW l l' x
    else l' = l /\ a = 0 /\
         forall x, off <= x < off + n -> exists b, owner l x = Some b /\ b_zero b = true) l.
Proof using Type*.
  intros HI Hoff Hn Hlim. pose proof limit_range. unfold ZeroRange.
  destruct (Z.eqb_spec n 0); [lia|]. wp_steps. rewrite !(u64_small (off + n)), (u64_small (off + 1)) by lia.
  destruct (match hd_buf _ with Some e => _ | None => false end) eqn:Ez; wp_steps.
  - split_and!; try done. intros x Hx. destruct (bt_ascend (off + 1) (l_at l)) as [|[k b] rest] eqn:E; [done|].
    cbn in Ez. apply bt_ascend_cons in E as (_ & Hk & _). exists b.
    pose proof (inv_shape _ HI) as HS. rewrite (range_end k b) in Ez by (by apply (sh_ok _ HS)). bool_prop.
    split; [|done]. apply (owner_intro l x k b HS Hk). lia.
  - wp_use (RemoveRange_cut l off n None HI); [lia..|]. intros a l1 [HI1 Hown Ha Hcur _ _].
    unfold nextID. wp_steps. cbn [set_ids l_curDirtyID].
    set (b := mkBuf 0 off n BUF_DIRTY false false true (l_curDirtyID l1 + 1) None None).
    assert (Hfree : forall x, off <= x < off + n -> owner l1 x = None).
    { intros x Hx. specialize (Hown x). unfold gone, hit in Hown. cbn in Hown.
      destruct (Z.leb_spec off x), (Z.ltb_spec x (off + n)); cbn in Hown; try lia.
      destruct (owner l x) eqn:E; [done|]. by eapply keeps_none. }
    wp_use (queue_nodata_spec l1 (set_ids (l_curDirtyID l1 + 1) l1) b (off + n) HI1); try done; try (cbn; lia).
    + right. cbn. split_and!; try done; lia.
    + intros _ l' (HI' & Hv & _ & Eh & Ec). wp_steps. split_and!; [done|rewrite Eh; lia|rewrite Ec; cbn; lia|].
      intros x. specialize (Hv x). specialize (Hown x). cbn in Hv. case_bool_decide as Hx.
      * by eapply new_at_le.
      * unfold gone, hit in Hown. assert (Hz : (off <=? x) && (x <? off + n) = false).
        { apply not_true_iff_false. rewrite andb_true_iff, Z.leb_le, Z.ltb_lt. lia. }
        rewrite Hz in Hown. cbn in Hown. eapply keepsW_trans; [|by apply keeps_keepsW|done]. done.
Qed.
End add.
End BufferListAdd.
