(* ===== verification/BufferListRead.v ===== *)
(** * Reading from the buffer list

    [GetHoles] reports exactly the uncovered bytes, in order; [GetData] returns
    the bytes of the range when it is resident and says why it cannot
    otherwise; the identifiers it returns are those of the dirty buffers it
    touched; [AnyUnclean] and [AnyFlushed] decide what they are named after. *)

From S2P Require Import Prelude BTree Parts BufferList BufferListInv BufferListView.
From S2P Require Import BufferListAdd.

Module BufferListRead.
Import BufferList BufferListInv BufferListView BufferListAdd.
Section read.
Context {M : Type -> Type} `{HBT : BTreeMap M} `{HBL : !BTreeMapLaws M} {Q : Type} `{HQ : BufferListHelpers Q}.
Context {limit : Z} `{HLaws : !BufferListHelpersLaws Q limit}.
Implicit Types (l : bl M Q) (T : gmap Z FileBuffer) (b : FileBuffer) (x : Z).
Abbreviation Inv := (@Inv M HBT Q HQ limit HLaws).
Abbreviation Shape := (@Shape limit).

(** ** Walking over the buffers of a range

    The items of [bt_ascend (c+1)] split the bytes from [c] on into the gap
    before the first buffer, that buffer, and what follows it. *)
Lemma walk_nil l c x : Shape (bufs l) -> bt_ascend (c + 1) (l_at l) = [] -> c <= x -> owner l x = None.
Proof using Type*.
  intros HS E Hx. apply (owner_None l x HS). intros k b Hk ?. unfold bufs in Hk.
  rewrite (bt_ascend_nil _ _ k E) in Hk by lia. done.
Qed.

Lemma walk_cons l c k b rest :
  Shape (bufs l) -> bt_ascend (c + 1) (l_at l) = (k, b) :: rest ->
  bufs l !! k = Some b /\ c < k /\ range_ok (limit := limit) k b /\ rest = bt_ascend (k + 1) (l_at l) /\
  (forall x, c <= x < b_offset b -> owner l x = None) /\
  (forall x, b_offset b <= x < k -> owner l x = Some b).
Proof using Type*.
  intros HS E. pose proof (bt_ascend_cons _ _ _ _ _ E) as (Hp & Hk & Hno & ->).
  pose proof (sh_ok _ HS k b Hk) as Hr. split_and!; try done; [lia| |].
  - intros x Hx. apply (owner_None l x HS). intros k2 b2 Hk2 Hx2. destruct (decide (k2 < k)).
    + unfold bufs in Hk2. rewrite Hno in Hk2 by lia. done.
    + destruct (decide (k2 = k)) as [->|]; [unfold bufs in Hk2; naive_solver lia|].
      pose proof (sh_disj _ HS k k2 b b2 Hk Hk2). destruct Hr as (? & ? & ?). lia.
  - intros x Hx. by eapply (owner_intro l x k b HS).
Qed.

(** ** Holes *)

Definition in_ranges (rs : list Range) (x : Z) : Prop := exists r, r ∈ rs /\ Start r <= x < End_ r.

(** Ranges in ascending order, non-empty and not adjacent. *)
Fixpoint ranges_ok (lo hi : Z) (rs : list Range) : Prop :=
  match rs with
  | [] => True
  | r :: rs' => lo <= Start r < End_ r /\ End_ r <= hi /\ ranges_ok (End_ r + 1) hi rs'
  end.

Lemma ranges_ok_mono lo lo' hi rs : ranges_ok lo' hi rs -> lo <= lo' -> ranges_ok lo hi rs.
Proof. destruct rs; cbn; [done|]. intros (? & ? & ?) ?. split_and!; try done; lia. Qed.

Lemma ranges_ok_in lo hi rs x : ranges_ok lo hi rs -> in_ranges rs x -> lo <= x < hi.
Proof.
  intros Hr (r & Hin & Hx). revert lo Hr. induction rs as [|r' rs IH]; cbn; intros lo; [by apply not_elem_of_nil in Hin|].
  intros (? & ? & Hr). apply elem_of_cons in Hin as [->|Hin]; [lia|]. specialize (IH Hin _ Hr). lia.
Qed.

Lemma in_ranges_nil x : ~ in_ranges [] x.
Proof. intros (r & ?%not_elem_of_nil & _). done. Qed.
Lemma in_ranges_cons r rs x : in_ranges (r :: rs) x <-> Start r <= x < End_ r \/ in_ranges rs x.
Proof.
  unfold in_ranges. setoid_rewrite elem_of_cons. split.
  - intros (r' & [->|?] & ?); [by left|right; eauto].
  - intros [?|(r' & ? & ?)]; [exists r|exists r']; auto.
Qed.

(** The callback of [GetHoles], and what it does once the iteration is over. *)
Definition holes_step (hi : Z) : Z * list Range * bool * bool -> Z * FileBuffer -> (Z * list Range * bool * bool) * bool :=
  fun '(cur, holes, loading, flushCleared) '(_, b) =>
    if hi <=? b_offset b then ((cur, holes, loading, flushCleared), false)
    else
      let holes' := if cur <? b_offset b
                    then holes ++ [mkRange cur (Z.min hi (b_offset b))] else holes in
      ((b_end b, holes', loading || b_loading b,
        flushCleared || is_state b BUF_FL_CLEARED), true).
Definition holes_end (hi : Z) (r : Z * list Range * bool * bool) : list Range * bool * bool :=
  let '(cur, holes, loading, flushCleared) := r in
  (if cur <? hi then holes ++ [mkRange cur hi] else holes, loading, flushCleared).

(** Some byte of [c, hi) is owned by a buffer satisfying [f]. *)
Definition some_owner l (c hi : Z) (f : FileBuffer -> bool) : Prop :=
  exists x b, c <= x < hi /\ owner l x = Some b /\ f b = true.

Record holes_spec l (c hi : Z) (holes : list Range) (ld fc : bool) : Prop := {
  ho_sorted : ranges_ok c hi holes;
  ho_exact : forall x, c <= x < hi -> in_ranges holes x <-> owner l x = None;
  ho_ld : ld = true <-> some_owner l c hi b_loading;
  ho_fc : fc = true <-> some_owner l c hi (fun b => is_state b BUF_FL_CLEARED);
}.

Lemma some_owner_none l c hi f : (forall x, c <= x < hi -> owner l x = None) -> ~ some_owner l c hi f.
Proof using Type*. intros Hn (x & b & Hx & E & _). by rewrite (Hn x Hx) in E. Qed.

Lemma some_owner_step l c hi f k b :
  c < k -> c < hi -> b_offset b < hi -> (forall x, c <= x < b_offset b -> owner l x = None) ->
  (forall x, b_offset b <= x < k -> owner l x = Some b) -> b_offset b < k ->
  some_owner l c hi f <-> f b = true \/ some_owner l k hi f.
Proof using Type*.
  intros Hck Hc Hb Hgap Hown Hbk. split.
  - intros (x & b' & Hx & E & Hf). destruct (decide (x < k)); [left|right; exists x, b'; split_and!; try done; lia].
    destruct (decide (x < b_offset b)); [rewrite Hgap in E by lia; done|].
    rewrite Hown in E by lia. congruence.
  - intros [Hf|(x & b' & Hx & E & Hf)].
    + exists (Z.max c (b_offset b)), b. rewrite Hown by lia. split_and!; try done; lia.
    + exists x, b'. split_and!; try done; lia.
Qed.

Lemma holes_tail l c hi :
  (forall x, c <= x < hi -> owner l x = None) -> holes_spec l c hi (if c <? hi then [mkRange c hi] else []) false false.
Proof using Type*.
  intros Hn. pose proof (fun f => some_owner_none l c hi f Hn) as Hso. split.
  - destruct (Z.ltb_spec c hi); cbn; [lia|done].
  - intros x Hx. destruct (Z.ltb_spec c hi); [|lia]. rewrite in_ranges_cons. cbn. split; [by eauto|by left].
  - split; [done|]. intros Hs. by destruct (Hso _ Hs).
  - split; [done|]. intros Hs. by destruct (Hso _ Hs).
Qed.

Lemma holes_fold l hi items c H ld fc :
  Shape (bufs l) -> items = bt_ascend (c + 1) (l_at l) ->
  (c < hi \/ forall k b, bufs l !! k = Some b -> c < k -> c <= b_offset b) ->
  exists hs ld' fc', holes_end hi (iter_until (holes_step hi) (c, H, ld, fc) items) = (H ++ hs, ld || ld', fc || fc') /\
    holes_spec l c hi hs ld' fc'.
Proof using Type*.
  intros HS. revert c H ld fc. induction items as [|[k b] rest IH]; intros c H ld fc Eit Hc.
  - symmetry in Eit. assert (Hn : forall x, c <= x < hi -> owner l x = None) by (intros x ?; apply (walk_nil l c x HS Eit); lia).
    unfold holes_end. cbn [iter_until].
    exists (if c <? hi then [mkRange c hi] else []), false, false. rewrite !orb_false_r.
    split; [by destruct (c <? hi); rewrite ?app_nil_r|by apply holes_tail].
  - symmetry in Eit. destruct (walk_cons l c k b rest HS Eit) as (Hk & Hck & Hr & Er & Hgap & Hown).
    pose proof Hr as (? & ? & ? & ?). cbn [iter_until]. unfold holes_step at 1.
    destruct (Z.leb_spec hi (b_offset b)) as [Hhi|Hhi].
    + assert (Hn : forall x, c <= x < hi -> owner l x = None) by (intros; apply Hgap; lia).
      unfold holes_end.
      exists (if c <? hi then [mkRange c hi] else []), false, false. rewrite !orb_false_r.
      split; [by destruct (c <? hi); rewrite ?app_nil_r|by apply holes_tail].
    + rewrite (range_end k b Hr), Z.min_r by lia.
      set (gap := if c <? b_offset b then [mkRange c (b_offset b)] else []).
      set (H' := if c <? b_offset b then H ++ _ else H).
      assert (EH : H' = H ++ gap) by (unfold H', gap; destruct (c <? b_offset b); by rewrite ?app_nil_r).
      assert (Hchi : c < hi) by (destruct Hc as [|Hc]; [done|specialize (Hc k b Hk Hck); lia]).
      destruct (IH k H' (ld || b_loading b) (fc || is_state b BUF_FL_CLEARED) Er) as (hs & ld' & fc' & E & [S1 S2 S3 S4]).
      { right. intros k2 b2 Hk2 ?. by eapply (sh_disj _ HS k k2). }
      exists (gap ++ hs), (b_loading b || ld'), (is_state b BUF_FL_CLEARED || fc').
      split; [by rewrite E, EH, app_assoc, !orb_assoc|]. split.
      * unfold gap. destruct (Z.ltb_spec c (b_offset b)); cbn; [|eapply ranges_ok_mono; [done|lia]].
        split_and!; try lia. eapply ranges_ok_mono; [done|lia].
      * intros x Hx. assert (Hg : in_ranges (gap ++ hs) x <-> c <= x < b_offset b \/ in_ranges hs x).
        { unfold gap. destruct (Z.ltb_spec c (b_offset b)); cbn; [by rewrite in_ranges_cons|].
          split; [by right|intros [?|?]; [lia|done]]. }
        rewrite Hg. destruct (decide (x < k)).
        -- destruct (decide (x < b_offset b)); [rewrite Hgap by lia; split; [done|left; lia]|].
           rewrite Hown by lia. split; [|done]. intros [?|Hin]; [lia|].
           pose proof (ranges_ok_in _ _ _ _ S1 Hin). lia.
        -- rewrite S2 by lia. split; [intros [?|?]; [lia|done]|by right].
      * rewrite orb_true_iff, S3. symmetry. apply some_owner_step; try done; lia.
      * rewrite orb_true_iff, S4. symmetry. apply (some_owner_step l c hi (fun b => is_state b BUF_FL_CLEARED)); try done; lia.
Qed.

(** ** Data *)

Lemma appendZero_loop_spec fuel data z :
  0 <= z -> z <= Z.of_nat fuel * zeroBuf_len -> (0 < fuel)%nat ->
  concat (appendZero_loop fuel data z) = concat data ++ replicate (Z.to_nat z) 0.
Proof.
  revert data z. induction fuel as [|fuel IH]; intros data z Hz Hf Hp; [lia|].
  cbn [appendZero_loop]. destruct (Z.ltb_spec zeroBuf_len z) as [Hlt|Hle].
  - rewrite IH; [|unfold zeroBuf_len in *; lia..]. rewrite concat_app. cbn [concat]. rewrite app_nil_r, <- app_assoc.
    rewrite <- replicate_add. do 2 f_equal. unfold zeroBuf_len in *. lia.
  - destruct (Z.ltb_spec 0 z).
    + rewrite concat_app. cbn [concat]. by rewrite app_nil_r.
    + replace z with 0 by lia. by rewrite app_nil_r.
Qed.

Lemma appendZero_concat data z :
  0 <= z -> concat (appendZero data z) = concat data ++ replicate (Z.to_nat z) 0.
Proof.
  intros Hz. apply appendZero_loop_spec; [done| |lia].
  unfold zeroBuf_len. rewrite Nat2Z.inj_succ, Z2Nat.id by (apply Z.div_pos; lia).
  pose proof (Z.mod_pos_bound z 1048576). pose proof (Z.div_mod z 1048576). lia.
Qed.

(** What reading byte [x] gives. *)
Inductive status := Hole | Loading | NotResident | Byte (v : byte).
Definition status_at l x : status :=
  match owner l x with
  | None => Hole
  | Some b => if b_loading b then Loading
              else match buf_byte (l_ptrs l) b x with Some v => Byte v | None => NotResident end
  end.

(** [d] is what the list holds from [c] on. *)
Definition reads l (c : Z) (d : list byte) : Prop :=
  forall i v, znth d i = Some v -> status_at l (c + i) = Byte v.

Lemma reads_app l c d1 d2 : reads l c d1 -> reads l (c + zlen d1) d2 -> reads l c (d1 ++ d2).
Proof using Type*.
  intros H1 H2 i v. destruct (decide (i < zlen d1)).
  - rewrite znth_app_l by done. apply H1.
  - rewrite znth_app_r by lia. intros Hv. replace (c + i) with (c + zlen d1 + (i - zlen d1)) by lia. by apply H2.
Qed.

(** The bytes buffer [b] contributes to a read of [c, e). *)
Lemma buffer_read l k b c e :
  Inv l -> bufs l !! k = Some b -> b_offset b <= c < e -> e <= k -> b_loading b = false -> b_zero b = false ->
  match b_data b with
  | Some _ => exists d, read_slice b (c - b_offset b) (e - b_offset b) l = Ok d /\ zlen d = e - c /\ reads l c d
  | None => read_slice b (c - b_offset b) (e - b_offset b) l = Panic SliceOutOfRange /\ status_at l c = NotResident
  end.
Proof using Type*.
  intros HI Hk Hc He Hl Hz. pose proof (inv_shape _ HI) as HS. pose proof (sh_ok _ HS k b Hk) as (? & ? & ? & ?).
  assert (Ho : forall x, b_offset b <= x < k -> owner l x = Some b) by (intros; by eapply (owner_intro l x k b HS)).
  destruct (b_data b) as [s|] eqn:Ed.
  - destruct (Heap_ref _ _ _ k b s (inv_heap _ HI) Hk Ed) as (i & P & Ep & HP & _ & Hs1 & Hs2 & Hs3 & _).
    unfold read_slice. rewrite Ed, Ep, HP. unfold cap_of.
    destruct (Z.leb_spec (c - b_offset b) (e - b_offset b)); [|lia].
    destruct (Z.leb_spec (e - b_offset b) (zlen (mem P) - sl_off s)); [|lia]. cbn.
    eexists. split; [done|]. rewrite zlen_slice by lia. split; [lia|]. intros j v Hv.
    pose proof (znth_bound _ _ _ Hv) as Hj. rewrite zlen_slice in Hj by lia.
    rewrite znth_slice in Hv by lia. unfold status_at. rewrite Ho by lia. unfold buf_byte. rewrite Hl, Hz, Ed, Ep, HP.
    replace (sl_off s + (c + j - b_offset b)) with (sl_off s + (c - b_offset b) + j) by lia. by rewrite Hv.
  - unfold read_slice. rewrite Ed. destruct (Z.eqb_spec (e - b_offset b) 0); [lia|]. rewrite andb_false_r.
    split; [done|]. unfold status_at. rewrite Ho by lia. unfold buf_byte. by rewrite Hl, Hz, Ed.
Qed.

Lemma zero_read l k b c e :
  Shape (bufs l) -> bufs l !! k = Some b -> b_offset b <= c -> e <= k -> b_loading b = false -> b_zero b = true ->
  reads l c (replicate (Z.to_nat (e - c)) 0).
Proof using Type*.
  intros HS Hk Hc He Hl Hz i v Hv. pose proof (znth_bound _ _ _ Hv) as Hi.
  destruct (decide (c < e)).
  2: { replace (Z.to_nat (e - c)) with O in Hi by lia. unfold zlen in Hi. cbn in Hi. lia. }
  rewrite zlen_replicate in Hi by lia. rewrite znth_replicate in Hv by lia.
  unfold status_at. rewrite (owner_intro l (c + i) k b HS Hk) by lia. unfold buf_byte. rewrite Hl, Hz. congruence.
Qed.

Definition ids_of l (c e : Z) (i : Z) : Prop :=
  i <> 0 /\ exists x b, c <= x < e /\ owner l x = Some b /\ b_dirtyID b = i.

(** How the loop of [GetData] can end, from [c]: the read succeeds, or the first byte that cannot be read says why not. *)
Definition loop_result l (c hi : Z) (rid : bool) (data : list (list byte)) (ids : gset Z)
    (r : outcome (Z * list (list byte) * gset Z * option BufferError)) : Prop :=
  (exists ds ids', r = Ok (hi, ds, ids', None) /\
     (exists d, concat ds = concat data ++ d /\ zlen d = hi - c /\ reads l c d) /\
     (forall i, i ∈ ids' <-> i ∈ ids \/ rid = true /\ ids_of l c hi i)) \/
  (exists x d, c <= x < hi /\ zlen d = x - c /\ reads l c d /\
     match status_at l x with
     | Hole => (exists cur ids', r = Ok (cur, [], ids', Some ErrBufferIsMissing)) \/
               (exists cur ds ids', r = Ok (cur, ds, ids', None) /\ cur < hi)
     | Loading => exists cur ids', r = Ok (cur, [], ids', Some ErrBufferIsLoading)
     | NotResident => r = Panic SliceOutOfRange
     | Byte _ => False
     end).

Lemma ids_step l c e hi b i (ids : gset Z) (rid : bool) :
  c < e -> e <= hi -> (forall x, c <= x < e -> owner l x = Some b) ->
  i ∈ (if rid && negb (b_dirtyID b =? 0) then {[b_dirtyID b]} ∪ ids else ids) \/ rid = true /\ ids_of l e hi i
  <-> i ∈ ids \/ rid = true /\ ids_of l c hi i.
Proof using Type*.
  intros Hc He Ho. unfold ids_of.
  assert (Hsplit : (exists x b, c <= x < hi /\ owner l x = Some b /\ b_dirtyID b = i) <->
            b_dirtyID b = i \/ (exists x b, e <= x < hi /\ owner l x = Some b /\ b_dirtyID b = i)).
  { split.
    - intros (x & b' & Hx & E & Ei). destruct (decide (x < e)); [|right; exists x, b'; split_and!; try done; lia].
      rewrite Ho in E by lia. left. congruence.
    - intros [Ei|(x & b' & Hx & E & Ei)]; [exists c, b|exists x, b']; split_and!; try done; try lia. apply Ho. lia. }
  rewrite Hsplit. clear Hsplit. destruct rid; cbn; [|naive_solver].
  destruct (Z.eqb_spec (b_dirtyID b) 0); cbn; [|set_solver]. split; [set_solver|]. intros [?|[_ [? [?|?]]]]; [by left|lia|auto].
Qed.

Lemma GetData_loop_spec l items c hi rid data ids :
  Inv l -> items = bt_ascend (c + 1) (l_at l) -> 0 <= c < hi -> hi < two64 ->
  loop_result l c hi rid data ids (GetData_loop items c hi rid data ids l).
Proof using Type*.
  intros HI. pose proof (inv_shape _ HI) as HS. pose proof (limit_range (limit := limit) (Q := Q)).
  assert (Hnil : forall c0, c0 + 0 = c0 -> reads l c0 []).
  { intros c0 _ i v Hv. unfold znth in Hv. case_decide; [|done]. by rewrite lookup_nil in Hv. }
  revert c data ids. induction items as [|[k b] rest IH]; intros c data ids Eit Hc Hhi; cbn [GetData_loop].
  - right. exists c, []. split_and!; [lia|lia|by rewrite zlen_nil, Z.sub_diag|apply Hnil; lia|].
    unfold status_at. rewrite (walk_nil l c c HS) by (done || lia). right. exists c, data, ids. split; [done|lia].
  - symmetry in Eit. destruct (walk_cons l c k b rest HS Eit) as (Hk & Hck & Hr & Er & Hgap & Hown).
    pose proof Hr as (? & ? & ? & ?). rewrite (range_end k b Hr).
    destruct (Z.ltb_spec c (b_offset b)) as [Hg|Hg].
    { right. exists c, []. split_and!; [lia|lia|by rewrite zlen_nil, Z.sub_diag|apply Hnil; lia|].
      unfold status_at. rewrite Hgap by lia. left. eauto. }
    destruct (Z.leb_spec hi (b_offset b)); [lia|].
    set (e := Z.min hi k). set (ids1 := if rid && _ then _ else ids).
    assert (Ho : forall x, c <= x < e -> owner l x = Some b) by (intros; apply Hown; unfold e in *; lia).
    destruct (b_loading b) eqn:Eld.
    { right. exists c, []. split_and!; [lia|lia|by rewrite zlen_nil, Z.sub_diag|apply Hnil; lia|].
      unfold status_at. rewrite Hown, Eld by lia. eauto. }
    rewrite !u64_small by (unfold e; lia).
    assert (Hcont : forall data' d1, concat data' = concat data ++ d1 -> zlen d1 = e - c -> reads l c d1 ->
      loop_result l c hi rid data ids
        (if e <? hi then GetData_loop rest e hi rid data' ids1 l else Ok (e, data', ids1, None))).
    { intros data' d1 Ed1 Hl1 Hr1. destruct (Z.ltb_spec e hi) as [Hlt|Hge].
      - assert (e = k) by (unfold e in *; lia).
        assert (Er' : rest = bt_ascend (e + 1) (l_at l)) by congruence.
        destruct (IH e data' ids1 Er' ltac:(lia) Hhi) as [(ds & ids' & E & (d2 & Ed2 & Hl2 & Hr2) & Hids)|(x & d2 & Hx & Hl2 & Hr2 & Hst)].
        + left. exists ds, ids'. split; [done|]. split.
          * exists (d1 ++ d2). rewrite Ed2, Ed1, app_assoc, zlen_app. split_and!; [done|lia|].
            apply reads_app; [done|]. by replace (c + zlen d1) with e by lia.
          * intros i. rewrite Hids. apply (ids_step l c e hi b); try done; lia.
        + right. exists x, (d1 ++ d2). split_and!; [lia|lia|rewrite zlen_app; lia| |done].
          apply reads_app; [done|]. by replace (c + zlen d1) with e by lia.
      - assert (e = hi) as -> by (unfold e in *; lia). left. exists data', ids1. split; [done|]. split.
        + exists d1. split_and!; [done|lia|done].
        + intros i. rewrite <- (ids_step l c hi hi b i ids rid) by (done || lia).
          split; [by left|]. intros [?|[_ (_ & x & ? & ? & _)]]; [done|lia]. }
    destruct (b_zero b) eqn:Ez; cbn [bindO].
    + apply (Hcont _ (replicate (Z.to_nat (e - c)) 0)).
      * apply appendZero_concat. unfold e. lia.
      * apply zlen_replicate. unfold e. lia.
      * eapply zero_read; try done; unfold e; lia.
    + pose proof (buffer_read l k b c e HI Hk) as Hb. destruct (b_data b) as [s|] eqn:Ed.
      * destruct Hb as (d & -> & Hl & Hrd); [unfold e; lia..|done|done|]. cbn [bindO].
        apply (Hcont _ d); [|done|done]. rewrite concat_app. cbn [concat]. by rewrite app_nil_r.
      * destruct Hb as (-> & Hst); [unfold e; lia..|done|done|]. cbn [bindO].
        right. exists c, []. split_and!; [lia|lia|by rewrite zlen_nil, Z.sub_diag|apply Hnil; lia|]. by rewrite Hst.
Qed.
Lemma GetData_inv l off n rid ds ids :
  Inv l -> 0 <= off -> 0 < n -> off + n < two64 -> GetData off n rid l = Ok (ds, ids, None) ->
  zlen (concat ds) = n /\ reads l off (concat ds) /\
  forall i, i ∈ ids <-> rid = true /\ ids_of l off (off + n) i.
Proof using HBL.
  intros HI Hoff Hn Hlim E. unfold GetData in E. rewrite !u64_small in E by lia.
  pose proof (GetData_loop_spec l _ off (off + n) rid [] ∅ HI eq_refl ltac:(lia) ltac:(lia)) as Hr.
  destruct (GetData_loop _ _ _ _ _ _ _) as [[[[cur data] ids'] e]| |]; cbn in E; try done.
  destruct e; [done|]. destruct (Z.ltb_spec cur (off + n)); [done|]. injection E as <- <-.
  destruct Hr as [(ds' & ids1 & [= -> -> ->] & (d & Ed & Hl & Hrd) & Hids)|(x & d & Hx & _ & _ & Hst)].
  - cbn in Ed. subst d. split_and!; [lia|done|]. intros i. rewrite Hids. set_solver.
  - destruct (status_at l x); [destruct Hst as [(? & ? & [=])|(? & ? & ? & [= <- <- <-] & ?)]; lia|by destruct Hst as (? & ? & [=])|done|done].
Qed.

(** [x] is the first byte of the range that cannot be read, and [st] says why. *)
Definition first_at l (off n x : Z) (st : status) : Prop :=
  off <= x < off + n /\ (forall y, off <= y < x -> exists v, status_at l y = Byte v) /\ status_at l x = st.

Lemma reads_bytes l c d y : reads l c d -> c <= y < c + zlen d -> exists v, znth d (y - c) = Some v /\ status_at l y = Byte v.
Proof using Type*.
  intros Hr Hy. destruct (znth_Some d (y - c)) as [v Hv]; [lia|]. exists v. split; [done|].
  replace y with (c + (y - c)) by lia. by apply Hr.
Qed.

(** The result of [GetData], by the first byte that cannot be read. *)
Lemma GetData_spec l off n rid :
  Inv l -> 0 <= off -> 0 < n -> off + n < two64 ->
  match GetData off n rid l with
  | Ok (ds, ids, None) =>
      zlen (concat ds) = n /\
      (forall i, 0 <= i < n -> exists v, znth (concat ds) i = Some v /\ status_at l (off + i) = Byte v) /\
      (forall i, i ∈ ids <-> rid = true /\ ids_of l off (off + n) i)
  | Ok (ds, _, Some ErrBufferIsMissing) => ds = [] /\ exists x, first_at l off n x Hole
  | Ok (ds, _, Some ErrBufferIsLoading) => ds = [] /\ exists x, first_at l off n x Loading
  | Panic p => p = SliceOutOfRange /\ exists x, first_at l off n x NotResident
  | OutOfFuel => False
  end.
Proof using Type*.
  intros HI Hoff Hn Hlim. destruct (GetData off n rid l) as [[[ds ids] [err|]]|p|] eqn:E.
  2: { destruct (GetData_inv l off n rid ds ids HI Hoff Hn Hlim E) as (Hl & Hr & Hids). split_and!; try done.
       intros i Hi. destruct (reads_bytes l off (concat ds) (off + i) Hr) as (v & Hv & Hs); [lia|].
       exists v. rewrite <- Hv. split; [f_equal; lia|done]. }
  all: unfold GetData in E; rewrite !u64_small in E by lia;
    pose proof (GetData_loop_spec l _ off (off + n) rid [] ∅ HI eq_refl ltac:(lia) ltac:(lia)) as Hr;
    destruct (GetData_loop _ _ _ _ _ _ _) as [[[[cur data] ids'] e]| |]; cbn in E; try done.
  - destruct Hr as [(? & ? & [= -> -> -> ->] & _)|(x & d & Hx & Hl & Hrd & Hst)].
    { rewrite Z.ltb_irrefl in E. done. }
    assert (Hfirst : forall st, status_at l x = st -> first_at l off n x st).
    { intros st Est. split; [lia|split; [|done]]. intros y Hy. destruct (reads_bytes l off d y Hrd) as (v & _ & ?); [lia|]. eauto. }
    destruct (status_at l x) eqn:Est; [| |done|done].
    + destruct Hst as [(? & ? & [= -> -> -> ->])|(? & ? & ? & [= -> -> -> ->] & Hlt)].
      * injection E as <- <- <-. eauto.
      * apply Z.ltb_lt in Hlt. rewrite Hlt in E. injection E as <- <- <-. eauto.
    + destruct Hst as (? & ? & [= -> -> -> ->]). injection E as <- <- <-. eauto.
  - destruct e; [done|]. by destruct (cur <? off + n).
  - injection E as ->. destruct Hr as [(? & ? & [=] & _)|(x & d & Hx & Hl & Hrd & Hst)].
    destruct (status_at l x) eqn:Est; [by destruct Hst as [(? & ? & [=])|(? & ? & ? & [=] & _)]|by destruct Hst as (? & ? & [=])| |done].
    injection Hst as ->. split; [done|]. exists x. split; [lia|split; [|done]].
    intros y Hy. destruct (reads_bytes l off d y Hrd) as (v & _ & ?); [lia|]. eauto.
  - destruct e; [done|]. by destruct (cur <? off + n).
  - destruct Hr as [(? & ? & [=] & _)|(x & d & Hx & Hl & Hrd & Hst)].
    destruct (status_at l x) eqn:Est; [by destruct Hst as [(? & ? & [=])|(? & ? & ? & [=] & _)]|by destruct Hst as (? & ? & [=])|done|done].
Qed.

Lemma GetHoles_spec l off n holes loading flushCleared :
  Inv l -> 0 <= off -> 0 < n -> off + n < two64 -> GetHoles off n l = (holes, loading, flushCleared) ->
  holes_spec l off (off + n) holes loading flushCleared.
Proof using Type*.
  intros HI Hoff Hn Hlim E.
  destruct (holes_fold l (off + n) _ off [] false false (inv_shape _ HI) eq_refl) as (hs & ld & fc & Eh & Hs); [lia|].
  unfold GetHoles in E. rewrite !u64_small in E by lia. cbn in Eh.
  change (holes_end (off + n) (iter_until (holes_step (off + n)) (off, [], false, false) (bt_ascend (off + 1) (l_at l)))
          = (holes, loading, flushCleared)) in E.
  rewrite E in Eh. by injection Eh as -> -> ->.
Qed.
End read.
End BufferListRead.
