(* ===== verification/BufferListState.v ===== *)
(** * State changes of cached buffers

    Specifications of [SetState], [SetFlushedClean], [EvictFromMemory],
    [AddLoadingFromDisk], [ReviveFromDisk], [SplitAt] and of the eviction to
    disk of [goofys.go], which relabel, drop or reload buffers without
    changing the bytes they stand for. *)

From S2P Require Import Prelude BTree Parts BufferList BufferListInv BufferListView.
From S2P Require Import BufferListRemove BufferListAdd BufferListRead.

Module BufferListState.
Import BufferList BufferListInv BufferListView BufferListRemove BufferListAdd BufferListRead.
Section state.
Context {M : Type -> Type} `{HBT : BTreeMap M} `{HBL : !BTreeMapLaws M} {Q : Type} `{HQ : BufferListHelpers Q}.
Context {limit : Z} `{HLaws : !BufferListHelpersLaws Q limit}.
Implicit Types (l : bl M Q) (T : gmap Z FileBuffer) (b : FileBuffer) (x : Z).
Abbreviation Inv := (@Inv M HBT Q HQ limit HLaws).
Abbreviation Shape := (@Shape limit).
Abbreviation range_ok := (@range_ok limit).

(** ** Requeueing one buffer with other flags *)

(** Replacing the buffer under a key by one with the same extent and data. *)
Lemma Shape_update T k b b' :
  Shape T -> T !! k = Some b -> b_offset b' = b_offset b -> b_len b' = b_len b -> Shape (<[k:=b']> T).
Proof using Type*.
  intros HS Hk Eo El. rewrite <- insert_delete_eq. apply Shape_insert; [by apply Shape_delete| |].
  - pose proof (sh_ok T HS k b Hk). unfold BufferListInv.range_ok in *. by rewrite Eo, El.
  - eapply apart_delete_self; [done..|lia|lia].
Qed.

Lemma data_ok_ext h b b' :
  data_ok h b -> b_data b' = b_data b -> b_ptr b' = b_ptr b -> b_len b' = b_len b -> data_ok h b'.
Proof using Type*. unfold data_ok. by intros ? -> -> ->. Qed.

Lemma Ids_update n T k b b' :
  Ids n T -> T !! k = Some b -> b_dirtyID b' = b_dirtyID b \/ b_dirtyID b' = 0 ->
  (b_dirtyID b' <> 0 <-> b_state b' = BUF_DIRTY) -> Ids n (<[k:=b']> T).
Proof using Type*.
  intros HI Hk Hid Hd. pose proof (id_range n T HI k b Hk). pose proof (id_nonneg n T HI).
  apply Ids_insert; [done|lia|done|]. intros k' b1 Hk' Hne E.
  destruct Hid as [Hid|]; [|done]. destruct (decide (b_dirtyID b' = 0)); [done|].
  exfalso. apply Hne. eapply (id_uniq n T HI); [exact Hk'|exact Hk|congruence|congruence].
Qed.

(** [unqueue(b); b.<flags> = ...; queue(b)] *)
Lemma requeue_spec l k b b' :
  Inv l -> bufs l !! k = Some b -> b_offset b' = b_offset b -> b_len b' = b_len b ->
  b_data b' = b_data b -> b_ptr b' = b_ptr b -> place_ok b' ->
  b_dirtyID b' = b_dirtyID b \/ b_dirtyID b' = 0 -> (b_dirtyID b' <> 0 <-> b_state b' = BUF_DIRTY) ->
  wp (unqueue b ;;; queue b') (fun _ l' => Inv l' /\ exists i, bufs l' = <[k := set_queueId i b']> (bufs l) /\
    l_ptrs l' = l_ptrs l /\ l_nextPtr l' = l_nextPtr l /\ l_curDirtyID l' = l_curDirtyID l) l.
Proof using Type*.
  intros HI Hk Eo El Ed Ep Hpl Hid Hd. pose proof HI as [HS HT HH HPl HId].
  pose proof (sh_ok _ HS k b Hk) as Hr.
  assert (Hr' : range_ok k b') by (unfold BufferListInv.range_ok in *; by rewrite Eo, El).
  apply wp_bind. wp_use (unqueue_spec l (bufs l) k b HT Hk Hr). intros _ l1 [HT1 (E1 & E2 & E3 & E4)].
  wp_use (queue_spec l1 (delete k (bufs l)) k b' HT1); [by rewrite lookup_delete_eq|done|].
  intros _ l2 (i & HT2 & F1 & F2 & F3 & F4). rewrite insert_delete_eq in HT2.
  assert (Eb : bufs l2 = <[k:=set_queueId i b']> (bufs l)) by (unfold bufs; rewrite F1, bt_map_set, E1; done).
  split; [|exists i; split_and!; congruence]. split; rewrite ?Eb, ?F2, ?F3, ?F4, ?E2, ?E3, ?E4.
  - by eapply Shape_update.
  - done.
  - eapply Heap_update; [done..|]. eapply data_ok_ext; [by eapply (hp_data _ _ _ HH k b)|done..].
  - intros k0 b0 [[<- <-]|[_ ?]]%lookup_insert_Some; eauto.
  - by eapply Ids_update.
Qed.

(** A field assignment that the bookkeeping does not see. *)
Lemma put_buf_spec l k b b' :
  Inv l -> bufs l !! k = Some b -> b_offset b' = b_offset b -> b_len b' = b_len b ->
  b_data b' = b_data b -> b_ptr b' = b_ptr b -> place_ok b' ->
  b_dirtyID b' = b_dirtyID b -> b_state b' = b_state b -> b_queueId b' = b_queueId b ->
  wp (put_buf b') (fun _ l' => Inv l' /\ bufs l' = <[k := b']> (bufs l) /\
    l_ptrs l' = l_ptrs l /\ l_nextPtr l' = l_nextPtr l /\ l_curDirtyID l' = l_curDirtyID l) l.
Proof using Type*.
  intros HI Hk Eo El Ed Ep Hpl Hid Hst Hq. pose proof HI as [HS HT HH HPl HId].
  pose proof (sh_ok _ HS k b Hk) as Hr.
  eapply wp_of_run; [apply (put_buf_at k); unfold BufferListInv.range_ok in *; by rewrite Eo, El|].
  assert (Eb : bufs (set_at (bt_set k b' (l_at l)) l) = <[k:=b']> (bufs l)) by (unfold bufs; cbn; apply bt_map_set).
  split; [|done]. split; rewrite ?Eb; cbn.
  - by eapply Shape_update.
  - eapply Trk_update; [|done..]. by apply (Trk_frame l).
  - eapply Heap_update; [done..|]. eapply data_ok_ext; [by eapply (hp_data _ _ _ HH k b)|done..].
  - intros k0 b0 [[<- <-]|[_ ?]]%lookup_insert_Some; eauto.
  - eapply Ids_update; [done..|by left|]. rewrite Hid, Hst. by eapply (id_dirty _ _ HId).
Qed.

(** Ownership after such a change: the same extents. *)
Lemma update_owner l l' k b b' x :
  Shape (bufs l) -> Shape (bufs l') -> bufs l !! k = Some b -> bufs l' = <[k := b']> (bufs l) ->
  b_offset b' = b_offset b ->
  owner l' x = if bool_decide (b_offset b <= x < k) then Some b' else owner l x.
Proof using Type*.
  intros HS HS' Hk Eb Eo. case_bool_decide as Hx.
  - apply (owner_intro l' x k b' HS'); [by rewrite Eb, lookup_insert_eq|lia].
  - destruct (owner l x) as [b0|] eqn:E.
    + apply (owner_lookup l x b0 HS) in E as (k0 & Hk0 & Hx0). apply (owner_intro l' x k0 b0 HS'); [|done].
      rewrite Eb, lookup_insert_ne; [done|]. intros <-. naive_solver.
    + rewrite (owner_None l x HS) in E. apply (owner_None l' x HS'). rewrite Eb.
      intros k0 b0 [[<- <-]|[_ ?]]%lookup_insert_Some; [lia|eauto].
Qed.
(** ** SetState *)

Definition in_flight (ids : gset Z) (b : FileBuffer) : Prop := b_dirtyID b <> 0 /\ b_dirtyID b ∈ ids.
Definition relabel (st : BufferState) (i : Z) (b : FileBuffer) : FileBuffer :=
  set_queueId i (set_state st (set_dirtyID 0 b)).

(** The buffers carrying one of the identifiers get state [st], all those that
    touch [lo, hi) among them; every other buffer is the same object. *)
Record restated (ids : gset Z) (st : BufferState) (lo hi : Z) l l' : Prop := {
  rs_inv : Inv l';
  rs_some : forall k b, bufs l !! k = Some b ->
    (exists i, bufs l' !! k = Some (relabel st i b) /\ in_flight ids b) \/
    (bufs l' !! k = Some b /\ ~ (in_flight ids b /\ lo < k /\ b_offset b < hi));
  rs_none : forall k, bufs l !! k = None -> bufs l' !! k = None;
  rs_ptrs : l_ptrs l' = l_ptrs l;
  rs_cur : l_curDirtyID l' = l_curDirtyID l;
}.

Lemma restate_buffer l k b ids st :
  Inv l -> bufs l !! k = Some b -> st <> BUF_DIRTY -> st <> BUF_FL_CLEARED ->
  wp (if negb (b_dirtyID b =? 0) && bool_decide (b_dirtyID b ∈ ids)
      then unqueue b ;;; queue (set_state st (set_dirtyID 0 b)) else ret tt)
    (fun _ l' => Inv l' /\ l_ptrs l' = l_ptrs l /\ l_curDirtyID l' = l_curDirtyID l /\
      (forall k', k' <> k -> bufs l' !! k' = bufs l !! k') /\
      ((exists i, bufs l' !! k = Some (relabel st i b) /\ in_flight ids b) \/
       (bufs l' !! k = Some b /\ ~ in_flight ids b))) l.
Proof using Type*.
  intros HI Hk Hst Hst2. destruct (Z.eqb_spec (b_dirtyID b) 0) as [E|E]; cbn.
  { wp_steps. split_and!; try done. right. split; [done|]. intros [? _]. done. }
  case_bool_decide as Hin; [|wp_steps; split_and!; try done; right; split; [done|]; by intros [_ ?]].
  pose proof (inv_place _ HI k b Hk) as Hpl. pose proof (proj1 (id_dirty _ _ (inv_ids _ HI) k b Hk) E) as Hd.
  wp_use (requeue_spec l k b (set_state st (set_dirtyID 0 b)) HI Hk); try done; [|by right|].
  { unfold place_ok in *. cbn. rewrite Hd in Hpl. destruct (b_data b), (b_zero b), (b_onDisk b), (b_loading b); naive_solver. }
  intros _ l' (HI' & i & Eb & E1 & _ & E2). split_and!; try done.
  - intros k' Hne. by rewrite Eb, lookup_insert_ne.
  - left. exists i. rewrite Eb, lookup_insert_eq. done.
Qed.

Lemma SetState_loop_spec items l c off n ids st :
  Inv l -> items = bt_ascend (c + 1) (l_at l) -> st <> BUF_DIRTY -> st <> BUF_FL_CLEARED ->
  0 <= off -> 0 < n -> off + n < two64 ->
  wp (SetState_loop items off n ids st) (fun _ l' => restated ids st c (off + n) l l') l.
Proof using Type*.
  intros HI Eit Hst Hst2 Hoff Hn Hlim. revert l c HI Eit.
  induction items as [|[k b] rest IH]; intros l c HI Eit; cbn [SetState_loop]; wp_steps.
  - symmetry in Eit. split; try done. intros k b Hk. right. split; [done|]. intros (_ & ? & _).
    unfold bufs in Hk. rewrite (bt_ascend_nil _ _ k Eit) in Hk by lia. done.
  - symmetry in Eit. pose proof (bt_ascend_cons _ _ _ _ _ Eit) as (Hck & Hk & Hno & Er).
    wp_use (restate_buffer l k b ids st HI Hk Hst Hst2).
    intros _ l1 (HI1 & E1 & E2 & Hoth & Hkk). rewrite (u64_small (off + n)), u64_small by lia.
    assert (Hb1 : exists b1, bufs l1 !! k = Some b1 /\ ~ in_flight ids b1).
    { destruct Hkk as [(i & -> & _)|[-> ?]]; [|by eauto]. eexists. split; [done|]. intros [? _]. done. }
    destruct Hb1 as (b1 & Hb1 & Hnf).
    destruct (Z.ltb_spec (b_offset b) (off + n - 1)).
    + assert (Er1 : rest = bt_ascend (k + 1) (l_at l1)).
      { rewrite Er. apply bt_ascend_ext. intros k' ?. symmetry. apply Hoth. lia. }
      wp_use (IH l1 k HI1 Er1). intros _ l' [HI' Hs Hn' Hp Hc]. split; [done| | |congruence|congruence].
      * intros k0 b0 Hk0. destruct (decide (k0 = k)) as [->|Hne].
        -- assert (b0 = b) as -> by (unfold bufs in *; congruence).
           destruct (Hs k b1 Hb1) as [(i & _ & ?)|[E' _]]; [done|].
           destruct Hkk as [(i & E & ?)|[E ?]]; rewrite Hb1 in E; injection E as ->; [left|right]; [by exists i|].
           split; [done|]. by intros [? _].
        -- rewrite <- Hoth in Hk0 by done. destruct (Hs k0 b0 Hk0) as [|[? Hno']]; [by left|right].
           split; [done|]. intros (? & ? & ?). apply Hno'. split_and!; try done.
           destruct (decide (k0 < k)); [|lia]. rewrite Hoth in Hk0 by done. unfold bufs in Hk0.
           rewrite Hno in Hk0 by lia. done.
      * intros k0 Hk0. apply Hn'. rewrite Hoth; [done|]. intros ->. unfold bufs in Hk0. congruence.
    + wp_steps. split; try done.
      * intros k0 b0 Hk0. destruct (decide (k0 = k)) as [->|Hne].
        -- assert (b0 = b) as -> by (unfold bufs in *; congruence).
           destruct Hkk as [?|[? Hnf']]; [by left|right]. split; [done|]. by intros [? _].
        -- right. rewrite Hoth by done. split; [done|]. intros (_ & ? & ?). destruct (decide (k0 < k)).
           ++ unfold bufs in Hk0. rewrite Hno in Hk0 by lia. done.
           ++ pose proof (sh_disj _ (inv_shape _ HI) k k0 b b0 Hk Hk0).
              pose proof (sh_ok _ (inv_shape _ HI) k b Hk) as (? & ? & ?). lia.
      * intros k0 Hk0. rewrite Hoth; [done|]. intros ->. unfold bufs in Hk0. congruence.
Qed.

Lemma SetState_spec l off n ids st :
  Inv l -> st <> BUF_DIRTY -> st <> BUF_FL_CLEARED -> 0 <= off -> 0 < n -> off + n < two64 ->
  wp (SetState off n ids st) (fun _ l' => restated ids st off (off + n) l l') l.
Proof using Type*.
  intros. unfold SetState. wp_steps. rewrite (u64_small (off + 1)) by lia. by apply SetState_loop_spec.
Qed.

(** ** SetFlushedClean *)

(** The upload has been completed: every flushed buffer is clean, and those
    dropped from memory become holes to be read back from the server. *)
Definition finalized (b : FileBuffer) : option (Z -> FileBuffer) :=
  match b_state b with
  | BUF_FL_CLEARED => None
  | BUF_FLUSHED_FULL | BUF_FLUSHED_CUT => Some (fun i => relabel BUF_CLEAN i b)
  | _ => Some (fun i => b)
  end.

Record flushed_clean l (c : Z) l' : Prop := {
  fc_inv : Inv l';
  fc_some : forall k b, bufs l !! k = Some b -> k < c ->
    match finalized b with None => bufs l' !! k = None | Some f => exists i, bufs l' !! k = Some (f i) end;
  fc_rest : forall k, c <= k -> bufs l' !! k = bufs l !! k;
  fc_none : forall k, bufs l !! k = None -> bufs l' !! k = None;
  fc_mem : forall i, mem <$> l_ptrs l' !! i = mem <$> l_ptrs l !! i;
}.

(** A dropped buffer holds no data, so removing it frees nothing. *)
Lemma cleared_noptr l k b : Inv l -> bufs l !! k = Some b -> b_state b = BUF_FL_CLEARED -> b_ptr b = None.
Proof using Type*.
  intros HI Hk Hs. pose proof (inv_place _ HI k b Hk) as Hpl. unfold place_ok in Hpl. rewrite Hs in Hpl.
  destruct (b_data b) eqn:Ed; [naive_solver|]. eapply nodata_noptr; [|done]. by eapply (hp_data _ _ _ (inv_heap _ HI)).
Qed.

Lemma SetFlushedClean_spec l :
  Inv l ->
  wp SetFlushedClean (fun _ l' => Inv l' /\
    (forall k b, bufs l !! k = Some b ->
       match finalized b with None => bufs l' !! k = None | Some f => exists i, bufs l' !! k = Some (f i) end) /\
    (forall k, bufs l !! k = None -> bufs l' !! k = None) /\
    (forall i, mem <$> l_ptrs l' !! i = mem <$> l_ptrs l !! i)) l.
Proof using Type*.
  intros HI. unfold SetFlushedClean.
  apply ascendChange_rule with (I := fun c (_ : unit) l' => flushed_clean l c l').
  - intros c _ l1 k b [HI1 Hs Hr Hn Hm] Hck Hk Hno.
    assert (Hk0 : bufs l !! k = Some b) by (rewrite <- Hr; done).
    assert (Hnext : forall l2, Inv l2 -> (forall k', k' <> k -> bufs l2 !! k' = bufs l1 !! k') ->
      match finalized b with None => bufs l2 !! k = None | Some f => exists i, bufs l2 !! k = Some (f i) end ->
      (forall i, mem <$> l_ptrs l2 !! i = mem <$> l_ptrs l1 !! i) ->
      flushed_clean l (k + 1) l2 /\ (forall k', k < k' -> bufs l2 !! k' = bufs l1 !! k')).
    { intros l2 HI2 Hoth Hb Hm2. split; [split; [done| | | |]|].
      - intros k0 b0 Hk0' Hlt. destruct (decide (k0 = k)) as [->|]; [by assert (b0 = b) as -> by congruence|].
        rewrite Hoth by done. apply Hs; [done|]. destruct (decide (k0 < c)); [done|].
        rewrite <- Hr, Hno in Hk0' by lia. done.
      - intros k0 ?. rewrite Hoth by lia. apply Hr. lia.
      - intros k0 Hk0'. rewrite Hoth; [by apply Hn|congruence].
      - intros i. by rewrite Hm2.
      - intros k0 ?. apply Hoth. lia. }
    destruct (is_state b BUF_FL_CLEARED) eqn:E1; [|destruct (is_state b BUF_FLUSHED_FULL || is_state b BUF_FLUSHED_CUT) eqn:E2].
    + apply is_state_true in E1. apply wp_bind. wp_use (delete_spec l1 k b HI1 Hk).
      intros _ l2 (HI2 & Eb & Eh & _). wp_steps. apply Hnext; try done.
      * intros. by rewrite Eb, lookup_delete_ne.
      * unfold finalized. rewrite E1, Eb. apply lookup_delete_eq.
      * intros i. rewrite Eh. apply bump_mem.
    + assert (Hst : b_state b = BUF_FLUSHED_FULL \/ b_state b = BUF_FLUSHED_CUT).
      { apply orb_true_iff in E2 as [E2|E2]; apply is_state_true in E2; auto. }
      pose proof (inv_place _ HI1 k b Hk) as Hpl.
      assert (Hpl' : place_ok (set_state BUF_CLEAN (set_dirtyID 0 b))).
      { unfold place_ok in *. cbn. destruct (b_data b), (b_zero b), (b_onDisk b), (b_loading b); destruct Hst as [E|E]; rewrite E in Hpl; naive_solver. }
      pose proof (requeue_spec l1 k b (set_state BUF_CLEAN (set_dirtyID 0 b)) HI1 Hk eq_refl eq_refl eq_refl eq_refl Hpl' (or_intror eq_refl)) as Hrq.
      apply wp_seq. wp_use Hrq; [done|]. intros _ l2 (HI2 & i & Eb & Eh & _). wp_steps. apply Hnext; try done.
      * intros. by rewrite Eb, lookup_insert_ne.
      * unfold finalized. destruct Hst as [-> | ->]; exists i; rewrite Eb; apply lookup_insert_eq.
      * intros j. by rewrite Eh.
    + wp_steps. apply Hnext; try done. unfold finalized. apply orb_false_iff in E2 as [E2 E3].
      apply is_state_false in E1, E2, E3. destruct (b_state b); try done; by exists 0.
  - intros c _ l1 [HI1 Hs Hr Hn Hm] Hno. split_and!; try done. intros k b Hk.
    destruct (decide (k < c)); [by apply Hs|]. rewrite <- Hr, Hno in Hk by lia. done.
  - split; try done. intros k b Hk ?. pose proof (sh_ok _ (inv_shape _ HI) k b Hk) as (? & ? & ?). lia.
Qed.
(** ** Eviction *)

Definition evicted l k b l' x : Prop :=
  if bool_decide (b_offset b <= x < k) then
    if b_onDisk b then
      exists b', owner l' x = Some b' /\ b_state b' = b_state b /\ b_onDisk b' = true /\ b_loading b' = false /\ b_data b' = None
    else if is_state b BUF_CLEAN then owner l' x = None
    else exists b', owner l' x = Some b' /\ b_state b' = BUF_FL_CLEARED /\ b_data b' = None
  else match owner l x with
       | None => owner l' x = None
       | Some b0 => exists b0', owner l' x = Some b0' /\ b_state b0' = b_state b0 /\ b_onDisk b0' = b_onDisk b0 /\
           b_zero b0' = b_zero b0 /\ buf_byte (l_ptrs l') b0' x = buf_byte (l_ptrs l) b0 x /\
           b_dirtyID b0' = b_dirtyID b0 /\ (b_loading b0' = true -> b_loading b0 = true)
       end.

(** No buffer but the one at [k] changes, though one may disappear, and that one
    holds no memory. *)
Definition released T k T' : Prop :=
  (forall k' b', k' <> k -> T' !! k' = Some b' -> T !! k' = Some b') /\ (forall b', T' !! k = Some b' -> b_ptr b' = None) /\
  (forall k' b', k' <> k -> T !! k' = Some b' -> b_ptr b' <> None -> T' !! k' = Some b').

Lemma released_insert T k b' : b_ptr b' = None -> released T k (<[k := b']> T).
Proof using Type*.
  intros Hp. split_and!.
  - intros k0 b0 Hne. by rewrite lookup_insert_ne.
  - intros b0. rewrite lookup_insert_eq. by intros [= <-].
  - intros k0 b0 Hne Hk0 _. by rewrite lookup_insert_ne.
Qed.

Lemma released_delete T k k1 T' : released T k T' -> k1 <> k -> (forall b', T !! k1 = Some b' -> b_ptr b' = None) -> released T k (delete k1 T').
Proof using Type*.
  intros (H1 & H2 & H3) Hne Hp. split_and!.
  - intros k0 b0 Hk0 [_ ?]%lookup_delete_Some. eauto.
  - intros b0 [_ ?]%lookup_delete_Some. eauto.
  - intros k0 b0 Hk0 Hb0 Hptr. rewrite lookup_delete_ne; [eauto|]. intros <-. by destruct Hptr, (Hp b0 Hb0).
Qed.

(** Merging [buf] (whose data is released) into its predecessor [pb]. *)
Definition merged (pb buf : FileBuffer) : FileBuffer :=
  set_range (b_offset pb) (b_len buf + b_len pb) buf.

Lemma merge_shape T k b pb buf :
  Shape T -> T !! k = Some b -> T !! b_offset b = Some pb -> b_len buf = b_len b ->
  range_ok k (merged pb buf) /\ apart (delete (b_offset b) (delete k T)) k (merged pb buf).
Proof using Type*.
  intros HS Hk Hpb El. pose proof (sh_ok T HS k b Hk) as (? & ? & ? & ?).
  pose proof (sh_ok T HS _ pb Hpb) as (? & ? & ? & ?). split.
  - unfold BufferListInv.range_ok. cbn. lia.
  - intros k' b' [Hne1 [Hne2 Hk']%lookup_delete_Some]%lookup_delete_Some. cbn.
    destruct (decide (k' < b_offset b)).
    + left. pose proof (sh_disj T HS k' (b_offset b) b' pb Hk' Hpb). lia.
    + right. destruct (decide (k' < k)); [pose proof (sh_disj T HS k' k b' b Hk' Hk); lia|].
      pose proof (sh_disj T HS k k' b b' Hk Hk'). lia.
Qed.

Lemma merge_spec l0 l k b buf pb (a : Z) :
  Inv l0 -> bufs l0 !! k = Some b -> bufs l0 !! b_offset b = Some pb -> b_data pb = None ->
  b_offset buf = b_offset b -> b_len buf = b_len b -> b_data buf = None -> b_ptr buf = None ->
  b_dirtyID buf = 0 -> b_state buf <> BUF_DIRTY -> place_ok buf ->
  Trk l (delete k (bufs l0)) -> delete k (bufs l) = delete k (bufs l0) ->
  l_ptrs l = bump (-1) (b_ptr b) (l_ptrs l0) -> l_nextPtr l = l_nextPtr l0 -> l_curDirtyID l = l_curDirtyID l0 ->
  wp (unqueue pb ;;; at_delete (b_end pb) ;;;
      queue (set_range (b_offset pb) (b_len buf +u b_len pb) buf) ;;; ret (a, true))
    (fun '(a', _) l' => a' = a /\ Inv l' /\ (exists i, bufs l' = <[k := set_queueId i (merged pb buf)]> (delete (b_offset b) (bufs l0))) /\
       l_ptrs l' = l_ptrs l) l.
Proof using Type*.
  intros HI Hk Hpb Hpd Eo El Ed Ep Hid Hst Hpl HT Eb Eh En Ec. pose proof HI as [HS HT0 HH HPl HId].
  pose proof (sh_ok _ HS k b Hk) as Hr. pose proof (sh_ok _ HS _ pb Hpb) as Hrp. pose proof limit_range.
  destruct (merge_shape _ k b pb buf HS Hk Hpb El) as [Hrm Ham].
  pose proof Hr as (? & ? & ? & ?). pose proof Hrp as (? & ? & ? & ?).
  assert (Hne : b_offset b <> k) by lia.
  apply wp_bind. wp_use (unqueue_spec l (delete k (bufs l0)) (b_offset b) pb HT); [by rewrite lookup_delete_ne|done|].
  intros _ l1 [HT1 (E1 & E2 & E3 & E4)]. unfold at_delete. wp_steps. rewrite (range_end _ pb Hrp), u64_small by lia.
  fold (merged pb buf). set (l2 := set_at _ l1).
  wp_use (queue_spec l2 (delete (b_offset b) (delete k (bufs l0))) k (merged pb buf));
    [by apply (Trk_frame l1)|rewrite lookup_delete_ne by done; apply lookup_delete_eq|done|].
  intros _ l' (i & HT' & F1 & F2 & F3 & F4). wp_steps.
  assert (ET : <[k:=set_queueId i (merged pb buf)]> (delete (b_offset b) (bufs l0)) =
               <[k:=set_queueId i (merged pb buf)]> (delete (b_offset b) (delete k (bufs l0)))).
  { rewrite delete_delete, insert_delete_eq. done. }
  assert (Eb' : bufs l' = <[k:=set_queueId i (merged pb buf)]> (delete (b_offset b) (bufs l0))).
  { unfold bufs in *. rewrite F1, bt_map_set. cbn. rewrite bt_map_delete, E1.
    rewrite <- (insert_delete_eq (delete (b_offset b) (bt_map (l_at l)))), delete_delete, Eb, <- delete_delete, insert_delete_eq. done. }
  cbn in F2, F3, F4. split_and!; [done| |by exists i|congruence].
  split; rewrite ?Eb', ?F2, ?F3, ?F4, ?E2, ?E3, ?E4, ?Eh, ?En, ?Ec.
  - rewrite ET. apply Shape_insert; [by do 2 apply Shape_delete|done|done].
  - rewrite ET. done.
  - rewrite ET. apply Heap_insert_nodata; try done.
    + eapply Heap_delete_nodata; [by apply Heap_delete|by rewrite lookup_delete_ne|].
      eapply nodata_noptr; [|done]. by eapply (hp_data _ _ _ HH).
    + rewrite lookup_delete_ne by done. apply lookup_delete_eq.
  - intros k0 b0 [[<- <-]|[_ [_ ?]%lookup_delete_Some]]%lookup_insert_Some; eauto.
  - rewrite ET. pose proof (id_nonneg _ _ HId). apply Ids_insert; cbn; [by do 2 apply Ids_delete|lia|naive_solver|done].
Qed.

(** Replacing the buffer by one without data. *)
Lemma drop_data_Inv l0 l k b b' :
  Inv l0 -> bufs l0 !! k = Some b -> b_offset b' = b_offset b -> b_len b' = b_len b ->
  b_data b' = None -> b_ptr b' = None -> place_ok b' -> b_dirtyID b' = 0 -> b_state b' <> BUF_DIRTY ->
  bufs l = <[k := b']> (bufs l0) -> Trk l (<[k := b']> (bufs l0)) ->
  l_ptrs l = bump (-1) (b_ptr b) (l_ptrs l0) -> l_nextPtr l = l_nextPtr l0 -> l_curDirtyID l = l_curDirtyID l0 -> Inv l.
Proof using Type*.
  intros [HS HT HH HPl HId] Hk Eo El Ed Ep Hpl Hid Hst Eb HTl Eh En Ec.
  split; rewrite ?Eb, ?Eh, ?En, ?Ec.
  - by eapply Shape_update.
  - done.
  - rewrite <- insert_delete_eq. apply Heap_insert_nodata; [by apply Heap_delete|by apply lookup_delete_eq|done|done].
  - intros k0 b0 [[<- <-]|[_ ?]]%lookup_insert_Some; eauto.
  - eapply Ids_update; [done..|by right|]. rewrite Hid. naive_solver.
Qed.
(** The owner map after a merge. *)
Lemma merge_owner l l' k b pb m x :
  Shape (bufs l) -> Shape (bufs l') -> bufs l !! k = Some b -> bufs l !! b_offset b = Some pb ->
  bufs l' = <[k := m]> (delete (b_offset b) (bufs l)) -> b_offset m = b_offset pb ->
  owner l' x = if bool_decide (b_offset pb <= x < k) then Some m else owner l x.
Proof using Type*.
  intros HS HS' Hk Hpb Eb Eo. pose proof (sh_ok _ HS k b Hk) as (? & ? & ? & ?).
  pose proof (sh_ok _ HS _ pb Hpb) as (? & ? & ? & ?). case_bool_decide as Hx.
  - apply (owner_intro l' x k m HS'); [by rewrite Eb, lookup_insert_eq|lia].
  - destruct (owner l x) as [b0|] eqn:E.
    + apply (owner_lookup l x b0 HS) in E as (k0 & Hk0 & Hx0). apply (owner_intro l' x k0 b0 HS'); [|done].
      rewrite Eb, lookup_insert_ne, lookup_delete_ne; [done| |]; intros <-; simplify_eq; lia.
    + rewrite (owner_None l x HS) in E. apply (owner_None l' x HS'). rewrite Eb.
      intros k0 b0 [[<- <-]|[_ [_ ?]%lookup_delete_Some]]%lookup_insert_Some; [lia|eauto].
Qed.

(** Bytes of other buffers after an eviction without merge. *)
Lemma evicted_other l l' x :
  owner l' x = owner l x -> (forall i, mem <$> l_ptrs l' !! i = mem <$> l_ptrs l !! i) ->
  match owner l x with
  | None => owner l' x = None
  | Some b0 => exists b0', owner l' x = Some b0' /\ b_state b0' = b_state b0 /\ b_onDisk b0' = b_onDisk b0 /\
      b_zero b0' = b_zero b0 /\ buf_byte (l_ptrs l') b0' x = buf_byte (l_ptrs l) b0 x /\
      b_dirtyID b0' = b_dirtyID b0 /\ (b_loading b0' = true -> b_loading b0 = true)
  end.
Proof using Type*.
  intros Eo Em. destruct (owner l x) as [b0|]; [|done]. exists b0. split_and!; try done. by apply buf_byte_mem.
Qed.

Lemma evicted_merge l l' k b pb buf i x :
  Inv l -> Inv l' -> bufs l !! k = Some b -> bufs l !! b_offset b = Some pb -> b_data pb = None ->
  bufs l' = <[k := set_queueId i (merged pb buf)]> (delete (b_offset b) (bufs l)) ->
  (forall i, mem <$> l_ptrs l' !! i = mem <$> l_ptrs l !! i) ->
  b_state buf = b_state pb -> b_onDisk buf = b_onDisk pb -> b_zero pb = false -> b_zero buf = false ->
  b_loading buf = false -> b_data buf = None -> b_dirtyID buf = 0 -> b_dirtyID pb = 0 ->
  (b_onDisk b = true -> b_state buf = b_state b /\ b_onDisk buf = true) ->
  (b_onDisk b = false -> is_state b BUF_CLEAN = false /\ b_state buf = BUF_FL_CLEARED) ->
  evicted l k b l' x.
Proof using Type*.
  intros HI HI' Hk Hpb Hpd Eb Em Es Eod Hzp Hzb Hlb Hdb Hib Hip H1 H2.
  pose proof (inv_shape _ HI) as HS. pose proof (sh_ok _ HS k b Hk) as (? & ? & ? & ?).
  pose proof (sh_ok _ HS _ pb Hpb) as (? & ? & ? & ?).
  pose proof (merge_owner l l' k b pb _ x HS (inv_shape _ HI') Hk Hpb Eb eq_refl) as Ho.
  unfold evicted. destruct (decide (b_offset b <= x < k)) as [Hx|Hx].
  - rewrite bool_decide_true in Ho by lia. rewrite bool_decide_true by done.
    destruct (b_onDisk b).
    + destruct H1 as [? ?]; [done|]. exists (set_queueId i (merged pb buf)). done.
    + destruct H2 as [-> ?]; [done|]. exists (set_queueId i (merged pb buf)). done.
  - rewrite (bool_decide_false (b_offset b <= x < k)) by done.
    destruct (decide (b_offset pb <= x < k)) as [Hx2|Hx2].
    + rewrite bool_decide_true in Ho by done. rewrite (owner_intro l x _ pb HS Hpb) by lia.
      exists (set_queueId i (merged pb buf)). split_and!; cbn; try congruence.
      unfold buf_byte. cbn. by rewrite Hzp, Hzb, Hdb, Hpd.
    + rewrite bool_decide_false in Ho by done. by apply evicted_other.
Qed.

Section evict.
Context (l : bl M Q) (k : Z) (b : FileBuffer) (s : bslice).
Context (HI : Inv l) (Hk : bufs l !! k = Some b) (Hdata : b_data b = Some s) (Hcl : cleanish (b_state b) = true).

(** The buffer and the list once the memory is released. *)
Let buf : FileBuffer := set_data None None b.
Let h' := bump (-1) (b_ptr b) (l_ptrs l).
Let l2 : bl M Q := set_at (bt_set k buf (l_at l)) (set_ptrs h' (l_nextPtr l) l).
Let post (r : Z * bool) (l' : bl M Q) : Prop :=
  Inv l' /\ r.1 = held (l_ptrs l') - held (l_ptrs l) /\ (forall x, evicted l k b l' x) /\ released (bufs l) k (bufs l') /\ r.1 <= 0.

Lemma evict_flags : b_zero b = false /\ b_loading b = false /\ b_dirtyID b = 0 /\ b_state b <> BUF_DIRTY /\ b_state b <> BUF_FL_CLEARED.
Proof using HI Hk Hdata Hcl.
  pose proof (inv_place _ HI k b Hk) as Hpl. unfold place_ok in Hpl. rewrite Hdata in Hpl. destruct Hpl as (_ & ? & ? & ?).
  assert (Hst : b_state b <> BUF_DIRTY) by (intros E; by rewrite E in Hcl). split_and!; try done.
  destruct (decide (b_dirtyID b = 0)) as [|Hne]; [done|]. by apply (id_dirty _ _ (inv_ids _ HI) k b Hk) in Hne.
Qed.

Lemma evict_le : held h' - held (l_ptrs l) <= 0.
Proof using HI. pose proof (held_release_le _ _ _ (b_ptr b) (inv_heap _ HI)). subst h'. lia. Qed.

Lemma evict_bufs : bufs l2 = <[k:=buf]> (bufs l).
Proof using HBL. unfold bufs. cbn. apply bt_map_set. Qed.

Lemma evict_mem i : mem <$> h' !! i = mem <$> l_ptrs l !! i.
Proof using Type*. apply bump_mem. Qed.

Lemma evict_trk : Trk l2 (<[k:=buf]> (bufs l)).
Proof using HI Hk HLaws HBL. eapply Trk_update; [by apply (Trk_frame l); [|apply HI]|done..]. Qed.

(** The buffer found before the evicted one, when it is adjacent. *)
Lemma evict_prev pb :
  hd_buf (bt_descend (b_offset buf) (l_at l2)) = Some pb -> (b_end pb =? b_offset buf) = true ->
  bufs l !! b_offset b = Some pb.
Proof using HI Hk HBL.
  intros Epb Hend. pose proof (inv_shape _ HI) as HS. pose proof (sh_ok _ HS k b Hk) as (? & ? & ?).
  destruct (bt_descend _ _) as [|[kp pb'] rest] eqn:E; [done|]. cbn in Epb. injection Epb as ->.
  apply bt_descend_cons in E as (Hle & Hkp & _). change (b_offset buf) with (b_offset b) in *.
  change (bt_map (l_at l2)) with (bufs l2) in Hkp. rewrite evict_bufs, lookup_insert_ne in Hkp by lia.
  rewrite (range_end kp pb) in Hend by (by apply (sh_ok _ HS)). apply Z.eqb_eq in Hend. by subst.
Qed.

Lemma evict_unqueue (R : unit -> bl M Q -> Prop) :
  (forall l3, Trk l3 (delete k (bufs l)) -> same_mem l2 l3 -> R tt l3) -> wp (unqueue buf) R l2.
Proof using HI Hk HLaws HBL.
  intros HR. wp_use (unqueue_spec l2 (<[k:=buf]> (bufs l)) k buf evict_trk);
    [apply lookup_insert_eq|by apply (sh_ok _ (inv_shape _ HI) k b)|].
  intros [] l3 [HT3 Hs3]. apply HR; [|done]. by rewrite delete_insert_eq in HT3.
Qed.

(** The bytes outside of the evicted buffer, when nothing is merged. *)
Lemma evict_owner l' b' x :
  Inv l' -> bufs l' = <[k:=b']> (bufs l) -> b_offset b' = b_offset b ->
  owner l' x = if bool_decide (b_offset b <= x < k) then Some b' else owner l x.
Proof using HI Hk HBL. intros HI' Eb' Eo. apply update_owner; try done; [apply HI|apply HI']. Qed.

(** Merging with [pb] after the buffer has been unqueued. *)
Lemma evict_merge (f : FileBuffer) pb l3 a :
  f = buf \/ f = set_state BUF_FL_CLEARED buf -> bufs l !! b_offset b = Some pb -> b_data pb = None ->
  b_state pb = b_state f -> b_onDisk pb = b_onDisk b -> place_ok f -> b_zero pb = false ->
  (f = buf -> b_onDisk b = true) -> (f <> buf -> b_onDisk b = false /\ b_state b = BUF_FLUSHED_FULL) ->
  a = held h' - held (l_ptrs l) -> Trk l3 (delete k (bufs l)) -> same_mem l2 l3 ->
  wp (unqueue pb ;;; at_delete (b_end pb) ;;;
      queue (set_range (b_offset pb) (b_len f +u b_len pb) f) ;;; ret (a, true)) post l3.
Proof using Type*.
  intros Hf Hpb Hpd Es Eod Hpl Hzp Hd1 Hd2 -> HT3 (F1 & F2 & F3 & F4).
  destruct evict_flags as (Hz & Hl & Hid & Hst & Hst2).
  assert (Hff : b_offset f = b_offset b /\ b_len f = b_len b /\ b_data f = None /\ b_ptr f = None /\
    b_dirtyID f = 0 /\ b_state f <> BUF_DIRTY /\ b_onDisk f = b_onDisk b /\ b_zero f = false /\ b_loading f = false).
  { destruct Hf as [-> | ->]; cbn; split_and!; done. }
  destruct Hff as (f1 & f2 & f3 & f4 & f5 & f6 & f7 & f8 & f9).
  assert (Hip : b_dirtyID pb = 0).
  { destruct (decide (b_dirtyID pb = 0)) as [|Hne]; [done|]. apply (id_dirty _ _ (inv_ids _ HI) _ pb Hpb) in Hne. congruence. }
  wp_use (merge_spec l l3 k b f pb (held h' - held (l_ptrs l)) HI Hk Hpb Hpd); try done.
  - unfold bufs at 1. rewrite F1. change (bt_map (l_at l2)) with (bufs l2). by rewrite evict_bufs, delete_insert_eq.
  - intros [a' d] l' (-> & HI' & (j & Eb') & Eh'). unfold post. rewrite Eh', F3. pose proof evict_le. split_and!; [done|done| | |done].
    2: { rewrite Eb'. pose proof (sh_ok _ (inv_shape _ HI) k b Hk) as (? & ? & ? & ?). rewrite insert_delete_ne by lia.
         apply released_delete; [by apply released_insert|lia|]. intros b' Hb'. assert (b' = pb) as -> by congruence.
         eapply nodata_noptr; [|done]. by eapply (hp_data _ _ _ (inv_heap _ HI)). }
    intros x. eapply (evicted_merge l l' k b pb f j); try done; try congruence.
    + intros i. rewrite Eh', F3. apply evict_mem.
    + intros Hod. split; [|congruence]. destruct Hf as [-> | ->]; [done|].
      destruct Hd2 as [? _]; [|congruence]. intros E. apply (f_equal b_state) in E. cbn in E. congruence.
    + intros Hod. destruct Hf as [-> | ->]; [rewrite Hd1 in Hod; done|].
      destruct Hd2 as [_ E]; [intros E; apply (f_equal b_state) in E; cbn in E; congruence|].
      split; [|done]. unfold is_state. by rewrite E.
Qed.

(** On disk: the buffer only loses its memory. *)
Lemma evict_onDisk : b_onDisk b = true -> Inv l2 /\ (forall x, evicted l k b l2 x) /\ released (bufs l) k (bufs l2).
Proof using Type*.
  intros Hod. destruct evict_flags as (Hz & Hl & Hid & Hst & Hst2).
  assert (HI2 : Inv l2).
  { eapply (drop_data_Inv l l2 k b buf); try done; [|apply evict_bufs|apply evict_trk].
    unfold place_ok. cbn. by rewrite Hz, Hod. }
  split; [done|]. split; [|rewrite evict_bufs; by apply released_insert]. intros x. unfold evicted. rewrite Hod. pose proof (evict_owner l2 buf x HI2 evict_bufs eq_refl) as Ho.
  destruct (bool_decide (b_offset b <= x < k)); [eauto 10|]. apply evicted_other; [done|apply evict_mem].
Qed.

(** Clean: the buffer is dropped. *)
Lemma evict_clean l3 :
  b_onDisk b = false -> b_state b = BUF_CLEAN -> Trk l3 (delete k (bufs l)) -> same_mem l2 l3 ->
  post (held h' - held (l_ptrs l), true) (set_at (bt_delete k (l_at l3)) l3).
Proof using Type*.
  intros Hod Hc HT3 (F1 & F2 & F3 & F4). pose proof HI as [HS HT HH HPl HId]. set (l4 := set_at _ l3).
  assert (Eb : bufs l4 = delete k (bufs l)).
  { unfold bufs, l4. cbn. rewrite bt_map_delete, F1. change (bt_map (l_at l2)) with (bufs l2).
    by rewrite evict_bufs, delete_insert_eq. }
  assert (Eh : l_ptrs l4 = h') by (unfold l4; cbn; by rewrite F3).
  assert (HI4 : Inv l4).
  { split; rewrite ?Eb, ?Eh; cbn; rewrite ?F2, ?F4; cbn.
    - by apply Shape_delete.
    - by apply (Trk_frame l3).
    - by apply Heap_delete.
    - intros k0 b0 [_ ?]%lookup_delete_Some. eauto.
    - by apply Ids_delete. }
  unfold post. cbn [fst]. rewrite Eh. pose proof evict_le. split_and!; try done; [|rewrite Eb; split_and!; [intros ? ? _ [_ ?]%lookup_delete_Some; done|intros ? [? _]%lookup_delete_Some; done|intros ? ? ? ? _; by rewrite lookup_delete_ne]].
  intros x. unfold evicted. rewrite Hod.
  assert (Em : forall i, mem <$> l_ptrs l4 !! i = mem <$> l_ptrs l !! i) by (intros; rewrite Eh; apply evict_mem).
  pose proof (delete_owner l l4 k b x HI HI4 Hk Eb Em) as Ho.
  destruct (bool_decide (b_offset b <= x < k)) eqn:Ex.
  - by rewrite (proj2 (is_state_true b BUF_CLEAN) Hc).
  - apply evicted_other; [|done]. unfold keeps in Ho.
    apply bool_decide_eq_false in Ex. destruct (owner l x) as [b0|] eqn:E; [|done].
    apply (owner_lookup l x b0 HS) in E as (k0 & Hk0 & Hx0). apply (owner_intro l4 x k0 b0 (inv_shape _ HI4)); [|done].
    rewrite Eb, lookup_delete_ne; [done|]. intros <-. naive_solver.
Qed.

(** Flushed: the buffer stays as a placeholder without data. *)
Lemma evict_flushed l3 :
  b_onDisk b = false -> b_state b = BUF_FLUSHED_FULL -> Trk l3 (delete k (bufs l)) -> same_mem l2 l3 ->
  wp (queue (set_state BUF_FL_CLEARED buf) ;;; ret (held h' - held (l_ptrs l), false)) post l3.
Proof using Type*.
  intros Hod Hf HT3 (F1 & F2 & F3 & F4). pose proof (sh_ok _ (inv_shape _ HI) k b Hk) as Hr.
  destruct evict_flags as (Hz & Hl & Hid & Hst & Hst2). apply wp_bind.
  wp_use (queue_spec l3 (delete k (bufs l)) k (set_state BUF_FL_CLEARED buf) HT3); [apply lookup_delete_eq|done|].
  intros _ l4 (j & HT4 & G1 & G2 & G3 & G4). rewrite insert_delete_eq in HT4. wp_steps.
  set (b' := set_queueId j (set_state BUF_FL_CLEARED buf)) in *.
  assert (Eb : bufs l4 = <[k:=b']> (bufs l)).
  { unfold bufs at 1. rewrite G1, bt_map_set, F1. change (bt_map (l_at l2)) with (bufs l2).
    by rewrite evict_bufs, insert_insert_eq. }
  assert (HI4 : Inv l4).
  { eapply (drop_data_Inv l l4 k b b'); try done; [|by rewrite ?G2, ?G3, ?G4, ?F2, ?F3, ?F4..]. unfold place_ok. cbn. by rewrite Hz, Hod, Hl. }
  unfold post. rewrite G3, F3. pose proof evict_le. split_and!; try done; [|rewrite Eb; by apply released_insert].
  intros x. unfold evicted. rewrite Hod.
  pose proof (evict_owner l4 b' x HI4 Eb eq_refl) as Ho. destruct (bool_decide (b_offset b <= x < k)).
  - rewrite (proj2 (is_state_false b BUF_CLEAN)) by congruence. by exists b'.
  - apply evicted_other; [done|]. intros i. rewrite G3, F3. apply evict_mem.
Qed.

Lemma EvictFromMemory_post : wp (EvictFromMemory b) post l.
Proof using Type*.
  pose proof (inv_heap _ HI) as HH. destruct evict_flags as (Hz & Hl & Hid & Hst & Hst2).
  destruct (Heap_ref _ _ _ k b s HH Hk Hdata) as (i & P & Ep & HP & Hpos & _).
  unfold EvictFromMemory. apply wp_bind. rewrite Ep. eapply wp_of_run; [by apply (release_run l i P)|].
  cbn beta. rewrite <- Ep. fold h'. fold buf. apply wp_bind.
  eapply wp_of_run; [apply (put_buf_at k buf), (sh_ok _ (inv_shape _ HI) k b Hk)|].
  cbn beta. apply wp_bind. apply wp_getS. fold l2.
  change (set_at (bt_set k buf (l_at (set_ptrs h' (l_nextPtr l) l))) (set_ptrs h' (l_nextPtr l) l)) with l2.
  pose proof evict_prev as Hprev. destruct (hd_buf (bt_descend (b_offset buf) (l_at l2))) as [pb|].
  - specialize (Hprev pb eq_refl). change (b_onDisk buf) with (b_onDisk b). destruct (b_onDisk b) eqn:Eod.
    + destruct (evict_onDisk Eod) as (HI2 & Hev2 & Hrel2).
      pose proof evict_le. assert (Hsame : post (held h' - held (l_ptrs l), false) l2) by done.
      destruct (b_end pb =? b_offset buf) eqn:E1; [|done]. destruct (is_state pb (b_state buf)) eqn:E2; [|done].
      case_bool_decide as E3; [|done]. destruct (Bool.eqb (b_onDisk pb) true) eqn:E4; [|done]. cbn [andb].
      apply eqb_prop in E4. apply is_state_true in E2. specialize (Hprev eq_refl).
      assert (Hpd : b_data pb = None).
      { destruct (b_data pb) eqn:E; [|done]. destruct (Heap_ref _ _ _ _ pb _ HH Hprev E) as (? & ? & ? & _). congruence. }
      pose proof (inv_place _ HI _ pb Hprev) as Hplp. unfold place_ok in Hplp. rewrite Hpd, E4 in Hplp.
      apply wp_bind, evict_unqueue. intros l3 HT3 Hs3.
      eapply evict_merge; try done; [by left|by rewrite E4| |destruct (b_zero pb); naive_solver].
      unfold place_ok. cbn. by rewrite Hz, Eod.
    + change (b_state buf) with (b_state b) at 1. destruct (b_state b) eqn:Es in |- *; try (exfalso; by rewrite Es in Hcl); apply wp_bind, evict_unqueue; intros l3 HT3 Hs3.
      * apply wp_bind. unfold at_delete. wp_steps. rewrite (range_end k) by (by apply (sh_ok _ (inv_shape _ HI) k b)).
        by apply evict_clean.
      * cbn beta zeta. change (b_offset (set_state BUF_FL_CLEARED buf)) with (b_offset buf).
        destruct (b_end pb =? b_offset buf) eqn:E1; [|by apply evict_flushed].
        destruct (is_state pb _) eqn:E2; [|by apply evict_flushed]. cbn [andb]. specialize (Hprev eq_refl).
        apply is_state_true in E2. cbn in E2. pose proof (inv_place _ HI _ pb Hprev) as Hplp.
        unfold place_ok in Hplp. rewrite E2 in Hplp.
        destruct (b_data pb) eqn:Epd; [naive_solver|].
        destruct (b_zero pb) eqn:Ezp; [naive_solver|]. destruct (b_onDisk pb) eqn:Eop; [naive_solver|].
        eapply evict_merge; try done; [by right|congruence| |].
        -- unfold place_ok. cbn. by rewrite Hz, Eod, Hl.
        -- intros E. apply (f_equal b_state) in E. cbn in E. congruence.
  - change (b_onDisk buf) with (b_onDisk b). destruct (b_onDisk b) eqn:Eod.
    + destruct (evict_onDisk Eod) as (HI2 & Hev2 & Hrel2). pose proof evict_le. done.
    + change (b_state buf) with (b_state b) at 1. destruct (b_state b) eqn:Es in |- *; try (exfalso; by rewrite Es in Hcl); apply wp_bind, evict_unqueue; intros l3 HT3 Hs3.
      * apply wp_bind. unfold at_delete. wp_steps. rewrite (range_end k) by (by apply (sh_ok _ (inv_shape _ HI) k b)).
        by apply evict_clean.
      * by apply evict_flushed.
Qed.
End evict.
(** ** Loading from disk *)

(** A buffer whose only copy is on disk and is not being read yet. *)
Definition wants_load (b : FileBuffer) : bool :=
  match b_data b with Some _ => false | None => b_onDisk b && negb (b_loading b) end.

(** Byte [x] is now being loaded from disk, and is otherwise as it was. *)
Definition marked l l' x : Prop :=
  exists b b', owner l x = Some b /\ owner l' x = Some b' /\ b_loading b' = true /\ b_onDisk b' = true /\
    b_state b' = b_state b /\ b_zero b' = b_zero b /\ b_data b' = None /\ newer (l_curDirtyID l) (b_dirtyID b) (b_dirtyID b').

Record disk_loading l (lo hi c : Z) (rs : list Range) l' : Prop := {
  dl_inv : Inv l';
  dl_own : forall x, if hit_below l lo hi wants_load c x then marked l l' x else keeps l l' x;
  dl_ranges : forall x, in_ranges rs x <-> hit_below l lo hi wants_load c x = true;
  dl_rest : forall k, c <= k -> bufs l' !! k = bufs l !! k;
  dl_held : held (l_ptrs l') = held (l_ptrs l);
  dl_cur : l_curDirtyID l <= l_curDirtyID l';
}.

Lemma marked_keeps l l1 l2 x :
  l_curDirtyID l <= l_curDirtyID l1 -> marked l l1 x -> keeps l1 l2 x -> Inv l1 -> Inv l2 -> marked l l2 x.
Proof using Type*.
  intros Hc (b & b1 & E & E1 & H1 & H2 & H3 & H4 & H5 & H6) Hk HI1 HI2. unfold keeps in Hk. rewrite E1 in Hk.
  destruct Hk as (b2 & E2 & Ecell & Hn). injection Ecell as E3 E4 E5 E6 E7.
  exists b, b2. split_and!; try done; try congruence; [|unfold newer in *; lia].
  apply (owner_lookup l2 x b2 (inv_shape _ HI2)) in E2 as (k2 & Hk2 & _).
  pose proof (inv_place _ HI2 k2 b2 Hk2) as Hp. unfold place_ok in Hp. destruct (b_data b2); [|done]. naive_solver congruence.
Qed.

Lemma keeps_marked l l1 l2 x :
  l_curDirtyID l <= l_curDirtyID l1 -> keeps l l1 x -> marked l1 l2 x -> marked l l2 x.
Proof using Type*.
  intros Hc Hk (b1 & b2 & E1 & E2 & H1 & H2 & H3 & H4 & H5 & H6). unfold keeps in Hk.
  destruct (owner l x) as [b|] eqn:E; [|congruence]. destruct Hk as (b1' & E1' & Ecell & Hn).
  assert (b1' = b1) as -> by congruence. injection Ecell as E3 E4 E5 E6 E7.
  exists b, b2. split_and!; try done; try congruence. unfold newer in *. lia.
Qed.

Lemma marked_trans l l1 l2 x :
  l_curDirtyID l <= l_curDirtyID l1 -> marked l l1 x -> marked l1 l2 x -> marked l l2 x.
Proof using Type*.
  intros Hc (b & b1 & E & E1 & H1 & H2 & H3 & H4 & H5 & H6) (b1' & b2 & E1' & E2 & G1 & G2 & G3 & G4 & G5 & G6).
  assert (b1' = b1) as -> by congruence. exists b, b2. split_and!; try done; try congruence. unfold newer in *. lia.
Qed.

(** The buffer of one step, cut to the range. *)
Lemma load_cut {A} l k b lo hi (cont : FileBuffer -> bool -> St (bl M Q) A) (R : A -> bl M Q -> Prop) :
  Inv l -> bufs l !! k = Some b -> lo < k -> b_offset b < hi -> lo < hi ->
  (forall b2 c2 l', cut (fun _ => false) l 0 l' -> bufs l' !! Z.min hi k = Some b2 ->
     b_offset b2 = Z.max lo (b_offset b) -> same_flags b b2 -> (forall k', k < k' -> bufs l' !! k' = bufs l !! k') ->
     wp (cont b2 c2) R l') ->
  wp (let! '(b1, c1) := (if b_offset b <? lo then let! '(_, rgt) := split b lo in ret (rgt, true) else ret (b, false)) in
      let! '(b2, c2) := (if hi <? b_end b1 then let! '(lft, _) := split b1 hi in ret (lft, true) else ret (b1, c1)) in
      cont b2 c2) R l.
Proof using Type*.
  intros HI Hk Hlo Hhi Hlh HR. apply wp_bind.
  apply (wp_mono _ (fun '(b1, _) l1 => cut (fun _ => false) l 0 l1 /\ bufs l1 !! k = Some b1 /\
    b_offset b1 = Z.max lo (b_offset b) /\ same_flags b b1 /\ (forall k', k < k' -> bufs l1 !! k' = bufs l !! k'))).
  { destruct (Z.ltb_spec (b_offset b) lo); wp_steps.
    - wp_use (split_cut l k b lo HI Hk); [lia|]. intros [lft rgt] l1 (HC & Eb & _ & Eo & _ & Hfl). wp_steps.
      split_and!; try done; [by rewrite Eb, lookup_insert_ne, lookup_insert_eq by lia|lia|].
      intros k' ?. by rewrite Eb, !lookup_insert_ne by lia.
    - split_and!; try done; [by apply cut_none|lia]. }
  intros [b1 c1] l1 (HC & Hk1 & Eo & Hfl & Hab). pose proof (cut_inv _ _ _ _ HC) as HI1.
  rewrite (range_end k b1) by (by apply (sh_ok _ (inv_shape _ HI1))).
  destruct (Z.ltb_spec hi k); apply wp_bind; [apply wp_bind|apply wp_ret].
  - wp_use (split_cut l1 k b1 hi HI1 Hk1); [lia|]. intros [lft rgt] l2 (HC2 & Eb & Eo2 & _ & Hfl2 & _).
    apply wp_ret, HR.
    + exact (cut_trans _ _ _ _ _ _ _ HC HC2).
    + by rewrite Z.min_l, Eb, lookup_insert_eq by lia.
    + congruence.
    + unfold same_flags in *. intuition congruence.
    + intros k' ?. rewrite Eb, !lookup_insert_ne by lia. by apply Hab.
  - apply HR; try done. by rewrite Z.min_r by lia.
Qed.

Lemma in_ranges_snoc rs s e x : in_ranges (rs ++ [mkRange s e]) x <-> in_ranges rs x \/ s <= x < e.
Proof.
  unfold in_ranges. setoid_rewrite elem_of_app. setoid_rewrite list_elem_of_singleton. split.
  - intros (r & [?| ->] & ?); [left; eauto|by right].
  - intros [(r & ? & ?)|?]; [exists r; auto|]. exists (mkRange s e). auto.
Qed.

(** Marking the cut buffer as loading. *)
Lemma load_mark l k2 b2 :
  Inv l -> bufs l !! k2 = Some b2 -> b_data b2 = None -> b_onDisk b2 = true ->
  wp (put_buf (set_loading true b2)) (fun _ l' => Inv l' /\ bufs l' = <[k2 := set_loading true b2]> (bufs l) /\
    l_ptrs l' = l_ptrs l /\ l_curDirtyID l' = l_curDirtyID l /\
    forall x, if bool_decide (b_offset b2 <= x < k2) then marked l l' x else keeps l l' x) l.
Proof using Type*.
  intros HI Hk Hd Hod. pose proof (inv_shape _ HI) as HS.
  wp_use (put_buf_spec l k2 b2 (set_loading true b2) HI Hk); try done.
  { pose proof (inv_place _ HI k2 b2 Hk) as Hp. unfold place_ok in *. cbn. rewrite Hd, Hod in *.
    destruct (b_zero b2); [naive_solver|done]. }
  intros _ l' (HI' & Eb & Eh & _ & Ec). split_and!; try done. intros x.
  pose proof (update_owner l l' k2 b2 _ x HS (inv_shape _ HI') Hk Eb eq_refl) as Ho.
  destruct (decide (b_offset b2 <= x < k2)) as [Hx|Hx].
  - rewrite bool_decide_true in * by done. exists b2, (set_loading true b2).
    split_and!; try done; [by eapply (owner_intro l x k2 b2 HS)|by left].
  - rewrite bool_decide_false in * by done. apply keeps_refl_mem; [done|]. by rewrite Eh.
Qed.

Lemma AddLoadingFromDisk_spec l lo n :
  Inv l -> 0 <= lo -> 0 < n -> lo + n < two64 ->
  wp (AddLoadingFromDisk lo n) (fun rs l' => Inv l' /\ held (l_ptrs l') = held (l_ptrs l) /\
    l_curDirtyID l <= l_curDirtyID l' /\
    (forall x, if hit l lo (lo + n) wants_load x then marked l l' x else keeps l l' x) /\
    (forall x, in_ranges rs x <-> hit l lo (lo + n) wants_load x = true)) l.
Proof using Type*.
  intros HI Hlo Hn Hlim. unfold AddLoadingFromDisk. rewrite !u64_small by lia. set (hi := lo + n).
  pose proof (inv_shape _ HI) as HS.
  assert (Hfin : forall c rs l', disk_loading l lo hi c rs l' ->
    (forall k b, bufs l !! k = Some b -> c <= k -> hi <= b_offset b) ->
    Inv l' /\ held (l_ptrs l') = held (l_ptrs l) /\ l_curDirtyID l <= l_curDirtyID l' /\
    (forall x, if hit l lo hi wants_load x then marked l l' x else keeps l l' x) /\
    (forall x, in_ranges rs x <-> hit l lo hi wants_load x = true)).
  { intros c rs l' [HI' Ho Hr _ Hh Hc] Hend. split_and!; try done; intros x;
      rewrite <- (hit_end l lo hi wants_load c x HS Hend); [apply Ho|apply Hr]. }
  apply ascendChange_rule with (I := fun c rs l' => lo < c /\ disk_loading l lo hi c rs l').
  - intros c rs l1 k b [Hlc HD] Hck Hk Hno. pose proof HD as [HI1 Ho Hr Hsame Hh Hc].
    assert (Hk0 : bufs l !! k = Some b) by (rewrite <- Hsame; done).
    assert (Hno0 : forall k', c <= k' < k -> bufs l !! k' = None) by (intros; rewrite <- Hsame by lia; by apply Hno).
    pose proof (fun x => hit_step l lo hi wants_load c k b x HS Hk0 Hck Hno0) as Hst.
    destruct (Z.leb_spec hi (b_offset b)) as [Hhi|Hhi].
    { wp_steps. eapply Hfin; [done|]. intros k2 b2 Hk2 Hge.
      destruct (Z.lt_trichotomy k2 k) as [?|[->|?]]; [rewrite Hno0 in Hk2 by lia; done|naive_solver|].
      pose proof (sh_disj _ HS k k2 b b2 Hk0 Hk2). pose proof (sh_ok _ HS k b Hk0) as (? & ? & ?). lia. }
    assert (Hskip : wants_load b = false -> (lo < k + 1 /\ disk_loading l lo hi (k + 1) rs l1) /\
      (forall k', k < k' -> bufs l1 !! k' = bufs l1 !! k')).
    { intros Hw. assert (Hst' : forall x, hit_below l lo hi wants_load (k + 1) x = hit_below l lo hi wants_load c x).
      { intros x. by rewrite Hst, Hw, orb_false_r. }
      split; [|done]. split; [lia|]. split; try done; [intros x; rewrite Hst'; apply Ho|intros x; rewrite Hst'; apply Hr|].
      intros k' ?. apply Hsame. lia. }
    unfold wants_load in Hskip at 1. destruct (b_data b) eqn:Ed; [wp_steps; by apply Hskip|].
    destruct (b_onDisk b && negb (b_loading b)) eqn:Ew; [|wp_steps; by apply Hskip].
    clear Hskip. apply (load_cut l1 k b lo hi); try done; [lia|unfold hi; lia|]. intros b2 c2 l2 HC Hk2 Eo2 (f1 & f2 & f3 & f4 & f5) Hab.
    apply andb_true_iff in Ew as [Eod Eld].
    apply wp_bind. wp_use (load_mark l2 _ b2 (cut_inv _ _ _ _ HC) Hk2); [by apply f5|congruence|].
    intros _ l3 (HI3 & Eb3 & Eh3 & Ec3 & Hm). wp_steps.
    rewrite (range_end _ b2) by (by apply (sh_ok _ (inv_shape _ (cut_inv _ _ _ _ HC)))).
    assert (Hin : forall x, (wants_load b && (lo <=? x) && (x <? hi) && bool_decide (b_offset b <= x < k)) = bool_decide (b_offset b2 <= x < Z.min hi k)).
    { intros x. unfold wants_load. rewrite Ed, Eod, Eld. cbn. rewrite Eo2. apply eq_true_iff_eq. bool_lia. }
    pose proof (cut_cur _ _ _ _ HC) as Hcc. pose proof (cut_inv _ _ _ _ HC) as HI2.
    split; [split; [lia|split]|]; try done.
    + intros x. rewrite Hst, Hin. specialize (Ho x). specialize (Hm x). pose proof (cut_own _ _ _ _ HC x) as Hc2. cbn in Hc2.
      destruct (hit_below l lo hi wants_load c x).
      * assert (Hm2 : marked l l2 x) by (by eapply marked_keeps). cbn.
        destruct (bool_decide (b_offset b2 <= x < Z.min hi k)); [apply (marked_trans l l2)|apply (marked_keeps l l2)]; try done; lia.
      * assert (Hk2' : keeps l l2 x) by (by eapply keeps_trans). cbn.
        destruct (bool_decide (b_offset b2 <= x < Z.min hi k)); [apply (keeps_marked l l2)|apply (keeps_trans l l2)]; try done; lia.
    + intros x. rewrite in_ranges_snoc, Hst, Hin, orb_true_iff, bool_decide_eq_true, Hr. done.
    + intros k' ?. rewrite Eb3, lookup_insert_ne, Hab by lia. apply Hsame. lia.
    + rewrite Eh3. pose proof (cut_held _ _ _ _ HC). lia.
    + rewrite Ec3. pose proof (cut_cur _ _ _ _ HC). lia.
    + intros k' ?. by rewrite Eb3, lookup_insert_ne, Hab by lia.
  - intros c rs l' [_ HD] Hno. eapply Hfin; [done|]. intros k b Hk Hge. rewrite <- (dl_rest _ _ _ _ _ _ HD), Hno in Hk by done. done.
  - split; [lia|]. split; try done.
    + intros x. rewrite hit_start by done. apply keeps_self.
    + intros x. rewrite hit_start by done. split; [|done]. by intros ?%in_ranges_nil.
Qed.

(** Byte [x] now holds [v] in memory, and is otherwise as it was. *)
Definition revived l l' x (v : byte) : Prop :=
  exists b b', owner l x = Some b /\ owner l' x = Some b' /\ b_loading b = true /\ b_onDisk b = true /\
    b_loading b' = false /\ b_onDisk b' = true /\ b_state b' = b_state b /\ b_dirtyID b' = b_dirtyID b /\
    buf_byte (l_ptrs l') b' x = Some v.

(** Attaching a new array to a buffer that has none. *)
Lemma revive_buffer l k b (data spare : list byte) :
  Inv l -> bufs l !! k = Some b -> b_loading b = true -> b_onDisk b = true -> b_len b = zlen data ->
  let n := l_nextPtr l in
  let b' := set_loading false (set_data (Some (mkSlice 0 (zlen data))) (Some n) b) in
  let l' := set_at (bt_set k b' (l_at l)) (set_ptrs (<[n := mkPtr (data ++ spare) (zlen data) 1]> (l_ptrs l)) (n + 1) l) in
  Inv l' /\ held (l_ptrs l') = held (l_ptrs l) + zlen data /\
  (forall x, if bool_decide (b_offset b <= x < k)
             then exists v, znth data (x - b_offset b) = Some v /\ revived l l' x v else keeps l l' x).
Proof using Type*.
  intros HI Hk Hl Hod El n b' l'. pose proof HI as [HS HT HH HPl HId]. pose proof (sh_ok _ HS k b Hk) as Hr.
  pose proof (HPl k b Hk) as Hp. pose proof Hp as Hp0. unfold place_ok in Hp.
  destruct (b_data b) as [s|] eqn:Ed; [naive_solver congruence|]. rewrite Hod in Hp.
  destruct (b_zero b) eqn:Ez; [naive_solver congruence|].
  pose proof (nodata_noptr _ b (hp_data _ _ _ HH k b Hk) Ed) as Ep.
  destruct (Heap_fresh _ _ _ n HH) as [Hfr _]; [unfold n; lia|].
  pose proof (zlen_nonneg spare). assert (Hpos : 0 < zlen data) by (destruct Hr; lia).
  assert (Eb : bufs l' = <[k:=b']> (bufs l)) by (unfold bufs; cbn; apply bt_map_set).
  set (P1 := mkPtr (data ++ spare) (zlen data) 1). set (P0 := mkPtr (data ++ spare) (zlen data) 0).
  assert (Eh : l_ptrs l' = bump 1 (b_ptr b') (<[n:=P0]> (l_ptrs l))).
  { cbn. rewrite lookup_insert_eq, insert_insert_eq. done. }
  assert (HH' : Heap (l_ptrs l') (n + 1) (bufs l')).
  { rewrite Eh, Eb, <- (insert_delete_eq (bufs l)). apply Heap_insert; [|apply lookup_delete_eq|].
    - apply (Heap_new (l_ptrs l) n (delete k (bufs l)) P0); [by eapply Heap_delete_nodata|done|]. cbn. rewrite zlen_app. lia.
    - exists P0. rewrite lookup_insert_eq. cbn. rewrite zlen_app. split_and!; try done; lia. }
  assert (HI' : Inv l').
  { split; rewrite ?Eb.
    - by eapply Shape_update.
    - eapply Trk_update; [by apply (Trk_frame l)|done..].
    - rewrite <- Eb. exact HH'.
    - intros k0 b0 [[<- <-]|[_ ?]]%lookup_insert_Some; [|eauto]. unfold place_ok. cbn. split_and!; naive_solver.
    - eapply Ids_update; [done..|by left|]. exact (id_dirty _ _ HId k b Hk). }
  split_and!; [done| |].
  - rewrite Eh, (held_bump_first _ n P0), (held_new _ n (bufs l)) by (done || apply lookup_insert_eq). done.
  - intros x. pose proof (update_owner l l' k b b' x HS (inv_shape _ HI') Hk Eb eq_refl) as Ho.
    destruct Hr as (? & _). destruct (decide (b_offset b <= x < k)) as [Hx|Hx].
    + rewrite bool_decide_true in * by done. destruct (znth_Some data (x - b_offset b)) as [v Hv]; [lia|].
      exists v. split; [done|]. exists b, b'. split_and!; try done; [by eapply (owner_intro l x k b HS)|].
      change (buf_byte (l_ptrs l') b' x) with
        (if b_zero b then Some 0 else match <[n:=P1]> (l_ptrs l) !! n with Some P => znth (mem P) (0 + (x - b_offset b)) | None => None end).
      rewrite Ez, lookup_insert_eq. cbn [mem P1]. by rewrite Z.add_0_l, znth_app_l by lia.
    + rewrite bool_decide_false in * by done. apply keeps_heap; [done..|].
      intros i P HP. cbn. rewrite lookup_insert_ne; [by rewrite HP|congruence].
Qed.

Lemma ReviveFromDisk_spec l off (data spare : list byte) :
  Inv l -> 0 <= off -> off + 1 < two64 ->
  wp (ReviveFromDisk off data spare) (fun _ l' => l' = l \/
    (Inv l' /\ held (l_ptrs l') = held (l_ptrs l) + zlen data /\ l_curDirtyID l' = l_curDirtyID l /\
     forall x, if bool_decide (off <= x < off + zlen data)
               then exists v, znth data (x - off) = Some v /\ revived l l' x v else keeps l l' x)) l.
Proof using Type*.
  intros HI Hoff Hlim. unfold ReviveFromDisk. wp_steps. rewrite u64_small by lia.
  destruct (bt_ascend (off + 1) (l_at l)) as [|[k b] rest] eqn:E; cbn [hd_buf head fmap option_fmap option_map snd]; wp_steps; [by left|].
  apply bt_ascend_cons in E as (_ & Hk & _). pose proof (sh_ok _ (inv_shape _ HI) k b Hk) as Hr.
  destruct (Z.eqb_spec (b_offset b) off) as [Eo|]; cbn [andb]; wp_steps; [|by left].
  destruct (Z.eqb_spec (b_len b) (zlen data)) as [El|]; cbn [andb]; wp_steps; [|by left].
  destruct (b_loading b) eqn:Eld; cbn [andb]; wp_steps; [|by left].
  destruct (b_onDisk b) eqn:Eod; wp_steps; [|by left].
  destruct (revive_buffer l k b data spare HI Hk Eld Eod El) as (HI' & Hh & Hv).
  set (n := l_nextPtr l) in *. unfold new_ptr. wp_steps. fold n.
  set (b' := set_loading false _).
  assert (Hst : is_state b' BUF_FL_CLEARED = false).
  { pose proof (inv_place _ HI k b Hk) as Hp. unfold place_ok in Hp. rewrite Eod, Eld in Hp. apply is_state_false. cbn.
    destruct (b_data b), (b_zero b); naive_solver. }
  rewrite Hst. eapply wp_of_run; [by apply (put_buf_at k)|]. right. rewrite Eo in Hv.
  replace k with (off + zlen data) in Hv by (destruct Hr; lia). split_and!; try done.
  by replace k with (off + zlen data) by (destruct Hr; lia).
Qed.

(** ** Splitting at an offset and marking a copy on disk *)

Lemma SplitAt_spec l off :
  Inv l -> 0 <= off -> off + 1 < two64 -> wp (SplitAt off) (fun _ l' => cut (fun _ => false) l 0 l') l.
Proof using Type*.
  intros HI Hoff Hlim. unfold SplitAt. wp_steps. rewrite u64_small by lia.
  destruct (bt_ascend (off + 1) (l_at l)) as [|[k b] rest] eqn:E; cbn [hd_buf head fmap option_fmap option_map snd]; wp_steps; [by apply cut_none|].
  apply bt_ascend_cons in E as (? & Hk & _). destruct (Z.ltb_spec (b_offset b) off); wp_steps; [|by apply cut_none].
  wp_use (split_cut l k b off HI Hk); [lia|]. intros [? ?] l' (HC & _). by wp_steps.
Qed.

End state.
End BufferListState.
