(* ===== verification/BufferListSpec.v ===== *)
(** * The buffer list as a whole

    [list_op] enumerates what the rest of the file system does to a buffer
    list, with the arguments it passes.  Every sequence of such operations
    keeps the invariant and reaches none of the panics of the Go code, and the
    list refines an abstract set of pending modifications: a map from file
    offsets to the bytes written but not acknowledged by the server, which
    only writes, zeroing, truncation and flush acknowledgements change. *)

From S2P Require Import Prelude BTree Parts BufferList BufferListInv BufferListView.
From S2P Require Import BufferListRemove BufferListAdd BufferListRead BufferListState.

Module BufferListSpec.
Import BufferList BufferListInv BufferListView BufferListRemove BufferListAdd BufferListRead BufferListState.

(** ** Evicting a clean buffer

    The body of the loop of [FreeSomeCleanBuffers]: [locked] is the result of
    [IsRangeLocked], [toDisk] says whether [tryEvictToDisk] wrote the data to
    the disk cache. *)
Section evict_op.
Context {M : Type -> Type} `{BTreeMap M} {Q : Type} `{BufferListHelpers Q}.
Definition tryEvictToDisk (toDisk : bool) (b : FileBuffer) : FileBuffer :=
  if toDisk && negb (b_onDisk b) then set_onDisk true b else b.
Definition evictClean (cleanEnd : Z) (locked toDisk : bool) : St (bl M Q) Z :=
  let! l := getS in
  match Get cleanEnd l with
  | None => ret 0
  | Some b =>
    (* Never evict buffers flushed in an incomplete (last) part *)
    if cleanish (b_state b) && bool_decide (b_ptr b <> None) && negb locked then
      let b1 := tryEvictToDisk toDisk b in
      put_buf b1 ;;;
      let! '(allocated, _) := EvictFromMemory b1 in
      ret allocated
    else ret 0
  end.
End evict_op.

(** ** Operations *)

Inductive list_op : Type :=
| OpWrite (off : Z) (data spare : list byte) (copyData : bool)
| OpFetch (off : Z) (data spare : list byte)
| OpZero (off size : Z)
| OpRemove (off size : Z)
| OpAddLoading (off size : Z)
| OpRemoveLoading (off size : Z)
| OpLoadFromDisk (off size : Z)
| OpRevive (off : Z) (data spare : list byte)
| OpEvict (cleanEnd : Z) (locked toDisk : bool)
| OpSplitAt (off : Z)
| OpSetState (off size : Z) (ids : gset Z) (st : BufferState)
| OpSetFlushedClean.

Section spec.
Context {M : Type -> Type} `{HBT : BTreeMap M} `{HBL : !BTreeMapLaws M} {Q : Type} `{HQ : BufferListHelpers Q}.
Context {limit : Z} `{HLaws : !BufferListHelpersLaws Q limit}.
Implicit Types (l : bl M Q) (b : FileBuffer) (x : Z).
Abbreviation Inv := (@Inv M HBT Q HQ limit HLaws).

Definition run_op (o : list_op) : St (bl M Q) unit :=
  match o with
  | OpWrite off data spare copyData => Add off data spare BUF_DIRTY copyData ;;; ret tt
  | OpFetch off data spare => Add off data spare BUF_CLEAN false ;;; ret tt
  | OpZero off size => ZeroRange off size ;;; ret tt
  | OpRemove off size => RemoveRange off size None ;;; ret tt
  | OpAddLoading off size => AddLoading off size
  | OpRemoveLoading off size => RemoveLoading off size
  | OpLoadFromDisk off size => AddLoadingFromDisk off size ;;; ret tt
  | OpRevive off data spare => ReviveFromDisk off data spare
  | OpEvict cleanEnd locked toDisk => evictClean cleanEnd locked toDisk ;;; ret tt
  | OpSplitAt off => SplitAt off
  | OpSetState off size ids st => SetState off size ids st
  | OpSetFlushedClean => SetFlushedClean
  end.
Fixpoint run_ops (os : list list_op) : St (bl M Q) unit :=
  match os with
  | [] => ret tt
  | o :: os' => run_op o ;;; run_ops os'
  end.

(** Arguments the callers can pass: a non-empty range below the maximum file
    size (removal, as [ResetCache] does it, up to the end of the address
    space), and a flush result as the new state. *)
Definition op_ok (o : list_op) : Prop :=
  match o with
  | OpWrite off data _ _ | OpFetch off data _ => 0 <= off /\ 0 < zlen data /\ off + zlen data <= limit
  | OpZero off size | OpAddLoading off size => 0 <= off /\ 0 < size /\ off + size <= limit
  | OpRemove off size | OpRemoveLoading off size | OpLoadFromDisk off size =>
      0 <= off /\ 0 < size /\ off + size < two64
  | OpRevive off _ _ | OpSplitAt off => 0 <= off /\ off + 1 < two64
  | OpEvict _ _ _ | OpSetFlushedClean => True
  | OpSetState off size _ st => 0 <= off /\ 0 < size /\ off + size < two64 /\ st <> BUF_DIRTY /\ st <> BUF_FL_CLEARED
  end.

(** ** Pending modifications *)

Definition pending l x : option byte :=
  match owner l x with
  | Some b => if is_state b BUF_DIRTY then buf_byte (l_ptrs l) b x else None
  | None => None
  end.

(** The abstract effect of an operation on the pending bytes. *)
Definition abs_step (o : list_op) l (p p' : Z -> option byte) : Prop :=
  forall x,
  match o with
  | OpWrite off data _ _ => p' x = if bool_decide (off <= x < off + zlen data) then znth data (x - off) else p x
  | OpZero off size => if bool_decide (off <= x < off + size)
      then p' x = Some 0 \/ (p' x = p x /\ exists b, owner l x = Some b /\ b_zero b = true) else p' x = p x
  | OpRemove off size => p' x = if bool_decide (off <= x < off + size) then None else p x
  | OpSetState off size ids _ =>
      match owner l x with
      | Some b => (in_flight ids b -> off <= x < off + size -> p' x = None) /\
                  (~ in_flight ids b -> p' x = p x) /\ (p' x = p x \/ p' x = None)
      | None => p' x = None
      end
  | _ => p' x = p x
  end.

Lemma pending_keepsW l l' x : keepsW l l' x -> pending l' x = pending l x.
Proof using Type*.
  unfold keepsW, pending. destruct (owner l x) as [b|]; [|by intros ->].
  intros (b' & -> & Es & _ & _ & _ & Eb & _). unfold is_state. by rewrite Es, Eb.
Qed.

Lemma pending_keeps l l' x : keeps l l' x -> pending l' x = pending l x.
Proof using Type*. intros ?. by apply pending_keepsW, keeps_keepsW. Qed.

Lemma pending_new n l x c : new_at n l x c -> pending l x = if bool_decide (c_state c = BUF_DIRTY) then c_byte c else None.
Proof using Type*. intros (b & E & <- & _). unfold pending. rewrite E. done. Qed.

(** A buffer with a copy on disk is not dirty, so its bytes are not pending. *)
Lemma pending_onDisk l x b : Inv l -> owner l x = Some b -> b_onDisk b = true -> pending l x = None.
Proof using Type*.
  intros HI E Hod. unfold pending. rewrite E. destruct (is_state b BUF_DIRTY) eqn:Es; [|done].
  apply is_state_true in Es. apply (owner_lookup l x b (inv_shape _ HI)) in E as (k & Hk & _).
  pose proof (inv_place _ HI k b Hk) as [Hp _]. by destruct (Hp Hod).
Qed.

Lemma pending_clean l x b : owner l x = Some b -> b_state b <> BUF_DIRTY -> pending l x = None.
Proof using Type*. intros E Hs. unfold pending. rewrite E. by rewrite (proj2 (is_state_false b _)). Qed.

Lemma pending_none l x : owner l x = None -> pending l x = None.
Proof using Type*. intros E. unfold pending. by rewrite E. Qed.
(** ** Each operation keeps the invariant and refines its abstract effect *)

(** Operations that leave every byte in place, or remove bytes that are not pending. *)
Lemma cut_pending g l a l' :
  cut g l a l' -> (forall x, g x = true -> pending l x = None) -> forall x, pending l' x = pending l x.
Proof using Type*.
  intros HC Hg x. pose proof (cut_own _ _ _ _ HC x) as Ho. specialize (Hg x). destruct (g x).
  - by rewrite (pending_none _ _ Ho), Hg.
  - by apply pending_keeps.
Qed.

(** An eviction changes no byte that is not clean or flushed: the byte keeps its
    state, contents and identifier. *)
Definition spares_dirty l l' x : Prop :=
  match owner l x with
  | None => owner l' x = None
  | Some b => cleanish (b_state b) = true /\ (forall b', owner l' x = Some b' -> b_state b' <> BUF_DIRTY) \/
      exists b', owner l' x = Some b' /\ b_state b' = b_state b /\ b_dirtyID b' = b_dirtyID b /\
                 buf_byte (l_ptrs l') b' x = buf_byte (l_ptrs l) b x
  end.

Lemma evicted_spares l k b l' x :
  Inv l -> bufs l !! k = Some b -> cleanish (b_state b) = true -> evicted l k b l' x -> spares_dirty l l' x.
Proof using Type*.
  intros HI Hk Hcl. unfold evicted, spares_dirty. case_bool_decide as Hx.
  - rewrite (owner_intro l x k b (inv_shape _ HI) Hk Hx). intros Hev. left. split; [done|]. intros b' E'.
    assert (Hnd : b_state b <> BUF_DIRTY) by (intros E; by rewrite E in Hcl).
    destruct (b_onDisk b); [|destruct (is_state b BUF_CLEAN)]; [|congruence|]; destruct Hev as (b0 & E0 & Es & _); congruence.
  - destruct (owner l x) as [b0|]; [|done]. intros (b0' & E & Es & _ & _ & Eb & Eid & _). right. exists b0'. done.
Qed.

Lemma spares_dirty_pending l l' x : spares_dirty l l' x -> pending l' x = pending l x.
Proof using Type*.
  unfold spares_dirty, pending. destruct (owner l x) as [b|]; [|by intros ->].
  intros [[Hcl Hb']|(b' & -> & Es & _ & Eb)]; [|unfold is_state; by rewrite Es, Eb].
  rewrite (proj2 (is_state_false b BUF_DIRTY)) by (intros E; by rewrite E in Hcl).
  destruct (owner l' x) as [b'|]; [|done]. by rewrite (proj2 (is_state_false b' BUF_DIRTY)) by auto.
Qed.

(** What becomes of the buffers: the one at [k] is evicted when it may be. *)
Definition evict_result l (k : Z) (locked : bool) (a : Z) l' : Prop :=
  match bufs l !! k with
  | Some b => if cleanish (b_state b) && bool_decide (b_ptr b <> None) && negb locked
              then released (bufs l) k (bufs l') /\ a <= 0 else a = 0 /\ l' = l
  | None => a = 0 /\ l' = l
  end.

Lemma evictClean_spec l k locked toDisk :
  Inv l -> wp (evictClean k locked toDisk) (fun a l' => Inv l' /\ a = held (l_ptrs l') - held (l_ptrs l) /\
    (forall x, spares_dirty l l' x) /\ evict_result l k locked a l') l.
Proof using Type*.
  intros HI. unfold evictClean, Get. wp_steps. rewrite <- bt_map_lookup. fold (bufs l).
  assert (Hskip : Inv l /\ 0 = held (l_ptrs l) - held (l_ptrs l) /\ forall x, spares_dirty l l x).
  { split_and!; [done|lia|]. intros x. unfold spares_dirty. destruct (owner l x); [|done]. right. eauto. }
  destruct Hskip as (Hs1 & Hs2 & Hs3). unfold evict_result.
  destruct (bufs l !! k) as [b|] eqn:Hk; wp_steps; [|by split_and!].
  destruct (cleanish (b_state b)) eqn:Hcl; cbn [andb]; wp_steps; [|by split_and!].
  case_bool_decide as Hptr; cbn [andb]; wp_steps; [|by split_and!]. destruct locked; cbn [negb]; wp_steps; [by split_and!|]. clear Hs2 Hs3.
  assert (Hs : exists s, b_data b = Some s).
  { destruct (b_data b) eqn:E; [eauto|]. exfalso. apply Hptr. eapply nodata_noptr; [|done]. by eapply (hp_data _ _ _ (inv_heap _ HI)). }
  destruct Hs as [s Hs]. set (b1 := tryEvictToDisk toDisk b).
  assert (H1 : b_offset b1 = b_offset b /\ b_len b1 = b_len b /\ b_data b1 = b_data b /\ b_ptr b1 = b_ptr b /\
    b_dirtyID b1 = b_dirtyID b /\ b_state b1 = b_state b /\ b_queueId b1 = b_queueId b /\ b_zero b1 = b_zero b /\ b_loading b1 = b_loading b).
  { unfold b1, tryEvictToDisk. by destruct (toDisk && negb (b_onDisk b)). }
  destruct H1 as (E1 & E2 & E3 & E4 & E5 & E6 & E7 & E8 & E9).
  wp_use (put_buf_spec l k b b1 HI Hk); try done.
  { pose proof (inv_place _ HI k b Hk) as [_ Hp]. unfold place_ok. rewrite E3, Hs, E6, E8, E9 in *. split; [|done].
    intros _ E. by rewrite E in Hcl. }
  intros _ l1 (HI1 & Eb & Eh & _). assert (Hk1 : bufs l1 !! k = Some b1) by (by rewrite Eb, lookup_insert_eq).
  apply wp_bind. wp_use (EvictFromMemory_post l1 k b1 s HI1 Hk1); [congruence|congruence|].
  intros [a d] l2 (HI2 & Ha & Hev & Hrel & Hle). wp_steps. cbn in Ha, Hle. rewrite Eh in Ha. split_and!; try done.
  2: { destruct Hrel as (Hr1 & Hr2 & Hr3). rewrite Eb in *. split_and!; [|done|].
       - intros k' b' Hne Hb'. specialize (Hr1 k' b' Hne Hb'). by rewrite lookup_insert_ne in Hr1.
       - intros k' b' Hne Hb' Hp. apply Hr3; [done|by rewrite lookup_insert_ne|done]. }
  intros x.
  pose proof (evicted_spares l1 k b1 l2 x HI1 Hk1 ltac:(congruence) (Hev x)) as Hsp.
  pose proof (update_owner l l1 k b b1 x (inv_shape _ HI) (inv_shape _ HI1) Hk Eb E1) as Ho.
  unfold spares_dirty in *. rewrite Ho, Eh in Hsp. case_bool_decide as Hx; [|done].
  rewrite (owner_intro l x k b (inv_shape _ HI) Hk Hx).
  destruct Hsp as [[? ?]|(b' & ? & ? & ? & Hb)]; [left; split; [congruence|done]|right; exists b'].
  split_and!; try congruence. rewrite Hb. unfold buf_byte. by rewrite E1, E3, E4, E8.
Qed.

Lemma restated_pending ids st lo hi l l' x :
  Inv l -> st <> BUF_DIRTY -> restated ids st lo hi l l' ->
  match owner l x with
  | Some b => (in_flight ids b -> lo <= x < hi -> pending l' x = None) /\
              (~ in_flight ids b -> pending l' x = pending l x) /\ (pending l' x = pending l x \/ pending l' x = None)
  | None => pending l' x = None
  end.
Proof using Type*.
  intros HI Hst [HI' Hs Hn Hp Hc]. pose proof (inv_shape _ HI) as HS. pose proof (inv_shape _ HI') as HS'.
  destruct (owner l x) as [b|] eqn:E.
  - pose proof E as (k & Hk & Hx)%(owner_lookup l x b HS). destruct (Hs k b Hk) as [(i & Hb' & Hf)|[Hb' Hnf]].
    + assert (Hno : pending l' x = None) by (eapply pending_clean; [eapply (owner_intro l' x k _ HS' Hb'); done|done]).
      split_and!; try done. by right.
    + assert (Hsame : pending l' x = pending l x).
      { unfold pending. rewrite (owner_intro l' x k b HS' Hb' Hx), E, Hp. done. }
      split_and!; [|done|by left]. intros Hf Hr. destruct Hnf. split_and!; try done; lia.
  - apply pending_none. rewrite (owner_None l x HS) in E. apply (owner_None l' x HS'). intros k b' Hb' Hx.
    destruct (bufs l !! k) as [b|] eqn:Hk; [|by rewrite Hn in Hb'].
    destruct (Hs k b Hk) as [(i & E' & _)|[E' _]]; rewrite E' in Hb'; injection Hb' as <-; by apply (E k b Hk).
Qed.

Lemma finalized_pending l l' x :
  Inv l -> Inv l' ->
  (forall k b, bufs l !! k = Some b ->
     match finalized b with None => bufs l' !! k = None | Some f => exists i, bufs l' !! k = Some (f i) end) ->
  (forall k, bufs l !! k = None -> bufs l' !! k = None) ->
  (forall i, mem <$> l_ptrs l' !! i = mem <$> l_ptrs l !! i) -> pending l' x = pending l x.
Proof using Type*.
  intros HI HI' Hs Hn Hm. pose proof (inv_shape _ HI) as HS. pose proof (inv_shape _ HI') as HS'.
  assert (Hcov : forall k b', bufs l' !! k = Some b' -> exists b, bufs l !! k = Some b /\ b_offset b' = b_offset b /\
    (b_state b' = BUF_DIRTY -> b' = b)).
  { intros k b' Hb'. destruct (bufs l !! k) as [b|] eqn:Hk; [|by rewrite Hn in Hb'].
    specialize (Hs k b Hk). unfold finalized in Hs. exists b.
    destruct (b_state b) eqn:Es; [| | | |congruence]; destruct Hs as [i Hs]; rewrite Hs in Hb'; injection Hb' as <-; done. }
  unfold pending at 1. destruct (owner l' x) as [b'|] eqn:E'.
  - apply (owner_lookup l' x b' HS') in E' as (k & Hb' & Hx). destruct (Hcov k b' Hb') as (b & Hk & Eo & Hd).
    destruct (is_state b' BUF_DIRTY) eqn:Es.
    + apply is_state_true in Es. assert (b' = b) as -> by auto. unfold pending. rewrite (owner_intro l x k b HS Hk) by lia.
      rewrite (proj2 (is_state_true b BUF_DIRTY) Es). by apply buf_byte_mem.
    + symmetry. eapply pending_clean; [eapply (owner_intro l x k b HS Hk); lia|].
      intros Hbd. specialize (Hs k b Hk). unfold finalized in Hs. rewrite Hbd in Hs. destruct Hs as [i Hs].
      rewrite Hs in Hb'. injection Hb' as ->. by apply is_state_false in Es.
  - unfold pending. destruct (owner l x) as [b|] eqn:E; [|done]. destruct (is_state b BUF_DIRTY) eqn:Es; [|done].
    exfalso. apply is_state_true in Es. apply (owner_lookup l x b HS) in E as (k & Hk & Hx).
    specialize (Hs k b Hk). unfold finalized in Hs. rewrite Es in Hs. destruct Hs as [i Hs].
    by rewrite (owner_intro l' x k b HS' Hs Hx) in E'.
Qed.
Lemma added_pending off data l l' x :
  added off data BUF_DIRTY l l' ->
  pending l' x = if bool_decide (off <= x < off + zlen data) then znth data (x - off) else pending l x.
Proof using Type*.
  intros [_ Hv _]. specialize (Hv x).
  assert (Hw : writes l BUF_DIRTY x = true).
  { unfold writes, add_filter. destruct (owner l x); [|done]. by rewrite orb_true_r. }
  rewrite Hw, andb_true_r in Hv. destruct (bool_decide _); [|by apply pending_keepsW].
  destruct Hv as (v & -> & Hnew). by rewrite (pending_new _ _ _ _ Hnew).
Qed.

(** Data fetched from the server never touches a modification. *)
Lemma fetched_pending off data l l' x : added off data BUF_CLEAN l l' -> pending l' x = pending l x.
Proof using Type*.
  intros [_ Hv _]. specialize (Hv x).
  destruct (bool_decide _ && writes l BUF_CLEAN x) eqn:E; [|by apply pending_keepsW].
  destruct Hv as (v & _ & Hnew). rewrite (pending_new _ _ _ _ Hnew). cbn.
  apply andb_true_iff in E as [_ Hw]. unfold writes, add_filter in Hw. unfold pending.
  destruct (owner l x) as [b|]; [|done]. rewrite orb_false_r in Hw. apply is_state_true in Hw.
  by rewrite (proj2 (is_state_false b BUF_DIRTY)) by congruence.
Qed.

Definition op_spec (o : list_op) : Prop :=
  forall l, Inv l -> op_ok o -> wp (run_op o) (fun _ l' => Inv l' /\ abs_step o l (pending l) (pending l')) l.

Lemma run_zero off size : op_spec (OpZero off size).
Proof using Type*.
  intros l HI (? & ? & ?). apply wp_bind. wp_use (ZeroRange_spec l off size HI); try done.
  intros [zeroed a] l'. wp_steps. destruct zeroed.
  - intros (HI' & _ & _ & Hv). split; [done|]. intros x. specialize (Hv x). cbn. case_bool_decide.
    + left. by rewrite (pending_new _ _ _ _ Hv).
    + by apply pending_keepsW.
  - intros (-> & _ & Hz). split; [done|]. intros x. cbn. case_bool_decide; [|done]. right. eauto.
Qed.

Lemma run_remove off size : op_spec (OpRemove off size).
Proof using Type*.
  intros l HI (? & ? & ?). apply wp_bind. wp_use (RemoveRange_cut l off size None HI); try done. intros a l' HC. wp_steps.
  split; [apply HC|]. intros x. pose proof (cut_own _ _ _ _ HC x) as Ho. unfold gone, hit in Ho. cbn in Ho |- *.
  case_bool_decide as Hx.
  - rewrite (proj2 (Z.leb_le off x)), (proj2 (Z.ltb_lt x (off + size))) in Ho by lia. cbn in Ho.
    apply pending_none. destruct (owner l x) eqn:E; [done|]. by eapply keeps_none.
  - destruct (Z.leb_spec off x), (Z.ltb_spec x (off + size)); try lia; by apply pending_keeps.
Qed.

Lemma run_add_loading off size : op_spec (OpAddLoading off size).
Proof using Type*.
  intros l HI (? & ? & ?). wp_use (AddLoading_spec l off size HI); try done. intros _ l' [HF _].
  split; [apply HF|]. intros x. cbn.
  pose proof (fl_view _ _ _ _ _ HF x) as Hv. destruct (bool_decide _ && bool_decide (owner l x = None)) eqn:E.
  - apply andb_true_iff in E as [_ E]. apply bool_decide_eq_true in E.
    by rewrite (pending_new _ _ _ _ Hv), (pending_none l).
  - by apply pending_keepsW.
Qed.

Lemma run_remove_loading off size : op_spec (OpRemoveLoading off size).
Proof using Type*.
  intros l HI (? & ? & ?). cbn [run_op]. unfold RemoveLoading. apply wp_bind.
  wp_use (RemoveRange_cut l off size (Some (fun b => negb (b_onDisk b) && b_loading b)) HI); try done.
  intros a l' HC. wp_steps. split; [apply HC|]. unfold abs_step. eapply cut_pending; [done|].
  intros x Hg. unfold gone, hit in Hg.
  apply andb_true_iff in Hg as [_ Hg]. destruct (owner l x) as [b|] eqn:E; [|done].
  cbn in Hg. apply andb_true_iff in Hg as [Hod Hld]. apply negb_true_iff in Hod.
  eapply pending_clean; [done|]. apply (owner_lookup l x b (inv_shape _ HI)) in E as (k & Hk & _).
  pose proof (inv_place _ HI k b Hk) as [_ Hp]. rewrite Hod, Hld in Hp.
  destruct (b_data b); [naive_solver|]. destruct (b_zero b); [naive_solver|]. congruence.
Qed.

Lemma run_load_from_disk off size : op_spec (OpLoadFromDisk off size).
Proof using Type*.
  intros l HI (? & ? & ?). apply wp_bind. wp_use (AddLoadingFromDisk_spec l off size HI); try done.
  intros rs l' (HI' & _ & _ & Hv & _). wp_steps.
  split; [done|]. intros x. cbn. specialize (Hv x). destruct (hit _ _ _ _ x) eqn:Eh; [|by apply pending_keeps].
  destruct Hv as (b & b' & E & E' & _ & Hod & _). rewrite (pending_onDisk l' x b' HI' E' Hod).
  symmetry. eapply pending_onDisk; [done..|]. unfold hit in Eh. rewrite E in Eh. apply andb_true_iff in Eh as [_ Hw].
  unfold wants_load in Hw. destruct (b_data b); [done|]. by apply andb_true_iff in Hw as [? _].
Qed.

Lemma run_revive off data spare : op_spec (OpRevive off data spare).
Proof using Type*.
  intros l HI (? & ?). wp_use (ReviveFromDisk_spec l off data spare HI); try done.
  intros _ l' [->|(HI' & _ & _ & Hv)]; (split; [done|]); [done|]. intros x. cbn. specialize (Hv x).
  case_bool_decide; [|by apply pending_keeps]. destruct Hv as (v & _ & b & b' & E & E' & _ & Hod & _ & Hod' & _).
  by rewrite (pending_onDisk l' x b'), (pending_onDisk l x b).
Qed.

Lemma run_op_spec o : op_spec o.
Proof using Type*.
  destruct o; [| |apply run_zero|apply run_remove|apply run_add_loading|apply run_remove_loading|
    apply run_load_from_disk|apply run_revive| | | |]; intros l HI; cbn [op_ok run_op]; unfold abs_step.
  - intros (? & ? & ?). apply wp_bind. wp_use (Add_dirty_spec l off data spare BUF_DIRTY copyData HI); try done.
    intros a l' [HA _]. wp_steps. split; [apply HA|]. intros x. by apply added_pending.
  - intros (? & ? & ?). apply wp_bind. wp_use (Add_clean_spec l off data spare false HI); try done.
    intros a l' [HA _]. wp_steps. split; [apply HA|]. intros x. by eapply fetched_pending.
  - intros _. apply wp_bind. wp_use (evictClean_spec l cleanEnd locked toDisk HI). intros a l' (HI' & _ & Hp & _).
    wp_steps. split; [done|]. intros x. by apply spares_dirty_pending.
  - intros (? & ?). wp_use (SplitAt_spec l off HI); try done. intros _ l' HC. split; [apply HC|]. by eapply cut_pending.
  - intros (? & ? & ? & ? & ?). wp_use (SetState_spec l off size ids st HI); try done. intros _ l' HR.
    split; [apply HR|]. intros x. by eapply restated_pending.
  - intros _. wp_use (SetFlushedClean_spec l HI). intros _ l' (HI' & Hs & Hn & Hm). split; [done|]. intros x.
    by apply finalized_pending.
Qed.

Lemma run_ops_spec os l : Inv l -> Forall op_ok os -> wp (run_ops os) (fun _ l' => Inv l') l.
Proof using Type*.
  intros HI Hos. revert l HI. induction Hos as [|o os Ho _ IH]; intros l HI; cbn [run_ops]; wp_steps; [done|].
  wp_use (run_op_spec o l HI Ho). intros _ l' [HI' _]. by apply IH.
Qed.
End spec.
End BufferListSpec.
