(* ===== verification/BufferListFlush.v ===== *)
(** * Writing while a flush is running

    The flusher takes the data and the identifiers of the dirty buffers of a
    part, uploads them without holding the lock, and then marks the buffers
    that still carry one of these identifiers.  [fresh] is what a byte written
    in the meantime satisfies, and what keeps it dirty when the upload is
    acknowledged. *)

From S2P Require Import Prelude BTree Parts BufferList BufferListInv BufferListView.
From S2P Require Import BufferListRemove BufferListAdd BufferListRead BufferListState.
From S2P Require Import BufferListSpec.

Module BufferListFlush.
Import BufferList BufferListInv BufferListView BufferListRemove BufferListAdd BufferListRead BufferListState BufferListSpec.
Section flush.
Context {M : Type -> Type} `{HBT : BTreeMap M} `{HBL : !BTreeMapLaws M} {Q : Type} `{HQ : BufferListHelpers Q}.
Context {limit : Z} `{HLaws : !BufferListHelpersLaws Q limit}.
Implicit Types (l : bl M Q) (b : FileBuffer) (x : Z).
Abbreviation Inv := (@Inv M HBT Q HQ limit HLaws).

(** Byte [x] is dirty, holds [v], and was written after identifier [n] was handed out. *)
Definition fresh (n : Z) l x (v : byte) : Prop :=
  exists b, owner l x = Some b /\ b_state b = BUF_DIRTY /\ buf_byte (l_ptrs l) b x = Some v /\
            n < b_dirtyID b.

(** The operation neither modifies [x] nor acknowledges identifiers above [n]. *)
Definition spares (n x : Z) (o : list_op) : Prop :=
  match o with
  | OpWrite off data _ _ => ~ (off <= x < off + zlen data)
  | OpZero off size | OpRemove off size => ~ (off <= x < off + size)
  | OpSetState _ _ ids _ => forall i, i ∈ ids -> i <= n
  | _ => True
  end.

Lemma fresh_keepsW n l l' x v : n <= l_curDirtyID l -> fresh n l x v -> keepsW l l' x -> fresh n l' x v.
Proof using Type*.
  intros Hn (b & E & Hd & Hb & Hid) Hk. unfold keepsW in Hk. rewrite E in Hk.
  destruct Hk as (b' & E' & Es & _ & _ & _ & Eb & Hnew). exists b'. unfold newer in Hnew. split_and!; try congruence. lia.
Qed.

Lemma fresh_keeps n l l' x v : n <= l_curDirtyID l -> fresh n l x v -> keeps l l' x -> fresh n l' x v.
Proof using Type*. intros ? ? ?. eapply fresh_keepsW; eauto. by apply keeps_keepsW. Qed.

(** A fresh byte is not on disk. *)
Lemma fresh_onDisk n l x v b : Inv l -> fresh n l x v -> owner l x = Some b -> b_onDisk b = false.
Proof using Type*.
  intros HI (b' & E & Hd & _) E'. assert (b' = b) as -> by congruence.
  apply (owner_lookup l x b (inv_shape _ HI)) in E as (k & Hk & _). pose proof (inv_place _ HI k b Hk) as [Hp _].
  destruct (b_onDisk b); [|done]. by destruct (Hp eq_refl).
Qed.

Definition spared (o : list_op) : Prop := forall n l x v,
  Inv l -> op_ok (limit := limit) o -> n <= l_curDirtyID l -> fresh n l x v -> spares n x o ->
  wp (run_op o) (fun _ l' => Inv l' /\ n <= l_curDirtyID l' /\ fresh n l' x v) l.

Lemma spared_write off data spare copyData : spared (OpWrite off data spare copyData).
Proof using Type*.
  intros n l x v HI (? & ? & ?) Hn Hf Hsp. apply wp_bind. wp_use (Add_dirty_spec l off data spare BUF_DIRTY copyData HI); try done.
  intros a l' [[HI' Hv Hc] _]. wp_steps. split_and!; [done|lia|]. specialize (Hv x).
  rewrite bool_decide_false in Hv by done. by eapply fresh_keepsW.
Qed.

Lemma spared_fetch off data spare : spared (OpFetch off data spare).
Proof using Type*.
  intros n l x v HI (? & ? & ?) Hn Hf _. apply wp_bind. wp_use (Add_clean_spec l off data spare false HI); try done.
  intros a l' [[HI' Hv Hc] _]. wp_steps. split_and!; [done|lia|]. specialize (Hv x).
  assert (Hw : writes l BUF_CLEAN x = false).
  { destruct Hf as (b & E & Hd & _). unfold writes, add_filter, is_state. rewrite E, Hd. done. }
  rewrite Hw, andb_false_r in Hv. by eapply fresh_keepsW.
Qed.

Lemma spared_zero off size : spared (OpZero off size).
Proof using Type*.
  intros n l x v HI (? & ? & ?) Hn Hf Hsp. apply wp_bind. wp_use (ZeroRange_spec l off size HI); try done.
  intros [zeroed a] l'. wp_steps. destruct zeroed.
  - intros (HI' & _ & Hc & Hv). split_and!; [done|lia|]. specialize (Hv x).
    rewrite bool_decide_false in Hv by done. by eapply fresh_keepsW.
  - by intros (-> & _).
Qed.

(** Removals that do not hit the byte. *)
Lemma spared_cut n g l a l' x v :
  n <= l_curDirtyID l -> fresh n l x v -> cut g l a l' -> g x = false ->
  Inv l' /\ n <= l_curDirtyID l' /\ fresh n l' x v.
Proof using Type*.
  intros Hn Hf HC Hg. pose proof (cut_own _ _ _ _ HC x) as Ho. rewrite Hg in Ho.
  split_and!; [apply HC|pose proof (cut_cur _ _ _ _ HC); lia|by eapply fresh_keeps].
Qed.

Lemma spared_remove off size : spared (OpRemove off size).
Proof using Type*.
  intros n l x v HI (? & ? & ?) Hn Hf Hsp. apply wp_bind. wp_use (RemoveRange_cut l off size None HI); try done.
  intros a l' HC. wp_steps. eapply spared_cut; try done. unfold gone, hit.
  destruct (Z.leb_spec off x), (Z.ltb_spec x (off + size)); try done. destruct Hsp. lia.
Qed.

Lemma spared_remove_loading off size : spared (OpRemoveLoading off size).
Proof using Type*.
  intros n l x v HI (? & ? & ?) Hn Hf _. cbn [run_op]. unfold RemoveLoading. apply wp_bind.
  wp_use (RemoveRange_cut l off size (Some (fun b => negb (b_onDisk b) && b_loading b)) HI); try done.
  intros a l' HC. wp_steps. eapply spared_cut; try done. unfold gone, hit.
  destruct Hf as (b & E & Hd & _). rewrite E. cbn. rewrite andb_comm. apply andb_false_iff. left.
  apply (owner_lookup l x b (inv_shape _ HI)) in E as (k & Hk & _). pose proof (inv_place _ HI k b Hk) as [_ Hp].
  rewrite Hd in Hp. destruct (b_onDisk b), (b_loading b), (b_data b), (b_zero b); naive_solver.
Qed.

Lemma spared_add_loading off size : spared (OpAddLoading off size).
Proof using Type*.
  intros n l x v HI (? & ? & ?) Hn Hf _. wp_use (AddLoading_spec l off size HI); try done.
  intros _ l' [[HI' Hv Hc] _]. split_and!; [done|lia|]. specialize (Hv x).
  rewrite (bool_decide_false (owner l x = None)), andb_false_r in Hv; [by eapply fresh_keepsW|].
  destruct Hf as (b & E & _). congruence.
Qed.

Lemma spared_load_from_disk off size : spared (OpLoadFromDisk off size).
Proof using Type*.
  intros n l x v HI (? & ? & ?) Hn Hf _. apply wp_bind. wp_use (AddLoadingFromDisk_spec l off size HI); try done.
  intros rs l' (HI' & _ & Hc & Hv & _). wp_steps. split_and!; [done|lia|]. specialize (Hv x).
  destruct (hit l off (off + size) wants_load x) eqn:Eh; [|by eapply fresh_keeps].
  exfalso. unfold hit in Eh. pose proof Hf as (b & E & _). rewrite E in Eh. apply andb_true_iff in Eh as [_ Hw].
  unfold wants_load in Hw. rewrite (fresh_onDisk n l x v b HI Hf E) in Hw. by destruct (b_data b).
Qed.

Lemma spared_revive off data spare : spared (OpRevive off data spare).
Proof using Type*.
  intros n l x v HI (? & ?) Hn Hf _. wp_use (ReviveFromDisk_spec l off data spare HI); try done.
  intros _ l' [->|(HI' & _ & Hc & Hv)]; [done|]. split_and!; [done|lia|]. specialize (Hv x).
  case_bool_decide; [|by eapply fresh_keeps]. destruct Hv as (w & _ & b & b' & E & _ & _ & Hod & _).
  by rewrite (fresh_onDisk n l x v b HI Hf E) in Hod.
Qed.
Lemma fresh_cur n l x v : Inv l -> fresh n l x v -> n <= l_curDirtyID l.
Proof using Type*.
  intros HI (b & E & _ & _ & Hid). apply (owner_lookup l x b (inv_shape _ HI)) in E as (k & Hk & _).
  pose proof (id_range _ _ (inv_ids _ HI) k b Hk). lia.
Qed.

Lemma spared_evict cleanEnd locked toDisk : spared (OpEvict cleanEnd locked toDisk).
Proof using Type*.
  intros n l x v HI _ Hn (b & E & Hd & Hb & Hid) _. apply wp_bind. wp_use (evictClean_spec l cleanEnd locked toDisk HI).
  intros a l' (HI' & _ & Hsp & _). wp_steps. specialize (Hsp x). unfold spares_dirty in Hsp. rewrite E, Hd in Hsp.
  destruct Hsp as [[? _]|(b' & E' & Es & Eid & Eb)]; [done|].
  assert (Hf : fresh n l' x v) by (exists b'; split_and!; congruence). split_and!; try done. by eapply fresh_cur.
Qed.

Lemma spared_set_state off size ids st : spared (OpSetState off size ids st).
Proof using Type*.
  intros n l x v HI (? & ? & ? & ? & ?) Hn (b & E & Hd & Hb & Hid) Hsp. wp_use (SetState_spec l off size ids st HI); try done.
  intros _ l' [HI' Hs _ Hp Hc]. pose proof E as (k & Hk & Hx)%(owner_lookup l x b (inv_shape _ HI)).
  split_and!; [done|lia|]. destruct (Hs k b Hk) as [(i & _ & [_ Hin])|[Hb' _]].
  - specialize (Hsp _ Hin). lia.
  - exists b. rewrite Hp. split_and!; try done. by eapply (owner_intro l' x k b (inv_shape _ HI')).
Qed.

Lemma spared_flushed_clean : spared OpSetFlushedClean.
Proof using Type*.
  intros n l x v HI _ Hn (b & E & Hd & Hb & Hid) _. wp_use (SetFlushedClean_spec l HI). intros _ l' (HI' & Hs & _ & Hm).
  pose proof E as (k & Hk & Hx)%(owner_lookup l x b (inv_shape _ HI)).
  specialize (Hs k b Hk). unfold finalized in Hs. rewrite Hd in Hs. destruct Hs as [i Hb'].
  assert (Hf : fresh n l' x v).
  { exists b. rewrite (buf_byte_mem (l_ptrs l)) by done. split_and!; try done.
    by eapply (owner_intro l' x k b (inv_shape _ HI')). }
  split_and!; try done. by eapply fresh_cur.
Qed.

Lemma run_op_spared o : spared o.
Proof using Type*.
  destruct o; auto using spared_write, spared_fetch, spared_zero, spared_remove, spared_add_loading, spared_remove_loading,
    spared_load_from_disk, spared_revive, spared_evict, spared_set_state, spared_flushed_clean.
  intros n l x v HI (? & ?) Hn Hf _. wp_use (SplitAt_spec l off HI); try done. intros _ l' HC. by eapply spared_cut.
Qed.

Lemma run_ops_spared os n l x v :
  Inv l -> Forall (op_ok (limit := limit)) os -> fresh n l x v -> Forall (spares n x) os ->
  wp (run_ops os) (fun _ l' => Inv l' /\ fresh n l' x v) l.
Proof using Type*.
  intros HI Hok. revert l HI. induction Hok as [|o os Ho _ IH]; intros l HI Hf Hsp; cbn [run_ops]; wp_steps; [done|].
  apply Forall_cons in Hsp as [Hs Hsp].
  wp_use (run_op_spared o n l x v HI Ho (fresh_cur n l x v HI Hf) Hf Hs). intros _ l' (HI' & _ & Hf'). by apply IH.
Qed.

(** The identifiers a read returns have been handed out before. *)
Lemma GetData_ids l off n ds ids err :
  Inv l -> 0 <= off -> 0 < n -> off + n < two64 -> GetData off n true l = Ok (ds, ids, err) -> err = None ->
  forall i, i ∈ ids -> i <= l_curDirtyID l.
Proof using Type*.
  intros HI Hoff Hn Hlim E -> i Hi. destruct (GetData_inv l off n true ds ids HI Hoff Hn Hlim E) as (_ & _ & Hids).
  apply Hids in Hi as (_ & _ & x & b & _ & Eo & <-).
  apply (owner_lookup l x b (inv_shape _ HI)) in Eo as (k & Hk & _). apply (id_range _ _ (inv_ids _ HI) k b Hk).
Qed.
End flush.
End BufferListFlush.
