(* ===== verification/Queues.v ===== *)
(** * Queues shared by all files

    Models of [core/buffer_queue.go] (the clean-buffer and dirty-inode queues)
    and [core/fd_queue.go] (open disk-cache descriptors).  The clean queue is
    one object for the whole file system; [inode_helpers] is the interface an
    inode passes to its buffer list ([handles.go]), and its laws say that each
    inode sees exactly its own buffers in it. *)

From S2P Require Import Prelude BTree Parts BufferList BufferListInv.

(** ** Clean and flushed buffers *)

Module BufferQueue.
Record QueuedBuffer := mkQB { qb_inode : Z; qb_end : Z }.
Record t (M : Type -> Type) := mk { cleanQueue : M QueuedBuffer; curQueueID : Z }.
Arguments mk {M}.
Arguments cleanQueue {M}.
Arguments curQueueID {M}.

Section queue.
Context {M : Type -> Type} `{HBT : BTreeMap M}.

Definition empty : t M := mk bt_empty 0.
Definition Add (inode : Z) (b : FileBuffer) (l : t M) : FileBuffer * t M :=
  let id := curQueueID l + 1 in
  (set_queueId id b, mk (bt_set id (mkQB inode (b_end b)) (cleanQueue l)) id).
Definition Delete (b : FileBuffer) (l : t M) : t M :=
  mk (bt_delete (b_queueId b) (cleanQueue l)) (curQueueID l).
(** Inode, end offset and the next [minQueueId]; all zero when there is none. *)
Definition NextClean (minQueueId : Z) (l : t M) : Z * Z * Z :=
  match bt_ascend minQueueId (cleanQueue l) with
  | (queueId, b) :: _ => (qb_inode b, qb_end b, queueId + 1)
  | [] => (0, 0, 0)
  end.

Context `{HBL : !BTreeMapLaws M}.

(** Identifiers are handed out in increasing order. *)
Definition ok (l : t M) : Prop := forall i e, bt_map (cleanQueue l) !! i = Some e -> 0 < i <= curQueueID l.
(** The part of the queue that belongs to one inode. *)
Definition view (inode : Z) (l : t M) : gmap Z Z :=
  omap (fun e => if qb_inode e =? inode then Some (qb_end e) else None) (bt_map (cleanQueue l)).

Lemma view_lookup inode l i :
  view inode l !! i = match bt_map (cleanQueue l) !! i with
                      | Some e => if qb_inode e =? inode then Some (qb_end e) else None
                      | None => None
                      end.
Proof. unfold view. rewrite lookup_omap. by destruct (bt_map (cleanQueue l) !! i). Qed.

Lemma empty_ok : ok empty.
Proof using HBL. intros i e. cbn. by rewrite bt_map_lookup, bt_get_empty. Qed.
Lemma empty_view inode : view inode empty = ∅.
Proof using HBL. apply map_eq. intros i. rewrite view_lookup. cbn. by rewrite bt_map_lookup, bt_get_empty. Qed.

Lemma ok_fresh l i : ok l -> curQueueID l < i -> bt_map (cleanQueue l) !! i = None.
Proof.
  intros Hok Hi. destruct (bt_map (cleanQueue l) !! i) as [e|] eqn:E; [|done].
  specialize (Hok i e E). lia.
Qed.

Lemma Add_ok inode b l : ok l -> 0 <= curQueueID l -> ok (Add inode b l).2 /\ 0 <= curQueueID (Add inode b l).2.
Proof using HBL.
  intros Hok Hc. split; [|cbn; lia]. intros i e. cbn. rewrite bt_map_set.
  intros [[<- _]|[_ ?%Hok]]%lookup_insert_Some; lia.
Qed.

Lemma Add_view inode inode' b l :
  ok l -> view inode' (Add inode b l).2 =
    if inode =? inode' then <[curQueueID l + 1 := b_end b]> (view inode' l) else view inode' l.
Proof using HBL.
  intros Hok. apply map_eq. intros i. rewrite view_lookup. cbn. rewrite bt_map_set, lookup_insert.
  pose proof (ok_fresh l (curQueueID l + 1) Hok). case_decide as Hi.
  - subst i. cbn. destruct (Z.eqb_spec inode inode'); [by rewrite lookup_insert_eq|].
    rewrite view_lookup, H by lia. done.
  - destruct (Z.eqb_spec inode inode'); [rewrite lookup_insert_ne by done|]; by rewrite view_lookup.
Qed.

Lemma Delete_ok b l : ok l -> ok (Delete b l).
Proof using HBL. intros Hok i e. cbn. rewrite bt_map_delete. intros [_ ?]%lookup_delete_Some. by eapply Hok. Qed.

Lemma Delete_view inode b l : view inode (Delete b l) = delete (b_queueId b) (view inode l).
Proof using HBL.
  apply map_eq. intros i. rewrite view_lookup. cbn. rewrite bt_map_delete, !lookup_delete.
  case_decide; [done|]. by rewrite view_lookup.
Qed.
End queue.
End BufferQueue.

(** ** Modified inodes *)

Module InodeQueue.
Record t (M : Type -> Type) := mk { dirtyQueue : M Z; curQueueID : Z }.
Arguments mk {M}.
Arguments dirtyQueue {M}.
Arguments curQueueID {M}.

Section queue.
Context {M : Type -> Type} `{HBT : BTreeMap M}.

Definition empty : t M := mk bt_empty 0.
Definition Add (inodeID : Z) (l : t M) : Z * t M :=
  let queueID := curQueueID l +u 1 in
  (queueID, mk (bt_set queueID inodeID (dirtyQueue l)) queueID).
Definition Delete (queueID : Z) (l : t M) : t M := mk (bt_delete queueID (dirtyQueue l)) (curQueueID l).
Definition Size (l : t M) : Z := bt_len (dirtyQueue l).
(** The inode and the next [minQueueID]; both zero when there is none. *)
Definition Next (minQueueID : Z) (l : t M) : Z * Z :=
  match bt_ascend minQueueID (dirtyQueue l) with
  | (queueID, ino) :: _ => (ino, queueID +u 1)
  | [] => (0, 0)
  end.

(** The inodes the flusher visits, from [minQueueID] until [Next] reports the end. *)
Fixpoint visit (fuel : nat) (minQueueID : Z) (l : t M) : option (list Z) :=
  match Next minQueueID l with
  | (0, _) => Some []
  | (ino, next) => match fuel with
                   | O => None
                   | S fuel' => cons ino <$> visit fuel' next l
                   end
  end.

Context `{HBL : !BTreeMapLaws M}.

(** Handed-out identifiers are increasing, and inode numbers are positive. *)
Definition ok (l : t M) : Prop :=
  0 <= curQueueID l < two64 - 1 /\ forall i ino, bt_map (dirtyQueue l) !! i = Some ino -> 0 < i <= curQueueID l /\ 0 < ino.

Lemma inode_empty_ok : ok empty.
Proof using HBL. split; [cbn; lia|]. intros i ino. cbn. by rewrite bt_map_empty, lookup_empty. Qed.

Lemma inode_Add_ok ino l : ok l -> 0 < ino -> curQueueID l + 1 < two64 - 1 -> ok (Add ino l).2 /\ bt_map (dirtyQueue l) !! (Add ino l).1 = None.
Proof using HBL.
  intros [Hc Hok] Hino Hb. unfold Add, ok. cbn. u64s. split; [split; [lia|]|].
  - intros i j. rewrite bt_map_set. intros [[<- <-]|[_ Hl%Hok]]%lookup_insert_Some; lia.
  - destruct (bt_map (dirtyQueue l) !! (curQueueID l + 1)) eqn:E; [|done]. apply Hok in E. lia.
Qed.

Lemma inode_Delete_ok q l : ok l -> ok (Delete q l).
Proof using HBL. intros [Hc Hok]. split; [done|]. intros i ino. cbn. rewrite bt_map_delete. intros [_ ?%Hok]%lookup_delete_Some. done. Qed.

Lemma visit_spec fuel : forall min l,
  ok l -> (length (bt_ascend min (dirtyQueue l)) <= fuel)%nat -> visit fuel min l = Some (bt_ascend min (dirtyQueue l)).*2.
Proof using HBL.
  induction fuel as [|fuel IH]; intros min l Hok Hf; cbn [visit]; unfold Next;
    (destruct (bt_ascend min (dirtyQueue l)) as [|[q ino] rest] eqn:E; cbn in *; [done|try lia]).
  destruct (bt_ascend_cons _ _ _ _ _ E) as (_ & Hq & _ & Er). destruct Hok as [Hc Hok']. destruct (Hok' q ino Hq).
  u64s. destruct ino as [|p|p]; try lia. rewrite IH; [by rewrite Er|done|]. rewrite <- Er. lia.
Qed.
End queue.
End InodeQueue.

(** ** Descriptors of the disk cache *)

Module FDQueue.
(** The fields of [Inode] the queue works on: whether [DiskCacheFD] is open. *)
Record fd_inode := mkFI { DiskCacheFD : bool; DiskFDQueueID : Z }.
Record t (M : Type -> Type) := mk { q : M Z; maxCount : Z; curQueueID : Z; inodes : gmap Z fd_inode }.
Arguments mk {M}.
Arguments q {M}.
Arguments maxCount {M}.
Arguments curQueueID {M}.
Arguments inodes {M}.

Section queue.
Context {M : Type -> Type} `{HBT : BTreeMap M}.
Implicit Types (l : t M) (inode : Z).

Definition NewFDQueue (max : Z) (inos : gmap Z fd_inode) : t M := mk bt_empty max 0 inos.
Definition fd_of l inode : fd_inode := default (mkFI false 0) (inodes l !! inode).

(** The result also says whether the closing goroutine is woken up. *)
Definition InsertFD inode l : bool * t M :=
  let id := curQueueID l +u 1 in
  let q' := bt_set id inode (q l) in
  ((0 <? maxCount l) && (maxCount l <? bt_len q'),
   mk q' (maxCount l) id (<[inode := mkFI (DiskCacheFD (fd_of l inode)) id]> (inodes l))).
Definition UseFD inode l : t M :=
  let q1 := if 0 <? DiskFDQueueID (fd_of l inode) then bt_delete (DiskFDQueueID (fd_of l inode)) (q l) else q l in
  let id := curQueueID l +u 1 in
  mk (bt_set id inode q1) (maxCount l) id (<[inode := mkFI (DiskCacheFD (fd_of l inode)) id]> (inodes l)).
Definition DeleteFD inode l : t M :=
  mk (bt_delete (DiskFDQueueID (fd_of l inode)) (q l)) (maxCount l) (curQueueID l)
     (<[inode := mkFI (DiskCacheFD (fd_of l inode)) 0]> (inodes l)).
Definition set_fd (fd : bool) inode l : t M :=
  mk (q l) (maxCount l) (curQueueID l) (<[inode := mkFI fd (DiskFDQueueID (fd_of l inode))]> (inodes l)).

(** [OpenCacheFD]: [opened] is whether [os.OpenFile] succeeds; the result is whether there is a descriptor. *)
Definition OpenCacheFD (opened : bool) inode l : bool * t M :=
  if DiskCacheFD (fd_of l inode) then (true, UseFD inode l)
  else if opened then (true, (InsertFD inode (set_fd true inode l)).2)
  else (false, l).
(** [DiskCacheFD.Close()], as the callers do it. *)
Definition closeFD inode l : t M := DeleteFD inode (set_fd false inode l).

(** The loop of [CloseExtra] after it has been woken up, run without interference. *)
Fixpoint CloseExtra_loop (fuel : nat) (nextQueueId : Z) (inode : option Z) l : option (t M) :=
  if (0 <? maxCount l) && (maxCount l <? bt_len (q l)) then
    match fuel with
    | O => None
    | S fuel' =>
      let '(next, ino) := match bt_ascend nextQueueId (q l) with
                          | (queueId, i) :: _ => (queueId +u 1, Some i)
                          | [] => (nextQueueId, inode)
                          end in
      match ino with
      | None => Some l
      | Some i => CloseExtra_loop fuel' next ino (if DiskCacheFD (fd_of l i) then closeFD i l else l)
      end
    end
  else Some l.
Definition CloseExtra l : option (t M) := CloseExtra_loop (Z.to_nat (bt_len (q l))) 0 None l.

Context `{HBL : !BTreeMapLaws M}.

(** The queue lists exactly the inodes with an open descriptor, under their queue identifiers. *)
Record ok l : Prop := {
  fd_cur : 0 <= curQueueID l < two64 - 1;
  fd_queue : forall i ino, bt_map (q l) !! i = Some ino <-> DiskCacheFD (fd_of l ino) = true /\ DiskFDQueueID (fd_of l ino) = i;
  fd_ids : forall ino, DiskCacheFD (fd_of l ino) = true -> 0 < DiskFDQueueID (fd_of l ino) <= curQueueID l;
}.

Lemma fd_of_insert l inode fi q' mx c ino :
  fd_of (mk q' mx c (<[inode := fi]> (inodes l))) ino = if decide (inode = ino) then fi else fd_of l ino.
Proof. unfold fd_of. cbn. rewrite lookup_insert. by case_decide. Qed.

Lemma NewFDQueue_ok max inos : (forall ino fi, inos !! ino = Some fi -> DiskCacheFD fi = false) -> ok (NewFDQueue max inos).
Proof using HBL.
  intros Hc. assert (Hno : forall ino, DiskCacheFD (fd_of (NewFDQueue max inos) ino) = false).
  { intros ino. unfold fd_of. cbn. destruct (inos !! ino) eqn:E; [by eapply Hc|done]. }
  split; cbn; [lia| |].
  - intros i ino. rewrite bt_map_empty, lookup_empty, Hno. naive_solver.
  - intros ino. by rewrite Hno.
Qed.

Lemma OpenCacheFD_ok opened inode l :
  ok l -> curQueueID l + 1 < two64 - 1 -> ok (OpenCacheFD opened inode l).2 /\
  (forall ino, DiskCacheFD (fd_of (OpenCacheFD opened inode l).2 ino) =
     if decide (inode = ino) then (OpenCacheFD opened inode l).1 else DiskCacheFD (fd_of l ino)).
Proof using HBL.
  intros [Hc Hq Hids] Hb. unfold OpenCacheFD. destruct (DiskCacheFD (fd_of l inode)) eqn:Eo; [|destruct opened].
  - specialize (Hids _ Eo) as Hid. cbn. unfold UseFD. rewrite (proj2 (Z.ltb_lt 0 _)) by lia. u64s. split.
    + split; cbn; [lia| |].
      * intros i ino. rewrite fd_of_insert, bt_map_set, bt_map_delete, lookup_insert, lookup_delete.
        pose proof (proj2 (Hq (DiskFDQueueID (fd_of l inode)) inode) (conj Eo eq_refl)) as Hself.
        destruct (decide (inode = ino)) as [<-|Hne]; cbn.
        -- repeat case_decide; subst; rewrite ?Hq; naive_solver.
        -- repeat case_decide; subst; [split; [congruence|intros [Ho Hi]; specialize (Hids _ Ho); lia]| |by rewrite Hq].
           split; [done|]. intros [Ho Hi]. rewrite <- Hi in Hself. pose proof (proj2 (Hq _ ino) (conj Ho eq_refl)). congruence.
      * intros ino. rewrite fd_of_insert. case_decide; cbn; [lia|]. intros ?%Hids. lia.
    + intros ino. rewrite fd_of_insert. case_decide; [done|]. by subst.
  - cbn. assert (Hself : fd_of (set_fd true inode l) inode = mkFI true (DiskFDQueueID (fd_of l inode))) by (unfold set_fd; rewrite fd_of_insert, decide_True by done; done).
    unfold InsertFD, set_fd in *. cbn. rewrite Hself. cbn. rewrite insert_insert_eq. u64s. split.
    + split; cbn; [lia| |].
      * intros i ino. rewrite (fd_of_insert l), bt_map_set, lookup_insert.
        destruct (decide (inode = ino)) as [<-|Hne]; cbn; case_decide; subst; rewrite ?Hq; try naive_solver.
        all: split; [intuition congruence|]; intros [Ho Hi]; try specialize (Hids _ Ho); lia.
      * intros ino. rewrite (fd_of_insert l). case_decide; cbn; [lia|]. intros ?%Hids. lia.
    + intros ino. rewrite (fd_of_insert l). by case_decide.
  - cbn. split; [done|]. intros ino. case_decide; [congruence|done].
Qed.

Lemma closeFD_ok inode l :
  ok l -> DiskCacheFD (fd_of l inode) = true ->
  ok (closeFD inode l) /\ bt_map (q (closeFD inode l)) = delete (DiskFDQueueID (fd_of l inode)) (bt_map (q l)) /\
  (forall ino, DiskCacheFD (fd_of (closeFD inode l) ino) = if decide (inode = ino) then false else DiskCacheFD (fd_of l ino)) /\
  maxCount (closeFD inode l) = maxCount l.
Proof using HBL.
  intros [Hc Hq Hids] Eo. pose proof (proj2 (Hq _ inode) (conj Eo eq_refl)) as Hself.
  assert (Hfd : fd_of (set_fd false inode l) inode = mkFI false (DiskFDQueueID (fd_of l inode))) by (unfold set_fd; rewrite fd_of_insert, decide_True by done; done).
  unfold closeFD, DeleteFD. rewrite Hfd. cbn. rewrite insert_insert_eq. split; [|split_and!; [by rewrite bt_map_delete| |done]].
  - split; cbn; [done| |].
    + intros i ino. rewrite (fd_of_insert l), bt_map_delete, lookup_delete.
      destruct (decide (inode = ino)) as [<-|Hne]; cbn; case_decide; subst; rewrite ?Hq; try naive_solver.
    + intros ino. rewrite (fd_of_insert l). case_decide; [done|apply Hids].
  - intros ino. rewrite (fd_of_insert l). by case_decide.
Qed.

(** Closing the oldest descriptor takes the first entry off the queue. *)
Lemma close_oldest l id inode rest :
  ok l -> bt_scan (q l) = (id, inode) :: rest ->
  DiskCacheFD (fd_of l inode) = true /\ DiskFDQueueID (fd_of l inode) = id /\ bt_scan (q (closeFD inode l)) = rest.
Proof using HBL.
  intros Hok E. assert (Hin : bt_map (q l) !! id = Some inode) by (rewrite bt_map_lookup; apply bt_scan_elem; rewrite E; apply list_elem_of_here).
  apply (fd_queue _ Hok) in Hin as [Ho Hi]. split_and!; [done..|]. destruct (closeFD_ok inode l Hok Ho) as (_ & Eq & _). rewrite Hi in Eq.
  pose proof (bt_scan_sorted (q l)) as Hs. rewrite E in Hs. apply StronglySorted_inv in Hs as [Hs Hlt].
  apply item_lt_unique; [apply bt_scan_sorted|done|]. intros [k v]. rewrite bt_scan_elem, <- bt_map_lookup, Eq, lookup_delete_Some.
  rewrite bt_map_lookup, <- bt_scan_elem, E, elem_of_cons. rewrite Forall_forall in Hlt. split; [naive_solver|].
  intros Hr. split; [|by right]. specialize (Hlt _ Hr). unfold item_lt in Hlt. cbn in Hlt. lia.
Qed.

Lemma ascend_scan l next : (forall i ino, bt_map (q l) !! i = Some ino -> next <= i) -> bt_ascend next (q l) = bt_scan (q l).
Proof using HBL.
  intros Hn. apply item_lt_unique; [apply bt_ascend_sorted|apply bt_scan_sorted|]. intros [k v].
  rewrite bt_ascend_elem, bt_scan_elem, <- bt_map_lookup. naive_solver.
Qed.

Lemma scan_above l id inode rest k v : bt_scan (q l) = (id, inode) :: rest -> (k, v) ∈ rest -> id + 1 <= k.
Proof using HBL.
  intros E Hin. pose proof (bt_scan_sorted (q l)) as Hs. rewrite E in Hs. apply StronglySorted_inv in Hs as [_ Hlt].
  rewrite Forall_forall in Hlt. specialize (Hlt _ Hin). unfold item_lt in Hlt. cbn in Hlt. lia.
Qed.

Lemma CloseExtra_loop_spec fuel : forall next ino l,
  ok l -> (forall i j, bt_map (q l) !! i = Some j -> next <= i) -> 0 < maxCount l -> bt_len (q l) <= maxCount l + Z.of_nat fuel ->
  exists l', CloseExtra_loop fuel next ino l = Some l' /\ ok l' /\
    bt_scan (q l') = drop (Z.to_nat (bt_len (q l) - maxCount l)) (bt_scan (q l)) /\ maxCount l' = maxCount l.
Proof using HBL.
  induction fuel as [|fuel IH]; intros next ino l Hok Hn Hm Hf; cbn [CloseExtra_loop];
    (destruct (Z.ltb_spec 0 (maxCount l)); [|lia]); (destruct (Z.ltb_spec (maxCount l) (bt_len (q l))) as [Hlt|Hge]; cbn;
    [|exists l; split_and!; try done; by rewrite Z2Nat.nonpos by lia]); [lia|].
  rewrite (ascend_scan l next Hn). rewrite !bt_len_scan in *. destruct (bt_scan (q l)) as [|[id i] rest] eqn:Es; [unfold zlen in Hlt; cbn in Hlt; lia|].
  destruct (close_oldest l id i rest Hok Es) as (Ho & Hi & Er). rewrite Ho. destruct (closeFD_ok i l Hok Ho) as (Hok' & Eq & _ & Em).
  pose proof (fd_ids _ Hok i Ho). pose proof (fd_cur _ Hok). u64s. unfold zlen in *. cbn [length] in *.
  destruct (IH (id + 1) (Some i) (closeFD i l) Hok') as (l' & -> & Hok2 & Es2 & Em2).
  - intros k v. rewrite bt_map_lookup, <- bt_scan_elem, Er. by apply (scan_above l id i rest).
  - by rewrite Em.
  - rewrite bt_len_scan, Er, Em. unfold zlen. lia.
  - exists l'. split; [done|]. split; [done|]. split; [|congruence]. rewrite Es2, bt_len_scan, Er, Em. unfold zlen.
    replace (Z.to_nat (Z.of_nat (S (length rest)) - maxCount l)) with (S (Z.to_nat (Z.of_nat (length rest) - maxCount l))) by lia. done.
Qed.
End queue.
End FDQueue.

(** ** The helpers of an inode *)

Section helpers.
Context {M : Type -> Type} `{HBT : BTreeMap M} `{HBL : !BTreeMapLaws M}.
Context (ps : list PartSizeConfig) (inode : Z).

(** [Inode.PartNum], [Inode.QueueCleanBuffer], [Inode.UnqueueCleanBuffer] *)
Definition inode_helpers : BufferListHelpers (BufferQueue.t M) := {|
  PartNum := partNum ps;
  QueueCleanBuffer := BufferQueue.Add inode;
  UnqueueCleanBuffer := BufferQueue.Delete;
|}.

Definition clean_queue_ok (l : BufferQueue.t M) : Prop := BufferQueue.ok l /\ 0 <= BufferQueue.curQueueID l.

Definition inode_helpers_laws (Hps : table_ok ps) :
  @BufferListHelpersLaws (BufferQueue.t M) inode_helpers (getMaxFileSize ps).
Proof using HBL.
  refine (@Build_BufferListHelpersLaws _ inode_helpers _ (table_PartNumbering ps Hps) (BufferQueue.view inode) clean_queue_ok _ _).
  - intros b q [Hok Hc]. exists (BufferQueue.curQueueID q + 1), (BufferQueue.Add inode b q).2.
    split; [done|]. split_and!.
    + by rewrite BufferQueue.view_lookup, BufferQueue.ok_fresh by (done || lia).
    + rewrite BufferQueue.Add_view by done. by rewrite Z.eqb_refl.
    + by apply BufferQueue.Add_ok.
  - intros b q e [Hok Hc] _. split; [apply BufferQueue.Delete_view|]. split; [by apply BufferQueue.Delete_ok|done].
Defined.
End helpers.

(** ** Properties of the queues *)

Section queue_properties.
Context {M : Type -> Type} `{HBT : BTreeMap M} `{HBL : !BTreeMapLaws M}.

Lemma scan_from_0 (l : InodeQueue.t M) : InodeQueue.ok l -> bt_ascend 0 (InodeQueue.dirtyQueue l) = bt_scan (InodeQueue.dirtyQueue l).
Proof using HBL.
  intros [_ Hok]. apply item_lt_unique; [apply bt_ascend_sorted|apply bt_scan_sorted|]. intros [k v].
  rewrite bt_ascend_elem, bt_scan_elem, <- bt_map_lookup. split; [by intros []|]. intros E. split; [apply Hok in E; lia|done].
Qed.

Lemma scan_snoc (m : M Z) k v : (forall i w, bt_map m !! i = Some w -> i < k) -> bt_scan (bt_set k v m) = bt_scan m ++ [(k, v)].
Proof using HBL.
  intros Hlt. apply item_lt_unique; [apply bt_scan_sorted| |].
  - apply StronglySorted_app_2; [|apply bt_scan_sorted|repeat constructor].
    intros [i w] [j u] Hi [= -> ->]%list_elem_of_singleton. unfold item_lt. cbn. apply bt_scan_elem in Hi.
    apply (Hlt i w). by rewrite bt_map_lookup.
  - intros [i w]. rewrite bt_scan_elem, <- bt_map_lookup, bt_map_set, elem_of_app, bt_scan_elem, <- bt_map_lookup, list_elem_of_singleton, lookup_insert_Some.
    split; [naive_solver|]. intros [E|[= -> ->]]; [|by left]. right. split; [|done]. apply Hlt in E. lia.
Qed.

(** C35: The queue of modified inodes is first in, first out: walking it with
    [Next] visits every queued inode exactly once, in the order they were
    added, and a newly added inode comes last. *)
Theorem inode_queue_fifo (l : InodeQueue.t M) ino :
  InodeQueue.ok l -> 0 < ino -> InodeQueue.curQueueID l + 1 < two64 - 1 ->
  exists xs, InodeQueue.visit (Z.to_nat (InodeQueue.Size l)) 0 l = Some xs /\
    InodeQueue.visit (Z.to_nat (InodeQueue.Size (InodeQueue.Add ino l).2)) 0 (InodeQueue.Add ino l).2 = Some (xs ++ [ino]).
Proof using HBL.
  intros Hok Hino Hb. destruct (InodeQueue.inode_Add_ok ino l Hok Hino Hb) as [Hok' _]. exists (bt_scan (InodeQueue.dirtyQueue l)).*2.
  assert (Hlen : forall l' : InodeQueue.t M, InodeQueue.ok l' ->
    InodeQueue.visit (Z.to_nat (InodeQueue.Size l')) 0 l' = Some (bt_scan (InodeQueue.dirtyQueue l')).*2).
  { intros l' Hl'. rewrite <- (scan_from_0 l' Hl'). apply InodeQueue.visit_spec; [done|].
    rewrite (scan_from_0 l' Hl'). unfold InodeQueue.Size. rewrite bt_len_scan. unfold zlen. lia. }
  split; [by apply Hlen|]. rewrite (Hlen _ Hok'). f_equal. destruct Hok as [Hc Hok]. cbn. rewrite u64_small by lia.
  rewrite scan_snoc, fmap_app; [done|]. intros i w E%Hok. lia.
Qed.

(** C36: Closing extra descriptors terminates with at most [maxCount] of them
    open, and those are the most recently used ones; the queue keeps listing
    exactly the open descriptors. *)
Theorem CloseExtra_keeps_recent (l : FDQueue.t M) :
  FDQueue.ok l -> 0 < FDQueue.maxCount l ->
  exists l', FDQueue.CloseExtra l = Some l' /\ FDQueue.ok l' /\
    bt_scan (FDQueue.q l') = drop (Z.to_nat (bt_len (FDQueue.q l) - FDQueue.maxCount l)) (bt_scan (FDQueue.q l)) /\
    bt_len (FDQueue.q l') = Z.min (bt_len (FDQueue.q l)) (FDQueue.maxCount l).
Proof using HBL.
  intros Hok Hm. pose proof (zlen_nonneg (bt_scan (FDQueue.q l))) as Hz. rewrite <- bt_len_scan in Hz.
  destruct (FDQueue.CloseExtra_loop_spec (Z.to_nat (bt_len (FDQueue.q l))) 0 None l Hok) as (l' & E & Hok' & Es & Em); [|done|lia|].
  { intros i j [Ho <-]%(FDQueue.fd_queue _ Hok). apply (FDQueue.fd_ids _ Hok) in Ho. lia. }
  exists l'. split_and!; try done. rewrite bt_len_scan, Es. unfold zlen. rewrite length_drop. rewrite bt_len_scan in *. unfold zlen in *. lia.
Qed.
End queue_properties.

Lemma inode_queue_fifo_witness :
  exists xs, InodeQueue.visit (Z.to_nat (InodeQueue.Size (InodeQueue.Add 7 (InodeQueue.empty (M := gmap Z))).2)) 0
               (InodeQueue.Add 7 (InodeQueue.empty (M := gmap Z))).2 = Some xs /\
    InodeQueue.visit (Z.to_nat (InodeQueue.Size (InodeQueue.Add 9 (InodeQueue.Add 7 (InodeQueue.empty (M := gmap Z))).2).2)) 0
               (InodeQueue.Add 9 (InodeQueue.Add 7 (InodeQueue.empty (M := gmap Z))).2).2 = Some (xs ++ [9]).
Proof.
  apply (inode_queue_fifo (InodeQueue.Add 7 (InodeQueue.empty (M := gmap Z))).2 9); [|done|done].
  apply InodeQueue.inode_Add_ok; [apply InodeQueue.inode_empty_ok|done|done].
Defined.

Definition ex_fds : FDQueue.t (gmap Z) :=
  (FDQueue.OpenCacheFD true 3 (FDQueue.OpenCacheFD true 2 (FDQueue.OpenCacheFD true 3 (FDQueue.OpenCacheFD true 1
    (FDQueue.NewFDQueue 2 ∅)).2).2).2).2.
Lemma CloseExtra_keeps_recent_witness :
  exists l', FDQueue.CloseExtra ex_fds = Some l' /\ FDQueue.ok l' /\
    bt_scan (FDQueue.q l') = drop (Z.to_nat (bt_len (FDQueue.q ex_fds) - FDQueue.maxCount ex_fds)) (bt_scan (FDQueue.q ex_fds)) /\
    bt_len (FDQueue.q l') = Z.min (bt_len (FDQueue.q ex_fds)) (FDQueue.maxCount ex_fds).
Proof.
  apply (CloseExtra_keeps_recent ex_fds); [|reflexivity].
  repeat (apply FDQueue.OpenCacheFD_ok; [|vm_compute; reflexivity]). apply FDQueue.NewFDQueue_ok. intros ino fi. by rewrite lookup_empty.
Defined.
