(* ===== verification/Locks.v ===== *)
(** * Range locks of an inode

    [LockRange], [UnlockRange] and [IsRangeLocked] of [core/file.go] keep a list
    of byte ranges being read or flushed, apart from the buffers, so that
    evicting and patching leave them alone.  The list is a bag: every
    [UnlockRange] takes back one [LockRange]. *)

From S2P Require Import Prelude.

Module Locks.

Record ReadRange := mkRR { Offset : Z; Size : Z; Flushing : bool }.
#[export] Instance ReadRange_eq_dec : EqDecision ReadRange.
Proof. solve_decision. Defined.

Definition LockRange (offset size : Z) (flushing : bool) (rs : list ReadRange) : list ReadRange := rs ++ [mkRR offset size flushing].
Fixpoint UnlockRange (offset size : Z) (flushing : bool) (rs : list ReadRange) : list ReadRange :=
  match rs with
  | [] => []
  | v :: rs' =>
    if (Offset v =? offset) && (Size v =? size) && Bool.eqb (Flushing v) flushing then rs'
    else v :: UnlockRange offset size flushing rs'
  end.
Definition IsRangeLocked (offset size : Z) (onlyFlushing : bool) (rs : list ReadRange) : bool :=
  existsb (fun r => (Offset r <? offset +u size) && (offset <? Offset r +u Size r) && (negb onlyFlushing || Flushing r)) rs.

(** ** The list as a bag of locks *)

Lemma matches_eq v o s f : (Offset v =? o) && (Size v =? s) && Bool.eqb (Flushing v) f = true <-> v = mkRR o s f.
Proof.
  rewrite !andb_true_iff, !Z.eqb_eq, Bool.eqb_true_iff. destruct v as [o' s' f']; cbn. split; [by intros [[-> ->] ->]|by intros [= -> -> ->]].
Qed.

Lemma UnlockRange_perm o s f rs : mkRR o s f ∈ rs -> mkRR o s f :: UnlockRange o s f rs ≡ₚ rs.
Proof.
  induction rs as [|v rs IH]; intros Hin; [by apply not_elem_of_nil in Hin|]. cbn. destruct (_ && _) eqn:E.
  - by apply matches_eq in E as ->.
  - rewrite elem_of_cons in Hin. destruct Hin as [<-|Hin]; [by rewrite (proj2 (matches_eq _ o s f) eq_refl) in E|].
    rewrite Permutation_swap. by rewrite IH.
Qed.

Lemma UnlockRange_absent o s f rs : mkRR o s f ∉ rs -> UnlockRange o s f rs = rs.
Proof.
  induction rs as [|v rs IH]; intros Hin; [done|]. cbn. rewrite not_elem_of_cons in Hin. destruct Hin as [Hne Hin].
  destruct (_ && _) eqn:E; [by apply matches_eq in E|]. by rewrite IH.
Qed.

Lemma UnlockRange_Permutation o s f rs rs' : rs ≡ₚ rs' -> UnlockRange o s f rs ≡ₚ UnlockRange o s f rs'.
Proof.
  intros Hp. destruct (decide (mkRR o s f ∈ rs)) as [Hin|Hin].
  - apply (Permutation_cons_inv (a := mkRR o s f)). rewrite !UnlockRange_perm; [done|by rewrite <- Hp|done].
  - rewrite !UnlockRange_absent; [done|by rewrite <- Hp|done].
Qed.

(** Requests for locks and their release are one operation each. *)
Inductive lock_op := Lock (offset size : Z) (flushing : bool) | Unlock (offset size : Z) (flushing : bool).
Definition lock_step (rs : list ReadRange) (o : lock_op) : list ReadRange :=
  match o with Lock o s f => LockRange o s f rs | Unlock o s f => UnlockRange o s f rs end.
Definition locks_after (os : list lock_op) (rs : list ReadRange) : list ReadRange := fold_left lock_step os rs.

#[export] Instance LockRange_Proper o s f : Proper ((≡ₚ) ==> (≡ₚ)) (LockRange o s f).
Proof. intros rs rs' Hp. unfold LockRange. by rewrite Hp. Qed.
#[export] Instance UnlockRange_Proper o s f : Proper ((≡ₚ) ==> (≡ₚ)) (UnlockRange o s f).
Proof. intros rs rs'. apply UnlockRange_Permutation. Qed.
#[export] Instance locks_after_Proper os : Proper ((≡ₚ) ==> (≡ₚ)) (locks_after os).
Proof. unfold locks_after. induction os as [|[o s f|o s f] os IH]; intros rs rs' Hp; cbn; [done|..]; apply IH; by rewrite Hp. Qed.

(** [IsRangeLocked] does not depend on the order of the locks. *)
#[export] Instance IsRangeLocked_Proper o s f : Proper ((≡ₚ) ==> (=)) (IsRangeLocked o s f).
Proof.
  intros rs rs' Hp. unfold IsRangeLocked. induction Hp as [| | |? ? ? _ IH1 _ IH2]; cbn; [done|by f_equal| |by rewrite IH1].
  rewrite !orb_assoc. f_equal. apply orb_comm.
Qed.


(** A byte range of locks the 64-bit sums of which do not wrap. *)
Definition lock_ok (r : ReadRange) : Prop := 0 <= Offset r /\ 0 <= Size r /\ Offset r + Size r < two64.

Lemma IsRangeLocked_byte offset size only rs :
  0 <= offset -> 0 < size -> offset + size < two64 -> Forall lock_ok rs ->
  IsRangeLocked offset size only rs = false -> forall r x, r ∈ rs -> (only = true -> Flushing r = true) ->
  Offset r <= x < Offset r + Size r -> ~ offset <= x < offset + size.
Proof.
  intros Ho Hs Hb Hok Hf r x Hin Hfl Hx Hx'. rewrite Forall_forall in Hok. destruct (Hok _ Hin) as (? & ? & ?).
  assert (Ht : IsRangeLocked offset size only rs = true); [|congruence]. apply existsb_exists. exists r. rewrite list_elem_of_In in Hin. split; [done|].
  u64s. rewrite (proj2 (Z.ltb_lt _ _)), (proj2 (Z.ltb_lt _ _)) by lia. destruct only; [by rewrite Hfl|done].
Qed.

(** ** Properties *)

Lemma locks_after_cons r os : forall rs, (forall os1 os2 o s f, os = os1 ++ Unlock o s f :: os2 -> mkRR o s f ∈ locks_after os1 rs) ->
  locks_after os (r :: rs) ≡ₚ r :: locks_after os rs.
Proof.
  induction os as [|[o1 s1 f1|o1 s1 f1] os IH]; intros rs Hown; [done|..]; cbn.
  - apply IH. intros os1 os2 o' s' f' ->. by apply (Hown (Lock o1 s1 f1 :: os1) os2).
  - pose proof (Hown [] os o1 s1 f1 eq_refl) as Hin. cbn in Hin.
    assert (Hp : UnlockRange o1 s1 f1 (r :: rs) ≡ₚ r :: UnlockRange o1 s1 f1 rs).
    { apply (Permutation_cons_inv (a := mkRR o1 s1 f1)). rewrite UnlockRange_perm by (by right).
      rewrite Permutation_swap. by rewrite UnlockRange_perm. }
    cbn in Hp. rewrite Hp. apply IH. intros os1 os2 o' s' f' ->. by apply (Hown (Unlock o1 s1 f1 :: os1) os2).
Qed.

(** C37: Range locks are a counted resource.  A lock is acquired, other lock
    operations follow, each of which releases only a lock that is held also
    without this one, and the lock is released: all the time a range that
    shares a byte with the locked one is reported as locked, and in the end the
    same locks are held as if the lock had never been taken. *)
Theorem lock_unlock_cancels o s f os rs :
  (forall os1 os2 o' s' f', os = os1 ++ Unlock o' s' f' :: os2 -> mkRR o' s' f' ∈ locks_after os1 rs) ->
  UnlockRange o s f (locks_after os (LockRange o s f rs)) ≡ₚ locks_after os rs /\
  (lock_ok (mkRR o s f) -> forall offset size only x, 0 <= offset -> offset + size < two64 -> (only = true -> f = true) ->
    o <= x < o + s -> offset <= x < offset + size -> IsRangeLocked offset size only (locks_after os (LockRange o s f rs)) = true).
Proof.
  intros Hown. assert (Hp : locks_after os (LockRange o s f rs) ≡ₚ mkRR o s f :: locks_after os rs).
  { rewrite <- (locks_after_cons (mkRR o s f) os rs Hown). apply locks_after_Proper. unfold LockRange. by rewrite Permutation_app_comm. }
  split.
  - apply (Permutation_cons_inv (a := mkRR o s f)). rewrite UnlockRange_perm; [done|]. rewrite Hp. apply list_elem_of_here.
  - intros (H1 & H2 & H3) offset size only x Ho Hb Hf Hx Hx'. cbn in *. destruct (IsRangeLocked _ _ _ _) eqn:E; [done|]. rewrite Hp in E.
    unfold IsRangeLocked in E. cbn [existsb] in E. apply orb_false_elim in E as [E _]. cbn in E.
    u64s. rewrite (proj2 (Z.ltb_lt _ _)), (proj2 (Z.ltb_lt _ _)) in E by lia. destruct only; [by rewrite Hf in E|done].
Qed.

Lemma lock_unlock_cancels_witness :
  UnlockRange 0 10 false (locks_after [Lock 5 3 true; Unlock 0 10 false] (LockRange 0 10 false [mkRR 0 10 false]))
    ≡ₚ locks_after [Lock 5 3 true; Unlock 0 10 false] [mkRR 0 10 false] /\
  IsRangeLocked 9 4 false (locks_after [Lock 5 3 true; Unlock 0 10 false] (LockRange 0 10 false [mkRR 0 10 false])) = true.
Proof.
  destruct (lock_unlock_cancels 0 10 false [Lock 5 3 true; Unlock 0 10 false] [mkRR 0 10 false]) as [H1 H2].
  - intros [|? [|? [|? os1]]] os2 o' s' f' E; cbn in E; try discriminate; try (by destruct os1).
    injection E as <- <- <- <- _. cbn. apply list_elem_of_here.
  - split; [exact H1|]. apply (H2 ltac:(vm_compute; split_and!; discriminate || reflexivity) 9 4 false 9); [lia|vm_compute; reflexivity|discriminate|lia|lia].
Defined.
End Locks.
