(* ===== verification/BufferListClaims.v ===== *)
(** * Properties of the buffer list

    The theorems about [core/buffer_list.go], with concrete instances of each. *)

From S2P Require Import Prelude BTree Parts BufferList BufferListInv BufferListView.
From S2P Require Import BufferListRemove BufferListAdd BufferListRead BufferListState.
From S2P Require Import BufferListSpec BufferListFlush Queues.

Module BufferListClaims.
Import BufferList BufferListInv BufferListView BufferListRemove BufferListAdd BufferListRead BufferListState
  BufferListSpec BufferListFlush.

Section claims.
Context {M : Type -> Type} `{HBT : BTreeMap M} `{HBL : !BTreeMapLaws M} {Q : Type} `{HQ : BufferListHelpers Q}.
Context {limit : Z} `{HLaws : !BufferListHelpersLaws Q limit}.
Implicit Types (l : bl M Q) (b : FileBuffer) (x : Z).
Abbreviation Inv := (@Inv M HBT Q HQ limit HLaws).
Abbreviation op_ok := (op_ok (limit := limit)).

Lemma wp_tt {S} (m : St S unit) (P : S -> Prop) s : wp m (fun _ s' => P s') s -> exists s', m s = Ok (tt, s') /\ P s'.
Proof. intros Hw. destruct (wp_run _ _ _ Hw) as ([] & s' & E & HP). eauto. Qed.

(** C13: Starting from an empty list, every sequence of operations on non-empty
    ranges within the limits ([op_ok]) runs to completion - none of the panics
    of [buffer_list.go] is reachable and no loop diverges - and leaves a list
    that satisfies the invariant: non-empty disjoint buffers keyed by their
    ends, exact unclean count, dirty-part counts and queues, exact reference
    counts with slices inside their arrays, unique identifiers on exactly the
    dirty buffers. Empty writes, which break the list
    ([empty_write_loses_data]), are excluded. *)
Theorem list_ops_safe (q : Q) os :
  queue_ok q -> queue_view q = ∅ -> Forall op_ok os ->
  exists l, run_ops os (empty_list (M := M) q) = Ok (tt, l) /\ Inv l.
Proof using HBL. intros Hq Hv Hos. apply wp_tt, run_ops_spec; [by apply empty_list_Inv|done]. Qed.

(** C14: Refinement. Seen through [pending] - the bytes written but not yet
    acknowledged by the server - a buffer list is a map from offsets to bytes:
    for operations on non-empty ranges, a write replaces exactly its range,
    zeroing and removal act on exactly theirs, a flush acknowledgement clears
    only bytes whose identifier it carries, and loading, reading back from disk,
    splitting, evicting and finalizing an upload change nothing. *)
Theorem list_op_refines o l :
  Inv l -> op_ok o -> exists l', run_op o l = Ok (tt, l') /\ Inv l' /\ abs_step o l (pending l) (pending l').
Proof using HBL. intros HI Ho. apply wp_tt. by apply run_op_spec. Qed.

(** C15: No lost writes. If the flusher reads a range with its identifiers, and
    a write lands on byte [x] before the acknowledgement of that flush is
    recorded, then [x] is still dirty and still holds the written byte
    afterwards. In between there may be any other operations on non-empty ranges
    that do not write, zero or remove this byte themselves; acknowledgements
    among them carry identifiers given out before the write. *)
Theorem write_survives_flush l off n ds ids woff data spare copyData os st x :
  Inv l -> 0 <= off -> 0 < n -> off + n < two64 -> GetData off n true l = Ok (ds, ids, None) ->
  op_ok (OpWrite woff data spare copyData) -> Forall op_ok os -> op_ok (OpSetState off n ids st) ->
  woff <= x < woff + zlen data -> Forall (spares (l_curDirtyID l) x) os ->
  exists l', run_ops (OpWrite woff data spare copyData :: os ++ [OpSetState off n ids st]) l = Ok (tt, l') /\
             pending l' x = znth data (x - woff).
Proof using HBL.
  intros HI Hoff Hn Hlim EG Hw Hos Hst Hx Hsp. apply wp_tt. cbn [run_ops]. apply wp_bind.
  destruct Hw as (? & ? & ?). apply wp_bind. wp_use (Add_dirty_spec l woff data spare BUF_DIRTY copyData HI); try done.
  intros a l1 [[HI1 Hv Hc] _]. apply wp_ret. specialize (Hv x).
  assert (Hwr : writes l BUF_DIRTY x = true) by (unfold writes, add_filter; destruct (owner l x); [by rewrite orb_true_r|done]).
  rewrite Hwr, bool_decide_true in Hv by done. destruct Hv as (v & Hv & b & E & Ec & Hid).
  assert (Hf : fresh (l_curDirtyID l) l1 x v).
  { exists b. unfold cell_at in Ec. split_and!; [done|congruence|congruence|by apply Hid]. }
  rewrite Hv. wp_use (run_ops_spared (os ++ [OpSetState off n ids st]) (l_curDirtyID l) l1 x v HI1).
  - apply Forall_app. auto.
  - done.
  - apply Forall_app. split; [done|]. repeat constructor. intros i Hi. by eapply (GetData_ids l off n ds ids None).
  - intros _ l' [_ (b' & E' & Hd & Hb & _)]. unfold pending. rewrite E', (proj2 (is_state_true b' _)) by done. done.
Qed.

(** C29: A flush that meets no concurrent write completes: once the identifiers
    read with the data of a non-empty range are acknowledged with any state but
    dirty and dropped, no byte of the range is dirty, and the list keeps its
    invariant. *)
Theorem flush_completes l off n ds ids st :
  Inv l -> GetData off n true l = Ok (ds, ids, None) -> op_ok (OpSetState off n ids st) ->
  exists l', SetState off n ids st l = Ok (tt, l') /\ Inv l' /\
    forall x, off <= x < off + n -> pending l' x = None.
Proof using HBL.
  intros HI EG (? & ? & ? & ? & ?). apply wp_tt. wp_use (SetState_spec l off n ids st HI); try done.
  intros _ l' HR. split; [apply HR|]. intros x Hx. pose proof (restated_pending ids st off (off + n) l l' x HI ltac:(done) HR) as Hp.
  destruct (GetData_inv l off n true ds ids HI ltac:(done) ltac:(done) ltac:(done) EG) as (_ & _ & Hids).
  destruct (owner l x) as [b|] eqn:E; [|done]. destruct Hp as (Hfl & Hnf & _).
  destruct (decide (b_dirtyID b = 0)) as [E0|Hne].
  - rewrite Hnf; [|by intros []]. apply (pending_clean l x b E). pose proof E as (k & Hk & _)%(owner_lookup l x b (inv_shape _ HI)).
    intros Hd. apply (id_dirty _ _ (inv_ids _ HI) k b Hk) in Hd. done.
  - apply Hfl; [|done]. split; [done|]. apply Hids. split; [done|]. split; [done|]. eauto.
Qed.
(** C24: [GetData] returns the bytes of the range exactly when every byte is
    resident, with the identifiers of the dirty buffers it touched; otherwise
    the first byte that cannot be read decides: a hole gives
    [ErrBufferIsMissing], a byte being loaded [ErrBufferIsLoading], and only a
    byte dropped from memory makes the slice expression panic. *)
Theorem GetData_result l off n rid :
  Inv l -> 0 <= off -> 0 < n -> off + n < two64 ->
  match GetData off n rid l with
  | Ok (ds, ids, None) =>
      zlen (concat ds) = n /\
      (forall i, 0 <= i < n -> exists v, znth (concat ds) i = Some v /\ status_at l (off + i) = Byte v) /\
      (forall i, i ∈ ids <-> rid = true /\ ids_of l off (off + n) i)
  | Ok (ds, _, Some ErrBufferIsMissing) => ds = [] /\ exists x, first_at l off n x Hole
  | Ok (ds, _, Some ErrBufferIsLoading) => ds = [] /\ exists x, first_at l off n x Loading
  | Panic p => p = SliceOutOfRange /\ exists x, first_at l off n x NotResident
  | OutOfFuel => False
  end.
Proof using HBL. apply GetData_spec. Qed.

(** C25: [GetHoles] returns exactly the bytes of the range no buffer covers, as
    ascending, non-empty, non-adjacent ranges, and tells whether some byte of
    the range is being loaded or has been flushed and dropped. *)
Theorem GetHoles_exact l off n holes loading flushCleared :
  Inv l -> 0 <= off -> 0 < n -> off + n < two64 -> GetHoles off n l = (holes, loading, flushCleared) ->
  holes_spec l off (off + n) holes loading flushCleared.
Proof using HBL. apply GetHoles_spec. Qed.

(** Read your writes.  Right after a write, reading any part of the written
    range returns the written bytes, under identifiers newer than any handed
    out before. *)
Theorem write_read_back l woff data spare copyData off n :
  Inv l -> op_ok (OpWrite woff data spare copyData) -> woff <= off -> 0 < n -> off + n <= woff + zlen data ->
  exists a l', Add woff data spare BUF_DIRTY copyData l = Ok (a, l') /\
    exists ds ids, GetData off n true l' = Ok (ds, ids, None) /\
      concat ds = slice (off - woff) (off - woff + n) data /\
      forall i, i ∈ ids -> l_curDirtyID l < i.
Proof using HBL.
  intros HI (? & ? & ?) Hoff Hn Hle. pose proof (limit_range (limit := limit) (Q := Q)).
  pose proof (Add_dirty_spec l woff data spare BUF_DIRTY copyData HI ltac:(done) ltac:(done) ltac:(done) ltac:(done) ltac:(done)) as Hw.
  destruct (wp_run _ _ _ Hw) as (a & l' & E & [[HI' Hv Hc] _]). exists a, l'. split; [done|].
  assert (Hst : forall x, woff <= x < woff + zlen data -> exists v b, znth data (x - woff) = Some v /\ status_at l' x = Byte v /\
    owner l' x = Some b /\ l_curDirtyID l < b_dirtyID b).
  { intros x Hx. specialize (Hv x).
    assert (Hwr : writes l BUF_DIRTY x = true) by (unfold writes, add_filter; destruct (owner l x); [by rewrite orb_true_r|done]).
    rewrite Hwr, bool_decide_true in Hv by done. destruct Hv as (v & Hv & b & Eo & Ec & Hid). exists v, b.
    unfold cell_at in Ec. injection Ec as E1 E2 E3 E4 E5. specialize (Hid eq_refl).
    split_and!; try done. unfold status_at. by rewrite Eo, E2, E5. }
  pose proof (GetData_loop_spec l' _ off (off + n) true [] ∅ HI' eq_refl ltac:(lia) ltac:(lia)) as Hr.
  destruct Hr as [(ds & ids & Er & (d & Ed & Hl & Hrd) & Hids)|(x & d & Hx & _ & _ & Hbad)].
  - exists ds, ids. unfold GetData. rewrite !u64_small by lia. rewrite Er. cbn. rewrite Z.ltb_irrefl. split_and!; [done| |].
    + cbn in Ed. rewrite Ed. apply znth_ext; [rewrite zlen_slice; lia|]. intros i Hi. rewrite znth_slice by lia.
      destruct (Hst (off + i)) as (v & b & Hv' & Hs & _); [lia|].
      destruct (reads_bytes l' off d (off + i) Hrd) as (v2 & Hv2 & Hs2); [lia|].
      replace (off + i - off) with i in Hv2 by lia. rewrite Hv2. replace (off - woff + i) with (off + i - woff) by lia. congruence.
    + intros i Hi. apply Hids in Hi as [Hi|(_ & _ & x & b & Hx & Eo & <-)]; [set_solver|].
      destruct (Hst x) as (v & b' & _ & _ & Eo' & ?); [lia|]. congruence.
  - destruct (Hst x) as (v & b & _ & Hs & _); [lia|]. by rewrite Hs in Hbad.
Qed.
(** ** Memory accounting *)

(** The operations whose result the caller adds to the memory counter of the pool. *)
Definition delta_op (o : list_op) : option (St (bl M Q) Z) :=
  match o with
  | OpWrite off data spare copyData => Some (Add off data spare BUF_DIRTY copyData)
  | OpZero off size => Some (let! '(_, allocated) := ZeroRange off size in ret allocated)
  | OpRemove off size => Some (RemoveRange off size None)
  | OpEvict cleanEnd locked toDisk => Some (evictClean cleanEnd locked toDisk)
  | _ => None
  end.

(** C26: The memory delta returned by writes, zeroing, removals and evictions is
    exactly the change of the memory held by the referenced arrays, however
    the arrays are shared, split, appended in place or reallocated. *)
Theorem memory_delta_exact o m l :
  Inv l -> op_ok o -> delta_op o = Some m ->
  exists a l', m l = Ok (a, l') /\ Inv l' /\ a = held (l_ptrs l') - held (l_ptrs l).
Proof using HBL.
  intros HI Ho Em. apply wp_run. destruct o; try done; injection Em as <-; cbn [op_ok] in Ho.
  - destruct Ho as (? & ? & ?). wp_use (Add_dirty_spec l off data spare BUF_DIRTY copyData HI); try done.
    intros a l' [[HI' _ _] ?]. done.
  - destruct Ho as (? & ? & ?). apply wp_bind. wp_use (ZeroRange_spec l off size HI); try done. intros [[|] a] l'; wp_steps.
    + by intros (? & ? & _).
    + intros (-> & -> & _). split; [done|lia].
  - destruct Ho as (? & ? & ?). wp_use (RemoveRange_cut l off size None HI); try done. intros a l' [HI' _ ? _ _ _]. done.
  - wp_use (evictClean_spec l cleanEnd locked toDisk HI). intros a l' (? & ? & _). done.
Qed.

(** ** Dirty parts *)

(** Between the parts of two bytes of a file lies no unused part number. *)
Lemma PartNum_between (x : Z) (d : Z) :
  0 <= d -> forall p q r, 0 <= x -> x + d < limit -> PartNum Q x = Ok p -> PartNum Q (x + d) = Ok q -> p <= r <= q ->
  exists z, x <= z <= x + d /\ PartNum Q z = Ok r.
Proof using HLaws.
  revert d. refine (natlike_ind _ _ _).
  - intros p q r Hx Hlim Hp Hq Hr. rewrite Z.add_0_r in Hq. exists x. split; [lia|]. rewrite Hp. f_equal. assert (p = q) by congruence. lia.
  - intros d Hd IH p q r Hx Hlim Hp Hq Hr. pose proof (helpers_parts (limit := limit) (Q := Q)) as PN.
    destruct (PartNum_total (x + d)) as (q' & Hq' & _); [lia|].
    destruct (decide (r <= q')) as [Hle|Hgt].
    + destruct (IH p q' r Hx ltac:(lia) Hp Hq' ltac:(lia)) as (z & ? & ?). exists z. split; [lia|done].
    + exists (x + Z.succ d). split; [lia|]. rewrite Hq. f_equal.
      pose proof (PartNum_step (x + Z.succ d) q' q) as Hst. replace (x + Z.succ d - 1) with (x + d) in Hst by lia.
      specialize (Hst ltac:(lia) Hq' Hq). lia.
Qed.

Lemma in_parts_byte k b p :
  range_ok (limit := limit) k b -> in_parts b p = true <-> exists x, b_offset b <= x < k /\ PartNum Q x = Ok p.
Proof using HLaws.
  intros (-> & ? & ? & ?). pose proof (helpers_parts (limit := limit) (Q := Q)) as PN. unfold in_parts.
  destruct (PartNum_total (b_offset b)) as (sp & Esp & _); [lia|].
  destruct (PartNum_total (b_offset b + b_len b - 1)) as (ep & Eep & _); [lia|]. rewrite Esp, Eep.
  rewrite andb_true_iff, !Z.leb_le. split.
  - intros Hp. destruct (PartNum_between (b_offset b) (b_len b - 1) ltac:(lia) sp ep p) as (z & Hz & E); try done; [lia| |exists z; split; [lia|done]].
    by replace (b_offset b + (b_len b - 1)) with (b_offset b + b_len b - 1) by lia.
  - intros (x & Hx & E). split.
    + eapply (PartNum_mono (b_offset b) x); eauto; lia.
    + eapply (PartNum_mono x (b_offset b + b_len b - 1)); eauto; lia.
Qed.

Definition dirty_parts l : list Z := IterateDirtyParts (fun acc p => (acc ++ [p], true)) [] l.

Lemma dirty_parts_eq l : dirty_parts l = (bt_ascend 0 (l_dirtyQueue l)).*2.
Proof using Type*.
  unfold dirty_parts, IterateDirtyParts.
  assert (Hgen : forall (items : list (Z * Z)) acc,
    iter_until (fun a '(_, partNum) => (a ++ [partNum], true)) acc items = acc ++ items.*2).
  { induction items as [|[q p] items IH]; intros acc; cbn; [by rewrite app_nil_r|]. by rewrite IH, <- app_assoc. }
  by rewrite Hgen.
Qed.

(** C27: The dirty-part queue the flusher walks lists, each once, exactly the
    parts in which some byte is dirty. *)
Theorem dirty_parts_exact l :
  Inv l -> NoDup (dirty_parts l) /\
  forall p, p ∈ dirty_parts l <-> exists x b, owner l x = Some b /\ b_state b = BUF_DIRTY /\ PartNum Q x = Ok p.
Proof using HBL.
  intros HI. pose proof (trk_parts _ _ (inv_trk _ HI)) as HP. pose proof (inv_shape _ HI) as HS.
  assert (Hin : forall q p, (q, p) ∈ bt_ascend 0 (l_dirtyQueue l) <-> exists d, l_dirtyParts l !! p = Some d /\ dp_queueId d = q).
  { intros q p. rewrite bt_ascend_elem, <- bt_map_lookup, <- (pt_queue _ _ HP). split; [by intros []|].
    intros E. split; [|done]. apply (pt_qid _ _ HP) in E. lia. }
  rewrite dirty_parts_eq. split.
  - apply NoDup_fmap_2_strong; [|by eapply NoDup_fmap_1, item_lt_NoDup, bt_ascend_sorted].
    intros [q1 p1] [q2 p2] (d1 & E1 & <-)%Hin (d2 & E2 & <-)%Hin. cbn. intros ->. congruence.
  - intros p. transitivity (0 < part_refs (bufs l) p).
    + rewrite list_elem_of_fmap. pose proof (pt_cnt _ _ HP p) as Hc. split.
      * intros ([q p'] & -> & (d & E & _)%Hin). cbn in *. rewrite E in Hc. lia.
      * intros Hpos. destruct (l_dirtyParts l !! p) as [d|] eqn:E; [|lia]. exists (dp_queueId d, p). split; [done|]. apply Hin. eauto.
    + unfold part_refs. split.
      * intros (k & b & Hk & Hne)%map_sum_pos_inv. destruct (is_state b BUF_DIRTY) eqn:Es, (in_parts b p) eqn:Ei; try done.
        apply is_state_true in Es. apply (in_parts_byte k b p (sh_ok _ HS k b Hk)) in Ei as (x & Hx & Ex).
        exists x, b. split_and!; try done. by eapply (owner_intro l x k b HS).
      * intros (x & b & Eo & Es & Ex). apply (owner_lookup l x b HS) in Eo as (k & Hk & Hx).
        eapply Z.lt_le_trans; [|eapply (map_sum_ge _ (bufs l) k b); [auto with go|done]]. cbn.
        rewrite (proj2 (is_state_true b _) Es), (proj2 (in_parts_byte k b p (sh_ok _ HS k b Hk))) by eauto. done.
Qed.
End claims.

(** ** Instances

    A file of the default part sizes, whose clean buffers go to the shared
    queue under inode number 1. *)

#[local] Instance ex_helpers : BufferListHelpers (BufferQueue.t (gmap Z)) := inode_helpers defaultPartSizes 1.
#[local] Instance ex_laws : BufferListHelpersLaws (BufferQueue.t (gmap Z)) (getMaxFileSize defaultPartSizes) :=
  inode_helpers_laws defaultPartSizes 1 default_table_ok.

Definition ex_empty : bl (gmap Z) (BufferQueue.t (gmap Z)) := empty_list BufferQueue.empty.
Definition ex_run (os : list list_op) : bl (gmap Z) (BufferQueue.t (gmap Z)) :=
  match run_ops os ex_empty with Ok (_, l) => l | _ => ex_empty end.
(** Six bytes written at 0, four fetched at 8, a hole between them. *)
Definition ex_ops : list list_op := [OpWrite 0 [1; 2; 3; 4; 5; 6] [] true; OpFetch 8 [7; 8; 9; 10] [0; 0]].

Lemma ex_queue_ok : queue_ok (BufferQueue.empty (M := gmap Z)).
Proof. by split; [apply BufferQueue.empty_ok|]. Qed.
Lemma ex_queue_view : queue_view (BufferQueue.empty (M := gmap Z)) = ∅.
Proof. apply BufferQueue.empty_view. Qed.

Lemma ex_run_Inv os : Forall (op_ok (limit := getMaxFileSize defaultPartSizes)) os -> Inv (limit := getMaxFileSize defaultPartSizes) (ex_run os).
Proof.
  intros Hos. pose proof (run_ops_spec os ex_empty (empty_list_Inv _ ex_queue_ok ex_queue_view) Hos) as Hw.
  unfold ex_run, wp in *. by destruct (run_ops os ex_empty) as [[]| |].
Qed.

(** Discharge the argument checks of concrete operations. *)
Ltac op_args := repeat match goal with
  | |- Forall _ _ => constructor
  | |- op_ok _ => cbn
  | |- _ /\ _ => split
  | |- _ <> _ => discriminate
  | |- True => exact I
  | |- _ => vm_compute; lia || (intros; discriminate) || reflexivity
  end.

Lemma ex_ops_ok : Forall (op_ok (limit := getMaxFileSize defaultPartSizes)) ex_ops.
Proof. op_args. Qed.

Lemma list_ops_safe_witness :
  exists l, run_ops ex_ops ex_empty = Ok (tt, l) /\ Inv (limit := getMaxFileSize defaultPartSizes) l.
Proof. apply (list_ops_safe BufferQueue.empty ex_ops ex_queue_ok ex_queue_view ex_ops_ok). Defined.

Definition ex_list : bl (gmap Z) (BufferQueue.t (gmap Z)) := ex_run ex_ops.
Lemma ex_list_Inv : Inv (limit := getMaxFileSize defaultPartSizes) ex_list.
Proof. apply ex_run_Inv, ex_ops_ok. Qed.

Lemma list_op_refines_witness :
  exists l', run_op (OpWrite 4 [11; 12; 13] [] true) ex_list = Ok (tt, l') /\ Inv (limit := getMaxFileSize defaultPartSizes) l' /\
    abs_step (OpWrite 4 [11; 12; 13] [] true) ex_list (pending ex_list) (pending l').
Proof. apply (list_op_refines _ ex_list ex_list_Inv). op_args. Defined.

Lemma write_survives_flush_witness :
  exists l', run_ops (OpWrite 2 [20; 21] [] true :: [OpSplitAt 3; OpFetch 12 [1] []] ++ [OpSetState 0 6 {[1]} BUF_CLEAN]) ex_list
               = Ok (tt, l') /\ pending l' 3 = Some 21.
Proof.
  apply (write_survives_flush ex_list 0 6 [[1; 2; 3; 4; 5; 6]] {[1]} 2 [20; 21] [] true [OpSplitAt 3; OpFetch 12 [1] []] BUF_CLEAN 3
           ex_list_Inv); op_args.
Defined.

Lemma flush_completes_witness :
  exists l', SetState 0 6 {[1]} BUF_CLEAN ex_list = Ok (tt, l') /\ Inv (limit := getMaxFileSize defaultPartSizes) l' /\
    forall x, 0 <= x < 0 + 6 -> pending l' x = None.
Proof. apply (flush_completes ex_list 0 6 [[1; 2; 3; 4; 5; 6]] {[1]} BUF_CLEAN ex_list_Inv); op_args. Defined.

Lemma GetData_result_witness : exists x, first_at ex_list 2 8 x Hole.
Proof.
  pose proof (GetData_result ex_list 2 8 true ex_list_Inv ltac:(lia) ltac:(lia) ltac:(lia)) as Hr.
  assert (E : GetData 2 8 true ex_list = Ok ([], {[1]}, Some ErrBufferIsMissing)) by (vm_compute; reflexivity).
  rewrite E in Hr. exact (proj2 Hr).
Defined.

Lemma GetHoles_exact_witness : holes_spec ex_list 1 (1 + 15) [mkRange 6 8; mkRange 12 16] false false.
Proof. apply (GetHoles_exact ex_list 1 15 _ _ _ ex_list_Inv); op_args. Defined.

Lemma write_read_back_witness :
  exists a l', Add 4 [11; 12; 13] [] BUF_DIRTY true ex_list = Ok (a, l') /\
    exists ds ids, GetData 5 2 true l' = Ok (ds, ids, None) /\ concat ds = slice (5 - 4) (5 - 4 + 2) [11; 12; 13] /\
      forall i, i ∈ ids -> l_curDirtyID ex_list < i.
Proof. apply (write_read_back ex_list 4 [11; 12; 13] [] true 5 2 ex_list_Inv); op_args. Defined.

Lemma memory_delta_exact_witness :
  exists a l', evictClean 12 false true ex_list = Ok (a, l') /\ Inv (limit := getMaxFileSize defaultPartSizes) l' /\
    a = held (l_ptrs l') - held (l_ptrs ex_list).
Proof. apply (memory_delta_exact (OpEvict 12 false true) _ ex_list ex_list_Inv); [exact I|reflexivity]. Defined.

Lemma dirty_parts_exact_witness :
  NoDup (dirty_parts ex_list) /\ forall p, p ∈ dirty_parts ex_list <->
    exists x b, owner ex_list x = Some b /\ b_state b = BUF_DIRTY /\ PartNum (BufferQueue.t (gmap Z)) x = Ok p.
Proof. apply (dirty_parts_exact ex_list ex_list_Inv). Defined.

(** ** Two defects *)

(** A write of no bytes inside a buffer is not a no-op: [RemoveRange] splits
    the buffer twice at the same offset, takes the left part for the range,
    and deletes it.  Here four dirty bytes are at 0, and an empty write at 2
    loses the first two, which the server never gets to see. *)
Theorem empty_write_loses_data :
  let l := ex_run [OpWrite 0 [1; 2; 3; 4] [] true] in
  pending l 0 = Some 1 /\
  exists a l', Add 2 [] [] BUF_DIRTY true l = Ok (a, l') /\ owner l' 0 = None /\ owner l' 1 = None /\ pending l' 2 = Some 3.
Proof. split; [reflexivity|]. do 2 eexists. split; [vm_compute; reflexivity|]. split_and!; vm_compute; reflexivity. Qed.

(** Fetched data inserted around a dirty range is accounted for less than it
    holds: [Add] without copying reports the bytes of the pieces it inserted,
    while the array they share is subtracted as a whole when the last piece
    is released. *)
Theorem fetch_undercounts_memory :
  let l := ex_run [OpWrite 4 [1; 2; 3; 4] [] true] in
  exists l' l'' d, Add 0 [1; 2; 3; 4; 5; 6; 7; 8; 9; 10; 11; 12] [] BUF_CLEAN false l = Ok (8, l') /\
    held (l_ptrs l') - held (l_ptrs l) = 12 /\
    RemoveRange 0 12 None l' = Ok (d, l'') /\ held (l_ptrs l'') = 0 /\ 8 + d = -8 /\ held (l_ptrs l) = 4.
Proof.
  do 3 eexists. split; [vm_compute; reflexivity|]. split; [vm_compute; reflexivity|].
  split; [vm_compute; reflexivity|]. split_and!; vm_compute; reflexivity.
Qed.
End BufferListClaims.
