(* ===== verification/ReadAhead.v ===== *)
(** * Read-ahead

    [mergeRA] and [splitRA] of [core/buffer_list.go], which turn the holes of a
    read into requests to the server, and the read-pattern tracking of a file
    handle ([NewFileHandle], [trackRead], [getReadAhead] of [core/file.go]). *)

From S2P Require Import Prelude BTree Parts BufferList BufferListInv BufferListView.
From S2P Require Import BufferListAdd BufferListRead.

Module ReadAhead.
Import BufferList BufferListRead.

(** ** Definitions *)

(** The slice is rewritten in place: [kept] is [prev + 1], the number of result
    ranges already at its beginning, [i] the index of the next input range. *)
Fixpoint mergeRA_loop (n : nat) (readAhead readMerge : Z) (rr : list Range) (i kept : nat) : outcome (list Range) :=
  match n with
  | O => Ok (take kept rr)
  | S n' =>
    match rr !! i with
    | None => Panic SliceOutOfRange
    | Some r =>
      let prev := if decide (kept = O) then None else rr !! pred kept in
      match prev with
      | Some p =>
        if Start r <=? End_ p +u readMerge
        then mergeRA_loop n' readAhead readMerge (<[pred kept := mkRange (Start p) (End_ r)]> rr) (S i) kept
        else
          let sz := Z.max (End_ r -u Start r) readAhead in
          mergeRA_loop n' readAhead readMerge (<[kept := mkRange (Start r) (Start r +u sz)]> rr) (S i) (S kept)
      | None =>
        let sz := Z.max (End_ r -u Start r) readAhead in
        mergeRA_loop n' readAhead readMerge (<[kept := mkRange (Start r) (Start r +u sz)]> rr) (S i) (S kept)
      end
    end
  end.
Definition mergeRA (rr : list Range) (readAhead readMerge : Z) : outcome (list Range) :=
  let readMerge := if readAhead <=? readMerge then readMerge -u readAhead else 0 in
  mergeRA_loop (length rr) readAhead readMerge rr O O.

(** The inner loop of [splitRA]: the chunks appended for one range. *)
Fixpoint splitRA_chunks (fuel : nat) (off end_ maxPart : Z) (res : list Range) : outcome (list Range) :=
  if off <? end_ then
    match fuel with
    | O => OutOfFuel
    | S fuel' => splitRA_chunks fuel' (off +u maxPart) end_ maxPart (res ++ [mkRange off (off +u maxPart)])
    end
  else Ok res.
(** [res[len(res)-1].End = e] *)
Definition set_last_end (res : list Range) (e : Z) : outcome (list Range) :=
  match last res with
  | Some r => Ok (<[pred (length res) := mkRange (Start r) e]> res)
  | None => Panic SliceOutOfRange
  end.
Fixpoint splitRA_loop (todo done_ : list Range) (maxPart : Z) (split : bool) (res : list Range) : outcome (list Range) :=
  match todo with
  | [] => Ok res
  | r :: todo' =>
    if maxPart <? End_ r -u Start r then
      let res0 := if split then res else done_ in
      letO! res1 := splitRA_chunks (Z.to_nat ((End_ r -u Start r) / maxPart + 1)) (Start r) (End_ r) maxPart res0 in
      letO! res2 := set_last_end res1 (End_ r) in
      splitRA_loop todo' (done_ ++ [r]) maxPart true res2
    else splitRA_loop todo' (done_ ++ [r]) maxPart split (if split then res ++ [r] else res)
  end.
Definition splitRA (rr : list Range) (maxPart : Z) : outcome (list Range) := splitRA_loop rr [] maxPart false rr.

(** ** Reference definitions *)

Definition extend (readAhead : Z) (r : Range) : Range := mkRange (Start r) (Start r +u Z.max (End_ r -u Start r) readAhead).
(** [cur] is the request being grown. *)
Fixpoint merge_ref (readAhead readMerge : Z) (cur : Range) (rr : list Range) : list Range :=
  match rr with
  | [] => [cur]
  | r :: rr' =>
    if Start r <=? End_ cur +u readMerge
    then merge_ref readAhead readMerge (mkRange (Start cur) (End_ r)) rr'
    else cur :: merge_ref readAhead readMerge (extend readAhead r) rr'
  end.

Fixpoint chunks (fuel : nat) (off end_ maxPart : Z) : list Range :=
  match fuel with
  | O => []
  | S fuel' => if off <? end_ then mkRange off (Z.min end_ (off + maxPart)) :: chunks fuel' (off + maxPart) end_ maxPart else []
  end.

(** Ascending non-empty ranges with more than [d] bytes between neighbours. *)
Fixpoint ranges_spaced (d lo hi : Z) (rs : list Range) : Prop :=
  match rs with
  | [] => True
  | r :: rs' => lo <= Start r < End_ r /\ End_ r <= hi /\ ranges_spaced d (End_ r + d + 1) hi rs'
  end.

(** Membership in an explicit list. *)
Ltac mem := rewrite ?elem_of_cons in *; intuition.

(** ** Merging *)

Lemma mergeRA_loop_ref ra rm rest : forall out cur junk,
  mergeRA_loop (length rest) ra rm (out ++ [cur] ++ junk ++ rest) (length (out ++ [cur] ++ junk)) (S (length out))
  = Ok (out ++ merge_ref ra rm cur rest).
Proof.
  induction rest as [|r rest IH]; intros out cur junk; cbn [mergeRA_loop length merge_ref].
  - rewrite app_nil_r. replace (out ++ [cur] ++ junk) with ((out ++ [cur]) ++ junk) by by rewrite <- app_assoc.
    rewrite take_app_length'; [done|]. rewrite length_app. cbn. lia.
  - replace (out ++ [cur] ++ junk ++ r :: rest) with ((out ++ [cur] ++ junk) ++ r :: rest) by by rewrite <- !app_assoc.
    rewrite list_lookup_middle by done. destruct (decide _); [done|]. cbn [pred].
    replace ((out ++ [cur] ++ junk) ++ r :: rest) with (out ++ cur :: junk ++ r :: rest) by by rewrite <- !app_assoc.
    rewrite list_lookup_middle by done. case_match.
    + rewrite insert_app_r_alt by lia. rewrite Nat.sub_diag. cbn.
      replace (out ++ mkRange (Start cur) (End_ r) :: junk ++ r :: rest)
        with (out ++ [mkRange (Start cur) (End_ r)] ++ (junk ++ [r]) ++ rest) by by rewrite <- !app_assoc.
      rewrite <- (IH out _ (junk ++ [r])). f_equal. rewrite !length_app. cbn. rewrite ?length_app. cbn. lia.
    + rewrite insert_app_r_alt by lia. replace (S (length out) - length out)%nat with 1%nat by lia.
      destruct (junk ++ r :: rest) as [|x tl] eqn:Ej; [by destruct junk|]. cbn.
      set (new := mkRange _ _).
      assert (exists junk', tl = junk' ++ rest /\ length junk' = length junk) as (junk' & -> & Hl).
      { destruct junk as [|j junk]; injection Ej as -> <-; [by exists []|].
        exists (junk ++ [r]). rewrite <- app_assoc, length_app. cbn. split; [done|lia]. }
      replace (out ++ cur :: new :: junk' ++ rest) with ((out ++ [cur]) ++ [new] ++ junk' ++ rest) by by rewrite <- !app_assoc.
      replace (S (S (length out))) with (S (length (out ++ [cur]))) by (rewrite length_app; cbn; lia).
      transitivity (Ok ((out ++ [cur]) ++ merge_ref ra rm (extend ra r) rest)); [|by rewrite <- app_assoc].
      rewrite <- (IH (out ++ [cur]) (extend ra r) junk'). f_equal. rewrite !length_app. cbn. lia.
Qed.

(** The in-place loop computes the reference definition. *)
Lemma mergeRA_ref rr ra rm :
  mergeRA rr ra rm = Ok match rr with
                        | [] => []
                        | r :: rr' => merge_ref ra (if ra <=? rm then rm -u ra else 0) (extend ra r) rr'
                        end.
Proof.
  unfold mergeRA. destruct rr as [|r rr]; [done|]. cbn [mergeRA_loop length lookup list_lookup decide].
  apply (mergeRA_loop_ref ra _ rr [] (extend ra r) []).
Qed.

(** The requests cover every byte of the ranges from [cur] on, lie apart, and
    ask for no byte further than [rm] behind the end of the extended range it
    follows. *)
Lemma merge_ref_spec ra rm hi rr : forall cur r0 lo,
  0 <= ra -> 0 <= rm -> 0 <= lo -> hi + ra + rm < two64 ->
  lo <= Start cur < End_ cur -> Start cur <= Start r0 -> End_ r0 <= hi ->
  End_ cur <= Z.max (End_ r0) (Start r0 + ra) -> End_ r0 <= End_ cur -> Start r0 < End_ r0 ->
  ranges_ok (End_ r0 + 1) hi rr ->
  let out := merge_ref ra rm cur rr in
  ranges_spaced rm (Start cur) (hi + ra) out /\
  (forall x, Start cur <= x < End_ r0 \/ in_ranges rr x -> in_ranges out x) /\
  (forall x, in_ranges out x -> Start cur <= x < End_ cur \/
     exists r, r ∈ r0 :: rr /\ Start r <= x < Z.max (End_ r) (Start r + ra) + rm).
Proof.
  induction rr as [|r rr IH]; intros cur r0 lo Hra Hrm Hlo Hhi Hcur Hs He Hmax Hle Hr0 Hrr out; subst out; cbn [merge_ref].
  - split_and!; [cbn; lia| |].
    + intros x [Hx|Hx]; [|by apply in_ranges_nil in Hx]. apply in_ranges_cons. left. cbn in *. lia.
    + intros x [Hx|Hx]%in_ranges_cons; [by left|]. by apply in_ranges_nil in Hx.
  - destruct Hrr as (Hr & Hrh & Hrr). u64s. destruct (Z.leb_spec (Start r) (End_ cur + rm)).
    + destruct (IH (mkRange (Start cur) (End_ r)) r lo) as (H1 & H2 & H3); cbn; try done; [lia..|].
      cbn in *. split_and!; [done| |].
      * intros x Hx. apply H2. rewrite in_ranges_cons in Hx. intuition lia.
      * intros x Hx. destruct (H3 x Hx) as [Hc|(r' & Hin & Hb)]; [|right; exists r'; split; [mem|done]].
        destruct (decide (x < End_ cur)); [left; lia|right].
        destruct (decide (x < Start r)); [exists r0|exists r]; (split; [mem|lia]).
    + destruct (IH (extend ra r) r (Start r)) as (H1 & H2 & H3); cbn; u64s; cbn; try done; [lia..|].
      cbn in H1, H2, H3. rewrite !(u64_small (End_ r - Start r)) in * by lia.
      rewrite (u64_small (Start r + _)) in * by lia. split; [|split].
      * cbn. split_and!; try lia. destruct (merge_ref ra rm (extend ra r) rr); cbn in *; [done|]. intuition lia.
      * intros x Hx. rewrite in_ranges_cons in Hx |- *. destruct Hx as [Hx|[Hx|Hx]]; [left; lia|right; apply H2; lia|right; apply H2; auto].
      * intros x [Hx|Hx]%in_ranges_cons; [by left|right]. destruct (H3 x Hx) as [Hc|(r' & Hin & Hb)].
        -- exists r. split; [mem|lia].
        -- exists r'. split; [mem|done].
Qed.

Lemma mergeRA_spec rr lo hi ra rm :
  0 <= lo -> 0 <= ra -> 0 <= rm -> hi + ra + rm < two64 -> ranges_ok lo hi rr ->
  exists out, mergeRA rr ra rm = Ok out /\ ranges_spaced (Z.max 0 (rm - ra)) lo (hi + ra) out /\
    (forall x, in_ranges rr x -> in_ranges out x) /\
    (forall x, in_ranges out x -> exists r, r ∈ rr /\ Start r <= x < Z.max (End_ r) (Start r + ra) + Z.max 0 (rm - ra)).
Proof.
  intros Hlo Hra Hrm Hhi Hrr. rewrite mergeRA_ref. eexists. split; [done|]. destruct rr as [|r rr]; [split_and!; [done|done|]|].
  { intros x Hx. by apply in_ranges_nil in Hx. }
  destruct Hrr as (Hr & Hrh & Hrr).
  assert (Heq : (if ra <=? rm then rm -u ra else 0) = Z.max 0 (rm - ra)) by (destruct (Z.leb_spec ra rm); u64s; lia).
  rewrite Heq. assert (Hex : extend ra r = mkRange (Start r) (Start r + Z.max (End_ r - Start r) ra)) by (unfold extend; u64s; done).
  destruct (merge_ref_spec ra (Z.max 0 (rm - ra)) hi rr (extend ra r) r lo) as (H1 & H2 & H3); rewrite ?Hex; cbn; try done; [lia..|].
  rewrite Hex in *. cbn in *. split_and!.
  - destruct (merge_ref _ _ _ _); cbn in *; [done|]. intuition lia.
  - intros x Hx. apply H2. rewrite in_ranges_cons in Hx. intuition lia.
  - intros x Hx. destruct (H3 x Hx) as [Hc|Hex']; [|done]. exists r. split; [mem|lia].
Qed.
(** ** Splitting *)

(** Ascending ranges that may touch or be empty. *)
Fixpoint ranges_tile (lo hi : Z) (rs : list Range) : Prop :=
  match rs with
  | [] => True
  | r :: rs' => lo <= Start r <= End_ r /\ End_ r <= hi /\ ranges_tile (End_ r) hi rs'
  end.

Lemma ranges_spaced_tile d lo hi rs : 0 <= d -> ranges_spaced d lo hi rs -> ranges_tile lo hi rs.
Proof.
  intros Hd. revert lo. induction rs as [|r rs IH]; intros lo; cbn; [done|]. intros (? & ? & Hrs%IH). split_and!; try lia.
  destruct rs; cbn in *; [done|]. intuition lia.
Qed.

Lemma ranges_tile_mono lo lo' hi rs : ranges_tile lo' hi rs -> lo <= lo' -> ranges_tile lo hi rs.
Proof. destruct rs; cbn; [done|]. intuition lia. Qed.

Lemma ranges_tile_app lo mid hi rs1 rs2 : ranges_tile lo mid rs1 -> lo <= mid <= hi -> ranges_tile mid hi rs2 -> ranges_tile lo hi (rs1 ++ rs2).
Proof.
  intros H1 ? H2. revert lo H H1. induction rs1 as [|r rs1 IH]; cbn; intros lo ?; [intros _; by apply ranges_tile_mono with mid; [|lia]|].
  intros (? & ? & Hr). split_and!; try lia. apply IH; [lia|done].
Qed.

Lemma in_ranges_app rs1 rs2 x : in_ranges (rs1 ++ rs2) x <-> in_ranges rs1 x \/ in_ranges rs2 x.
Proof. unfold in_ranges. setoid_rewrite elem_of_app. naive_solver. Qed.

Lemma chunks_spec fuel off e mp :
  0 < mp -> off <= e -> e - off <= Z.of_nat fuel * mp ->
  ranges_tile off e (chunks fuel off e mp) /\ (forall x, in_ranges (chunks fuel off e mp) x <-> off <= x < e) /\
  Forall (fun r => End_ r - Start r <= mp) (chunks fuel off e mp).
Proof.
  intros Hmp. revert off. induction fuel as [|fuel IH]; intros off Hoff Hf; cbn [chunks].
  { split_and!; [done| |done]. intros x. split; [by intros ?%in_ranges_nil|lia]. }
  destruct (Z.ltb_spec off e); [|split_and!; [done| |done]; intros x; split; [by intros ?%in_ranges_nil|lia]].
  destruct (decide (off + mp <= e)).
  - destruct (IH (off + mp)) as (H1 & H2 & H3); [lia..|]. rewrite Z.min_r by lia.
    split; [cbn; split_and!; (done || lia)|split].
    + intros x. rewrite in_ranges_cons, H2. cbn. lia.
    + constructor; [cbn; lia|done].
  - rewrite Z.min_l by lia. assert (chunks fuel (off + mp) e mp = []) as ->.
    { destruct fuel; cbn; [done|]. by destruct (Z.ltb_spec (off + mp) e); [lia|]. }
    split; [cbn; split_and!; (done || lia)|split].
    + intros x. rewrite in_ranges_cons. cbn. split; [by intros [?|?%in_ranges_nil]; [lia|]|lia].
    + repeat constructor. cbn. lia.
Qed.

Lemma set_last_end_snoc res r e : set_last_end (res ++ [r]) e = Ok (res ++ [mkRange (Start r) e]).
Proof.
  unfold set_last_end. rewrite last_snoc, length_app. cbn. rewrite Nat.add_1_r. cbn.
  by rewrite insert_app_r_alt, Nat.sub_diag by lia.
Qed.

Lemma splitRA_chunks_ref fuel e mp : forall off res,
  0 < mp -> 0 <= off < e -> e + mp < two64 -> e - off <= Z.of_nat fuel * mp ->
  (letO! r1 := splitRA_chunks fuel off e mp res in set_last_end r1 e) = Ok (res ++ chunks fuel off e mp).
Proof.
  induction fuel as [|fuel IH]; intros off res Hmp Hoff He Hf; [lia|]. cbn [splitRA_chunks chunks].
  destruct (Z.ltb_spec off e); [|lia]. u64s. destruct (Z.ltb_spec (off + mp) e).
  - rewrite (Z.min_r e (off + mp)) by lia. rewrite IH by lia. by rewrite <- app_assoc.
  - rewrite (Z.min_l e (off + mp)) by lia. assert (chunks fuel (off + mp) e mp = []) as ->.
    { destruct fuel; cbn; [done|]. by destruct (Z.ltb_spec (off + mp) e); [lia|]. }
    assert (splitRA_chunks fuel (off + mp) e mp (res ++ [mkRange off (off + mp)]) = Ok (res ++ [mkRange off (off + mp)])) as ->.
    { destruct fuel; cbn [splitRA_chunks]; by destruct (Z.ltb_spec (off + mp) e); [lia|]. }
    apply set_last_end_snoc.
Qed.

(** What one range becomes. *)
Definition pieces (mp : Z) (r : Range) : list Range :=
  if mp <? End_ r - Start r then chunks (Z.to_nat ((End_ r - Start r) / mp + 1)) (Start r) (End_ r) mp else [r].

Lemma pieces_fuel mp n : 0 < mp -> 0 <= n -> n <= Z.of_nat (Z.to_nat (n / mp + 1)) * mp.
Proof. intros. pose proof (Z.div_pos n mp). pose proof (Z.mul_succ_div_gt n mp). rewrite Z2Nat.id by lia. lia. Qed.

Lemma splitRA_loop_ref mp todo : forall done_ split res,
  0 < mp -> Forall (fun r => 0 <= Start r <= End_ r /\ End_ r + mp < two64) todo ->
  (if split : bool then res = flat_map (pieces mp) done_ else res = done_ ++ todo /\ flat_map (pieces mp) done_ = done_) ->
  splitRA_loop todo done_ mp split res = Ok (flat_map (pieces mp) (done_ ++ todo)).
Proof.
  induction todo as [|r todo IH]; intros done_ split res Hmp Hok Hres; cbn [splitRA_loop].
  - rewrite app_nil_r in *. destruct split; [by subst|]. destruct Hres as [-> ->]. done.
  - apply Forall_cons in Hok as [[Hr Hb] Hok]. u64s.
    replace (done_ ++ r :: todo) with ((done_ ++ [r]) ++ todo) in * by by rewrite <- app_assoc.
    assert (Hp : flat_map (pieces mp) (done_ ++ [r]) = flat_map (pieces mp) done_ ++ pieces mp r)
      by (rewrite flat_map_app; cbn; by rewrite app_nil_r).
    assert (Hres0 : (if split then res else done_) = flat_map (pieces mp) done_) by (destruct split; [done|]; by destruct Hres).
    unfold pieces in Hp at 3. destruct (Z.ltb_spec mp (End_ r - Start r)).
    + pose proof (splitRA_chunks_ref (Z.to_nat ((End_ r - Start r) / mp + 1)) (End_ r) mp (Start r) (if split then res else done_)
        Hmp ltac:(lia) ltac:(lia) ltac:(apply pieces_fuel; lia)) as Hc.
      destruct (splitRA_chunks _ _ _ _ _); [|done|done]. cbn in Hc |- *. rewrite Hc. cbn.
      apply (IH (done_ ++ [r]) true); [done|done|]. by rewrite Hp, Hres0.
    + apply IH; [done|done|]. destruct split; [by rewrite Hp, Hres|]. destruct Hres as [-> Hd]. by rewrite Hp, Hd.
Qed.

(** Every request stays within [mp] bytes and the same bytes are requested, in order. *)
Lemma splitRA_ok rr lo hi mp :
  0 < mp -> 0 <= lo <= hi -> hi + mp < two64 -> ranges_tile lo hi rr -> splitRA rr mp = Ok (flat_map (pieces mp) rr).
Proof.
  intros Hmp Hlo Hhi Hrr. apply (splitRA_loop_ref mp rr [] false); [done| |done].
  assert (Hgen : forall lo', 0 <= lo' -> ranges_tile lo' hi rr -> Forall (fun r => 0 <= Start r <= End_ r /\ End_ r + mp < two64) rr).
  { clear Hrr Hlo. induction rr as [|r rr IH]; intros lo' ? Hrr; constructor; destruct Hrr as (? & ? & ?); [lia|by apply (IH (End_ r)); [lia|]]. }
  by apply (Hgen lo); [lia|].
Qed.

Lemma splitRA_spec rr lo hi mp :
  0 < mp -> 0 <= lo <= hi -> hi + mp < two64 -> ranges_tile lo hi rr ->
  exists out, splitRA rr mp = Ok out /\ ranges_tile lo hi out /\ (forall x, in_ranges out x <-> in_ranges rr x) /\
    Forall (fun r => End_ r - Start r <= mp) out.
Proof.
  intros Hmp Hlo Hhi Hrr. exists (flat_map (pieces mp) rr). split; [by apply splitRA_ok with lo hi|].
  revert lo Hlo Hrr. induction rr as [|r rr IH]; intros lo Hlo Hrr; [split_and!; done|]. destruct Hrr as (Hr & Hb & Hrr).
  destruct (IH (End_ r)) as (H1 & H2 & H3); [lia|done|]. cbn [flat_map].
  assert (Hp : ranges_tile lo (End_ r) (pieces mp r) /\ (forall x, in_ranges (pieces mp r) x <-> Start r <= x < End_ r) /\
               Forall (fun r => End_ r - Start r <= mp) (pieces mp r)).
  { unfold pieces. destruct (Z.ltb_spec mp (End_ r - Start r)).
    - destruct (chunks_spec (Z.to_nat ((End_ r - Start r) / mp + 1)) (Start r) (End_ r) mp) as (? & ? & ?); [lia|lia|apply pieces_fuel; lia|].
      split_and!; [|done|done]. apply ranges_tile_mono with (Start r); [done|lia].
    - split_and!; [cbn; split_and!; (done || lia)| |by repeat constructor].
      intros x. rewrite in_ranges_cons. split; [by intros [?|?%in_ranges_nil]|by left]. }
  destruct Hp as (P1 & P2 & P3). split_and!.
  - apply ranges_tile_app with (End_ r); [done|lia|done].
  - intros x. by rewrite in_ranges_app, in_ranges_cons, P2, H2.
  - by apply Forall_app.
Qed.
(** ** The requests for the holes of a range, cut at the known size of the object *)

Lemma merge_ref_starts ra rm rr : forall cur r, r ∈ merge_ref ra rm cur rr -> Start r ∈ Start cur :: (Start <$> rr).
Proof.
  induction rr as [|r' rr IH]; intros cur r; cbn [merge_ref fmap list_fmap].
  - rewrite list_elem_of_singleton. intros ->. constructor.
  - destruct (_ <=? _).
    + intros Hin%IH. cbn in Hin. rewrite !elem_of_cons in *. tauto.
    + rewrite elem_of_cons. intros [->|Hin%IH]; [constructor|]. cbn in Hin. rewrite !elem_of_cons in *. tauto.
Qed.

Lemma ranges_spaced_last d lo hi rs r : ranges_spaced d lo hi rs -> 0 <= d -> last rs = Some r -> lo <= Start r < End_ r /\ End_ r <= hi.
Proof.
  revert lo. induction rs as [|r' rs IH]; intros lo; [done|]. intros (? & ? & Hrs) Hd. rewrite last_cons. destruct (last rs) as [r0|] eqn:E.
  - intros [= ->]. destruct (IH _ Hrs Hd eq_refl). lia.
  - intros [= ->]. lia.
Qed.

(** Cutting the last request. *)
Lemma cut_last d lo hi rs r known :
  ranges_spaced d lo hi rs -> 0 <= d -> last rs = Some r -> Start r < known ->
  exists rs', (if known <? End_ r then set_last_end rs known else Ok rs) = Ok rs' /\ ranges_tile lo known rs' /\
    Forall (fun r => Start r < End_ r) rs' /\ forall x, in_ranges rs x -> x < known -> in_ranges rs' x.
Proof.
  intros Hs Hd Hl Hk.
  assert (Hgen : forall e, Start r < e <= known -> ranges_tile lo known (removelast rs ++ [mkRange (Start r) e]) /\
    Forall (fun r => Start r < End_ r) (removelast rs ++ [mkRange (Start r) e]) /\
    forall x, in_ranges rs x -> x < e -> in_ranges (removelast rs ++ [mkRange (Start r) e]) x).
  { intros e He. revert lo Hs Hl. induction rs as [|r' rs IH]; intros lo Hsp; [done|]. destruct Hsp as (? & ? & Hrs). rewrite last_cons.
    destruct rs as [|r2 rs].
    - intros [= ->]. cbn. split_and!; try lia; [repeat constructor; cbn; lia|].
      intros x [Hx|Hx]%in_ranges_cons ?; [|by apply in_ranges_nil in Hx]. apply in_ranges_cons. left. cbn. lia.
    - destruct (last (r2 :: rs)) as [r0|] eqn:E0; [|by rewrite last_None in E0]. intros [= ->].
      change (removelast (r' :: r2 :: rs)) with (r' :: removelast (r2 :: rs)). cbn [app].
      pose proof (ranges_spaced_last _ _ _ _ _ Hrs Hd E0) as [? ?]. destruct (IH _ Hrs eq_refl) as (T1 & T2 & T3). split_and!.
      + cbn [ranges_tile]. split_and!; try lia. by apply ranges_tile_mono with (End_ r' + d + 1); [|lia].
      + constructor; [lia|done].
      + intros x [Hx|Hx]%in_ranges_cons ?; apply in_ranges_cons; [by left|right; by apply T3]. }
  assert (Ers : rs = removelast rs ++ [r]).
  { clear -Hl. destruct rs as [|r' rs _] using rev_ind; [done|]. rewrite last_snoc in Hl. injection Hl as ->. by rewrite removelast_last. }
  destruct (Z.ltb_spec known (End_ r)).
  - exists (removelast rs ++ [mkRange (Start r) known]). destruct (Hgen known ltac:(lia)) as (? & ? & ?). split_and!; try done.
    rewrite Ers at 1. apply set_last_end_snoc.
  - exists rs. pose proof (ranges_spaced_last _ _ _ _ _ Hs Hd Hl). destruct (Hgen (End_ r) ltac:(lia)) as (T1 & T2 & T3).
    replace (mkRange (Start r) (End_ r)) with r in * by (by destruct r). rewrite <- Ers in *. done.
Qed.

Lemma pieces_nonempty mp r : 0 < mp -> Start r < End_ r -> Forall (fun r => Start r < End_ r) (pieces mp r).
Proof.
  intros Hmp Hr. unfold pieces. destruct (_ <? _); [|by repeat constructor].
  generalize (Z.to_nat ((End_ r - Start r) / mp + 1)) as fuel. intros fuel. revert Hr. generalize (Start r) as off. intros off _. revert off.
  induction fuel as [|fuel IH]; intros off; cbn [chunks]; [constructor|]. destruct (Z.ltb_spec off (End_ r)); constructor; [cbn; lia|apply IH].
Qed.

Lemma requests_spec holes lo hi ra rm mp known :
  0 <= lo -> 0 <= ra -> 0 <= rm -> 0 < mp -> hi + ra + rm < two64 -> 0 <= known -> known + mp < two64 -> ranges_ok lo hi holes -> holes <> [] ->
  (forall r, r ∈ holes -> Start r <> known) ->
  exists rr lst, mergeRA holes ra rm = Ok rr /\ last rr = Some lst /\
    (known < Start lst /\ known < End_ lst /\ (exists r, r ∈ holes /\ Start r = Start lst) \/
     (known <? Start lst) = false /\ exists rr1 rr2, (if known <? End_ lst then set_last_end rr known else Ok rr) = Ok rr1 /\ splitRA rr1 mp = Ok rr2 /\
       ranges_tile lo known rr2 /\ Forall (fun r => Start r < End_ r) rr2 /\ forall x, in_ranges holes x -> x < known -> in_ranges rr2 x).
Proof.
  intros Hlo Hra Hrm Hmp Hhi Hk Hkmp Hok Hne Hst. destruct (mergeRA_spec holes lo hi ra rm) as (rr & Em & Hs & Hcov & _); try done.
  pose proof Em as Em'. rewrite mergeRA_ref in Em'. destruct holes as [|h holes]; [done|]. injection Em' as Er.
  destruct (last rr) as [lst|] eqn:El.
  2: { apply last_None in El. exfalso. destruct Hok as (? & _). destruct (Hcov (Start h)) as (r & Hin & _); [|by subst rr; rewrite El in Hin; apply elem_of_nil in Hin].
       apply in_ranges_cons. left. lia. }
  exists rr, lst. split_and!; [done..|]. pose proof (ranges_spaced_last _ _ _ _ _ Hs ltac:(lia) El) as [Hl1 Hl2].
  assert (Hmem : exists r, r ∈ h :: holes /\ Start r = Start lst).
  { apply last_Some_elem_of in El. rewrite <- Er in El. apply merge_ref_starts in El. cbn [extend Start] in El.
    apply elem_of_cons in El as [E|(r & E & Hin)%list_elem_of_fmap]; rewrite E; [exists h|exists r]; (split; [|done]); [constructor|by constructor]. }
  assert (Hstart : Start lst <> known) by (destruct Hmem as (r & Hr & <-); by apply Hst).
  destruct (Z.ltb_spec known (Start lst)); [left; split_and!; done || lia|]. right. split; [done|].
  destruct (cut_last _ _ _ _ _ known Hs ltac:(lia) El ltac:(lia)) as (rr1 & E1 & T1 & N1 & C1).
  destruct (splitRA_spec rr1 lo known mp) as (rr2 & E2 & T2 & C2 & _); try done; [lia|]. exists rr1, rr2. split_and!; try done.
  - assert (E2' : rr2 = flat_map (pieces mp) rr1).
    { rewrite (splitRA_ok rr1 lo known mp) in E2 by (done || lia). by injection E2 as <-. }
    rewrite E2'. clear -N1 Hmp. induction N1; cbn; [done|]. apply Forall_app. split; [by apply pieces_nonempty|done].
  - intros x Hx ?. apply C2, C1; [by apply Hcov|done].
Qed.

(** ** Tracking the read pattern of a handle *)

(** The fields of [FileHandle] other than its inode. *)
Record FileHandle := mkFH {
  lastReadEnd : Z; seqReadSize : Z; lastReadCount : Z; lastReadTotal : Z; lastReadSizes : list Z; lastReadIdx : nat;
}.
(** The read-ahead options of [cfg.FlagStorage]. *)
Record ReadFlags := mkReadFlags {
  ReadAheadKB : Z; LargeReadCutoffKB : Z; ReadAheadLargeKB : Z; SmallReadCutoffKB : Z; ReadAheadSmallKB : Z; SmallReadCount : Z;
}.

Definition NewFileHandle (flags : ReadFlags) : FileHandle :=
  mkFH 0 0 0 0 (if 1 <? SmallReadCount flags then replicate (Z.to_nat (SmallReadCount flags - 1)) 0 else []) 0.

(** The branch of [trackRead] that stores the size of the sequence that ended. *)
Definition pushReadSize (fh : FileHandle) : FileHandle :=
  match lastReadSizes fh !! lastReadIdx fh with
  | None => fh
  | Some old =>
    let '(total, count) := if old =? 0 then (lastReadTotal fh, lastReadCount fh)
                           else (lastReadTotal fh -u old, lastReadCount fh -u 1) in
    mkFH (lastReadEnd fh) (seqReadSize fh) (count +u 1) (total +u seqReadSize fh)
         (<[lastReadIdx fh := seqReadSize fh]> (lastReadSizes fh))
         (Nat.modulo (S (lastReadIdx fh)) (length (lastReadSizes fh)))
  end.
Definition set_seq (sz : Z) (fh : FileHandle) : FileHandle :=
  mkFH (lastReadEnd fh) sz (lastReadCount fh) (lastReadTotal fh) (lastReadSizes fh) (lastReadIdx fh).
Definition trackRead (offset size : Z) (fh : FileHandle) : FileHandle :=
  let fh1 :=
    if size =? 0 then fh
    else if offset =? lastReadEnd fh then set_seq (seqReadSize fh +u size) fh
    else set_seq size (if decide (lastReadSizes fh = []) then fh else pushReadSize fh) in
  mkFH (offset +u size) (seqReadSize fh1) (lastReadCount fh1) (lastReadTotal fh1) (lastReadSizes fh1) (lastReadIdx fh1).

Definition getReadAhead (flags : ReadFlags) (fh : FileHandle) : Z :=
  if LargeReadCutoffKB flags *u 1024 <=? seqReadSize fh then ReadAheadLargeKB flags *u 1024
  else if 0 <? lastReadCount fh then
    let avg := (seqReadSize fh +u lastReadTotal fh) / (1 +u lastReadCount fh) in
    if avg <=? SmallReadCutoffKB flags *u 1024 then ReadAheadSmallKB flags *u 1024 else ReadAheadKB flags *u 1024
  else ReadAheadKB flags *u 1024.

Definition track_reads (reads : list (Z * Z)) (fh : FileHandle) : FileHandle :=
  fold_left (fun fh '(off, size) => trackRead off size fh) reads fh.

(** *** The window of past sizes *)

Definition sum_sizes (l : list Z) : Z := foldr Z.add 0 l.
Definition nonzero (l : list Z) : Z := foldr (fun s n => ind (negb (s =? 0)) + n) 0 l.

Lemma sum_sizes_insert l i old v : l !! i = Some old -> sum_sizes (<[i := v]> l) = sum_sizes l - old + v.
Proof.
  unfold sum_sizes. revert i. induction l as [|a l IH]; intros [|i] E; try done; [injection E as ->; cbn; lia|].
  change (<[S i := v]> (a :: l)) with (a :: <[i := v]> l). cbn [foldr]. rewrite (IH i E). lia.
Qed.
Lemma nonzero_insert l i old v : l !! i = Some old -> nonzero (<[i := v]> l) = nonzero l - ind (negb (old =? 0)) + ind (negb (v =? 0)).
Proof.
  unfold nonzero. revert i. induction l as [|a l IH]; intros [|i] E; try done; [injection E as ->; cbn; lia|].
  change (<[S i := v]> (a :: l)) with (a :: <[i := v]> l). cbn [foldr]. rewrite (IH i E). lia.
Qed.
Lemma nonzero_range l : 0 <= nonzero l <= zlen l.
Proof. unfold zlen. induction l as [|a l IH]; cbn; [lia|]. unfold nonzero in *. destruct (a =? 0); cbn; lia. Qed.

#[local] Arguments sum_sizes : simpl never.
#[local] Arguments nonzero : simpl never.

Record window_ok (n : nat) (fh : FileHandle) : Prop := {
  w_len : length (lastReadSizes fh) = n;
  w_idx : (lastReadIdx fh < n)%nat \/ n = O;
  w_total : lastReadTotal fh = u64 (sum_sizes (lastReadSizes fh));
  w_count : nonzero (lastReadSizes fh) <= lastReadCount fh <= nonzero (lastReadSizes fh) + 1;
  (* nothing has been read yet *)
  w_seq : seqReadSize fh = 0 -> nonzero (lastReadSizes fh) = 0 /\ lastReadCount fh = 0;
}.

Lemma u64_add_l a b : u64 (u64 a + b) = u64 (a + b).
Proof. unfold u64. by rewrite Zplus_mod_idemp_l. Qed.
Lemma u64_sub_l a b : u64 (u64 a - b) = u64 (a - b).
Proof. unfold u64. by rewrite Zminus_mod_idemp_l. Qed.

Lemma NewFileHandle_ok flags : window_ok (length (lastReadSizes (NewFileHandle flags))) (NewFileHandle flags).
Proof.
  assert (Hz : forall k, sum_sizes (replicate k 0) = 0 /\ nonzero (replicate k 0) = 0).
  { induction k as [|k [IH1 IH2]]; unfold sum_sizes, nonzero in *; cbn; [done|lia]. }
  unfold NewFileHandle. split; cbn; [done| | | |]; destruct (1 <? SmallReadCount flags); cbn; try done; try (by right);
    try (by rewrite (proj1 (Hz _))); rewrite ?(proj2 (Hz _)); try lia.
Qed.

Lemma pushReadSize_ok n fh :
  window_ok n fh -> n <> O -> zlen (lastReadSizes fh) + 2 < two64 ->
  let fh' := pushReadSize fh in
  length (lastReadSizes fh') = n /\ (lastReadIdx fh' < n)%nat /\ lastReadTotal fh' = u64 (sum_sizes (lastReadSizes fh')) /\
  nonzero (lastReadSizes fh') <= lastReadCount fh' <= nonzero (lastReadSizes fh') + 1.
Proof.
  intros [Hlen [Hidx|?] Htot Hcnt Hseq] Hn Hbig; [|done]. unfold pushReadSize.
  destruct (lookup_lt_is_Some_2 (lastReadSizes fh) (lastReadIdx fh)) as [old Eo]; [lia|]. rewrite Eo.
  pose proof (sum_sizes_insert _ _ _ (seqReadSize fh) Eo) as Hs. pose proof (nonzero_insert _ _ _ (seqReadSize fh) Eo) as Hnz.
  pose proof (nonzero_range (lastReadSizes fh)) as Hr.
  assert (Hold : old <> 0 -> 1 <= nonzero (lastReadSizes fh)).
  { intros Ho. pose proof (nonzero_insert _ _ _ 0 Eo) as H0. pose proof (nonzero_range (<[lastReadIdx fh := 0]> (lastReadSizes fh))).
    destruct (Z.eqb_spec old 0); [done|]. cbn in H0. lia. }
  assert (Hs0 : seqReadSize fh = 0 -> old = 0).
  { intros [E0 _]%Hseq. destruct (decide (old = 0)); [done|]. specialize (Hold ltac:(done)). lia. }
  destruct (Z.eqb_spec old 0); cbn; (split_and!; [by rewrite length_insert|rewrite Hlen; by apply Nat.mod_upper_bound| |..]).
  all: try (rewrite Hs, Htot; rewrite ?u64_sub_l, u64_add_l; f_equal; lia).
  all: rewrite Hnz; destruct (Z.eqb_spec (seqReadSize fh) 0) as [E0|E0]; try (by specialize (Hs0 E0)); try specialize (Hseq E0); try specialize (Hold ltac:(done)); cbn; u64s; lia.
Qed.

Lemma trackRead_ok n off size fh :
  window_ok n fh -> Z.of_nat n + 2 < two64 -> 0 <= size -> seqReadSize fh + size < two64 -> 0 <= seqReadSize fh ->
  window_ok n (trackRead off size fh) /\ 0 <= seqReadSize (trackRead off size fh) <= seqReadSize fh + size.
Proof.
  intros Hw Hbig Hsz Hsum Hpos. pose proof Hw as [Hlen Hidx Htot Hcnt Hseq]. unfold trackRead.
  destruct (Z.eqb_spec size 0); [split; [by split|cbn; lia]|]. destruct (Z.eqb_spec off (lastReadEnd fh)); [u64s; split; [split; cbn; (done || lia)|cbn; lia]|].
  destruct (decide (lastReadSizes fh = [])) as [E|E]; [split; [split; cbn; (done || lia)|cbn; lia]|].
  assert (Hn : n <> O) by (intros ->; by destruct (lastReadSizes fh)).
  destruct (pushReadSize_ok n fh Hw Hn) as (? & ? & ? & ?); [unfold zlen; lia|]. split; [split; cbn; (by left) || (done || lia)|cbn; lia].
Qed.

Lemma track_reads_ok n reads fh :
  window_ok n fh -> Z.of_nat n + 2 < two64 -> 0 <= seqReadSize fh -> Forall (fun r => 0 <= r.2) reads ->
  seqReadSize fh + sum_sizes reads.*2 < two64 -> window_ok n (track_reads reads fh).
Proof.
  revert fh. induction reads as [|[off size] reads IH]; intros fh Hw Hbig Hs Hr Hsum; [done|]. change (sum_sizes ((off, size) :: reads).*2) with (size + sum_sizes reads.*2) in Hsum.
  apply Forall_cons in Hr as [Hsz Hr]. cbn in Hsz.
  assert (0 <= sum_sizes reads.*2) by (clear -Hr; unfold sum_sizes; induction Hr; cbn; lia).
  destruct (trackRead_ok n off size fh) as [Hw' Hs']; try done; [lia|]. apply IH; try done; lia.
Qed.
(** ** Properties *)

(** C34: The requests sent to the server for the holes of a read cover every byte
    of the holes, are ascending and disjoint, are at most [maxPart] bytes
    each, and ask for no byte further away from a hole than the read-ahead
    and merge distances allow.  Both loops terminate without an index error. *)
Theorem requests_cover rr lo hi readAhead readMerge maxPart :
  0 <= lo <= hi -> 0 <= readAhead -> 0 <= readMerge -> 0 < maxPart -> hi + readAhead + readMerge + maxPart < two64 ->
  ranges_ok lo hi rr ->
  exists merged out, mergeRA rr readAhead readMerge = Ok merged /\ splitRA merged maxPart = Ok out /\
    ranges_tile lo (hi + readAhead) out /\ Forall (fun r => End_ r - Start r <= maxPart) out /\
    (forall x, in_ranges rr x -> in_ranges out x) /\
    (forall x, in_ranges out x -> exists r, r ∈ rr /\
       Start r <= x < Z.max (End_ r) (Start r + readAhead) + Z.max 0 (readMerge - readAhead)).
Proof.
  intros Hlo Hra Hrm Hmp Hb Hrr.
  destruct (mergeRA_spec rr lo hi readAhead readMerge) as (merged & Em & Hsp & Hcov & Hbound); try done; [lia..|].
  destruct (splitRA_spec merged lo (hi + readAhead) maxPart) as (out & Eo & Ht & Hin & Hsz); try done; [lia..| |].
  { eapply ranges_spaced_tile; [|done]. lia. }
  exists merged, out. split_and!; try done.
  - intros x Hx. by apply Hin, Hcov.
  - intros x Hx. by apply Hbound, Hin.
Qed.

Lemma requests_cover_witness :
  exists merged out, mergeRA [mkRange 10 20; mkRange 40 90] 0 20 = Ok merged /\ splitRA merged 25 = Ok out /\
    ranges_tile 0 (100 + 0) out /\ Forall (fun r => End_ r - Start r <= 25) out /\
    (forall x, in_ranges [mkRange 10 20; mkRange 40 90] x -> in_ranges out x) /\
    (forall x, in_ranges out x -> exists r, r ∈ [mkRange 10 20; mkRange 40 90] /\
       Start r <= x < Z.max (End_ r) (Start r + 0) + Z.max 0 (20 - 0)).
Proof. apply (requests_cover [mkRange 10 20; mkRange 40 90] 0 100 0 20 25); cbn; lia. Defined.

(** The unit test [TestRA]. *)
Example TestRA :
  (letO! merged := mergeRA
    [mkRange 6841958400 6862929920; mkRange 6845149184 6845333504; mkRange 6845804544 6847561728;
     mkRange 6848061440 6855168000; mkRange 6855610368 6855716864; mkRange 6855884800 6857936896;
     mkRange 6858420224 6868172800] 0 (512 * 1024) in
   letO! split := splitRA merged (20 * 1024 * 1024) in Ok (merged, split))
  = Ok ([mkRange 6841958400 6868172800], [mkRange 6841958400 6862929920; mkRange 6862929920 6868172800]).
Proof. vm_compute. reflexivity. Qed.

(** [mergeRA] is only right on disjoint ranges: an input range that contains
    the next one, which the unit test of the function passes it, is cut off
    at the end of the inner one. *)
Example mergeRA_overlap_shrinks :
  mergeRA [mkRange 6841958400 6862929920; mkRange 6845149184 6845333504] 0 (512 * 1024) = Ok [mkRange 6841958400 6845333504].
Proof. vm_compute. reflexivity. Qed.

(** After any reads through a handle, the total of the read-size window is
    the sum of its entries, and the number of remembered sequences is the
    number of non-zero entries, or one more. *)
Theorem read_window_tracked flags reads :
  SmallReadCount flags + 2 < two64 -> Forall (fun r => 0 <= r.2) reads -> sum_sizes reads.*2 < two64 ->
  let fh := track_reads reads (NewFileHandle flags) in
  lastReadTotal fh = u64 (sum_sizes (lastReadSizes fh)) /\
  nonzero (lastReadSizes fh) <= lastReadCount fh <= nonzero (lastReadSizes fh) + 1.
Proof.
  intros Hf Hr Hs. pose proof (NewFileHandle_ok flags) as Hw.
  eapply (track_reads_ok _ reads) in Hw; [by split; apply Hw| |done|done|done].
  unfold NewFileHandle. cbn. destruct (Z.ltb_spec 1 (SmallReadCount flags)); cbn; [rewrite length_replicate; lia|lia].
Qed.

Definition ex_flags : ReadFlags := mkReadFlags 5120 20480 102400 128 0 4.
Definition ex_reads : list (Z * Z) := [(0, 4096); (4096, 4096); (1000000, 512); (50, 100)].
Lemma read_window_tracked_witness :
  lastReadTotal (track_reads ex_reads (NewFileHandle ex_flags)) =
    u64 (sum_sizes (lastReadSizes (track_reads ex_reads (NewFileHandle ex_flags)))) /\
  nonzero (lastReadSizes (track_reads ex_reads (NewFileHandle ex_flags))) <=
    lastReadCount (track_reads ex_reads (NewFileHandle ex_flags)) <=
    nonzero (lastReadSizes (track_reads ex_reads (NewFileHandle ex_flags))) + 1.
Proof. apply (read_window_tracked ex_flags ex_reads); [done|repeat constructor; done|done]. Defined.

(** The count can indeed be one too many for good: when the first read of a
    handle is not at offset 0, an empty sequence is counted, and its zero
    entry is later overwritten without being uncounted.  With one remembered
    entry the handle then averages over three sequences. *)
Example read_window_overcounts :
  let fh := track_reads [(5, 1); (100, 1); (200, 1); (300, 1)] (NewFileHandle (mkReadFlags 5120 20480 102400 128 0 2)) in
  lastReadSizes fh = [1] /\ lastReadCount fh = 2.
Proof. vm_compute. done. Qed.

(** Back-to-back reads starting at [off]. *)
Fixpoint sequential (off : Z) (sizes : list Z) : list (Z * Z) :=
  match sizes with
  | [] => []
  | s :: sizes' => (off, s) :: sequential (off + s) sizes'
  end.

Lemma sequential_seq sizes : forall off fh,
  Forall (fun s => 0 < s) sizes -> 0 <= off -> lastReadEnd fh = off -> off + sum_sizes sizes < two64 ->
  0 <= seqReadSize fh -> seqReadSize fh + sum_sizes sizes < two64 ->
  seqReadSize (track_reads (sequential off sizes) fh) = seqReadSize fh + sum_sizes sizes.
Proof.
  induction sizes as [|s sizes IH]; intros off fh Hp Hoff He Hb Hs Hsb; [unfold sum_sizes; cbn; lia|].
  change (sum_sizes (s :: sizes)) with (s + sum_sizes sizes) in *. apply Forall_cons in Hp as [Hsz Hp].
  assert (0 <= sum_sizes sizes) by (clear -Hp; unfold sum_sizes; induction Hp; cbn; lia). cbn [sequential].
  change (track_reads ((off, s) :: sequential (off + s) sizes) fh) with (track_reads (sequential (off + s) sizes) (trackRead off s fh)).
  assert (Hseq : seqReadSize (trackRead off s fh) = seqReadSize fh + s /\ lastReadEnd (trackRead off s fh) = off + s).
  { unfold trackRead. destruct (Z.eqb_spec s 0); [lia|]. destruct (Z.eqb_spec off (lastReadEnd fh)); [|congruence]. cbn. u64s. done. }
  destruct Hseq as [E1 E2]. rewrite (IH (off + s)); rewrite ?E1, ?E2; try done; lia.
Qed.

(** A handle read sequentially switches to the large read-ahead as soon as the
    sequence reaches the cutoff. *)
Theorem sequential_large_readahead flags off sizes fh :
  Forall (fun s => 0 < s) sizes -> 0 <= off -> lastReadEnd fh = off -> off + sum_sizes sizes < two64 ->
  0 <= seqReadSize fh -> seqReadSize fh + sum_sizes sizes < two64 ->
  LargeReadCutoffKB flags *u 1024 <= seqReadSize fh + sum_sizes sizes ->
  getReadAhead flags (track_reads (sequential off sizes) fh) = ReadAheadLargeKB flags *u 1024.
Proof.
  intros. unfold getReadAhead. rewrite sequential_seq by done. by destruct (Z.leb_spec (LargeReadCutoffKB flags *u 1024) (seqReadSize fh + sum_sizes sizes)); [|lia].
Qed.

Lemma sequential_large_readahead_witness :
  getReadAhead (mkReadFlags 1 8 16 4 0 2) (track_reads (sequential 0 [4096; 4096]) (NewFileHandle (mkReadFlags 1 8 16 4 0 2))) = 16 *u 1024.
Proof.
  apply (sequential_large_readahead (mkReadFlags 1 8 16 4 0 2) 0 [4096; 4096] (NewFileHandle (mkReadFlags 1 8 16 4 0 2)));
    (repeat constructor; lia) || (vm_compute; reflexivity || discriminate).
Defined.
End ReadAhead.
