(* ===== verification/MultiReader.v ===== *)
(** * The multi-buffer reader

    [core/buffer_reader.go]: an [io.ReadSeeker] over a sequence of byte slices
    and zero ranges, which is the body of every upload.  A reader refines a
    position in the concatenation of its buffers. *)

From S2P Require Import Prelude.

Module MultiReader.

(** ** Definitions *)

Record BufferOrZero := mkBZ { bz_data : list Z; bz_zero : bool; bz_size : Z }.
Record t := mk { buffers : list BufferOrZero; idx : nat; pos : Z; bufPos : Z; size : Z }.
Inductive whence := SeekStart | SeekCurrent | SeekEnd.

Definition NewMultiReader : t := mk [] 0 0 0 0.
Definition AddBuffer (buf : list Z) (r : t) : t :=
  mk (buffers r ++ [mkBZ buf false (zlen buf)]) (idx r) (pos r) (bufPos r) (size r +u zlen buf).
Definition AddZero (n : Z) (r : t) : t :=
  mk (buffers r ++ [mkBZ [] true n]) (idx r) (pos r) (bufPos r) (size r +u n).
(** What [memzero] leaves in a slice of the given length. *)
Definition memzero (n : Z) : list Z := replicate (Z.to_nat n) 0.

(** The bytes [bufPos, bufPos+l) of one buffer; the slice expression on [data] panics out of range. *)
Definition take_buffer (b : BufferOrZero) (from l : Z) : outcome (list Z) :=
  if bz_zero b then Ok (memzero l)
  else if (from <=? from +u l) && (from +u l <=? zlen (bz_data b)) then Ok (slice from (from +u l) (bz_data b))
  else Panic SliceOutOfRange.

(** The loop of [Read]: [out] is what has been written to the caller's slice. *)
Fixpoint Read_loop (fuel : nat) (remaining : Z) (out : list Z) : St t (list Z) :=
  let! r := getS in
  match buffers r !! idx r with
  | Some b =>
    if 0 <? remaining then
      match fuel with
      | O => fun _ => OutOfFuel
      | S fuel' =>
        let l := Z.min (bz_size b -u bufPos r) remaining in
        let! chunk := liftO (take_buffer b (bufPos r) l) in
        let bp := bufPos r +u l in
        let next := bz_size b <=? bp in
        modS (fun r => mk (buffers r) (if next then S (idx r) else idx r) (pos r +u l) (if next then 0 else bp) (size r)) ;;;
        Read_loop fuel' (remaining -u l) (out ++ chunk)
      end
    else ret out
  | None => ret out
  end.
(** The bytes written to a buffer of length [n], and whether the error is [io.EOF]. *)
Definition Read (n : Z) : St t (list Z * bool) :=
  let! r := getS in
  if decide (length (buffers r) <= idx r)%nat then ret ([], true)
  else
    let! out := Read_loop (S (length (buffers r))) n [] in
    ret (out, false).

Fixpoint Seek_loop (fuel : nat) (uOffset : Z) : St t unit :=
  let! r := getS in
  if pos r <? uOffset then
    match fuel with
    | O => fun _ => OutOfFuel
    | S fuel' =>
      match buffers r !! idx r with
      | None => panicS SliceOutOfRange
      | Some b =>
        let end_ := pos r +u bz_size b in
        (if end_ <=? uOffset
         then modS (fun r => mk (buffers r) (S (idx r)) end_ (bufPos r) (size r))
         else modS (fun r => mk (buffers r) (idx r) uOffset (uOffset -u pos r) (size r))) ;;;
        Seek_loop fuel' uOffset
      end
    end
  else ret tt.
Definition Seek (offset : Z) (w : whence) : St t Z :=
  let! r := getS in
  let offset := match w with
                | SeekEnd => i64 (offset + i64 (size r))
                | SeekCurrent => i64 (offset + i64 (pos r))
                | SeekStart => offset
                end in
  let offset := Z.min offset (i64 (size r)) in
  let uOffset := u64 (Z.max offset 0) in
  modS (fun r => mk (buffers r) 0 0 0 (size r)) ;;;
  Seek_loop (S (length (buffers r))) uOffset ;;;
  let! r := getS in ret (i64 (pos r)).
Definition Len (r : t) : Z := size r.

(** ** The content of a reader *)

Definition buffer_bytes (b : BufferOrZero) : list Z := if bz_zero b then replicate (Z.to_nat (bz_size b)) 0 else bz_data b.
Definition content (r : t) : list Z := flat_map buffer_bytes (buffers r).

Definition buffer_ok (b : BufferOrZero) : Prop := bz_size b = zlen (buffer_bytes b).
(** The position is the bytes of the buffers passed and the offset in the current one. *)
Record ok (r : t) : Prop := {
  ok_buffers : Forall buffer_ok (buffers r);
  ok_size : size r = zlen (content r);
  ok_small : zlen (content r) < 9223372036854775808;
  ok_pos : pos r = zlen (flat_map buffer_bytes (take (idx r) (buffers r))) + bufPos r;
  ok_idx : (idx r <= length (buffers r))%nat;
  ok_bufPos : 0 <= bufPos r;
  ok_in : match buffers r !! idx r with Some b => bufPos r = 0 \/ bufPos r < bz_size b | None => bufPos r = 0 end;
}.

Lemma buffer_ok_slice b : bz_zero b = false -> buffer_bytes b = bz_data b.
Proof. unfold buffer_bytes. by intros ->. Qed.

Lemma content_split (bs : list BufferOrZero) i b :
  bs !! i = Some b -> flat_map buffer_bytes bs = flat_map buffer_bytes (take i bs) ++ buffer_bytes b ++ flat_map buffer_bytes (drop (S i) bs).
Proof. intros E. rewrite <- (take_drop_middle bs i b E) at 1. by rewrite flat_map_app. Qed.

Lemma take_next (bs : list BufferOrZero) i b :
  bs !! i = Some b -> flat_map buffer_bytes (take (S i) bs) = flat_map buffer_bytes (take i bs) ++ buffer_bytes b.
Proof. intros E. rewrite (take_S_r bs i b E), flat_map_app. cbn. by rewrite app_nil_r. Qed.

Lemma take_buffer_ok b from l :
  buffer_ok b -> 0 <= from -> 0 <= l -> from + l <= bz_size b -> bz_size b < two64 ->
  take_buffer b from l = Ok (slice from (from + l) (buffer_bytes b)).
Proof.
  unfold buffer_ok, take_buffer, buffer_bytes. intros Hb Hf Hl Hle Hs. destruct (bz_zero b).
  - f_equal. apply znth_ext; unfold memzero; rewrite ?zlen_replicate, ?zlen_slice; rewrite ?zlen_replicate; try lia.
    intros i Hi. rewrite znth_slice by lia. rewrite !znth_replicate by lia. done.
  - u64s. rewrite (proj2 (Z.leb_le from (from + l))), (proj2 (Z.leb_le (from + l) (zlen (bz_data b)))) by lia. done.
Qed.
Lemma slice_middle (pre m post : list Z) i j :
  0 <= i <= j -> j <= zlen m -> slice (zlen pre + i) (zlen pre + j) (pre ++ m ++ post) = slice i j m.
Proof.
  intros. pose proof (zlen_nonneg pre). pose proof (zlen_nonneg post). apply znth_ext; [rewrite !zlen_slice; rewrite ?zlen_app; lia|].
  intros x. rewrite zlen_slice by (rewrite ?zlen_app; lia). intros Hx.
  rewrite !znth_slice by (rewrite ?zlen_app; lia). rewrite znth_app_r by lia.
  rewrite znth_app_l by lia. f_equal. lia.
Qed.

(** ** Reading *)

(** The state after [l] bytes of the current buffer. *)
Definition advance (b : BufferOrZero) (l : Z) (r : t) : t :=
  if bz_size b <=? bufPos r + l then mk (buffers r) (S (idx r)) (pos r + l) 0 (size r)
  else mk (buffers r) (idx r) (pos r + l) (bufPos r + l) (size r).

Lemma current_bounds r b :
  ok r -> buffers r !! idx r = Some b ->
  buffer_ok b /\ 0 <= bufPos r <= bz_size b /\ 0 <= pos r - bufPos r /\ pos r - bufPos r + bz_size b <= size r.
Proof.
  intros Hok Eb. pose proof (ok_in _ Hok) as Hin. rewrite Eb in Hin.
  assert (Hb : buffer_ok b) by (by eapply Forall_lookup_1; [apply Hok|]).
  pose proof (content_split _ _ _ Eb) as Hc. rewrite (ok_size _ Hok), (ok_pos _ Hok). unfold content. rewrite Hc, !zlen_app, <- Hb.
  pose proof (ok_bufPos _ Hok). pose proof (zlen_nonneg (flat_map buffer_bytes (take (idx r) (buffers r)))).
  pose proof (zlen_nonneg (flat_map buffer_bytes (drop (S (idx r)) (buffers r)))). pose proof (zlen_nonneg (buffer_bytes b)).
  unfold buffer_ok in Hb. split_and!; try done; lia.
Qed.

Lemma advance_ok r b l :
  ok r -> buffers r !! idx r = Some b -> 0 <= l -> bufPos r + l <= bz_size b -> ok (advance b l r).
Proof.
  intros Hok Eb Hl Hle. destruct (current_bounds r b Hok Eb) as (Hb & ? & ? & ?). pose proof Hok as [? ? ? Hpos Hidx ? ?]. unfold advance.
  destruct (Z.leb_spec (bz_size b) (bufPos r + l)); split; cbn; try done; try lia.
  - rewrite (take_next _ _ _ Eb), zlen_app, <- Hb. lia.
  - apply lookup_lt_Some in Eb. lia.
  - destruct (buffers r !! S (idx r)); [by left|done].
  - rewrite Eb. right. lia.
Qed.

Lemma advance_bytes r b l :
  ok r -> buffers r !! idx r = Some b -> 0 <= l -> bufPos r + l <= bz_size b ->
  slice (bufPos r) (bufPos r + l) (buffer_bytes b) = slice (pos r) (pos r + l) (content r).
Proof.
  intros Hok Eb Hl Hle. destruct (current_bounds r b Hok Eb) as (Hb & ? & ? & ?). unfold content. rewrite (content_split _ _ _ Eb).
  rewrite (ok_pos _ Hok), <- Z.add_assoc. rewrite slice_middle; [done|lia|]. by rewrite <- Hb.
Qed.

Lemma at_end r : ok r -> buffers r !! idx r = None -> pos r = size r.
Proof.
  intros Hok E. pose proof (ok_in _ Hok) as Hin. rewrite E in Hin. apply lookup_ge_None_1 in E.
  rewrite (ok_pos _ Hok), (ok_size _ Hok), take_ge, Hin by done. unfold content. lia.
Qed.

Lemma pos_range r : ok r -> 0 <= pos r <= size r /\ size r < 9223372036854775808.
Proof.
  intros Hok. split; [|rewrite (ok_size _ Hok); apply Hok]. destruct (buffers r !! idx r) as [b|] eqn:E.
  - destruct (current_bounds r b Hok E) as (? & ? & ? & ?). lia.
  - rewrite (at_end r Hok E), (ok_size _ Hok). pose proof (zlen_nonneg (content r)). lia.
Qed.

Lemma Read_loop_spec fuel : forall rem out r,
  ok r -> 0 <= rem < two64 -> (length (buffers r) - idx r < fuel)%nat ->
  wp (Read_loop fuel rem out) (fun out' r' =>
    ok r' /\ buffers r' = buffers r /\ pos r' = Z.min (pos r + rem) (size r) /\ size r' = size r /\
    (pos r' = pos r + rem \/ buffers r' !! idx r' = None) /\
    out' = out ++ slice (pos r) (pos r') (content r)) r.
Proof.
  induction fuel as [|fuel IH]; intros rem out r Hok Hrem Hf; [lia|]. pose proof (pos_range r Hok). cbn [Read_loop]. wp_steps.
  destruct (buffers r !! idx r) as [b|] eqn:Eb; [|pose proof (at_end r Hok Eb); wp_steps; split_and!; try done; [lia|by right|by rewrite slice_empty, app_nil_r]].
  destruct (Z.ltb_spec 0 rem); [|wp_steps; split_and!; try done; [lia|left; lia|by rewrite slice_empty, app_nil_r]].
  destruct (current_bounds r b Hok Eb) as (Hb & ? & ? & ?). u64s. set (l := Z.min (bz_size b - bufPos r) rem).
  assert (0 <= l /\ l <= rem /\ bufPos r + l <= bz_size b /\ (l = rem \/ bufPos r + l = bz_size b)) as (? & ? & ? & ?) by (subst l; lia). clearbody l.
  rewrite take_buffer_ok by (done || lia). wp_steps. eapply wp_liftO; [done|]. wp_steps. rewrite ?(u64_small (bufPos r + l)), ?(u64_small (pos r + l)), ?(u64_small (rem - l)) by lia.
  assert (Hl : advance b l r = mk (buffers r) (if bz_size b <=? bufPos r + l then S (idx r) else idx r) (pos r + l)
                 (if bz_size b <=? bufPos r + l then 0 else bufPos r + l) (size r)) by (unfold advance; by destruct (_ <=? _)).
  rewrite <- Hl. pose proof (advance_ok r b l Hok Eb ltac:(lia) ltac:(lia)) as Hok'.
  assert (Hsame : buffers (advance b l r) = buffers r /\ size (advance b l r) = size r /\ pos (advance b l r) = pos r + l) by by rewrite Hl.
  destruct Hsame as (Es & Ez & Ep). pose proof (pos_range _ Hok'). rewrite (advance_bytes r b l Hok Eb) by lia.
  destruct (decide (bz_size b <= bufPos r + l)) as [Hn|Hn].
  - wp_use (IH (rem - l) (out ++ slice (pos r) (pos r + l) (content r)) (advance b l r) Hok'); [lia| |].
    { rewrite Es, Hl. cbn. destruct (Z.leb_spec (bz_size b) (bufPos r + l)); [|lia]. apply lookup_lt_Some in Eb. lia. }
    intros out' r' (? & Eb' & Ep' & Ez' & Hend & ->). rewrite Ep in *. split_and!; try congruence; [lia|destruct Hend; [left; lia|by right]|].
    unfold content in *. rewrite Es, <- app_assoc, slice_app_adj; [done|lia|lia|]. rewrite (ok_size _ Hok) in *. unfold content in *. lia.
  - (* the caller's slice is full *)
    replace (rem - l) with 0 by lia. assert (Hstop : Read_loop fuel 0 (out ++ slice (pos r) (pos r + l) (content r)) (advance b l r)
        = Ok (out ++ slice (pos r) (pos r + l) (content r), advance b l r)) by (destruct fuel; cbn [Read_loop]; unfold bind, getS; by destruct (buffers (advance b l r) !! idx (advance b l r))).
    eapply wp_of_run; [exact Hstop|]. rewrite Ep. split_and!; try done; [lia|left; lia].
Qed.
Lemma Read_spec n r :
  ok r -> 0 <= n < two64 ->
  wp (Read n) (fun '(out, eof) r' =>
    ok r' /\ buffers r' = buffers r /\ size r' = size r /\ pos r' = Z.min (pos r + n) (size r) /\
    out = slice (pos r) (pos r') (content r) /\
    (eof = true <-> buffers r !! idx r = None) /\
    (pos r' = pos r + n \/ buffers r' !! idx r' = None)) r.
Proof.
  intros Hok Hn. pose proof (pos_range r Hok). unfold Read. wp_steps. destruct (decide _) as [Hd|Hd].
  - assert (Eb : buffers r !! idx r = None) by (apply lookup_ge_None_2; lia).
    pose proof (at_end r Hok Eb). wp_steps. split_and!; try done; [lia|by rewrite slice_empty|by right].
  - apply wp_bind. wp_use (Read_loop_spec (S (length (buffers r))) n [] r Hok Hn); [lia|]. intros out r' (? & ? & ? & ? & ? & ->). wp_steps.
    split_and!; try done. split; [done|]. intros E%lookup_ge_None_1. lia.
Qed.

(** ** Seeking *)

Lemma Seek_loop_spec fuel u : forall r,
  ok r -> bufPos r = 0 -> pos r <= u <= size r -> (length (buffers r) - idx r < fuel)%nat ->
  wp (Seek_loop fuel u) (fun _ r' => ok r' /\ pos r' = u /\ buffers r' = buffers r /\ size r' = size r) r.
Proof.
  induction fuel as [|fuel IH]; intros r Hok Hbp Hu Hf; [lia|]. pose proof (pos_range r Hok). cbn [Seek_loop]. wp_steps.
  destruct (Z.ltb_spec (pos r) u); [|wp_steps; split_and!; (done || lia)].
  destruct (buffers r !! idx r) as [b|] eqn:Eb; [|pose proof (at_end r Hok Eb); lia].
  destruct (current_bounds r b Hok Eb) as (Hb & ? & ? & ?). u64s. destruct (Z.leb_spec (pos r + bz_size b) u).
  - wp_steps. set (r1 := mk _ _ _ _ _).
    assert (Ha : r1 = advance b (bz_size b) r) by (unfold r1, advance; rewrite Hbp; by destruct (Z.leb_spec (bz_size b) (0 + bz_size b)); [|lia]).
    rewrite Ha. wp_use (IH (advance b (bz_size b) r)).
    + apply advance_ok; (done || lia).
    + by rewrite <- Ha.
    + rewrite <- Ha. cbn. lia.
    + rewrite <- Ha. cbn. apply lookup_lt_Some in Eb. lia.
    + rewrite <- Ha. done.
  - wp_steps. rewrite (u64_small (u - pos r)) by lia. set (r1 := mk _ _ _ _ _).
    assert (Ha : r1 = advance b (u - pos r) r) by (unfold r1, advance; destruct (Z.leb_spec (bz_size b) (bufPos r + (u - pos r))); [lia|f_equal; lia]).
    assert (Hok' : ok r1) by (rewrite Ha; apply advance_ok; (done || lia)).
    eapply (wp_of_run _ _ _ tt r1); [|by split_and!].
    destruct fuel; cbn [Seek_loop]; unfold bind, getS; cbn; by rewrite Z.ltb_irrefl.
Qed.

Lemma rewound_ok r : ok r -> ok (mk (buffers r) 0 0 0 (size r)).
Proof. intros [? ? ? ? ? ? ?]. split; cbn; try done; [lia|]. destruct (buffers r); [done|by left]. Qed.

(** Where a seek is supposed to land. *)
Definition seek_target (offset : Z) (w : whence) (r : t) : Z :=
  Z.max 0 (Z.min (size r) (offset + match w with SeekStart => 0 | SeekCurrent => pos r | SeekEnd => size r end)).

Lemma Seek_spec offset w r :
  ok r -> -9223372036854775808 <= offset -> offset + size r < 9223372036854775808 ->
  wp (Seek offset w) (fun n r' => n = seek_target offset w r /\ ok r' /\ pos r' = n /\ buffers r' = buffers r /\ size r' = size r) r.
Proof.
  intros Hok Hlo Hhi. pose proof (pos_range r Hok) as [? ?]. unfold Seek. wp_steps.
  rewrite !(i64_small (size r)), (i64_small (pos r)) by lia. rewrite (i64_small (offset + size r)), (i64_small (offset + pos r)) by lia.
  set (off := match w with SeekEnd => _ | SeekCurrent => _ | SeekStart => _ end).
  assert (Ht : seek_target offset w r = Z.max (Z.min off (size r)) 0) by (unfold seek_target, off; destruct w; lia).
  rewrite <- Ht. assert (0 <= seek_target offset w r <= size r) by (unfold seek_target; lia). u64s.
  wp_use (Seek_loop_spec (S (length (buffers r))) (seek_target offset w r) (mk (buffers r) 0 0 0 (size r)) (rewound_ok r Hok)); [done|cbn; lia|cbn; lia|].
  intros _ r' (? & Ep & Eb & Es). cbn in Eb, Es. wp_steps. rewrite Ep, i64_small by lia. done.
Qed.
(** ** Building a reader *)

Lemma AddBuffer_content buf r : content (AddBuffer buf r) = content r ++ buf.
Proof. unfold content, AddBuffer. cbn. rewrite flat_map_app. cbn. by rewrite app_nil_r. Qed.
Lemma AddZero_content n r : content (AddZero n r) = content r ++ replicate (Z.to_nat n) 0.
Proof. unfold content, AddZero. cbn. rewrite flat_map_app. cbn. by rewrite app_nil_r. Qed.

Lemma add_ok r b :
  ok r -> buffer_ok b -> zlen (content r) + bz_size b < 9223372036854775808 -> (idx r < length (buffers r))%nat \/ pos r = 0 /\ idx r = O ->
  ok (mk (buffers r ++ [b]) (idx r) (pos r) (bufPos r) (size r +u bz_size b)).
Proof.
  intros [Hbs Hsz ? Hpos Hidx ? Hin] Hb Hsmall Hcase. pose proof (zlen_nonneg (content r)). pose proof (zlen_nonneg (buffer_bytes b)). unfold buffer_ok in Hb.
  assert (Hc : zlen (flat_map buffer_bytes (buffers r ++ [b])) = zlen (content r) + bz_size b).
  { rewrite flat_map_app, zlen_app, Hb. cbn. by rewrite app_nil_r. }
  split; unfold content in *; cbn; rewrite ?Hc, ?length_app; try lia.
  - apply Forall_app. by repeat constructor.
  - u64s. lia.
  - rewrite take_app_le by lia. lia.
  - destruct Hcase as [Hlt|[Hp Hi]]; [by rewrite lookup_app_l by lia|].
    rewrite Hi in *. rewrite take_0 in Hpos. cbn in Hpos. destruct (buffers r); cbn in *; left; unfold zlen in *; cbn in *; lia.
Qed.

Lemma new_ok : ok NewMultiReader.
Proof. by split; cbn. Qed.

(** A reader over a list of slices, as [getMultiReader] builds it. *)
Definition of_slices (data : list (list Z)) : t := fold_left (fun r buf => AddBuffer buf r) data NewMultiReader.

Lemma of_slices_from data : forall r,
  ok r -> pos r = 0 -> idx r = O -> zlen (content r) + zlen (concat data) < 9223372036854775808 ->
  let r' := fold_left (fun r buf => AddBuffer buf r) data r in
  ok r' /\ content r' = content r ++ concat data /\ pos r' = 0.
Proof.
  induction data as [|buf data IH]; intros r Hok Hp Hi Hb; cbn in *; [by rewrite app_nil_r|].
  rewrite zlen_app in Hb. pose proof (zlen_nonneg (concat data)).
  destruct (IH (AddBuffer buf r)) as (? & E & ?); try done.
  - apply (add_ok r (mkBZ buf false (zlen buf))); [done|done|cbn; lia|auto].
  - rewrite AddBuffer_content, zlen_app. lia.
  - rewrite E, AddBuffer_content, <- app_assoc. done.
Qed.

Lemma of_slices_ok data :
  zlen (concat data) < 9223372036854775808 -> ok (of_slices data) /\ content (of_slices data) = concat data /\ pos (of_slices data) = 0.
Proof. intros Hb. by apply (of_slices_from data NewMultiReader new_ok). Qed.

(** ** Properties *)

(** [Read] returns exactly the next bytes of the concatenated buffers - as
    many as asked for unless the end is reached, zero ranges included -
    advances the position by as many, and reports the end of file exactly
    when no buffer is left.  No slice expression panics. *)
Theorem Read_returns_next n r :
  ok r -> 0 <= n < two64 ->
  exists out eof r', Read n r = Ok ((out, eof), r') /\ ok r' /\ content r' = content r /\
    out = slice (pos r) (Z.min (pos r + n) (size r)) (content r) /\ pos r' = Z.min (pos r + n) (size r) /\
    (eof = true <-> buffers r !! idx r = None).
Proof.
  intros Hok Hn. destruct (wp_run _ _ _ (Read_spec n r Hok Hn)) as ([out eof] & r' & E & ? & Eb & ? & Ep & ? & ? & _).
  exists out, eof, r'. unfold content in *. rewrite Eb. split_and!; try done. by rewrite <- Ep.
Qed.

Definition ex_reader : t := AddBuffer [4; 5] (AddZero 3 (AddBuffer [1; 2; 3] NewMultiReader)).
Lemma ex_reader_ok : ok ex_reader.
Proof. split; cbn; try done; [repeat constructor|lia|by left]. Qed.

Lemma Read_returns_next_witness :
  exists out eof r', Read 5 ex_reader = Ok ((out, eof), r') /\ ok r' /\ content r' = content ex_reader /\
    out = slice (pos ex_reader) (Z.min (pos ex_reader + 5) (size ex_reader)) (content ex_reader) /\
    pos r' = Z.min (pos ex_reader + 5) (size ex_reader) /\
    (eof = true <-> buffers ex_reader !! idx ex_reader = None).
Proof. apply (Read_returns_next 5 ex_reader ex_reader_ok). lia. Defined.

(** [Seek] lands on the requested position, relative to the start, the
    current position or the end, clamped to the content, and finds the buffer
    that holds it without running past the last one. *)
Theorem Seek_lands offset w r :
  ok r -> -9223372036854775808 <= offset -> offset + size r < 9223372036854775808 ->
  exists r', Seek offset w r = Ok (seek_target offset w r, r') /\ ok r' /\ pos r' = seek_target offset w r /\ content r' = content r.
Proof.
  intros Hok Hlo Hhi. destruct (wp_run _ _ _ (Seek_spec offset w r Hok Hlo Hhi)) as (n & r' & E & -> & ? & ? & Eb & _).
  exists r'. unfold content. by rewrite Eb.
Qed.

Lemma Seek_lands_witness :
  exists r', Seek (-4) SeekEnd ex_reader = Ok (4, r') /\ ok r' /\ pos r' = 4 /\ content r' = content ex_reader.
Proof. apply (Seek_lands (-4) SeekEnd ex_reader ex_reader_ok); done. Defined.

(** Sending a body: read [n] bytes at a time until the end of file. *)
Fixpoint read_all (fuel : nat) (n : Z) (sent : list Z) : St t (list Z) :=
  let! '(out, eof) := Read n in
  if eof then ret sent
  else match fuel with
       | O => fun _ => OutOfFuel
       | S fuel' => read_all fuel' n (sent ++ out)
       end.

(** Reads left until the end of file. *)
Definition reads_left (r : t) : Z := size r - pos r + ind (bool_decide (is_Some (buffers r !! idx r))).

Lemma read_all_spec fuel n : forall r sent,
  ok r -> 0 < n < two64 -> reads_left r <= Z.of_nat fuel ->
  wp (read_all fuel n sent) (fun body _ => body = sent ++ slice (pos r) (size r) (content r)) r.
Proof.
  induction fuel as [|fuel IH]; intros r sent Hok Hn Hf; cbn [read_all]; apply wp_bind; wp_use (Read_spec n r Hok); try lia;
    intros [out eof] r' (Hok' & Eb & Es & Ep & -> & Heof & Hprog); pose proof (pos_range r Hok); pose proof (pos_range r' Hok');
    unfold reads_left in *; pose proof (ind_nonneg (bool_decide (is_Some (buffers r' !! idx r')))).
  all: destruct eof; [wp_steps; rewrite (at_end r Hok (proj1 Heof eq_refl)), slice_empty; by rewrite app_nil_r|].
  all: assert (Hsome : is_Some (buffers r !! idx r)) by (destruct (buffers r !! idx r); [eauto|naive_solver]);
    rewrite (bool_decide_true _ Hsome) in Hf; cbn in Hf; try lia.
  wp_use (IH r' _ Hok' Hn).
  - rewrite Es, Ep. destruct Hprog as [Hp|Hnone]; [unfold ind; destruct (bool_decide _); lia|]. rewrite Hnone, bool_decide_false by by intros [? [=]]. cbn. lia.
  - intros body ? ->. unfold content. rewrite Eb, Es, <- app_assoc, slice_app_adj; [done|lia|lia|].
    rewrite (ok_size _ Hok) in *. unfold content in *. lia.
Qed.

(** C33: An upload body is sent whole: whatever chunk size the transport uses, and
    however much of the body an earlier attempt consumed, rewinding the
    reader and reading until the end of file yields the concatenation of the
    slices, in boundedly many reads. *)
Theorem body_sent_whole data n read_before :
  zlen (concat data) < 9223372036854775808 -> 0 < n < two64 -> 0 <= read_before < two64 ->
  exists r, (Read read_before ;;; Seek 0 SeekStart ;;; read_all (S (length (concat data))) n []) (of_slices data) = Ok (concat data, r).
Proof.
  intros Hb Hn Hr. destruct (of_slices_ok data Hb) as (Hok & Ec & Ep).
  destruct (wp_run (Read read_before ;;; Seek 0 SeekStart ;;; read_all (S (length (concat data))) n [])
    (fun body _ => body = concat data) (of_slices data)) as (body & r & E & ->); [|by exists r].
  apply wp_bind. wp_use (Read_spec read_before _ Hok Hr). intros [? ?] r1 (Hok1 & Eb1 & Es1 & _).
  apply wp_bind. pose proof (pos_range r1 Hok1). wp_use (Seek_spec 0 SeekStart r1 Hok1); try lia.
  intros p r2 (-> & Hok2 & Ep2 & Eb2 & Es2). assert (Ec2 : content r2 = concat data) by (unfold content in *; congruence).
  assert (Hz : seek_target 0 SeekStart r1 = 0) by (unfold seek_target; lia). rewrite Hz in Ep2.
  assert (Hs2 : size r2 = zlen (concat data)) by (by rewrite (ok_size _ Hok2), Ec2).
  wp_use (read_all_spec (S (length (concat data))) n r2 [] Hok2 Hn).
  - unfold reads_left. rewrite Hs2, Ep2. unfold zlen, ind. destruct (bool_decide _); lia.
  - intros body ? ->. rewrite Ep2, Ec2, Hs2. apply slice_full.
Qed.

Lemma body_sent_whole_witness :
  exists r, (Read 3 ;;; Seek 0 SeekStart ;;; read_all 6 2 []) (of_slices [[1; 2]; []; [3; 4; 5]]) = Ok ([1; 2; 3; 4; 5], r).
Proof. apply (body_sent_whole [[1; 2]; []; [3; 4; 5]] 2 3); done. Defined.
End MultiReader.
