(* ===== verification/Pool.v ===== *)
(** * The memory pool and the eviction of clean buffers

    [BufferPool] is the memory counter of [core/buffer_pool.go] that every file
    charges.  [CleanBuffers] is the file system behind it: many files with one
    queue of clean buffers, [FreeSomeCleanBuffers] of [core/goofys.go], which
    evicts buffers that are neither modified nor locked and then waits for the
    flusher, and [Use], which calls it.  The invariant of every file is kept by
    operations on any other. *)

From S2P Require Import Prelude BTree Parts BufferList BufferListInv BufferListView BufferListRemove.
From S2P Require Import BufferListAdd BufferListRead BufferListState BufferListSpec Queues Locks.

(** ** Loops with enough fuel

    With enough fuel the model ends in one state, whatever the fuel. *)

Definition settles {S A} (m : nat -> St S A) (P : A -> S -> Prop) (s : S) : Prop :=
  exists fuel0 a s', (forall fuel, (fuel0 <= fuel)%nat -> m fuel s = Ok (a, s')) /\ P a s'.

Section settles.
Context {S A : Type}.
Lemma settles_wp (m : St S A) P s : wp m P s -> settles (fun _ => m) P s.
Proof. intros (a & s' & E & H)%wp_run. exists 0%nat, a, s'. by split. Qed.
Lemma settles_mono (m : nat -> St S A) (P R : A -> S -> Prop) s : settles m P s -> (forall a s', P a s' -> R a s') -> settles m R s.
Proof. intros (n & a & s' & E & H) HR. exists n, a, s'. auto. Qed.
Lemma settles_ext (m m' : nat -> St S A) P s : (forall fuel, m fuel s = m' fuel s) -> settles m' P s -> settles m P s.
Proof. intros Em (n & a & s' & E & H). exists n, a, s'. split; [|done]. intros fuel Hf. by rewrite Em, E. Qed.
Lemma settles_S (m : nat -> St S A) P s : settles (fun fuel => m (Datatypes.S fuel)) P s -> settles m P s.
Proof. intros (n & a & s' & E & H). exists (Datatypes.S n), a, s'. split; [|done]. intros [|fuel] Hf; [lia|]. apply E. lia. Qed.
Lemma settles_bind {B} (m : nat -> St S B) (k : nat -> B -> St S A) (P : B -> S -> Prop) (R : A -> S -> Prop) s :
  settles m P s -> (forall b s', P b s' -> settles (fun fuel => k fuel b) R s') -> settles (fun fuel => bind (m fuel) (k fuel)) R s.
Proof.
  intros (n & b & s1 & E & H) Hk. destruct (Hk b s1 H) as (n' & a & s2 & E' & H'). exists (Nat.max n n'), a, s2. split; [|done].
  intros fuel Hf. unfold bind. rewrite E by lia. apply E'. lia.
Qed.
End settles.

(** ** The counter *)

Module BufferPool.
Record t := mk { cur : Z; max : Z; requested : Z; gcPrev : Z; gcInterval : Z }.
Definition with_cur (c : Z) (p : t) : t := mk c (max p) (requested p) (gcPrev p) (gcInterval p).
Definition add_cur (n : Z) (p : t) : t := with_cur (i64 (cur p + n)) p.
(** A request is counted; now and then memory is returned to the operating system, which leaves the state alone. *)
Definition request (size : Z) (p : t) : t :=
  let req := requested p +u size in
  mk (cur p) (max p) req (if (0 <? gcInterval p) && (gcInterval p <=? req -u gcPrev p) then req else gcPrev p) (gcInterval p).
End BufferPool.

(** ** Files sharing the clean queue *)

Module CleanBuffers.
Import BufferList BufferListInv BufferListView BufferListState BufferListSpec Locks.

Section files.
Context {M : Type -> Type} `{HBT : BTreeMap M} `{HBL : !BTreeMapLaws M} (ps : list PartSizeConfig).
Abbreviation Q := (BufferQueue.t M).
Abbreviation limit := (getMaxFileSize ps).

(** The buffer lists of the inodes, with the one queue they share; the list a
    file is stored with has a stale copy of the queue, which [on_file] replaces. *)
Record fs := mkFS {
  fs_queue : Q;
  fs_files : gmap Z (bl M Q);
  fs_locks : gmap Z (list ReadRange);
  fs_pool : BufferPool.t;
  fs_inodes : InodeQueue.t M;  (* inodeQueue: the inodes to flush *)
  fs_wantFree : Z;
}.
Abbreviation cur s := (BufferPool.cur (fs_pool s)).
Abbreviation max s := (BufferPool.max (fs_pool s)).
Definition modP (f : BufferPool.t -> BufferPool.t) : St fs unit :=
  modS (fun s => mkFS (fs_queue s) (fs_files s) (fs_locks s) (f (fs_pool s)) (fs_inodes s) (fs_wantFree s)).
Definition add_wantFree (n : Z) (s : fs) : fs := mkFS (fs_queue s) (fs_files s) (fs_locks s) (fs_pool s) (fs_inodes s) (fs_wantFree s + n).

(** Run an operation on the buffers of inode [i]. *)
Definition on_file {A} (i : Z) (m : St (bl M Q) A) : St fs A := fun s =>
  match fs_files s !! i with
  | None => Panic NilDereference
  | Some l =>
    match m (set_helpers (fs_queue s) l) with
    | Ok (a, l') => Ok (a, mkFS (l_helpers l') (<[i := l']> (fs_files s)) (fs_locks s) (fs_pool s) (fs_inodes s) (fs_wantFree s))
    | Panic p => Panic p
    | OutOfFuel => OutOfFuel
    end
  end.

Definition locks_of (s : fs) (i : Z) : list ReadRange := default [] (fs_locks s !! i).

(** Evicting from inode [i]: the helpers are those of the inode. *)
Definition evict_on (i cleanEnd : Z) (toDisk : bool) : St fs Z :=
  let! s := getS in
  let locked := match fs_files s !! i with
                | Some l => match Get cleanEnd l with
                            | Some b => IsRangeLocked (b_offset b) (b_len b) false (locks_of s i)
                            | None => false
                            end
                | None => false
                end in
  on_file i (evictClean (H0 := inode_helpers ps i) cleanEnd locked toDisk).

(** The loop; [toDisk i e] tells whether the disk cache takes the buffer. *)
Fixpoint evict_loop (fuel : nat) (toDisk : Z -> Z -> bool) (size freed cleanQueueID : Z) : St fs Z :=
  if freed <? size then
    match fuel with
    | O => fun _ => OutOfFuel
    | S fuel' =>
      let! s := getS in
      let '(inode, cleanEnd, next) := BufferQueue.NextClean cleanQueueID (fs_queue s) in
      if next =? 0 then ret freed
      else
        let! allocated := evict_on inode cleanEnd (toDisk inode cleanEnd) in
        (if allocated =? 0 then ret tt
         else modP (BufferPool.add_cur allocated)) ;;;  (* UseUnlocked of a negative size *)
        evict_loop fuel' toDisk size (freed - allocated) next
    end
  else ret freed.

(** The call, which releases the lock of the pool while it waits for the
    flusher.  [wakeups] tells, for each wait to come, what the flusher and all
    others have done to the file system when the call wakes up; the result is
    [None] while the call still waits, and the wakeups left over. *)
Definition FreeSomeCleanBuffers (fuel : nat) (toDisk : Z -> Z -> bool) (wakeups : list (fs -> fs)) (origSize : Z) : St fs (option (Z * bool) * list (fs -> fs)) :=
  let! freed := evict_loop fuel toDisk (Z.max origSize (5 * 1024 * 1024)) 0 0 in
  let! s := getS in
  let haveDirty := 0 <? InodeQueue.Size (fs_inodes s) in
  if (freed <? origSize) && haveDirty then
    modS (add_wantFree 1) ;;;
    match wakeups with
    | [] => ret (None, [])
    | wakeup :: wakeups' =>
      modS wakeup ;;;
      modS (add_wantFree (-1)) ;;;
      ret (Some (freed, haveDirty), wakeups')
    end
  else ret (Some (freed, haveDirty), wakeups).

Inductive use_result := Granted | NoMemory | Waiting.

(** The loop of [UseUnlocked]: true when it has ended, false when it waits. *)
Fixpoint free_loop (fuel : nat) (toDisk : Z -> Z -> bool) (wakeups : list (fs -> fs)) (ignoreMemoryLimit canFreeMoreAsync : bool) : St fs bool :=
  let! s := getS in
  if (max s <? cur s) && canFreeMoreAsync && negb ignoreMemoryLimit then
    match fuel with
    | O => fun _ => OutOfFuel
    | S fuel' =>
      let! '(r, wakeups') := FreeSomeCleanBuffers fuel' toDisk wakeups (i64 (cur s - max s)) in
      match r with
      | None => ret false
      | Some (_, can) => free_loop fuel' toDisk wakeups' ignoreMemoryLimit can
      end
    end
  else ret true.

Definition UseUnlocked (fuel : nat) (toDisk : Z -> Z -> bool) (wakeups : list (fs -> fs)) (size : Z) (ignoreMemoryLimit : bool) : St fs use_result :=
  (if 0 <? size then modP (BufferPool.request size) else ret tt) ;;;
  modP (BufferPool.add_cur size) ;;;
  let! s := getS in
  if (0 <? size) && (max s <? cur s) then
    let! '(r, wakeups') := FreeSomeCleanBuffers fuel toDisk wakeups (i64 (cur s - max s)) in
    match r with
    | None => ret Waiting
    | Some (_, can) =>
      let! done := free_loop fuel toDisk wakeups' ignoreMemoryLimit can in
      if negb done then ret Waiting
      else
        let! s := getS in
        if (max s <? cur s) && negb ignoreMemoryLimit then modP (BufferPool.add_cur (- size)) ;;; ret NoMemory
        else ret Granted
    end
  else ret Granted.
Definition Use (fuel : nat) (toDisk : Z -> Z -> bool) (wakeups : list (fs -> fs)) (size : Z) (ignoreMemoryLimit : bool) : St fs use_result :=
  if size <=? 0 then modP (BufferPool.add_cur size) ;;; ret Granted else UseUnlocked fuel toDisk wakeups size ignoreMemoryLimit.

(** *** Invariant *)

Context (Hps : table_ok ps).
Abbreviation file_laws := (fun i => inode_helpers_laws ps i Hps).
Definition FileInv (i : Z) (l : bl M Q) : Prop := @Inv M HBT Q (inode_helpers ps i) limit (inode_helpers_laws ps i Hps) l.

Record FInv (s : fs) : Prop := {
  fi_queue : clean_queue_ok (fs_queue s);
  fi_files : forall i l, fs_files s !! i = Some l -> FileInv i (set_helpers (fs_queue s) l);
  fi_known : forall i, fs_files s !! i = None -> BufferQueue.view i (fs_queue s) = ∅;
}.

(** The laws of the helpers again, strengthened to leave the queue entries of other inodes alone. *)
Definition framed (i : Z) (q0 q : Q) : Prop := clean_queue_ok q /\ forall j, j <> i -> BufferQueue.view j q = BufferQueue.view j q0.
Definition framed_laws (i : Z) (q0 : Q) : @BufferListHelpersLaws Q (inode_helpers ps i) limit.
Proof using HBL Hps.
  refine (@Build_BufferListHelpersLaws _ (inode_helpers ps i) _ (table_PartNumbering ps Hps) (BufferQueue.view i) (framed i q0) _ _).
  - intros b q [[Hok Hc] Hfr]. exists (BufferQueue.curQueueID q + 1), (BufferQueue.Add i b q).2.
    split; [done|]. split_and!.
    + by rewrite BufferQueue.view_lookup, BufferQueue.ok_fresh by (done || lia).
    + rewrite BufferQueue.Add_view by done. by rewrite Z.eqb_refl.
    + split; [by apply BufferQueue.Add_ok|]. intros j Hj. rewrite BufferQueue.Add_view by done.
      destruct (Z.eqb_spec i j); [congruence|]. by apply Hfr.
  - intros b q e [[Hok Hc] Hfr] Hv. split; [apply BufferQueue.Delete_view|].
    split; [split; [by apply BufferQueue.Delete_ok|done]|]. intros j Hj. cbn. rewrite BufferQueue.Delete_view, <- Hfr by done.
    apply delete_id. rewrite BufferQueue.view_lookup in *. destruct (bt_map _ !! _); [|done]. destruct (Z.eqb_spec (BufferQueue.qb_inode q1) i); [|done].
    destruct (Z.eqb_spec (BufferQueue.qb_inode q1) j); congruence.
Defined.
Definition FramedInv (i : Z) (q0 : Q) (l : bl M Q) : Prop := @Inv M HBT Q (inode_helpers ps i) limit (framed_laws i q0) l.

Lemma FramedInv_iff i q0 l :
  FramedInv i q0 l <-> FileInv i l /\ forall j, j <> i -> BufferQueue.view j (l_helpers l) = BufferQueue.view j q0.
Proof using Type.
  split.
  - intros [HS [HU HP [Hq Hv]] HH HPl HI]. split; [|apply Hq]. split; [done| |done..]. split; [done|done|]. split; [apply Hq|done].
  - intros [[HS [HU HP [Hq Hv]] HH HPl HI] Hfr]. split; [done| |done..]. split; [done|done|]. split; [by split; [apply Hq|]|done].
Qed.

(** Frame rule: an operation that keeps the invariant of its own file keeps that of all files. *)
Lemma on_file_spec {A} i (m : St (bl M Q) A) (P : A -> bl M Q -> Prop) s l :
  FInv s -> fs_files s !! i = Some l ->
  wp m (fun a l' => FramedInv i (fs_queue s) l' /\ P a l') (set_helpers (fs_queue s) l) ->
  wp (on_file i m) (fun a s' => FInv s' /\ exists l', P a l' /\ s' = mkFS (l_helpers l') (<[i := l']> (fs_files s)) (fs_locks s) (fs_pool s) (fs_inodes s) (fs_wantFree s)) s.
Proof using HBL.
  intros [Hq Hf Hu] Hl Hw. unfold wp, on_file in *. rewrite Hl. destruct (m _) as [[a l']| |]; try done.
  destruct Hw as [[HI Hfr]%FramedInv_iff HP].
  assert (Hq' : clean_queue_ok (l_helpers l')) by (destruct HI as [_ [_ _ [Hq' _]] _ _ _]; exact Hq'). split; [|eauto]. split; cbn.
  - done.
  - intros j lj. rewrite lookup_insert. case_decide as Hj; [subst j; intros [= <-]; by destruct l'|]. intros Hlj.
    specialize (Hf j lj Hlj). destruct Hf as [HS [HU HPt [Hqj Hv]] HH HPl HId]. split; [done| |done..].
    split; [done|by destruct HPt; split|]. split; cbn; [done|].
    intros i' e. cbn in Hfr. rewrite Hfr by done. apply Hv.
  - intros j. rewrite lookup_insert. case_decide; [done|]. intros Hj. rewrite Hfr by done. by apply Hu.
Qed.
(** *** Eviction *)

Definition total_held (s : fs) : Z := map_sum (fun _ l => held (l_ptrs l)) (fs_files s).
(** Buffers that hold memory. *)
Definition resident (T : gmap Z FileBuffer) : Z := map_sum (fun _ b => ind (bool_decide (b_ptr b <> None))) T.
Definition total_resident (s : fs) : Z := map_sum (fun _ l => resident (bufs l)) (fs_files s).
Definition fs_pending (s : fs) (i x : Z) : option byte :=
  match fs_files s !! i with Some l => pending l x | None => None end.
Definition buf_locked (s : fs) (i : Z) (b : FileBuffer) : bool := IsRangeLocked (b_offset b) (b_len b) false (locks_of s i).
(** Inode [i] has buffer [b] ending at [k]. *)
Definition has_buf (s : fs) (i k : Z) (b : FileBuffer) : Prop := exists l, fs_files s !! i = Some l /\ bufs l !! k = Some b.
Definition evictable (s : fs) (i : Z) (b : FileBuffer) : Prop :=
  cleanish (b_state b) = true /\ b_ptr b <> None /\ buf_locked s i b = false.

Lemma queue_entry s id i e :
  FInv s -> bt_map (BufferQueue.cleanQueue (fs_queue s)) !! id = Some (BufferQueue.mkQB i e) <->
    exists b, has_buf s i e b /\ cleanish (b_state b) = true /\ b_queueId b = id.
Proof using HBL.
  intros [Hq Hf Hu]. transitivity (BufferQueue.view i (fs_queue s) !! id = Some e).
  { rewrite BufferQueue.view_lookup. destruct (bt_map _ !! id) as [[i' e']|]; [|done]. cbn.
    destruct (Z.eqb_spec i' i) as [->|Hne]; [|naive_solver]. split; congruence. }
  destruct (fs_files s !! i) as [l|] eqn:El.
  - destruct (Hf i l El) as [_ [_ _ [_ Hv]] _ _ _]. cbn in Hv. rewrite Hv. unfold has_buf. split.
    + intros (b & ? & ? & ?). exists b. split_and!; try done. by exists l.
    + intros (b & (l' & E & ?) & ? & ?). exists b. split_and!; try done. by replace l with l' by congruence.
  - rewrite Hu, lookup_empty by done. split; [done|]. intros (b & (l' & E & _) & _). congruence.
Qed.

Lemma resident_released T k b T' : T !! k = Some b -> b_ptr b <> None -> released T k T' -> resident T' < resident T.
Proof using Type.
  intros Hk Hp (H1 & H2 & _). unfold resident. rewrite (map_sum_delete _ T k b Hk), bool_decide_true by done. cbn.
  enough (map_sum (fun _ b => ind (bool_decide (b_ptr b <> None))) T' <= map_sum (fun _ b => ind (bool_decide (b_ptr b <> None))) (delete k T)) by lia.
  assert (Hsub : delete k T' ⊆ delete k T).
  { apply map_subseteq_spec. intros k' b' [Hne Hb']%lookup_delete_Some. rewrite lookup_delete_ne by done. by apply H1. }
  pose proof (map_sum_subseteq (fun _ b => ind (bool_decide (b_ptr b <> None))) _ _ (fun _ _ => ind_nonneg _) Hsub) as Hle.
  destruct (T' !! k) as [b'|] eqn:E.
  - rewrite (map_sum_delete _ T' k b' E), bool_decide_false; [cbn; lia|]. intros Hn. by apply Hn, H2.
  - by rewrite delete_id in Hle by done.
Qed.

(** What one turn of the loop does to the file it visits. *)
Record evict_step (s : fs) (i e : Z) (b : FileBuffer) (a : Z) (s' : fs) : Prop := {
  ev_inv : FInv s';
  ev_le : a <= 0;
  ev_held : total_held s' = total_held s + a;
  ev_locks : fs_locks s' = fs_locks s;
  ev_rest : fs_pool s' = fs_pool s /\ fs_inodes s' = fs_inodes s /\ fs_wantFree s' = fs_wantFree s;
  ev_pending : forall j x, fs_pending s' j x = fs_pending s j x;
  ev_bufs : forall j k c, has_buf s' j k c -> evictable s' j c -> has_buf s j k c /\ (j, k) <> (i, e);
  ev_spared : forall j k c, has_buf s j k c -> b_ptr c <> None -> ~ evictable s j c -> has_buf s' j k c;
  ev_prog : total_resident s' < total_resident s \/ fs_queue s' = fs_queue s /\ total_resident s' = total_resident s;
}.

Lemma map_sum_bl (f : bl M Q -> Z) (files : gmap Z (bl M Q)) i l l' :
  files !! i = Some l -> map_sum (fun _ l => f l) (<[i := l']> files) = map_sum (fun _ l => f l) files - f l + f l'.
Proof using Type. intros Hl. by rewrite (map_sum_update _ _ i l _ Hl). Qed.

Lemma evict_on_spec s i e b toDisk :
  FInv s -> has_buf s i e b -> cleanish (b_state b) = true -> wp (evict_on i e toDisk) (evict_step s i e b) s.
Proof using HBL.
  intros HI (l & Hl & Hb) Hcl. unfold evict_on. apply wp_bind, wp_getS. rewrite Hl. unfold Get. rewrite <- bt_map_lookup. fold (bufs l). rewrite Hb.
  fold (buf_locked s i b). pose proof (proj2 (FramedInv_iff i (fs_queue s) (set_helpers (fs_queue s) l)) (conj (fi_files _ HI i l Hl) (fun _ _ => eq_refl))) as HF.
  eapply wp_mono; [eapply on_file_spec; [done|done|]|].
  { eapply wp_mono; [apply (evictClean_spec (HLaws := framed_laws i (fs_queue s)) (set_helpers (fs_queue s) l) e (buf_locked s i b) toDisk HF)|].
    intros a l' (HF' & Ha & Hsp & Hr). split; [exact HF'|]. exact (conj HF' (conj Ha (conj Hsp Hr))). }
  cbn beta. intros a s' (HI' & l' & (HF' & Ha & Hsp & Hr) & ->). cbn in Ha. unfold evict_result in Hr.
  change (bufs (set_helpers (fs_queue s) l)) with (bufs l) in Hr. rewrite Hb, Hcl in Hr.
  split; try done; cbn.
  - case_match; destruct Hr; lia.
  - unfold total_held. cbn. rewrite (map_sum_bl (fun l => held (l_ptrs l)) _ i l l' Hl). lia.
  - intros j x. unfold fs_pending. cbn. rewrite lookup_insert. case_decide as Hj; [subst j; rewrite Hl|done].
    exact (spares_dirty_pending (HLaws := framed_laws i (fs_queue s)) (set_helpers (fs_queue s) l) l' x (Hsp x)).
  - intros j k c (lj & Hlj & Hc) Hev. cbn in Hlj. rewrite lookup_insert in Hlj. case_decide as Hj; [|split; [by exists lj|congruence]].
    subst j. injection Hlj as <-. destruct Hev as (Hce & Hpe & Hue). change (buf_locked _ i c) with (buf_locked s i c) in Hue.
    case_bool_decide as Hptr; cbn [andb] in Hr.
    + destruct (buf_locked s i b) eqn:Elk; cbn [negb] in Hr.
      * destruct Hr as [_ ->]. change (bufs (set_helpers (fs_queue s) l)) with (bufs l) in Hc. split; [by exists l|]. intros [= ->]. congruence.
      * destruct Hr as [(H1 & H2 & _) _]. destruct (decide (k = e)) as [->|Hne]; [by specialize (H2 c Hc)|]. split; [exists l; eauto|congruence].
    + destruct Hr as [_ ->]. change (bufs (set_helpers (fs_queue s) l)) with (bufs l) in Hc. split; [by exists l|]. intros [= ->]. congruence.
  - intros j k c (lj & Hlj & Hc) Hpe Hne. unfold has_buf. cbn. rewrite lookup_insert. case_decide as Hj; [|by exists lj]. subst j.
    assert (lj = l) as -> by congruence. exists l'. split; [done|].
    case_bool_decide as Hptr; cbn [andb] in Hr; [destruct (buf_locked s i b) eqn:Elk; cbn [negb] in Hr|]; [by destruct Hr as [_ ->]| |by destruct Hr as [_ ->]].
    destruct Hr as [(_ & _ & H3) _]. apply H3; [|done|done]. intros ->. apply Hne. assert (c = b) as -> by congruence. done.
  - unfold total_resident. cbn. rewrite (map_sum_bl (fun l => resident (bufs l)) _ i l l' Hl).
    case_bool_decide as Hptr; cbn [andb] in Hr; [destruct (buf_locked s i b); cbn [negb] in Hr|].
    + destruct Hr as [_ ->]. right. split; [done|]. cbn. change (bufs (set_helpers _ l)) with (bufs l). lia.
    + left. destruct Hr as [Hrel _]. pose proof (resident_released _ _ _ _ Hb Hptr Hrel). lia.
    + destruct Hr as [_ ->]. right. split; [done|]. cbn. change (bufs (set_helpers _ l)) with (bufs l). lia.
Qed.
(** What the loop has done when it ends, having freed [freed] before. *)
Record eviction (s : fs) (size freed : Z) (freed' : Z) (s' : fs) : Prop := {
  el_inv : FInv s';
  el_locks : fs_locks s' = fs_locks s;
  el_more : freed <= freed';
  el_held : freed' - freed = total_held s - total_held s';
  el_rest : fs_pool s' = BufferPool.with_cur (cur s - (freed' - freed)) (fs_pool s) /\ fs_inodes s' = fs_inodes s /\ fs_wantFree s' = fs_wantFree s;
  el_pending : forall j x, fs_pending s' j x = fs_pending s j x;
  el_spared : forall j k c, has_buf s j k c -> b_ptr c <> None -> ~ evictable s j c -> has_buf s' j k c;
  el_all : freed' < size -> forall j k c, has_buf s' j k c -> ~ evictable s' j c;
}.

(** Every evictable buffer still waits in the queue at or behind [next]. *)
Definition ahead (s : fs) (next : Z) : Prop := forall j k c, has_buf s j k c -> evictable s j c -> next <= b_queueId c.

Lemma total_held_nonneg s : FInv s -> 0 <= total_held s.
Proof using Type.
  intros HI. apply map_sum_nonneg. intros i l Hl. destruct (fi_files _ HI i l Hl) as [_ _ HH _ _].
  apply map_sum_nonneg. intros k P HP. case_match; [|lia]. apply (hp_len _ _ _ HH) in HP. lia.
Qed.

Lemma total_resident_nonneg s : 0 <= total_resident s.
Proof using Type. apply map_sum_nonneg. intros. apply map_sum_nonneg. auto with go. Qed.

(** The counter does not wrap: it is at least the memory held, less some slack. *)
Definition cur_ok (s : fs) : Prop := -9223372036854775808 <= cur s - total_held s /\ cur s < 9223372036854775808.

(** The entry [NextClean] returns, and what remains behind it. *)
Lemma next_entry s next i e n :
  FInv s -> 0 <= next -> ahead s next -> BufferQueue.NextClean next (fs_queue s) = (i, e, n) -> n <> 0 ->
  exists b, has_buf s i e b /\ cleanish (b_state b) = true /\ b_queueId b = n - 1 /\ next < n /\
    (length (bt_ascend n (BufferQueue.cleanQueue (fs_queue s))) < length (bt_ascend next (BufferQueue.cleanQueue (fs_queue s))))%nat /\
    forall j k c, has_buf s j k c -> evictable s j c -> n <= b_queueId c \/ (j, k) = (i, e).
Proof using HBL.
  intros HI Hn Ha E Hne. unfold BufferQueue.NextClean in E. destruct (bt_ascend next _) as [|[id q] rest] eqn:Ea; [congruence|].
  injection E as <- <- <-. destruct (bt_ascend_cons _ _ _ _ _ Ea) as (Hp & Hq & Hno & Er). destruct q as [i e]. cbn.
  destruct (proj1 (queue_entry s id i e HI) Hq) as (b & Hb & Hcl & Hid). exists b. split_and!; try done; try lia.
  { rewrite <- Er. cbn. lia. }
  intros j k c Hc Hev. pose proof (Ha j k c Hc Hev) as Hle. destruct (decide (id + 1 <= b_queueId c)); [by left|right].
  pose proof (proj2 (queue_entry s (b_queueId c) j k HI) (ex_intro _ c (conj Hc (conj (proj1 Hev) eq_refl)))) as Hqc.
  destruct (decide (b_queueId c < id)); [rewrite Hno in Hqc by lia; done|]. replace (b_queueId c) with id in Hqc by lia. congruence.
Qed.

Lemma next_none s next i e :
  FInv s -> ahead s next -> BufferQueue.NextClean next (fs_queue s) = (i, e, 0) -> 0 <= next -> forall j k c, has_buf s j k c -> ~ evictable s j c.
Proof using HBL.
  intros HI Ha E Hn j k c Hc Hev. pose proof (proj2 (queue_entry s (b_queueId c) j k HI) (ex_intro _ c (conj Hc (conj (proj1 Hev) eq_refl)))) as Hq.
  pose proof (Ha j k c Hc Hev) as Hle. unfold BufferQueue.NextClean in E. destruct (bt_ascend next _) as [|[id q] rest] eqn:Ea.
  - rewrite (bt_ascend_nil _ _ _ Ea) in Hq by done. done.
  - injection E as _ _ E. destruct (bt_ascend_cons _ _ _ _ _ Ea) as (Hp & _). lia.
Qed.

Lemma evictable_locks s s' i b : fs_locks s' = fs_locks s -> evictable s' i b <-> evictable s i b.
Proof using Type. intros E. unfold evictable, buf_locked, locks_of. by rewrite E. Qed.

(** The first turn of the loop and the rest of it. *)
Lemma eviction_cons s i e b a s1 size freed freed' s' :
  cur_ok s -> evict_step s i e b a s1 ->
  eviction (mkFS (fs_queue s1) (fs_files s1) (fs_locks s1) (BufferPool.with_cur (cur s1 + a) (fs_pool s1)) (fs_inodes s1) (fs_wantFree s1)) size (freed - a) freed' s' ->
  eviction s size freed freed' s'.
Proof using Type.
  intros Hc [? ? ? El (Ep & Ei & Ew) Epd _ Esp _] [F1 F2 F3 F4 (F5 & F6 & F7) F8 F9 F10]. change (freed' - (freed - a) = total_held s1 - total_held s') in F4. cbn in *.
  split; try done; try lia; try congruence.
  - split_and!; try congruence. rewrite F5, Ep. unfold BufferPool.with_cur. cbn. f_equal. lia.
  - intros j x. rewrite F8. apply Epd.
  - intros j k c Hj Hp Hn. apply F9; [by apply Esp|done|]. by rewrite (evictable_locks s).
Qed.

Lemma evict_loop_spec toDisk size n : forall r s freed next,
  FInv s -> cur_ok s -> 0 <= next -> ahead s next -> total_resident s <= Z.of_nat n ->
  (length (bt_ascend next (BufferQueue.cleanQueue (fs_queue s))) <= r)%nat ->
  settles (fun fuel => evict_loop fuel toDisk size freed next) (eviction s size freed) s.
Proof using HBL.
  induction n as [n IHn] using lt_wf_ind. induction r as [r IHr] using lt_wf_ind. intros s freed next HI Hc Hn Ha Hres Hr.
  assert (Hstop : size <= freed \/ (forall j k c, has_buf s j k c -> ~ evictable s j c) -> settles (fun _ => ret freed) (eviction s size freed) s).
  { intros Hs. apply settles_wp, wp_ret. split; try done; try lia; [|intros ?; destruct Hs; [lia|done]].
    split_and!; try done. rewrite Z.sub_diag, Z.sub_0_r. by destruct (fs_pool s). }
  apply settles_S. cbn [evict_loop]. destruct (Z.ltb_spec freed size); [|apply Hstop; by left].
  destruct (BufferQueue.NextClean next (fs_queue s)) as [[i e] n'] eqn:En.
  eapply settles_ext; [intros fuel; unfold bind at 1, getS; rewrite En; reflexivity|].
  destruct (Z.eqb_spec n' 0) as [->|Hne]; [apply Hstop; right; by eapply next_none|].
  destruct (next_entry s next i e n' HI Hn Ha En Hne) as (b & Hb & Hcl & Hid & Hnn & Hlen & Hahead).
  eapply settles_bind; [by eapply settles_wp, evict_on_spec|]. intros a s1 Hst. pose proof Hst as [].
  pose proof (total_held_nonneg s1 ev_inv0). destruct ev_rest0 as (Ep & Ei & Ew).
  set (s2 := mkFS (fs_queue s1) (fs_files s1) (fs_locks s1) (BufferPool.with_cur (cur s1 + a) (fs_pool s1)) (fs_inodes s1) (fs_wantFree s1)).
  assert (HI2 : FInv s2) by (by destruct ev_inv0; split).
  assert (Hc2 : cur_ok s2) by (destruct Hc; unfold cur_ok; change (total_held s2) with (total_held s1); cbn; rewrite Ep; lia).
  assert (Ha2 : ahead s2 n').
  { intros j k c Hj Hev. destruct (ev_bufs0 j k c Hj Hev) as [Hj' Hk]. destruct (Hahead j k c Hj') as [?|?]; [|done|done].
    by apply (evictable_locks s s2). }
  eapply settles_bind.
  { apply (settles_wp _ (fun (_ : unit) s' => s' = s2)). unfold s2. destruct (Z.eqb_spec a 0) as [->|].
    - apply wp_ret. rewrite Z.add_0_r. destruct s1 as [? ? ? [] ? ?]. done.
    - apply wp_modS. unfold BufferPool.add_cur. rewrite i64_small; [done|]. destruct Hc. rewrite Ep. lia. }
  intros _ ? ->. apply (settles_mono _ (eviction s2 size (freed - a))); [|intros freed' s' Hev; by eapply eviction_cons].
  change (total_resident s1) with (total_resident s2) in *. destruct ev_prog0 as [Hp|[Eq Er]].
  - pose proof (total_resident_nonneg s2). apply (IHn (Z.to_nat (total_resident s2)) ltac:(lia) (length (bt_ascend n' (BufferQueue.cleanQueue (fs_queue s2))))); try done; lia.
  - apply (IHr (length (bt_ascend n' (BufferQueue.cleanQueue (fs_queue s2))))); try done; try lia. cbn. rewrite Eq. lia.
Qed.
Lemma ahead_0 s : FInv s -> ahead s 0.
Proof using HBL.
  intros HI j k c Hc Hev. pose proof (proj2 (queue_entry s (b_queueId c) j k HI) (ex_intro _ c (conj Hc (conj (proj1 Hev) eq_refl)))) as Hq.
  apply (proj1 (fi_queue _ HI)) in Hq. lia.
Qed.

Lemma evict_all s toDisk size : FInv s -> cur_ok s -> settles (fun fuel => evict_loop fuel toDisk size 0 0) (eviction s size 0) s.
Proof using HBL.
  intros HI Hc. pose proof (total_resident_nonneg s). eapply (evict_loop_spec toDisk size (Z.to_nat (total_resident s))); try done; [by apply ahead_0|lia].
Qed.

Lemma bool_decide_ltb (x y : Z) : bool_decide (x < y) = (x <? y).
Proof using Type. case_bool_decide; lia. Qed.

(** An operation on one file, seen from the file system. *)
Lemma on_file_op s i l o :
  FInv s -> fs_files s !! i = Some l -> op_ok (limit := limit) o ->
  wp (on_file i (run_op (HQ := inode_helpers ps i) o)) (fun _ s' => FInv s' /\ fs_locks s' = fs_locks s /\
    (forall j, j <> i -> fs_files s' !! j = fs_files s !! j) /\
    exists l', fs_files s' !! i = Some l' /\ abs_step o l (pending l) (pending l')) s.
Proof using HBL.
  intros HI Hl Ho. pose proof (proj2 (FramedInv_iff i (fs_queue s) (set_helpers (fs_queue s) l)) (conj (fi_files _ HI i l Hl) (fun _ _ => eq_refl))) as HF.
  eapply wp_mono; [eapply (on_file_spec i _ (fun _ l' => abs_step o l (pending l) (pending l'))); [done|done|]|].
  - eapply wp_mono; [apply (run_op_spec (HLaws := framed_laws i (fs_queue s)) o (set_helpers (fs_queue s) l) HF Ho)|].
    intros [] l' [HF' Habs]. split; [exact HF'|exact Habs].
  - cbn beta. intros [] s' (HI' & l' & Habs & ->). split_and!; try done; cbn.
    + intros j Hj. by rewrite lookup_insert_ne.
    + exists l'. rewrite lookup_insert_eq. done.
Qed.

Lemma empty_fs_FInv (files : gset Z) locks pool inodes want :
  FInv (mkFS BufferQueue.empty (gset_to_gmap (empty_list BufferQueue.empty) files) locks pool inodes want).
Proof using HBL.
  split; cbn.
  - split; [apply BufferQueue.empty_ok|done].
  - intros i l [_ <-]%lookup_gset_to_gmap_Some.
    apply (empty_list_Inv (HQ := inode_helpers ps i) (BufferListHelpersLaws0 := inode_helpers_laws ps i Hps));
      [split; [apply BufferQueue.empty_ok|done]|apply BufferQueue.empty_view].
  - intros i _. apply BufferQueue.empty_view.
Qed.

(** *** Requests for memory *)









(** *** Properties *)

(** C30: Freeing memory ends and is safe: nothing modified is lost in any file,
    every file keeps its invariant, the amount reported and the amount taken
    off the memory counter are exactly the memory released, a buffer that is
    modified, flushed in an incomplete part or locked keeps its memory, and if
    less than the requested size (at least 5 MB) was freed then no buffer is
    left that could be evicted.  After that the call waits for the flusher
    exactly if it has freed less than it was asked for and some inode is to be
    flushed, and reports whether there is one. *)
Theorem FreeSomeCleanBuffers_correct s toDisk wakeups origSize :
  FInv s -> cur_ok s ->
  exists fuel0 freed s1, FInv s1 /\
    (0 <= freed /\ freed = total_held s - total_held s1 /\ cur s1 = cur s - freed) /\
    (forall i x, fs_pending s1 i x = fs_pending s i x) /\
    (forall i k b, has_buf s i k b -> b_ptr b <> None -> ~ evictable s i b -> has_buf s1 i k b) /\
    (freed < Z.max origSize (5 * 1024 * 1024) -> forall i k b, has_buf s1 i k b -> ~ evictable s1 i b) /\
    forall fuel, (fuel0 <= fuel)%nat -> FreeSomeCleanBuffers fuel toDisk wakeups origSize s =
      let haveDirty := bool_decide (0 < InodeQueue.Size (fs_inodes s)) in
      if bool_decide (freed < origSize) && haveDirty then
        match wakeups with
        | [] => Ok ((None, []), add_wantFree 1 s1)
        | wakeup :: wakeups' => Ok ((Some (freed, true), wakeups'), add_wantFree (-1) (wakeup (add_wantFree 1 s1)))
        end
      else Ok ((Some (freed, haveDirty), wakeups), s1).
Proof using HBL.
  intros HI Hc. destruct (evict_all s toDisk (Z.max origSize (5 * 1024 * 1024)) HI Hc) as (fuel0 & freed & s1 & E & []).
  rewrite !Z.sub_0_r in *. destruct el_rest0 as (Ep & Ei & _). exists fuel0, freed, s1. split_and!; try done; [by rewrite Ep|].
  intros fuel Hf. unfold FreeSomeCleanBuffers, bind at 1. rewrite E by done. unfold bind at 1, getS. rewrite Ei.
  rewrite !bool_decide_ltb. destruct (_ && _) eqn:Ed; [|done]. apply andb_prop in Ed as [_ ->]. by destruct wakeups.
Qed.


(** C31: Files are isolated although they share the queue of clean buffers: any
    buffer operation on one file runs without panicking, has its effect on
    the pending bytes of that file, leaves all other files as they are, and
    keeps the invariant of every file, the exactness of the shared queue
    included. *)
Theorem file_isolation s i l o :
  FInv s -> fs_files s !! i = Some l -> op_ok (limit := limit) o ->
  exists s', on_file i (run_op (HQ := inode_helpers ps i) o) s = Ok (tt, s') /\ FInv s' /\
    (forall j, j <> i -> fs_files s' !! j = fs_files s !! j) /\
    exists l', fs_files s' !! i = Some l' /\ abs_step o l (pending l) (pending l').
Proof using HBL.
  intros HI Hl Ho. destruct (wp_run _ _ _ (on_file_op s i l o HI Hl Ho)) as ([] & s' & E & ? & _ & ? & ?). by exists s'.
Qed.
End files.
(** *** Instances *)

Definition ex_pool : BufferPool.t := BufferPool.mk 100 110 0 0 0.
Definition ex_fs0 : fs :=
  mkFS BufferQueue.empty (gset_to_gmap (empty_list BufferQueue.empty) {[1; 2]} : gmap Z (bl (gmap Z) _)) {[2 := [mkRR 0 4 false]]} ex_pool (InodeQueue.Add 1 InodeQueue.empty).2 0.
Definition ex_step (i : Z) (o : list_op) (s : fs (M := gmap Z)) : fs :=
  match on_file i (run_op (HQ := inode_helpers defaultPartSizes i) o) s with Ok (_, s') => s' | _ => s end.
(** Two files with fetched data, one of them locked, and a modification. *)
Definition ex_fs : fs :=
  ex_step 2 (OpFetch 0 [1; 2; 3; 4] []) (ex_step 1 (OpWrite 8 [5; 6] [] true) (ex_step 1 (OpFetch 0 [1; 2; 3; 4] []) ex_fs0)).

Lemma ex_step_FInv i o s l :
  FInv defaultPartSizes default_table_ok s -> fs_files s !! i = Some l -> op_ok (limit := getMaxFileSize defaultPartSizes) o ->
  FInv defaultPartSizes default_table_ok (ex_step i o s).
Proof.
  intros HI Hl Ho. pose proof (on_file_op defaultPartSizes default_table_ok s i l o HI Hl Ho) as Hw. unfold wp, ex_step in *.
  destruct (on_file _ _ _) as [[? s']| |]; [apply Hw|done|done].
Qed.

Lemma ex_fs_FInv : FInv defaultPartSizes default_table_ok ex_fs.
Proof.
  unfold ex_fs. repeat (eapply ex_step_FInv; [|vm_compute; reflexivity|cbn; split_and!; vm_compute; (reflexivity || discriminate)]).
  apply empty_fs_FInv.
Qed.

Lemma ex_cur_ok : cur_ok ex_fs.
Proof. split; vm_compute; (reflexivity || discriminate). Qed.

(** The fetched data of file 1 goes, that of file 2 is locked and stays; file 1 is to be flushed, so the call waits. *)
Lemma FreeSomeCleanBuffers_correct_witness :
  exists fuel0 freed s1, FInv defaultPartSizes default_table_ok s1 /\
    (0 <= freed /\ freed = total_held ex_fs - total_held s1 /\ BufferPool.cur (fs_pool s1) = 100 - freed) /\
    (exists b, has_buf ex_fs 2 4 b /\ has_buf s1 2 4 b) /\
    forall fuel, (fuel0 <= fuel)%nat -> FreeSomeCleanBuffers defaultPartSizes fuel (fun _ _ => false) [] 6000000 ex_fs =
      if bool_decide (freed < 6000000) && true then Ok ((None, []), add_wantFree 1 s1) else Ok ((Some (freed, true), []), s1).
Proof.
  destruct (FreeSomeCleanBuffers_correct defaultPartSizes default_table_ok ex_fs (fun _ _ => false) [] 6000000 ex_fs_FInv ex_cur_ok)
    as (fuel0 & freed & s1 & HI & Hf & _ & Hsp & _ & E).
  exists fuel0, freed, s1. split; [exact HI|]. split; [exact Hf|]. split; [|exact E].
  assert (exists b, has_buf ex_fs 2 4 b /\ b_ptr b <> None /\ buf_locked ex_fs 2 b = true) as (b & Hb & Hp & Hl).
  { eexists. split; [eexists; split; vm_compute; reflexivity|]. split; vm_compute; (reflexivity || discriminate). }
  exists b. split; [exact Hb|]. apply Hsp; [exact Hb|exact Hp|]. intros (_ & _ & Hn). congruence.
Defined.

(** Evaluated: four bytes are freed, and the call waits. *)
Example ex_evict :
  match FreeSomeCleanBuffers defaultPartSizes 10 (fun _ _ => false) [] 6000000 ex_fs with
  | Ok ((None, _), s') => BufferPool.cur (fs_pool s') = 96 /\ fs_wantFree s' = 1 /\ fs_pending s' 1 9 = Some 6
  | _ => False
  end.
Proof. vm_compute. done. Qed.

(** The flusher has nothing to do any more when the call wakes up. *)
Definition ex_wakeup (s : fs (M := gmap Z)) : fs := mkFS (fs_queue s) (fs_files s) (fs_locks s) (fs_pool s) InodeQueue.empty (fs_wantFree s).

Example ex_use :
  match Use defaultPartSizes 10 (fun _ _ => false) [ex_wakeup] 200 false ex_fs, Use defaultPartSizes 10 (fun _ _ => false) [] 12 false ex_fs with
  | Ok (NoMemory, s1), Ok (Granted, s2) => BufferPool.cur (fs_pool s1) = 96 /\ BufferPool.cur (fs_pool s2) = 108
  | _, _ => False
  end.
Proof. vm_compute. done. Qed.

Lemma file_isolation_witness :
  exists s', on_file 2 (run_op (HQ := inode_helpers defaultPartSizes 2) (OpWrite 2 [7] [] true)) ex_fs = Ok (tt, s') /\
    FInv defaultPartSizes default_table_ok s' /\ (forall j, j <> 2 -> fs_files s' !! j = fs_files ex_fs !! j) /\
    exists l', fs_files s' !! 2 = Some l' /\
      abs_step (OpWrite 2 [7] [] true) (default (empty_list BufferQueue.empty) (fs_files ex_fs !! 2))
        (pending (default (empty_list BufferQueue.empty) (fs_files ex_fs !! 2))) (pending l').
Proof.
  apply (file_isolation defaultPartSizes default_table_ok ex_fs 2 _ (OpWrite 2 [7] [] true) ex_fs_FInv);
    [vm_compute; reflexivity|cbn; split_and!; vm_compute; (reflexivity || discriminate)].
Defined.
End CleanBuffers.
