(* ===== verification/Errors.v ===== *)
(** * Errors and retries

    The error values the file system passes around, their classification
    ([mapHttpError], [mapAwsError] of [core/goofys.go], [shouldRetry] of
    [core/backend_s3.go]) and the retry loop of reads ([ReadBackoff]). *)

From stdpp Require Import strings.
From S2P Require Import Prelude.

Module Errors.

Inductive errno :=
| EINVAL | EACCES | ENOENT | ENOTSUP | EINTR | ERANGE | EAGAIN | ENXIO | EEXIST | EBUSY
| ESPIPE | EIO | ENOMEM | EFBIG | EISDIR | ENOTDIR | ENOTEMPTY | EPERM | ESTALE.
#[export] Instance errno_eq_dec : EqDecision errno.
Proof. solve_decision. Defined.

(** An [awserr.Error] has a code; a [RequestFailure] also has an HTTP status. *)
Inductive error :=
| Errno (e : errno)
| AwsError (code : string) (status : option Z)
| EOF
| OtherError (n : Z).
#[export] Instance error_eq_dec : EqDecision error.
Proof. solve_decision. Defined.

Definition mapHttpError (status : Z) : option error :=
  match status with
  | 400 => Some (Errno EINVAL)
  | 401 => Some (Errno EACCES)
  | 403 => Some (Errno EACCES)
  | 404 => Some (Errno ENOENT)
  | 405 => Some (Errno ENOTSUP)
  | 409 => Some (Errno EINTR)
  | 416 => Some (Errno ERANGE)
  | 429 => Some (Errno EAGAIN)
  | 503 => Some (Errno EAGAIN)
  | 500 => Some (Errno EAGAIN)
  | _ => None
  end.

(** [nil] is [None]. *)
Definition mapAwsError (err : option error) : option error :=
  match err with
  | None => None
  | Some (AwsError code status as e) =>
    if (code =? "BucketRegionError")%string then Some e
    else if (code =? "NoSuchBucket")%string then Some (Errno ENXIO)
    else if (code =? "BucketAlreadyOwnedByYou")%string then Some (Errno EEXIST)
    else if (code =? "ConcurrentUpdatesPatchConflict")%string || (code =? "ObjectVersionPatchConflict")%string
    then Some (Errno EBUSY)
    else match status with
         | Some st => match mapHttpError st with Some e' => Some e' | None => Some e end
         | None => Some e
         end
  | Some e => Some e
  end.

Definition is_errno (e : errno) (err : option error) : bool := bool_decide (err = Some (Errno e)).
Definition shouldRetry (err : error) : bool :=
  let err := mapAwsError (Some err) in
  negb (is_errno ENOENT err) && negb (is_errno EINVAL err) && negb (is_errno EACCES err) &&
  negb (is_errno ENOTSUP err) && negb (is_errno ERANGE err).

(** The object is gone or has another size. *)
Definition remote_conflict (err : option error) : bool := is_errno ENOENT (mapAwsError err) || is_errno ERANGE (mapAwsError err).

Section backoff.
Context {W : Type} (ReadRetryAttempts : Z) (try : Z -> St W (option error)).
(** The sleeps between the attempts leave the state alone. *)
Fixpoint ReadBackoff_loop (fuel : nat) (attempt : Z) : St W (option error) :=
  let! err := try attempt in
  match err with
  | None => ret None
  | Some e =>
    if shouldRetry e && ((ReadRetryAttempts <? 1) || (attempt <? ReadRetryAttempts)) then
      match fuel with
      | O => fun _ => OutOfFuel
      | S fuel' => ReadBackoff_loop fuel' (attempt + 1)
      end
    else ret (Some e)
  end.
Definition ReadBackoff (fuel : nat) : St W (option error) := ReadBackoff_loop fuel 1.
End backoff.
(** ** Attempts *)

(** A request whose answer depends on the attempt, with a log of the attempts made. *)
Definition scripted (answer : Z -> option error) (attempt : Z) : St (list Z) (option error) :=
  fun log => Ok (answer attempt, log ++ [attempt]).

Lemma ReadBackoff_loop_attempts limit answer fuel : forall attempt log,
  1 <= limit -> 1 <= attempt <= limit -> limit - attempt <= Z.of_nat fuel ->
  exists k, attempt <= k <= limit /\
    ReadBackoff_loop limit (scripted answer) fuel attempt log = Ok (answer k, log ++ seqZ attempt (k + 1 - attempt)) /\
    (forall j, attempt <= j < k -> exists e, answer j = Some e /\ shouldRetry e = true) /\
    (answer k = None \/ exists e, answer k = Some e /\ (shouldRetry e = false \/ k = limit)).
Proof.
  induction fuel as [|fuel IH]; intros attempt log Hl Ha Hf; cbn [ReadBackoff_loop];
    assert (Hone : log ++ seqZ attempt (attempt + 1 - attempt) = log ++ [attempt]) by
      (replace (attempt + 1 - attempt) with 1 by lia; rewrite seqZ_cons by lia; by rewrite seqZ_nil by lia);
    unfold bind, scripted at 1; destruct (answer attempt) as [e|] eqn:Ee;
    try (exists attempt; rewrite Hone, Ee; split_and!; [lia|lia|done|intros; lia|by left]).
  all: rewrite (proj2 (Z.ltb_ge limit 1)) by lia; cbn [orb].
  - assert (attempt = limit) as -> by lia. rewrite Z.ltb_irrefl, andb_false_r. exists limit. rewrite Hone, Ee.
    split_and!; [lia|lia|done|intros; lia|]. right. exists e. auto.
  - destruct (shouldRetry e) eqn:Er; cbn [andb].
    2: { exists attempt. rewrite Hone, Ee. split_and!; [lia|lia|done|intros; lia|]. right. exists e. auto. }
    destruct (Z.ltb_spec attempt limit).
    2: { exists attempt. rewrite Hone, Ee. split_and!; [lia|lia|done|intros; lia|]. right. exists e. split; [done|right; lia]. }
    destruct (IH (attempt + 1) (log ++ [attempt])) as (k & Hk & E & Hj & Hend); [lia..|]. exists k. split; [lia|]. split; [|split; [|done]].
    + rewrite E, <- app_assoc. do 3 f_equal. rewrite (seqZ_cons attempt) by lia. cbn. do 2 f_equal; lia.
    + intros j Hj'. destruct (decide (j = attempt)) as [->|]; [eauto|]. apply Hj. lia.
Qed.

(** C39: Retries are bounded and stop at the right attempt: with a limit on the
    attempts the loop ends, it makes the attempts 1, 2, ..., k in order with k
    within the limit, every attempt before the last failed with an error that
    may be retried, and the last one succeeded, failed for good, or was the
    last one allowed; its result is the result of the loop. *)
Theorem ReadBackoff_attempts limit answer :
  1 <= limit ->
  exists k, 1 <= k <= limit /\
    ReadBackoff limit (scripted answer) (Z.to_nat limit) [] = Ok (answer k, seqZ 1 k) /\
    (forall j, 1 <= j < k -> exists e, answer j = Some e /\ shouldRetry e = true) /\
    (answer k = None \/ exists e, answer k = Some e /\ (shouldRetry e = false \/ k = limit)).
Proof.
  intros Hl. destruct (ReadBackoff_loop_attempts limit answer (Z.to_nat limit) 1 []) as (k & Hk & E & Hj & Hend); [lia..|].
  exists k. split_and!; try done; try lia. unfold ReadBackoff. rewrite E. cbn. do 3 f_equal. lia.
Qed.

Definition ex_answer (attempt : Z) : option error :=
  if attempt <? 3 then Some (AwsError "SlowDown" (Some 503)) else Some (AwsError "NoSuchKey" (Some 404)).
Lemma ReadBackoff_attempts_witness :
  exists k, 1 <= k <= 5 /\
    ReadBackoff 5 (scripted ex_answer) (Z.to_nat 5) [] = Ok (ex_answer k, seqZ 1 k) /\
    (forall j, 1 <= j < k -> exists e, ex_answer j = Some e /\ shouldRetry e = true) /\
    (ex_answer k = None \/ exists e, ex_answer k = Some e /\ (shouldRetry e = false \/ k = 5)).
Proof. apply (ReadBackoff_attempts 5 ex_answer). lia. Defined.
End Errors.
