(* ===== verification/Attrs.v ===== *)
(** * Attributes and metadata of an inode

    [core/handles.go] and [core/utils.go]: the attributes of an inode, the user
    metadata they are stored in on the server, and the encoding of that
    metadata.  Go strings and byte slices are sequences of bytes, [text].
    Integers are printed and parsed as by [fmt.Sprintf] and [strconv.ParseUint]
    with base 0, and strings are decoded as by [range]. *)

From stdpp Require Import strings.
From S2P Require Import Prelude Errors.

Abbreviation text := (list Z).
(** A literal. *)
Definition txt (s : string) : text := (fun c => Z.of_N (Strings.Ascii.N_of_ascii c)) <$> String.list_ascii_of_string s.

Module Encoding.

(** ** Numbers *)

Definition is_digit (b : Z) : bool := (48 <=? b) && (b <=? 57).
(** [c | ('x' - 'X')] *)
Definition lower (b : Z) : Z := Z.lor b 32.

(** Digits of a number, most significant first. *)
Fixpoint digits (base : Z) (digit : Z -> Z) (fuel : nat) (n : Z) (acc : text) : text :=
  let acc' := digit (n mod base) :: acc in
  match fuel with
  | O => acc'
  | S fuel' => if n <? base then acc' else digits base digit fuel' (n / base) acc'
  end.
(** [fmt.Sprintf("%d", n)] *)
Definition Sprintf_d (n : Z) : text :=
  let d n := digits 10 (fun d => 48 + d) (Z.to_nat n) n [] in
  if n <? 0 then 45 :: d (- n) else d n.
(** [fmt.Sprintf("%02X", n)] *)
Definition Sprintf_02X (n : Z) : text :=
  let d := digits 16 (fun d => if d <? 10 then 48 + d else 55 + d) (Z.to_nat n) n [] in
  if n <? 16 then 48 :: d else d.

Definition digit_value (b : Z) : option Z :=
  if is_digit b then Some (b - 48)
  else if (97 <=? lower b) && (lower b <=? 122) then Some (lower b - 97 + 10)
  else None.
(** The value and whether there was no error; the value of a number out of range is the maximum. *)
Fixpoint parse_digits (base maxVal n : Z) (s : text) : Z * bool :=
  match s with
  | [] => (n, true)
  | b :: s' =>
    if b =? 95 then parse_digits base maxVal n s'
    else match digit_value b with
         | None => (0, false)
         | Some d =>
           if base <=? d then (0, false)
           else if maxVal <? n * base + d then (maxVal, false)
           else parse_digits base maxVal (n * base + d) s'
         end
  end.
Inductive prev_char := PBegin | PDigit | PUnderscore | POther.
Fixpoint underscores (hex : bool) (i : prev_char) (s : text) : bool :=
  match s with
  | [] => match i with PUnderscore => false | _ => true end
  | b :: s' =>
    if is_digit b || (hex && (97 <=? lower b) && (lower b <=? 102)) then underscores hex PDigit s'
    else if b =? 95 then match i with PDigit => underscores hex PUnderscore s' | _ => false end
    else match i with PUnderscore => false | _ => underscores hex POther s' end
  end.
Definition base_prefix (s : text) : option (Z * text) :=
  match s with
  | 48 :: b :: s' =>
    if lower b =? 98 then Some (2, s') else if lower b =? 111 then Some (8, s')
    else if lower b =? 120 then Some (16, s') else None
  | _ => None
  end.
Definition underscoreOK (s : text) : bool :=
  match base_prefix s with
  | Some (base, s') => underscores (base =? 16) PDigit s'
  | None => underscores false PBegin s
  end.
(** [strconv.ParseUint(s, 0, bitSize)] *)
Definition ParseUint (s : text) (bitSize : Z) : Z * bool :=
  let maxVal := Z.shiftl 1 bitSize - 1 in
  match s with
  | [] => (0, false)
  | b0 :: rest =>
    let '(base, s') :=
      if b0 =? 48 then
        match base_prefix s with
        | Some (base, _ :: _ as s'') => (base, s'')
        | _ => (8, rest)
        end
      else (10, s) in
    let r := parse_digits base maxVal 0 s' in
    if r.2 && existsb (Z.eqb 95) s' && negb (underscoreOK s) then (0, false) else r
  end.

(** ** Runes *)

Definition in_range (lo hi b : Z) : bool := (lo <=? b) && (b <=? hi).
Definition cont (b : Z) : bool := in_range 128 191 b.
Definition RuneError : Z := 65533.

(** The first rune of a string and the rest; a byte that starts no rune gives [RuneError]. *)
Definition decode_rune (s : text) : option (Z * text) :=
  match s with
  | [] => None
  | b0 :: s0 =>
    let bad := Some (RuneError, s0) in
    if b0 <? 128 then Some (b0, s0)
    else if in_range 194 223 b0 then
      match s0 with
      | b1 :: s1 => if cont b1 then Some ((b0 - 192) * 64 + (b1 - 128), s1) else bad
      | _ => bad
      end
    else if in_range 224 239 b0 then
      match s0 with
      | b1 :: b2 :: s2 =>
        if in_range (if b0 =? 224 then 160 else 128) (if b0 =? 237 then 159 else 191) b1 && cont b2
        then Some ((b0 - 224) * 4096 + (b1 - 128) * 64 + (b2 - 128), s2) else bad
      | _ => bad
      end
    else if in_range 240 244 b0 then
      match s0 with
      | b1 :: b2 :: b3 :: s3 =>
        if in_range (if b0 =? 240 then 144 else 128) (if b0 =? 244 then 143 else 191) b1 && cont b2 && cont b3
        then Some ((b0 - 240) * 262144 + (b1 - 128) * 4096 + (b2 - 128) * 64 + (b3 - 128), s3) else bad
      | _ => bad
      end
    else bad
  end.
(** The runes of [range s]. *)
Fixpoint runes_loop (fuel : nat) (s : text) : list Z :=
  match fuel with
  | O => []
  | S fuel' => match decode_rune s with None => [] | Some (c, s') => c :: runes_loop fuel' s' end
  end.
Definition runes (s : text) : list Z := runes_loop (length s) s.
(** [string(c)] *)
Definition encode_rune (c : Z) : text :=
  if in_range 0 127 c then [c]
  else if in_range 128 2047 c then [192 + c / 64; 128 + c mod 64]
  else if in_range 55296 57343 c || negb (in_range 0 1114111 c) then [239; 191; 189]
  else if c <=? 65535 then [224 + c / 4096; 128 + c / 64 mod 64; 128 + c mod 64]
  else [240 + c / 262144; 128 + c / 4096 mod 64; 128 + c / 64 mod 64; 128 + c mod 64].

(** ** Escaping of metadata *)

(** [url.PathUnescape], [None] for an error. *)
Definition unhex (b : Z) : option Z :=
  if is_digit b then Some (b - 48)
  else if in_range 97 102 b then Some (b - 97 + 10)
  else if in_range 65 70 b then Some (b - 65 + 10)
  else None.
Fixpoint PathUnescape (s : text) : option text :=
  match s with
  | [] => Some []
  | 37 :: b1 :: b2 :: s' =>
    match unhex b1, unhex b2, PathUnescape s' with
    | Some h, Some l, Some r => Some (h * 16 + l :: r)
    | _, _, _ => None
    end
  | b :: s' => if b =? 37 then None else (fun r => b :: r) <$> PathUnescape s'
  end.

(** A new map with an entry for each entry of [m] that [f] keeps.  The order of the iteration matters only when two of them get the same key. *)
Definition rekey (f : text -> text -> option (text * text)) (m : gmap text text) : gmap text text :=
  map_fold (fun k v (acc : gmap text text) => match f k v with Some (k', v') => <[k' := v']> acc | None => acc end) ∅ m.

Section escape.
(** [unicode.IsPrint] *)
Context (IsPrint : Z -> bool).
Definition escape_rune (c : Z) : text :=
  if c =? 37 then txt "%25" else if IsPrint c then encode_rune c else 37 :: Sprintf_02X c.
Definition xattrEscape (value : text) : text := flat_map escape_rune (runes value).

(** [strings.ToLower] *)
Context (ToLower : text -> text).
Definition escapeMetadata (meta : option (gmap text text)) : option (gmap text text) :=
  rekey (fun k v => Some (ToLower (xattrEscape k), xattrEscape v)) <$> meta.
Definition unescapeMetadata (meta : gmap text text) : gmap text text :=
  rekey (fun k v =>
    match PathUnescape (ToLower k) with
    | None => None
    | Some uk => match PathUnescape v with None => None | Some uv => Some (uk, uv) end
    end) meta.
End escape.
(** ** Round trips *)

Lemma is_digit_true b : is_digit b = true <-> 48 <= b <= 57.
Proof. unfold is_digit. rewrite andb_true_iff, !Z.leb_le. done. Qed.

Lemma digits_parse maxVal fuel : forall n acc,
  0 <= n <= maxVal -> n < 10 \/ n <= Z.of_nat fuel ->
  parse_digits 10 maxVal 0 (digits 10 (fun d => 48 + d) fuel n acc) = parse_digits 10 maxVal n acc.
Proof.
  assert (Hstep : forall n m acc, 0 <= m -> m * 10 + n mod 10 <= maxVal ->
    parse_digits 10 maxVal m (48 + n mod 10 :: acc) = parse_digits 10 maxVal (m * 10 + n mod 10) acc).
  { intros n m acc Hm Hle. pose proof (Z.mod_pos_bound n 10 eq_refl). cbn [parse_digits]. unfold digit_value.
    rewrite (proj2 (Z.eqb_neq _ _)), (proj2 (is_digit_true _)) by lia.
    rewrite (proj2 (Z.leb_gt _ _)), (proj2 (Z.ltb_ge _ _)) by lia. f_equal. lia. }
  assert (Hlast : forall n acc, 0 <= n <= maxVal -> n < 10 ->
    parse_digits 10 maxVal 0 (48 + n mod 10 :: acc) = parse_digits 10 maxVal n acc).
  { intros n acc Hn Hlt. rewrite Z.mod_small by lia. rewrite <- (Z.mod_small n 10) at 1 by lia.
    rewrite Hstep; rewrite ?(Z.mod_small n 10) by lia; lia || f_equal; lia. }
  induction fuel as [|fuel IH]; intros n acc Hn Hf; cbn [digits]; [apply Hlast; lia|].
  destruct (Z.ltb_spec n 10); [by apply Hlast|].
  pose proof (Z.div_mod n 10 ltac:(lia)). pose proof (Z.mod_pos_bound n 10 eq_refl).
  rewrite IH by lia. rewrite Hstep by lia. f_equal. lia.
Qed.

Lemma digits_chars fuel : forall n acc, 0 <= n ->
  exists ds, digits 10 (fun d => 48 + d) fuel n acc = ds ++ acc /\ Forall (fun b => 48 <= b <= 57) ds /\ ds <> [] /\
    (0 < n -> n < 10 \/ n <= Z.of_nat fuel -> head ds <> Some 48).
Proof.
  induction fuel as [|fuel IH]; intros n acc Hn; cbn [digits]; pose proof (Z.mod_pos_bound n 10 eq_refl).
  - exists [48 + n mod 10]. split_and!; [done|repeat constructor; lia|done|]. intros ? ?. rewrite Z.mod_small by lia. cbn. intros [= ?]. lia.
  - destruct (Z.ltb_spec n 10).
    + exists [48 + n mod 10]. split_and!; [done|repeat constructor; lia|done|]. intros ? ?. rewrite Z.mod_small by lia. cbn. intros [= ?]. lia.
    + pose proof (Z.div_mod n 10 ltac:(lia)).
      destruct (IH (n / 10) (48 + n mod 10 :: acc)) as (ds & -> & Hds & Hne & Hhd); [lia|].
      exists (ds ++ [48 + n mod 10]). split_and!; [by rewrite <- app_assoc|apply Forall_app; split; [done|repeat constructor; lia]|by destruct ds|].
      intros ? ?. destruct ds as [|d ds]; [done|]. cbn. apply Hhd; lia.
Qed.

(** Printing a number and parsing it gives it back. *)
Lemma ParseUint_Sprintf n bits : 0 <= n < Z.shiftl 1 bits -> ParseUint (Sprintf_d n) bits = (n, true).
Proof.
  intros Hn. unfold Sprintf_d. rewrite (proj2 (Z.ltb_ge n 0)) by lia.
  destruct (decide (n = 0)) as [->|Hnz]; [done|].
  pose proof (digits_parse (Z.shiftl 1 bits - 1) (Z.to_nat n) n [] ltac:(lia) ltac:(lia)) as Hp.
  destruct (digits_chars (Z.to_nat n) n []) as (ds & E & Hds & Hne & Hhd); [lia|]. rewrite E, app_nil_r in *.
  destruct ds as [|b0 ds]; [done|]. unfold ParseUint. assert (b0 <> 48) by (intros ->; by apply Hhd; [lia..|]).
  rewrite (proj2 (Z.eqb_neq b0 48)) by done. rewrite Hp. cbn [parse_digits snd].
  assert (Hu : existsb (Z.eqb 95) (b0 :: ds) = false).
  { apply not_true_iff_false. intros (x & Hx & Ex)%existsb_exists. rewrite <- list_elem_of_In in Hx.
    rewrite Forall_forall in Hds. specialize (Hds x Hx). apply Z.eqb_eq in Ex. lia. }
  by rewrite Hu.
Qed.
Definition valid_rune (c : Z) : Prop := 0 <= c <= 1114111 /\ ~ (55296 <= c <= 57343).

Lemma in_range_true lo hi b : in_range lo hi b = true <-> lo <= b <= hi.
Proof. unfold in_range. rewrite andb_true_iff, !Z.leb_le. done. Qed.
Lemma in_range_false lo hi b : in_range lo hi b = false <-> ~ (lo <= b <= hi).
Proof. rewrite <- in_range_true. by destruct (in_range lo hi b). Qed.

(** Decide a comparison of the decoder from the arithmetic facts in the context. *)
Ltac range_cases :=
  repeat match goal with
  | |- context [in_range ?a ?b ?x] =>
      first [rewrite (proj2 (in_range_true a b x)) by lia | rewrite (proj2 (in_range_false a b x)) by lia]
  | |- context [?a <? ?b] => first [rewrite (proj2 (Z.ltb_lt a b)) by lia | rewrite (proj2 (Z.ltb_ge a b)) by lia]
  | |- context [?a <=? ?b] => first [rewrite (proj2 (Z.leb_le a b)) by lia | rewrite (proj2 (Z.leb_gt a b)) by lia]
  end.

Lemma decode_encode c s : valid_rune c -> decode_rune (encode_rune c ++ s) = Some (c, s).
Proof.
  intros [Hc Hs]. unfold encode_rune.
  pose proof (Z.div_mod c 64 ltac:(lia)). pose proof (Z.mod_pos_bound c 64 eq_refl).
  pose proof (Z.div_mod (c / 64) 64 ltac:(lia)). pose proof (Z.mod_pos_bound (c / 64) 64 eq_refl).
  pose proof (Z.div_mod (c / 64 / 64) 64 ltac:(lia)). pose proof (Z.mod_pos_bound (c / 64 / 64) 64 eq_refl).
  destruct (decide (c <= 127)); [range_cases; cbn; range_cases; done|].
  destruct (decide (c <= 2047)); [range_cases; cbn [app decode_rune]; unfold cont; range_cases; do 2 f_equal; lia|].
  replace (c / 4096) with (c / 64 / 64) by (rewrite Z.div_div by lia; done).
  replace (c / 262144) with (c / 64 / 64 / 64) by (rewrite !Z.div_div by lia; done).
  destruct (decide (c <= 65535)).
  - range_cases. cbn [app decode_rune orb negb]. unfold cont. range_cases.
    assert (Hb : in_range (if 224 + c / 64 / 64 =? 224 then 160 else 128) (if 224 + c / 64 / 64 =? 237 then 159 else 191)
      (128 + (c / 64) mod 64) = true) by (apply in_range_true; destruct (Z.eqb_spec (224 + c / 64 / 64) 224), (Z.eqb_spec (224 + c / 64 / 64) 237); lia).
    rewrite Hb. cbn [andb]. do 2 f_equal. lia.
  - range_cases. cbn [app decode_rune orb negb]. unfold cont. range_cases.
    assert (Hb : in_range (if 240 + c / 64 / 64 / 64 =? 240 then 144 else 128) (if 240 + c / 64 / 64 / 64 =? 244 then 143 else 191)
      (128 + (c / 64 / 64) mod 64) = true) by (apply in_range_true; destruct (Z.eqb_spec (240 + c / 64 / 64 / 64) 240), (Z.eqb_spec (240 + c / 64 / 64 / 64) 244); lia).
    rewrite Hb. cbn [andb]. do 2 f_equal. lia.
Qed.

Lemma encode_rune_length c : (1 <= length (encode_rune c))%nat.
Proof. unfold encode_rune. repeat (destruct (_ : bool)); cbn; lia. Qed.

(** The runes of a string made of runes. *)
Lemma runes_encode cs : Forall valid_rune cs -> runes (flat_map encode_rune cs) = cs.
Proof.
  intros Hcs. unfold runes. enough (Hg : forall n, (length (flat_map encode_rune cs) <= n)%nat -> runes_loop n (flat_map encode_rune cs) = cs) by auto.
  induction Hcs as [|c cs Hc _ IH]; intros n Hn; [by destruct n|]. cbn in Hn. rewrite length_app in Hn. pose proof (encode_rune_length c).
  destruct n as [|n]; [lia|]. cbn [flat_map runes_loop]. rewrite decode_encode by done. f_equal. apply IH. lia.
Qed.

Lemma unescape_plain bs s : Forall (fun b => b <> 37) bs -> PathUnescape (bs ++ s) = app bs <$> PathUnescape s.
Proof.
  induction 1 as [|b bs Hb _ IH]; [change ([] ++ s) with s; by destruct (PathUnescape s)|].
  change ((b :: bs) ++ s) with (b :: bs ++ s). assert (Hcons : forall r, PathUnescape (b :: r) = (fun r => b :: r) <$> PathUnescape r).
  { intros r. cbn [PathUnescape]. assert (Hne : (b =? 37) = false) by lia. destruct b as [|p|p]; try done.
    repeat match goal with q : positive |- _ => first [done | destruct q as [q|q|]; try done] end. }
  rewrite Hcons, IH. by destruct (PathUnescape s).
Qed.

Lemma encode_rune_plain c : valid_rune c -> c <> 37 -> Forall (fun b => b <> 37) (encode_rune c).
Proof.
  intros [? ?] ?. unfold encode_rune.
  pose proof (Z.mod_pos_bound c 64 eq_refl). pose proof (Z.mod_pos_bound (c / 64) 64 eq_refl). pose proof (Z.mod_pos_bound (c / 4096) 64 eq_refl).
  assert (0 <= c / 64 /\ 0 <= c / 4096 /\ 0 <= c / 262144) by (split_and!; apply Z.div_pos; lia).
  repeat (destruct (_ : bool)); repeat constructor; lia.
Qed.

(** Two hexadecimal digits for every byte. *)
Lemma Sprintf_02X_unhex c : 0 <= c < 256 -> exists a b h l, Sprintf_02X c = [a; b] /\ unhex a = Some h /\ unhex b = Some l /\ h * 16 + l = c.
Proof.
  intros Hc. pose (ok := fun c => match Sprintf_02X c with
    | [a; b] => match unhex a, unhex b with Some h, Some l => h * 16 + l =? c | _, _ => false end
    | _ => false
    end).
  assert (Hall : forallb ok (seqZ 0 256) = true) by (vm_compute; done).
  rewrite forallb_forall in Hall. specialize (Hall c). rewrite <- list_elem_of_In, elem_of_seqZ in Hall. specialize (Hall ltac:(lia)).
  unfold ok in Hall. destruct (Sprintf_02X c) as [|a [|b [|]]]; try done.
  destruct (unhex a) as [h|] eqn:?, (unhex b) as [l|] eqn:?; try done. apply Z.eqb_eq in Hall. by exists a, b, h, l.
Qed.

Section escape_spec.
Context (IsPrint : Z -> bool).
(** The runes that survive: printable ones and the ASCII control characters. *)
Definition safe_rune (c : Z) : Prop := valid_rune c /\ (IsPrint c = true \/ c < 128).

Lemma unescape_rune c s : safe_rune c -> PathUnescape (escape_rune IsPrint c ++ s) = app (encode_rune c) <$> PathUnescape s.
Proof.
  intros [Hv Hs]. unfold escape_rune. destruct (Z.eqb_spec c 37) as [->|Hne]; [cbn; by destruct (PathUnescape s)|].
  destruct (IsPrint c); [by apply unescape_plain, encode_rune_plain|]. destruct Hs as [|Hlt]; [done|]. destruct Hv as [? _].
  destruct (Sprintf_02X_unhex c) as (a & b & h & l & -> & Ea & Eb & E); [lia|]. cbn [app PathUnescape]. rewrite Ea, Eb, E.
  unfold encode_rune. rewrite (proj2 (in_range_true 0 127 c)) by lia. by destruct (PathUnescape s).
Qed.

Lemma unescape_escape cs :
  Forall safe_rune cs -> PathUnescape (xattrEscape IsPrint (flat_map encode_rune cs)) = Some (flat_map encode_rune cs).
Proof.
  intros Hcs. unfold xattrEscape. rewrite runes_encode by (eapply Forall_impl; [done|]; by intros c [? _]).
  induction Hcs as [|c cs Hc _ IH]; [done|]. cbn [flat_map]. rewrite unescape_rune by done. by rewrite IH.
Qed.
End escape_spec.
(** ** Metadata maps *)

(** Rewriting keys and values of a map one entry at a time. *)
Lemma lookup_rekey (f : text -> text -> option (text * text)) (m : gmap text text) :
  (forall k1 v1 k2 v2 k' w1 w2, m !! k1 = Some v1 -> m !! k2 = Some v2 ->
     f k1 v1 = Some (k', w1) -> f k2 v2 = Some (k', w2) -> k1 = k2) ->
  forall k' w, rekey f m !! k' = Some w
    <-> exists k v, m !! k = Some v /\ f k v = Some (k', w).
Proof.
  unfold rekey. revert m. apply (map_fold_weak_ind (fun (acc m : gmap text text) =>
    (forall k1 v1 k2 v2 k' w1 w2, m !! k1 = Some v1 -> m !! k2 = Some v2 ->
       f k1 v1 = Some (k', w1) -> f k2 v2 = Some (k', w2) -> k1 = k2) ->
    forall k' w, acc !! k' = Some w <-> exists k v, m !! k = Some v /\ f k v = Some (k', w))).
  - intros _ k' w. rewrite lookup_empty. split; [done|]. intros (k & v & Hk & _). by rewrite lookup_empty in Hk.
  - intros k v m acc Hk IH Hinj k' w.
    assert (Hinj' : forall k1 v1 k2 v2 k' w1 w2, m !! k1 = Some v1 -> m !! k2 = Some v2 ->
       f k1 v1 = Some (k', w1) -> f k2 v2 = Some (k', w2) -> k1 = k2).
    { intros k1 v1 k2 v2 k'' w1 w2 H1 H2. apply Hinj; rewrite lookup_insert_ne by congruence; done. }
    specialize (IH Hinj').
    assert (Hm : (exists k0 v0, <[k:=v]> m !! k0 = Some v0 /\ f k0 v0 = Some (k', w)) <->
      f k v = Some (k', w) \/ exists k0 v0, m !! k0 = Some v0 /\ f k0 v0 = Some (k', w)).
    { split.
      - intros (k0 & v0 & [[<- <-]|[? ?]]%lookup_insert_Some & Ef); [by left|right; eauto].
      - intros [Ef|(k0 & v0 & H0 & Ef)]; [exists k, v; by rewrite lookup_insert_eq|].
        exists k0, v0. by rewrite lookup_insert_ne by congruence. }
    rewrite Hm, <- IH. destruct (f k v) as [[k1 w1]|] eqn:Ef; [|by split; [right|intros [|]]].
    rewrite lookup_insert_Some. split; [intros [[<- <-]|[? ?]]; [by left|by right]|].
    intros [[= -> ->]|Hacc]; [by left|]. right. split; [|done]. intros ->. apply IH in Hacc as (k0 & v0 & H0 & Ef0).
    assert (k = k0) as -> by (eapply Hinj; [apply lookup_insert_eq|rewrite lookup_insert_ne by congruence; done|done..]). congruence.
Qed.

Section metadata.
Context (IsPrint : Z -> bool) (ToLower : text -> text).
(** [strings.ToLower] maps the ASCII letters. *)
Definition lower_byte (b : Z) : Z := if in_range 65 90 b then b + 32 else b.
Definition ToLower_ascii : Prop := forall s, Forall (fun b => 0 <= b < 128) s -> ToLower s = lower_byte <$> s.

(** A key in ASCII without capital letters, which the backends preserve. *)
Definition plain_key (k : text) : Prop := Forall (fun b => 0 <= b < 128 /\ ~ 65 <= b <= 90) k.
Definition safe_text (v : text) : Prop := exists cs, v = flat_map encode_rune cs /\ Forall (safe_rune IsPrint) cs.

Lemma ascii_valid c : 0 <= c < 128 -> valid_rune c /\ encode_rune c = [c].
Proof. intros. unfold valid_rune, encode_rune. rewrite (proj2 (in_range_true 0 127 c)) by lia. split; [lia|done]. Qed.

Lemma ascii_text s : Forall (fun b => 0 <= b < 128) s -> flat_map encode_rune s = s /\ runes s = s.
Proof.
  intros Hs. assert (E : flat_map encode_rune s = s).
  { induction Hs as [|b s Hb _ IH]; [done|]. cbn. rewrite IH. by destruct (ascii_valid b Hb) as [_ ->]. }
  split; [done|]. rewrite <- E at 1. apply runes_encode. eapply Forall_impl; [done|]. intros b Hb. by apply ascii_valid.
Qed.

(** What becomes of one character of a key: escaped, converted to lower case and unescaped again. *)
Lemma unescape_key_char c s :
  0 <= c < 128 -> ~ 65 <= c <= 90 ->
  Forall (fun b => 0 <= b < 128) (escape_rune IsPrint c) /\
  (lower_byte <$> (lower_byte <$> escape_rune IsPrint c)) = (lower_byte <$> escape_rune IsPrint c) /\
  PathUnescape ((lower_byte <$> escape_rune IsPrint c) ++ s) = cons c <$> PathUnescape s.
Proof.
  intros Hc Hup. unfold escape_rune. destruct (Z.eqb_spec c 37) as [->|Hne].
  { split; [|split; [done|cbn; by destruct (PathUnescape s)]]. cbn. rewrite !Forall_cons. split_and!; (lia || by constructor). }
  destruct (IsPrint c).
  { destruct (ascii_valid c Hc) as [_ ->]. assert (Hl : lower_byte c = c) by (unfold lower_byte; by rewrite (proj2 (in_range_false 65 90 c))).
    cbn [fmap list_fmap]. rewrite !Hl. split_and!; [repeat constructor; lia|done|]. apply (unescape_plain [c]). by repeat constructor. }
  pose (ok := fun c => match Sprintf_02X c with
    | [a; b] => forallb (fun x => in_range 0 127 x && (lower_byte (lower_byte x) =? lower_byte x)) [a; b] &&
                match unhex (lower_byte a), unhex (lower_byte b) with Some h, Some l => h * 16 + l =? c | _, _ => false end
    | _ => false
    end).
  assert (Hall : forallb ok (seqZ 0 128) = true) by (vm_compute; done).
  rewrite forallb_forall in Hall. specialize (Hall c). rewrite <- list_elem_of_In, elem_of_seqZ in Hall. specialize (Hall ltac:(lia)).
  unfold ok in Hall. destruct (Sprintf_02X c) as [|a [|b [|]]]; try done. apply andb_true_iff in Hall as [Hf Hu].
  cbn [forallb] in Hf. rewrite !andb_true_iff, !in_range_true, !Z.eqb_eq in Hf. destruct Hf as ([? ?] & [? ?] & _).
  destruct (unhex (lower_byte a)) as [h|] eqn:Ea, (unhex (lower_byte b)) as [l|] eqn:Eb; try done. apply Z.eqb_eq in Hu.
  cbn [fmap list_fmap]. change (lower_byte 37) with 37. split; [|split].
  2: { change (lower_byte 37) with 37. congruence. }
  { rewrite !Forall_cons. split_and!; (lia || by constructor). }
  cbn [app PathUnescape]. rewrite Ea, Eb, Hu. by destruct (PathUnescape s).
Qed.

Lemma unescape_key k : ToLower_ascii -> plain_key k -> PathUnescape (ToLower (ToLower (xattrEscape IsPrint k))) = Some k.
Proof.
  intros Hlow Hk. unfold xattrEscape. rewrite (proj2 (ascii_text k ltac:(eapply Forall_impl; [done|]; by intros b [? _]))).
  assert (Hg : Forall (fun b => 0 <= b < 128) (flat_map (escape_rune IsPrint) k) /\
    (lower_byte <$> (lower_byte <$> flat_map (escape_rune IsPrint) k)) = (lower_byte <$> flat_map (escape_rune IsPrint) k) /\
    PathUnescape (lower_byte <$> flat_map (escape_rune IsPrint) k) = Some k).
  { induction Hk as [|c k [Hc Hup] _ (IH1 & IH2 & IH3)]; [done|]. cbn [flat_map].
    destruct (unescape_key_char c (lower_byte <$> flat_map (escape_rune IsPrint) k) Hc Hup) as (H1 & H2 & H3).
    rewrite !fmap_app, H2, IH2, H3, IH3. split_and!; [by apply Forall_app|done|done]. }
  destruct Hg as (H1 & H2 & H3). rewrite (Hlow _ H1), Hlow, H2; [done|].
  apply Forall_fmap. eapply Forall_impl; [done|]. intros b Hb. cbn. unfold lower_byte. destruct (in_range 65 90 b) eqn:E; [|done].
  apply in_range_true in E. lia.
Qed.

(** Metadata written to the server and read back. *)
Lemma unescape_escape_metadata (m : gmap text text) :
  ToLower_ascii -> (forall k v, m !! k = Some v -> plain_key k /\ safe_text v) ->
  unescapeMetadata ToLower (default ∅ (escapeMetadata IsPrint ToLower (Some m))) = m.
Proof.
  intros Hlow Hm. cbn [escapeMetadata fmap option_fmap option_map default]. set (e := rekey _ m).
  assert (He : forall k' w, e !! k' = Some w <->
    exists k v, m !! k = Some v /\ Some (ToLower (xattrEscape IsPrint k), xattrEscape IsPrint v) = Some (k', w)).
  { apply lookup_rekey. intros k1 v1 k2 v2 k' w1 w2 H1 H2 [= E1 _] [= E2 _].
    pose proof (unescape_key k1 Hlow (proj1 (Hm _ _ H1))). pose proof (unescape_key k2 Hlow (proj1 (Hm _ _ H2))). congruence. }
  assert (Hentry : forall k v, m !! k = Some v ->
    PathUnescape (ToLower (ToLower (xattrEscape IsPrint k))) = Some k /\ PathUnescape (xattrEscape IsPrint v) = Some v).
  { intros k v Hk. destruct (Hm k v Hk) as [? (cs & -> & ?)]. by rewrite unescape_key, unescape_escape. }
  apply map_eq. intros k. apply option_eq. intros v. unfold unescapeMetadata. rewrite lookup_rekey.
  - setoid_rewrite He. split.
    + intros (k' & w & (k0 & v0 & H0 & [= <- <-]) & E). destruct (Hentry _ _ H0) as [E1 E2]. rewrite E1, E2 in E. by injection E as <- <-.
    + intros Hk. destruct (Hentry _ _ Hk) as [E1 E2]. exists (ToLower (xattrEscape IsPrint k)), (xattrEscape IsPrint v). rewrite E1, E2. eauto.
  - intros k1 v1 k2 v2 k' w1 w2. rewrite !He. intros (k1' & v1' & H1 & [= <- <-]) (k2' & v2' & H2 & [= <- <-]) E1 E2.
    destruct (Hentry _ _ H1) as [F1 F2], (Hentry _ _ H2) as [G1 G2]. rewrite F1, F2 in E1. rewrite G1, G2 in E2. congruence.
Qed.
End metadata.
End Encoding.

Module Attrs.
Import Encoding.

(** Times are Unix times in seconds; this is the zero [time.Time]. *)
Definition zero_time : Z := -62135596800.

(** ** Modes, [os.FileMode] *)

Definition ModePerm : Z := 511.
Definition ModeDir : Z := Z.shiftl 1 31.
Definition ModeSymlink : Z := Z.shiftl 1 27.
Definition ModeDevice : Z := Z.shiftl 1 26.
Definition ModeNamedPipe : Z := Z.shiftl 1 25.
Definition ModeSocket : Z := Z.shiftl 1 24.
Definition ModeCharDevice : Z := Z.shiftl 1 21.
Definition ModeIrregular : Z := Z.shiftl 1 19.
Definition ModeType : Z :=
  Z.lor ModeDir (Z.lor ModeSymlink (Z.lor ModeNamedPipe (Z.lor ModeSocket (Z.lor ModeDevice (Z.lor ModeCharDevice ModeIrregular))))).

(** The options of [cfg.FlagStorage] about attributes. *)
Record AttrFlags := mkAttrFlags {
  EnableMtime : bool; EnablePerms : bool; EnableSpecials : bool;
  MtimeAttr : text; UidAttr : text; GidAttr : text; FileModeAttr : text; RdevAttr : text; SymlinkAttr : text;
  flag_Uid : Z; flag_Gid : Z; FileMode : Z; DirMode : Z;
}.

(** [InodeAttributes] without the size, and the metadata of [Inode]; [None] is a nil map. *)
Record t := mk {
  Mtime : Z; Ctime : Z; Uid : Z; Gid : Z; Mode : Z; Rdev : Z;
  userMetadata : option (gmap text text); userMetadataDirty : Z; s3Metadata : gmap text text;
}.
Definition set_times (m c : Z) (a : t) : t := mk m c (Uid a) (Gid a) (Mode a) (Rdev a) (userMetadata a) (userMetadataDirty a) (s3Metadata a).
Definition set_Mtime (m : Z) (a : t) : t := set_times m (Ctime a) a.
Definition set_Uid (u : Z) (a : t) : t := mk (Mtime a) (Ctime a) u (Gid a) (Mode a) (Rdev a) (userMetadata a) (userMetadataDirty a) (s3Metadata a).
Definition set_Gid (g : Z) (a : t) : t := mk (Mtime a) (Ctime a) (Uid a) g (Mode a) (Rdev a) (userMetadata a) (userMetadataDirty a) (s3Metadata a).
Definition set_Mode (m : Z) (a : t) : t := mk (Mtime a) (Ctime a) (Uid a) (Gid a) m (Rdev a) (userMetadata a) (userMetadataDirty a) (s3Metadata a).
Definition set_Rdev (r : Z) (a : t) : t := mk (Mtime a) (Ctime a) (Uid a) (Gid a) (Mode a) r (userMetadata a) (userMetadataDirty a) (s3Metadata a).
Definition set_meta (m : option (gmap text text)) (d : Z) (a : t) : t := mk (Mtime a) (Ctime a) (Uid a) (Gid a) (Mode a) (Rdev a) m d (s3Metadata a).
Definition set_userMetadataDirty (d : Z) (a : t) : t := set_meta (userMetadata a) d a.
Definition set_s3 (m : gmap text text) (a : t) : t := mk (Mtime a) (Ctime a) (Uid a) (Gid a) (Mode a) (Rdev a) (userMetadata a) (userMetadataDirty a) m.

(** [HeadBlobOutput], the fields that are used. *)
Record Head := mkHead { h_ETag : option text; h_StorageClass : option text; h_Metadata : gmap text text }.

Section attrs.
Context (flags : AttrFlags).
(** [strings.ToLower]; the conversions between the file modes of Go and of the kernel, [fuseops]. *)
Context (ToLower : text -> text) (ConvertFileMode ConvertGoMode : Z -> Z).

Definition parsed (bitSize : Z) (v : option text) : option Z :=
  match v with
  | None => None
  | Some s => let '(i, ok) := ParseUint s bitSize in if ok : bool then Some i else None
  end.

Definition setMetadata (metadata : gmap text text) (a0 : t) : t :=
  let m := unescapeMetadata ToLower metadata in
  let a := set_meta (Some m) (userMetadataDirty a0) a0 in
  let a := if EnableMtime flags then
             match parsed 64 (m !! MtimeAttr flags) with Some i => set_Mtime i a | None => a end
           else a in
  let a := if EnablePerms flags then
             let a := match parsed 32 (m !! UidAttr flags) with Some i => set_Uid i a | None => a end in
             match parsed 32 (m !! GidAttr flags) with Some i => set_Gid i a | None => a end
           else a in
  if EnablePerms flags || EnableSpecials flags then
    match parsed 32 (m !! FileModeAttr flags) with
    | None => a
    | Some i =>
      let fm := ConvertFileMode i in
      let mask := if EnablePerms flags then ModePerm else 0 in
      let mask := if EnableSpecials flags && (Z.land (Mode a) ModeType =? 0) then Z.lor mask ModeType else mask in
      let rmMask := Z.lxor (Z.lor ModePerm ModeType) mask in
      let a := set_Mode (Z.lor (Z.land (Mode a) rmMask) (Z.land fm mask)) a in
      if negb (Z.land (Mode a) ModeDevice =? 0)
      then set_Rdev (ParseUint (default [] (m !! RdevAttr flags)) 32).1 a else a
    end
  else a.

Definition fillXattrFromHead (resp : Head) (a : t) : t :=
  let a := match h_ETag resp with Some e => set_s3 (<[txt "etag" := e]> (s3Metadata a)) a | None => a end in
  let a := set_s3 (<[txt "storage-class" := default (txt "STANDARD") (h_StorageClass resp)]> (s3Metadata a)) a in
  setMetadata (h_Metadata resp) a.

(** [fuseops.InodeAttributes] *)
Record Inflated := mkInflated {
  i_Size : Z; i_Atime : Z; i_Mtime : Z; i_Ctime : Z; i_Crtime : Z; i_Uid : Z; i_Gid : Z; i_Mode : Z; i_Rdev : Z; i_Nlink : Z;
}.
Definition InflateAttributes (rootMtime size : Z) (isDir : bool) (a : t) : Inflated :=
  let mtime := if Mtime a =? zero_time then rootMtime else Mtime a in
  let '(nlink, mode) :=
    if isDir then (2, Z.lor (Z.land (Mode a) ModePerm) ModeDir)
    else if bool_decide (is_Some (default ∅ (userMetadata a) !! SymlinkAttr flags))
    then (1, Z.lor (Z.land (Mode a) ModePerm) ModeSymlink)
    else (1, Mode a) in
  mkInflated size (Ctime a) mtime (Ctime a) mtime (Uid a) (Gid a) mode (Rdev a) nlink.
End attrs.
End Attrs.
