(* ===== verification/Names.v ===== *)
(** * Names and their order

    Names of directory entries and keys of objects are byte strings, compared
    byte by byte as Go does.  [Search] is [sort.Search] of the Go library; the
    rest are the string functions of [core/dir.go]. *)

From stdpp Require Import strings.
From S2P Require Import Prelude Errors Attrs.

Module Names.
Implicit Types (a b s : text) (x y c : Z).

(** The character /. *)
Definition slash : Z := 47.
Definition dot : Z := 46.

(** ** The order of strings *)

(** [a < b] *)
Fixpoint text_ltb a b : bool :=
  match a, b with
  | _, [] => false
  | [], _ :: _ => true
  | x :: a', y :: b' => (x <? y) || ((x =? y) && text_ltb a' b')
  end.
(** [a >= b] *)
Definition text_geb a b : bool := negb (text_ltb a b).
Definition text_lt a b : Prop := text_ltb a b = true.
Definition text_le a b : Prop := text_ltb b a = false.

Lemma lt_irrefl a : ~ text_lt a a.
Proof. unfold text_lt. induction a as [|x a IH]; cbn; [done|]. rewrite Z.ltb_irrefl, Z.eqb_refl. done. Qed.
(** Where two strings differ first. *)
Lemma lt_split a b :
  text_lt a b <-> exists p, (exists y s, a = p /\ b = p ++ y :: s) \/ (exists x y s s', a = p ++ x :: s /\ b = p ++ y :: s' /\ x < y).
Proof.
  unfold text_lt. revert b. induction a as [|x a IH]; intros [|y b]; cbn.
  - split; [done|]. by intros ([|? p] & [(y & s & E1 & E2)|(x & y & s & s' & E1 & E2 & _)]).
  - split; [|done]. intros _. exists []. left. by exists y, b.
  - split; [done|]. by intros ([|? p] & [(y & s & E1 & E2)|(x' & y & s & s' & E1 & E2 & _)]).
  - rewrite orb_true_iff, andb_true_iff, Z.ltb_lt, Z.eqb_eq, IH. split.
    + intros [?|[-> (p & Hp)]].
      * exists []. right. by exists x, y, a, b.
      * exists (y :: p). destruct Hp as [(y' & s & -> & ->)|(x' & y' & s & s' & -> & -> & ?)]; [left; by exists y', s|right; by exists x', y', s, s'].
    + intros ([|z p] & [(y' & s & E1 & E2)|(x' & y' & s & s' & E1 & E2 & ?)]); cbn in *; simplify_eq; [by left|right; split; [done|]..].
      * exists p. left. by exists y', s.
      * exists p. right. by exists x', y', s, s'.
Qed.
Lemma lt_trans a b (c : text) : text_lt a b -> text_lt b c -> text_lt a c.
Proof.
  unfold text_lt. revert b c. induction a as [|x a IH]; intros [|y b] [|z c]; cbn; try done.
  rewrite !orb_true_iff, !andb_true_iff, !Z.ltb_lt, !Z.eqb_eq. intros [?|[-> ?]] [?|[-> ?]]; [left; lia..|right; eauto].
Qed.
Lemma lt_total a b : text_lt a b \/ a = b \/ text_lt b a.
Proof.
  unfold text_lt. revert b. induction a as [|x a IH]; intros [|y b]; cbn; auto.
  rewrite !orb_true_iff, !andb_true_iff, !Z.ltb_lt, !Z.eqb_eq.
  destruct (Z.lt_total x y) as [?|[-> |?]]; auto. destruct (IH b) as [?|[-> |?]]; auto.
Qed.
Lemma le_iff a b : text_le a b <-> text_lt a b \/ a = b.
Proof.
  unfold text_le. split.
  - intros Hn. destruct (lt_total a b) as [?|[?|H]]; [by left|by right|]. unfold text_lt in H. congruence.
  - intros [H|<-]; apply not_true_iff_false; intros H'; [|by apply (lt_irrefl a)]. by apply (lt_irrefl a), (lt_trans _ b).
Qed.
Lemma le_refl a : text_le a a.
Proof. apply le_iff. by right. Qed.
Lemma lt_le a b : text_lt a b -> text_le a b.
Proof. intros. apply le_iff. by left. Qed.
Lemma le_trans a b (c : text) : text_le a b -> text_le b c -> text_le a c.
Proof. rewrite !le_iff. intros [?|<-] [?|<-]; eauto using lt_trans. Qed.
Lemma lt_le_trans a b (c : text) : text_lt a b -> text_le b c -> text_lt a c.
Proof. rewrite le_iff. intros ? [?|<-]; eauto using lt_trans. Qed.
Lemma le_lt_trans a b (c : text) : text_le a b -> text_lt b c -> text_lt a c.
Proof. rewrite le_iff. intros [?|<-] ?; eauto using lt_trans. Qed.
Lemma lt_app p a b : text_lt (p ++ a) (p ++ b) <-> text_lt a b.
Proof. unfold text_lt. induction p as [|x p IH]; cbn; [done|]. by rewrite Z.ltb_irrefl, Z.eqb_refl. Qed.
Lemma le_app_r a s : text_le a (a ++ s).
Proof.
  unfold text_le. induction a as [|x a IH]; cbn; [by destruct s|]. by rewrite Z.ltb_irrefl, Z.eqb_refl.
Qed.
Lemma nle_lt a b : ~ text_le a b -> text_lt b a.
Proof. intros H. destruct (lt_total a b) as [?|[-> |?]]; [destruct H; by apply lt_le|destruct H; by apply le_refl|done]. Qed.
Lemma lt_nle a b : text_lt a b -> ~ text_le b a.
Proof. unfold text_lt, text_le. congruence. Qed.
Lemma nlt_le a b : ~ text_lt a b -> text_le b a.
Proof. unfold text_lt, text_le. by destruct (text_ltb a b). Qed.
#[export] Instance lt_dec a b : Decision (text_lt a b).
Proof. unfold text_lt. apply _. Defined.
#[export] Instance le_dec a b : Decision (text_le a b).
Proof. unfold text_le. apply _. Defined.
#[export] Instance lt_transitive : Transitive text_lt.
Proof. intros a b c. apply lt_trans. Qed.

(** ** [sort.Search] *)

(** Binary search in [i, j) for the first index at which [f] holds; the interval shrinks in every turn. *)
Fixpoint Search_loop (fuel : nat) (f : Z -> bool) (i j : Z) : Z :=
  match fuel with
  | O => i
  | S fuel' => if i <? j then
                 let h := (i + j) / 2 in
                 if f h then Search_loop fuel' f i h else Search_loop fuel' f (h + 1) j
               else i
  end.
Definition Search (n : Z) (f : Z -> bool) : Z := Search_loop (Z.to_nat n) f 0 n.

Lemma Search_loop_spec f n fuel i j :
  0 <= i <= j -> j <= n -> j - i <= Z.of_nat fuel -> (i = 0 \/ f (i - 1) = false) -> (j = n \/ f j = true) ->
  let k := Search_loop fuel f i j in i <= k <= j /\ (k = 0 \/ f (k - 1) = false) /\ (k = n \/ f k = true).
Proof.
  revert i j. induction fuel as [|fuel IH]; intros i j Hij Hj Hf Hi Hjn; cbn [Search_loop].
  { assert (i = j) as -> by lia. auto with lia. }
  destruct (Z.ltb_spec i j); [|assert (i = j) as -> by lia; auto with lia].
  assert (i <= (i + j) / 2 < j) as Hh by (split; [apply Z.div_le_lower_bound|apply Z.div_lt_upper_bound]; lia).
  destruct (f ((i + j) / 2)) eqn:Ef.
  - destruct (IH i ((i + j) / 2)) as (? & ? & ?); try lia; auto. split_and!; auto; lia.
  - destruct (IH ((i + j) / 2 + 1) j) as (? & ? & ?); try lia; auto; [right; by replace (_ + 1 - 1) with ((i + j) / 2) by lia|].
    split_and!; auto; lia.
Qed.
Lemma Search_spec f n : 0 <= n ->
  let k := Search n f in 0 <= k <= n /\ (k = 0 \/ f (k - 1) = false) /\ (k = n \/ f k = true).
Proof. intros. apply (Search_loop_spec f n); auto; lia. Qed.

(** The index of the first of the sorted names that is at least [name], as
    [findInodeFunc] asks for it; for an empty name this is the first one. *)
Definition search_name (names : list text) (name : text) : Z :=
  Search (zlen names) (fun i => if bool_decide (name = []) then true else match znth names i with Some n => text_geb n name | None => true end).

(** Names of the entries of a directory: in order, and no name twice. *)
Abbreviation sorted := (StronglySorted text_lt).

Lemma sorted_lookup names (i j : nat) a b : sorted names -> names !! i = Some a -> names !! j = Some b -> (i < j)%nat -> text_lt a b.
Proof.
  intros Hs. revert i j. induction Hs as [|n names _ IH Hn]; intros [|i] [|j]; cbn; try done; try lia.
  - intros [= ->] Hj _. by eapply Forall_lookup_1.
  - intros ? ? ?. eapply IH; eauto. lia.
Qed.
Lemma sorted_app names1 names2 :
  sorted (names1 ++ names2) <-> sorted names1 /\ sorted names2 /\ (forall a b, a ∈ names1 -> b ∈ names2 -> text_lt a b).
Proof.
  induction names1 as [|n names1 IH]; cbn.
  - split; [intros; split_and!; [constructor|done|by intros ? ? ?%elem_of_nil]|by intros (_ & ? & _)].
  - split.
    + intros [Hs Hf]%StronglySorted_inv. apply IH in Hs as (? & ? & Hlt). rewrite Forall_app in Hf. destruct Hf as [Hf1 Hf2].
      split_and!; [by constructor|done|]. intros a b [-> |Ha]%elem_of_cons Hb; [|by apply Hlt]. rewrite Forall_forall in Hf2. by apply Hf2.
    + intros ([? ?]%StronglySorted_inv & ? & Hlt). constructor; [apply IH; split_and!; try done; intros; apply Hlt; [by right|done]|].
      apply Forall_app. split; [done|]. apply Forall_forall. intros b Hb. apply Hlt; [by left|done].
Qed.
Lemma sorted_NoDup names : sorted names -> NoDup names.
Proof.
  induction 1 as [|n names _ IH Hn]; constructor; [|done]. intros Hin. rewrite Forall_forall in Hn. by apply (lt_irrefl n), Hn.
Qed.

(** In sorted names the search splits them into those before and those not before. *)
Lemma search_name_split names name : sorted names -> name <> [] ->
  exists l1 l2, names = l1 ++ l2 /\ search_name names name = zlen l1 /\ (forall a, a ∈ l1 -> text_lt a name) /\ (forall a, a ∈ l2 -> text_le name a).
Proof.
  intros Hs Hne. unfold search_name. rewrite bool_decide_false by done.
  match goal with |- context [Search _ ?f] => destruct (Search_spec f (zlen names)) as (Hk & Hlo & Hhi); [apply zlen_nonneg|set (k := Search (zlen names) f) in *] end.
  exists (take (Z.to_nat k) names), (drop (Z.to_nat k) names). split_and!.
  - by rewrite take_drop.
  - unfold zlen in *. rewrite length_take. lia.
  - intros a [j Hj]%list_elem_of_lookup. apply lookup_take_Some in Hj as [Hj ?]. destruct Hlo as [?|Hlo]; [lia|].
    destruct (znth names (k - 1)) as [n|] eqn:En; [|done]. unfold text_geb in Hlo. apply negb_false_iff in Hlo.
    unfold znth in En. case_decide; [|done]. destruct (decide (j = Z.to_nat (k - 1))) as [-> |]; [by rewrite Hj in En; simplify_eq|].
    eapply lt_trans; [|exact Hlo]. eapply sorted_lookup; [done|exact Hj|exact En|lia].
  - intros a [j Hj]%list_elem_of_lookup. rewrite lookup_drop in Hj. apply lookup_lt_Some in Hj as Hl. destruct Hhi as [?|Hhi]; [unfold zlen in *; lia|].
    destruct (znth_Some names k) as [n En]; [unfold zlen in *; lia|]. rewrite En in Hhi. unfold text_geb in Hhi. apply negb_true_iff in Hhi.
    unfold znth in En. case_decide; [|done]. destruct j as [|j]; [rewrite Nat.add_0_r in Hj; rewrite Hj in En; by simplify_eq|].
    eapply le_trans; [exact Hhi|]. apply lt_le. eapply sorted_lookup; [done|exact En|exact Hj|lia].
Qed.
(** ** String functions *)

Fixpoint has_prefix (p s : text) : bool :=
  match p, s with
  | [], _ => true
  | x :: p', y :: s' => (x =? y) && has_prefix p' s'
  | _ :: _, [] => false
  end.
(** [strings.Index]: the first position of [sub], or -1. *)
Fixpoint Index_from (sub s : text) (i : Z) : Z :=
  if has_prefix sub s then i
  else match s with
       | [] => -1
       | _ :: s' => Index_from sub s' (i + 1)
       end.
Definition Index (s sub : text) : Z := Index_from sub s 0.

Definition appendChildName (parent child : text) : text :=
  if bool_decide (parent = []) then child else parent ++ [slash] ++ child.

Definition isInvalidName (name : text) : bool :=
  match name with [] => true | c :: _ => c =? slash end
  || (2 <=? zlen name) && (bool_decide (slice 0 2 name = txt "./") || bool_decide (slice (zlen name - 2) (zlen name) name = txt "/."))
  || (3 <=? zlen name) && (bool_decide (slice 0 3 name = txt "../") || bool_decide (slice (zlen name - 3) (zlen name) name = txt "/.."))
  || (0 <=? Index name (txt "//"))
  || (0 <=? Index name (txt "/./"))
  || (0 <=? Index name (txt "/../")).

(** The first loop of [locateLtSlash]: what is left after any slashes, and its position. *)
Fixpoint skip_slashes (s : text) (i : Z) : text * Z :=
  match s with
  | c :: s' => if c =? slash then skip_slashes s' (i + 1) else (s, i)
  | [] => ([], i)
  end.
(** The second loop. *)
Fixpoint find_lt_slash (s : text) (i : Z) : Z :=
  match s with
  | [] => -1
  | c :: s' => if c <? slash then i else find_lt_slash s' (i + 1)
  end.
Definition locateLtSlash (inp : text) (prefixLen : Z) : Z :=
  let '(s, i) := skip_slashes (drop (Z.to_nat prefixLen) inp) prefixLen in
  (* first character < / doesn't matter, because directory names can't start with / *)
  find_lt_slash (tail s) (i + 1).

Definition prefixLarger (s1 s2 : text) (pos : Z) : outcome bool :=
  if zlen s1 <? pos then Panic SliceOutOfRange
  else
    let s1 := take (Z.to_nat pos) s1 in
    if (pos <? zlen s2) && text_ltb s1 (take (Z.to_nat pos) s2) || (zlen s2 <=? pos) && text_ltb s1 s2 then Ok true
    else if (pos + 1 <=? zlen s2) && bool_decide (s1 = take (Z.to_nat pos) s2)
            && match znth s2 pos with Some c => slash <? c | None => false end then Ok true
    else Ok false.

Lemma has_prefix_iff p s : has_prefix p s = true <-> exists s', s = p ++ s'.
Proof.
  revert s. induction p as [|x p IH]; intros s; cbn; [split; eauto|]. destruct s as [|y s]; [split; [done|by intros [? ?]]|].
  rewrite andb_true_iff, Z.eqb_eq, IH. split; [intros [-> [s' ->]]; by exists s'|intros [s' ?]; simplify_eq; eauto].
Qed.
Lemma Index_from_spec sub s i : 0 <= i ->
  match Z.eq_dec (Index_from sub s i) (-1) with
  | left _ => forall p s', s <> p ++ sub ++ s'
  | right _ => exists p s', s = p ++ sub ++ s' /\ Index_from sub s i = i + zlen p /\ forall q s'', s = q ++ sub ++ s'' -> zlen p <= zlen q
  end.
Proof.
  revert i. induction s as [|c s IH]; intros i Hi; cbn [Index_from]; destruct (has_prefix sub _) eqn:E.
  1,3: destruct (Z.eq_dec _ _); [lia|]; apply has_prefix_iff in E as [s' E]; exists [], s'; split_and!; [done|unfold zlen; cbn; lia|intros; unfold zlen; cbn; lia].
  - cbn. intros p s' Hs. assert (has_prefix sub [] = true); [|congruence]. apply has_prefix_iff. exists []. destruct p, sub; done.
  - specialize (IH (i + 1) ltac:(lia)). destruct (Z.eq_dec _ _) as [Eq|Eq].
    + intros [|y p] s' Hs; [|simplify_eq/=; by eapply IH]. assert (has_prefix sub (c :: s) = true); [|congruence]. apply has_prefix_iff. by exists s'.
    + destruct IH as (p & s' & -> & -> & Hmin). exists (c :: p), s'. split_and!; [done|unfold zlen; cbn; lia|].
      intros [|y q] s'' Hs; [exfalso|simplify_eq/=; specialize (Hmin _ _ H0); unfold zlen in *; cbn; lia].
      assert (has_prefix sub (c :: p ++ sub ++ s') = true); [|congruence]. apply has_prefix_iff. by exists s''.
Qed.

(** [locateLtSlash] finds the first character less than / after the first
    character of a name that follows a prefix of length [n]. *)
Lemma find_lt_slash_spec s i : 0 <= i ->
  match Z.eq_dec (find_lt_slash s i) (-1) with
  | left _ => forall c, c ∈ s -> slash <= c
  | right _ => exists p c s', s = p ++ c :: s' /\ find_lt_slash s i = i + zlen p /\ c < slash /\ forall c, c ∈ p -> slash <= c
  end.
Proof.
  revert i. induction s as [|c s IH]; intros i Hi; cbn [find_lt_slash]; [cbn; by intros ? ?%elem_of_nil|].
  destruct (Z.ltb_spec c slash).
  - destruct (Z.eq_dec _ _); [lia|]. exists [], c, s. split_and!; [done|unfold zlen; cbn; lia|done|by intros ? ?%elem_of_nil].
  - specialize (IH (i + 1) ltac:(lia)). destruct (Z.eq_dec _ _).
    + intros c' [-> |?]%elem_of_cons; [done|by apply IH].
    + destruct IH as (p & c' & s' & -> & -> & ? & ?). exists (c :: p), c', s'. split_and!; [done|unfold zlen; cbn; lia|done|].
      intros c'' [-> |?]%elem_of_cons; auto.
Qed.
Lemma locate_name pre c s : c <> slash ->
  locateLtSlash (pre ++ c :: s) (zlen pre) = find_lt_slash s (zlen pre + 1).
Proof.
  intros Hc. unfold locateLtSlash, zlen. rewrite Nat2Z.id, drop_app_length. cbn [skip_slashes]. by rewrite (proj2 (Z.eqb_neq c slash)).
Qed.
Lemma locate_bound inp n : 0 <= n -> locateLtSlash inp n < zlen inp \/ zlen inp = 0 /\ locateLtSlash inp n = -1.
Proof.
  intros Hn. unfold locateLtSlash.
  assert (Hsk : forall s i, zlen (skip_slashes s i).1 + (skip_slashes s i).2 = zlen s + i).
  { induction s as [|c s IH]; intros i; cbn [skip_slashes]; [done|]. case_match; [rewrite IH; unfold zlen; cbn; lia|done]. }
  specialize (Hsk (drop (Z.to_nat n) inp) n). assert (Hp : forall s i, i <= (skip_slashes s i).2).
  { induction s as [|c s IH]; intros i; cbn [skip_slashes]; [done|]. case_match; [|done]. specialize (IH (i + 1)). lia. }
  specialize (Hp (drop (Z.to_nat n) inp) n). destruct (skip_slashes _ _) as [s i]. cbn in *.
  pose proof (find_lt_slash_spec (tail s) (i + 1) ltac:(lia)) as Hf. destruct (Z.eq_dec _ _) as [->|].
  - unfold zlen. destruct inp; [right; done|left; cbn; lia].
  - destruct Hf as (p & c & s' & Et & -> & _). left. unfold zlen in *. rewrite length_drop in Hsk. destruct s; [by destruct p|]. cbn in Et. subst.
    cbn in Hsk. rewrite length_app in Hsk. cbn in Hsk. lia.
Qed.
End Names.
