(* ===== verification/Listing.v ===== *)
(** * Pages of a listing

    What [core/dir.go] does with the pages of a listing before their entries
    become children: [intelligentListCut] cuts a page so that names appear in
    order across pages, [markGapLoaded] and [checkGapLoaded] remember which
    ranges of keys were listed, and the in-flight lists of [core/goofys.go] keep
    a listing from undoing changes that were made while it ran.  Pages are the
    answers of the storage server; what it is asked in addition is the argument
    [probe]. *)

From stdpp Require Import strings.
From S2P Require Import Prelude Errors Attrs Names.

Module Listing.
Import Names Errors.

(** [l[i]] *)
Definition index {A} (l : list A) (i : Z) : outcome A :=
  match znth l i with Some x => Ok x | None => Panic SliceOutOfRange end.

(** ** Cutting a page *)

Section page.
Context {A : Type}.

(** [ListBlobsOutput]: objects with their attributes, and common prefixes. *)
Record ListBlobsOutput := mkList { Items : list (text * A); Prefixes : list text; IsTruncated : bool }.

(** The larger of the last item and the last prefix before these positions, and whether it is a prefix. *)
Definition maxName (resp : ListBlobsOutput) (itemPos prefixPos : Z) : outcome (text * Z) :=
  letO! item :=
    (if 0 <? itemPos then
       letO! item := index (Items resp) (itemPos - 1) in
       if prefixPos =? 0 then Ok (Some item.1)
       else letO! p := index (Prefixes resp) (prefixPos - 1) in
            Ok (if text_ltb p item.1 then Some item.1 else None)
     else Ok None) in
  match item with
  | Some key => Ok (key, 0)
  | None => if prefixPos =? 0 then Ok ([], 0)
            else letO! p := index (Prefixes resp) (prefixPos - 1) in Ok (p, 1)
  end.

(** The loop of [intelligentListCut]: where to cut, and the last name before the cut. *)
Fixpoint cut_loop (fuel : nat) (resp : ListBlobsOutput) (prefixLen half itemPos prefixPos isPrefix : Z) (name : text) : outcome (option (Z * Z * text)) :=
  match fuel with
  | O => OutOfFuel
  | S fuel' =>
    if half <? itemPos + prefixPos then
      let prefixPos := prefixPos - isPrefix in
      let itemPos := itemPos - (1 - isPrefix) in
      letO! m := maxName resp itemPos prefixPos in
      let prev := m.1 in
      let ltPos := locateLtSlash prev prefixLen in
      letO! larger := (if ltPos <? 0 then Ok true else prefixLarger prev name ltPos) in
      (* No characters less than '/' => OK, stop *)
      if larger : bool then Ok (Some (itemPos, prefixPos, prev))
      else cut_loop fuel' resp prefixLen half itemPos prefixPos m.2 prev
    else Ok None
  end.

(** Larger than any key with a two- or three-byte character after the dot. *)
Definition probe_suffix : text := [dot; 239; 191; 189].

(** The page and the name to go on after.  [probe start] is the answer to a
    listing of one key after [start]. *)
Definition intelligentListCut (resp : ListBlobsOutput) (probe : text -> list text + error) (prefix : text)
  : outcome ((ListBlobsOutput * text) + error) :=
  if negb (IsTruncated resp) then Ok (inl (resp, []))
  else
    let itemPos := zlen (Items resp) in
    let prefixPos := zlen (Prefixes resp) in
    let count := itemPos + prefixPos in
    letO! m := maxName resp itemPos prefixPos in
    let lastName := m.1 in
    let lastLtPos := locateLtSlash lastName (zlen prefix) in
    if lastLtPos <? 0 then Ok (inl (resp, lastName))
    else
      letO! found := cut_loop (Z.to_nat count + 1) resp (zlen prefix) (count / 2) itemPos prefixPos m.2 lastName in
      match found with
      | Some (itemPos, prefixPos, prev) =>
        Ok (inl (mkList (take (Z.to_nat itemPos) (Items resp)) (take (Z.to_nat prefixPos) (Prefixes resp)) (IsTruncated resp), prev))
      | None =>
        (* Can't intelligently cut the list as more than 50% of it has the same prefix
           So, check for existence of the offending directory separately *)
        let dir := take (Z.to_nat lastLtPos) lastName in
        match probe (dir ++ probe_suffix) with
        | inr err => Ok (inr err)
        | inl [] => Ok (inl (resp, lastName))
        | inl (checkedName :: _) =>
          if (lastLtPos + 1 <=? zlen checkedName) && bool_decide (take (Z.to_nat (lastLtPos + 1)) checkedName = dir ++ [slash])
          then Ok (inl (mkList (Items resp) (Prefixes resp ++ [take (Z.to_nat (lastLtPos + 1)) checkedName]) (IsTruncated resp), lastName))
          else Ok (inl (resp, lastName))
        end
      end.

(** *** The entries of a page *)

Implicit Types (resp : ListBlobsOutput) (k n : text).
Definition keys resp : list text := map fst (Items resp).
Definition entries resp : list text := keys resp ++ Prefixes resp.

(** A key under the prefix of a directory, and the name it stands for: an object or a subdirectory. *)
Inductive entry (pre : text) : text -> text -> Prop :=
| entry_file n : n <> [] -> slash ∉ n -> entry pre (pre ++ n) n
| entry_dir n : n <> [] -> slash ∉ n -> entry pre (pre ++ n ++ [slash]) n.

(** A page of the listing of a directory, as the server documents it: sorted,
    and everything else that is [later] comes after it. *)
Record page_ok (pre : text) resp (later : text -> Prop) : Prop := {
  po_keys : sorted (keys resp);
  po_prefixes : sorted (Prefixes resp);
  po_disjoint : forall k, k ∈ keys resp -> k ∉ Prefixes resp;
  po_nonempty : forall e, e ∈ entries resp -> e <> [];
  po_later : forall k e, later k -> e ∈ entries resp -> text_lt e k;
}.

Lemma between k s : text_le k s -> text_lt s (k ++ [slash]) -> s = k \/ exists c s', s = k ++ c :: s' /\ c < slash.
Proof.
  rewrite le_iff. intros [Hlt| ->]; [|by left]. intros Hs. right. apply lt_split in Hlt as (p & [(y & s' & -> & ->)|(x & y & s1 & s2 & -> & -> & Hxy)]).
  - exists y, s'. split; [done|]. apply lt_app in Hs. unfold text_lt in Hs. cbn in Hs. rewrite orb_true_iff, andb_true_iff, Z.ltb_lt in Hs.
    destruct Hs as [?|[_ ?]]; [done|by destruct s'].
  - rewrite <- (assoc_L (++)) in Hs. apply lt_app in Hs. unfold text_lt in Hs. cbn in Hs. rewrite orb_true_iff, andb_true_iff, Z.ltb_lt, Z.eqb_eq in Hs. lia.
Qed.
(** A subdirectory that is listed after [last] although its name comes before
    some name up to [last] is a beginning of [last], followed by a character less than /. *)
Lemma misplaced pre last k n e m :
  entry pre k n -> entry pre e m -> text_le e last -> text_lt last k -> text_lt n m ->
  k = pre ++ n ++ [slash] /\ exists c s, last = pre ++ n ++ c :: s /\ c < slash.
Proof.
  intros Hk He Hle Hlt Hnm. assert (Hem : text_le (pre ++ m) e).
  { destruct He; [apply le_refl|]. rewrite (assoc_L (++)). apply le_app_r. }
  assert (Hn : text_lt (pre ++ n) last).
  { apply (lt_le_trans _ (pre ++ m)); [by apply lt_app|]. eapply le_trans; [exact Hem|exact Hle]. }
  destruct Hk as [n _ _|n _ _].
  - exfalso. apply (lt_irrefl last). by eapply lt_trans.
  - split; [done|]. rewrite (assoc_L (++)) in Hlt. destruct (between (pre ++ n) last) as [E|(c & s & E & ?)]; [by apply lt_le|done| |].
    + rewrite E in Hn. by apply lt_irrefl in Hn.
    + exists c, s. by rewrite (assoc_L (++)).
Qed.
(** *** Where the page is cut *)

(** The entries before the two positions. *)
Definition kept resp (ip pp : Z) : list text := take (Z.to_nat ip) (keys resp) ++ take (Z.to_nat pp) (Prefixes resp).
Definition largest resp (ip pp : Z) (m : text) (isP : Z) : Prop :=
  m ∈ kept resp ip pp /\ (forall e, e ∈ kept resp ip pp -> text_le e m) /\ (isP = 0 /\ 0 < ip \/ isP = 1 /\ 0 < pp) /\
  (forall e, e ∈ kept resp ip pp -> e ∈ kept resp (ip - (1 - isP)) (pp - isP) \/ e = m) /\
  forall e, e ∈ kept resp (ip - (1 - isP)) (pp - isP) -> text_lt e m.
Definition in_page resp (ip pp : Z) : Prop := 0 <= ip <= zlen (Items resp) /\ 0 <= pp <= zlen (Prefixes resp).

Lemma last_sorted (names : list text) (i : Z) a : sorted names -> znth names (i - 1) = Some a ->
  a ∈ take (Z.to_nat i) names /\ (forall b, b ∈ take (Z.to_nat i) names -> text_le b a /\ (b ∈ take (Z.to_nat (i - 1)) names \/ b = a)) /\
  forall b, b ∈ take (Z.to_nat (i - 1)) names -> text_lt b a.
Proof.
  intros Hs Hn. unfold znth in Hn. case_decide; [|done]. split_and!.
  - apply list_elem_of_lookup. exists (Z.to_nat (i - 1)). rewrite lookup_take_lt by lia. done.
  - intros b [j Hj]%list_elem_of_lookup. apply lookup_take_Some in Hj as [Hj ?]. destruct (decide (j = Z.to_nat (i - 1))) as [-> |].
    + rewrite Hn in Hj. simplify_eq. split; [apply le_refl|by right].
    + split; [apply lt_le; eapply sorted_lookup; [done|exact Hj|exact Hn|lia]|]. left. apply list_elem_of_lookup. exists j. rewrite lookup_take_lt by lia. done.
  - intros b [j Hj]%list_elem_of_lookup. apply lookup_take_Some in Hj as [Hj ?]. eapply sorted_lookup; [done|exact Hj|exact Hn|lia].
Qed.
Lemma item_at resp i : 0 <= i < zlen (Items resp) -> exists x, index (Items resp) i = Ok x /\ znth (keys resp) i = Some x.1.
Proof.
  intros Hi. destruct (znth_Some (Items resp) i Hi) as [x Hx]. exists x. unfold index. rewrite Hx. split; [done|].
  unfold keys, znth in *. case_decide; [|done]. by rewrite list_lookup_fmap, Hx.
Qed.
Lemma prefix_at resp i : 0 <= i < zlen (Prefixes resp) -> exists p, index (Prefixes resp) i = Ok p /\ znth (Prefixes resp) i = Some p.
Proof. intros Hi. destruct (znth_Some (Prefixes resp) i Hi) as [x Hx]. exists x. unfold index. by rewrite Hx. Qed.

Lemma elem_of_take_mono {B} (l : list B) (i j : nat) x : (i <= j)%nat -> x ∈ take i l -> x ∈ take j l.
Proof.
  intros ? [n Hn]%list_elem_of_lookup. apply lookup_take_Some in Hn as [Hn ?]. apply list_elem_of_lookup. exists n. by rewrite lookup_take_lt by lia.
Qed.
Lemma elem_of_take_all {B} (l : list B) (i : nat) x : x ∈ take i l -> x ∈ l.
Proof. intros [n [Hn _]%lookup_take_Some]%list_elem_of_lookup. by apply list_elem_of_lookup_2 in Hn. Qed.
Lemma take_0' {B} (l : list B) : take (Z.to_nat 0) l = [].
Proof. done. Qed.

Lemma maxName_spec resp ip pp : sorted (keys resp) -> sorted (Prefixes resp) -> (forall k, k ∈ keys resp -> k ∉ Prefixes resp) -> in_page resp ip pp ->
  exists m isP, maxName resp ip pp = Ok (m, isP) /\ (ip + pp = 0 /\ m = [] /\ isP = 0 \/ largest resp ip pp m isP).
Proof.
  intros Hk Hp Hd [Hi Hj]. unfold maxName, largest, kept.
  assert (Hprefix : 0 < pp -> exists p, index (Prefixes resp) (pp - 1) = Ok p /\ p ∈ take (Z.to_nat pp) (Prefixes resp) /\
    (forall b, b ∈ take (Z.to_nat pp) (Prefixes resp) -> text_le b p /\ (b ∈ take (Z.to_nat (pp - 1)) (Prefixes resp) \/ b = p)) /\
    forall b, b ∈ take (Z.to_nat (pp - 1)) (Prefixes resp) -> text_lt b p).
  { intros ?. destruct (prefix_at resp (pp - 1)) as (p & -> & Hz); [lia|]. exists p. split; [done|]. by apply last_sorted. }
  assert (Hitem : 0 < ip -> exists x, index (Items resp) (ip - 1) = Ok x /\ x.1 ∈ take (Z.to_nat ip) (keys resp) /\
    (forall b, b ∈ take (Z.to_nat ip) (keys resp) -> text_le b x.1 /\ (b ∈ take (Z.to_nat (ip - 1)) (keys resp) \/ b = x.1)) /\
    forall b, b ∈ take (Z.to_nat (ip - 1)) (keys resp) -> text_lt b x.1).
  { intros ?. destruct (item_at resp (ip - 1)) as (x & -> & Hz); [lia|]. exists x. split; [done|]. by apply last_sorted. }
  destruct (Z.ltb_spec 0 ip) as [Hip|Hip].
  - destruct (Hitem Hip) as (x & -> & Hx & Hmax & Hlt). cbn [bindO]. destruct (Z.eqb_spec pp 0) as [-> |].
    + exists x.1, 0. cbn [bindO]. split; [done|]. right. rewrite !take_0', !app_nil_r. replace (ip - (1 - 0)) with (ip - 1) by lia.
      split_and!; [done|intros; by apply Hmax|by left|intros; by apply Hmax|done].
    + destruct (Hprefix ltac:(lia)) as (p & -> & Hpin & Hpmax & Hplt). cbn [bindO]. destruct (text_ltb p x.1) eqn:Elt.
      * exists x.1, 0. cbn [bindO]. split; [done|]. right. replace (ip - (1 - 0)) with (ip - 1) by lia. replace (pp - 0) with pp by lia.
        split_and!; [by apply elem_of_app; left| |by left| |].
        -- intros e [?|He]%elem_of_app; [by apply Hmax|]. eapply le_trans; [by apply Hpmax|by apply lt_le].
        -- intros e [He|?]%elem_of_app; rewrite elem_of_app; [|by left; right]. destruct (Hmax e He) as [_ [?|?]]; auto.
        -- intros e [?|He]%elem_of_app; [by apply Hlt|]. eapply le_lt_trans; [by apply Hpmax|exact Elt].
      * exists p, 1. cbn [bindO]. split; [done|]. right. replace (ip - (1 - 1)) with ip by lia.
        split_and!; [by apply elem_of_app; right| |right; lia| |].
        -- intros e [He|?]%elem_of_app; [|by apply Hpmax]. eapply le_trans; [by apply Hmax|exact Elt].
        -- intros e [?|He]%elem_of_app; rewrite elem_of_app; [by left; left|]. destruct (Hpmax e He) as [_ [?|?]]; auto.
        -- intros e [He|?]%elem_of_app; [|by apply Hplt].
           assert (text_le e p) as [?| ->]%le_iff; [eapply le_trans; [by apply Hmax|exact Elt]|done|].
           exfalso. eapply (Hd p); eapply elem_of_take_all; done.
  - assert (ip = 0) as -> by lia. cbn [bindO]. destruct (Z.eqb_spec pp 0) as [-> |]; [exists [], 0; auto|].
    destruct (Hprefix ltac:(lia)) as (p & -> & Hpin & Hpmax & Hplt). exists p, 1. split; [done|]. right. rewrite !take_0'. cbn [app].
    split_and!; [done|intros; by apply Hpmax|right; lia|intros; by apply Hpmax|done].
Qed.

(** Where the loop stops: no directory that is still to come can belong before
    the cut, because the name has no character less than /, or because the next
    entry is past every such directory. *)
Definition good_cut resp prefixLen (ip pp : Z) (prev : text) : Prop :=
  in_page resp ip pp /\ (ip + pp = 0 /\ prev = [] \/ exists isP, largest resp ip pp prev isP) /\
  (forall e, e ∈ entries resp -> e ∈ kept resp ip pp \/ text_lt prev e) /\
  (locateLtSlash prev prefixLen < 0 \/
   exists next, prefixLarger prev next (locateLtSlash prev prefixLen) = Ok true /\ next ∈ entries resp /\ forall e, e ∈ entries resp -> e ∈ kept resp ip pp \/ text_le next e).

Lemma kept_entries resp ip pp e : e ∈ kept resp ip pp -> e ∈ entries resp.
Proof. unfold kept, entries. rewrite !elem_of_app. intros [?|?]; [left|right]; by eapply elem_of_take_all. Qed.

Lemma prefixLarger_total prev name prefixLen : 0 <= prefixLen -> exists b, prefixLarger prev name (locateLtSlash prev prefixLen) = Ok b.
Proof.
  intros Hl. unfold prefixLarger. destruct (Z.ltb_spec (zlen prev) (locateLtSlash prev prefixLen)) as [Hlt|_]; [|repeat case_match; eauto].
  pose proof (zlen_nonneg prev). destruct (locate_bound prev prefixLen Hl) as [?|[? ?]]; lia.
Qed.

Lemma cut_loop_spec fuel resp prefixLen half ip pp isP name :
  sorted (keys resp) -> sorted (Prefixes resp) -> (forall k, k ∈ keys resp -> k ∉ Prefixes resp) -> (forall e, e ∈ entries resp -> e <> []) -> 0 <= prefixLen -> 0 <= half ->
  in_page resp ip pp -> largest resp ip pp name isP ->
  (0 < fuel)%nat -> ip + pp < Z.of_nat fuel + half ->
  (forall e, e ∈ entries resp -> e ∈ kept resp ip pp \/ text_le name e) ->
  exists r, cut_loop fuel resp prefixLen half ip pp isP name = Ok r /\
    match r with Some (ip', pp', prev) => good_cut resp prefixLen ip' pp' prev /\ half <= ip' + pp' | None => True end.
Proof.
  intros Hk Hp Hd Hne Hl Hh. revert ip pp isP name. induction fuel as [|fuel IH]; intros ip pp isP name [Hi Hj] Hm Hpos Hfuel Hrest; [lia|]. cbn [cut_loop].
  destruct (Z.ltb_spec half (ip + pp)); [|by exists None].
  destruct Hm as (Hname & _ & HisP & Hrem & Hlt). set (ip' := ip - (1 - isP)) in *. set (pp' := pp - isP) in *.
  assert (Hsum : ip' + pp' = ip + pp - 1) by (unfold ip', pp'; lia).
  assert (Hin : in_page resp ip' pp') by (unfold in_page, ip', pp'; lia).
  destruct (maxName_spec resp ip' pp' Hk Hp Hd Hin) as (prev & isP' & -> & Hprev). cbn [bindO fst snd].
  assert (Hrest' : forall e, e ∈ entries resp -> e ∈ kept resp ip' pp' \/ text_le name e).
  { intros e He. destruct (Hrest e He) as [Hin'|?]; [|by right]. destruct (Hrem e Hin') as [?| -> ]; [by left|right; apply le_refl]. }
  assert (Hgood : ip' + pp' = 0 /\ prev = [] \/ exists isP, largest resp ip' pp' prev isP).
  { destruct Hprev as [(? & ? & _)|?]; [by left|right; eauto]. }
  assert (Hpast : forall e, e ∈ entries resp -> e ∈ kept resp ip' pp' \/ text_lt prev e).
  { intros e He. destruct (Hrest' e He) as [?|Hle]; [by left|]. right. destruct Hprev as [(_ & -> & _)|(Hpin & _)].
    - destruct e; [by destruct (Hne [])|done].
    - eapply lt_le_trans; [by apply Hlt|done]. }
  destruct (Z.ltb_spec (locateLtSlash prev prefixLen) 0) as [Hneg|Hge]; cbn [bindO].
  { exists (Some (ip', pp', prev)). split; [done|]. split; [|lia]. repeat (split; [done|]). by left. }
  destruct (prefixLarger_total prev name prefixLen Hl) as [larger El]. rewrite El. cbn [bindO]. destruct larger.
  { exists (Some (ip', pp', prev)). split; [done|]. split; [|lia]. repeat (split; [done|]). right. exists name. split_and!; [done|by apply kept_entries in Hname|done]. }
  destruct Hprev as [(? & -> & _)|Hprev]; [unfold locateLtSlash in Hge; rewrite drop_nil in Hge; cbn in Hge; lia|].
  apply IH; [done|exact Hprev|lia|lia|]. intros e He. destruct (Hpast e He) as [?|?]; [by left|right; by apply lt_le].
Qed.
(** *** Directories that could be misplaced *)

(** The search for a character less than / finds one no later than [c]. *)
Lemma candidate_found pre n c s : n <> [] -> slash ∉ n -> c < slash ->
  exists q r x w, pre ++ n = q ++ r /\ locateLtSlash (pre ++ n ++ c :: s) (zlen pre) = zlen q /\ r ++ c :: s = x :: w /\ x < slash /\
    ((forall y, y ∈ tail n -> slash <= y) -> r = []).
Proof.
  intros Hne Hsl Hc. destruct n as [|y n]; [done|]. assert (y <> slash) by (intros ->; apply Hsl; by left). rewrite <- app_comm_cons, locate_name by done.
  pose proof (zlen_nonneg pre). pose proof (find_lt_slash_spec (n ++ c :: s) (zlen pre + 1) ltac:(lia)) as Hf. destruct (Z.eq_dec _ _) as [_|_].
  - specialize (Hf c). rewrite elem_of_app, elem_of_cons in Hf. specialize (Hf ltac:(auto)). lia.
  - destruct Hf as (p & x & w & E & -> & Hx & Hp). apply app_eq_app in E as (l & [[E1 E2]|[E1 E2]]).
    + subst n. exists (pre ++ y :: p), l. destruct l as [|z l]; simplify_eq/=.
      * exists c, s. rewrite app_nil_r. split_and!; [by rewrite app_nil_r|rewrite zlen_app; unfold zlen; cbn; lia|done|done|done].
      * exists z, (l ++ c :: s). split_and!; [by rewrite <- app_assoc|rewrite zlen_app; unfold zlen; cbn; lia|done|done|].
        intros Hy. exfalso. specialize (Hy z). rewrite elem_of_app, elem_of_cons in Hy. specialize (Hy ltac:(auto)). lia.
    + destruct l as [|z l]; simplify_eq/=.
      * exists (pre ++ y :: n), [], x, w. rewrite !app_nil_r. split_and!; [done|rewrite zlen_app; unfold zlen; cbn; lia|done|done|done].
      * exfalso. specialize (Hp z). rewrite elem_of_app, elem_of_cons in Hp. specialize (Hp ltac:(auto)). lia.
Qed.

Lemma lt_extend (q t u v : text) : text_lt q t -> (length t <= length q)%nat -> text_lt (q ++ u) (t ++ v).
Proof.
  intros Hlt Hlen. apply lt_split in Hlt as (p & [(y & s & -> & ->)|(x & y & s & s' & -> & -> & ?)]); [rewrite length_app in Hlen; cbn in Hlen; lia|].
  rewrite <- !app_assoc. apply lt_app. apply lt_split. exists []. right. by exists x, y, (s ++ u), (s' ++ v).
Qed.

(** The next entry is past the directory. *)
Lemma past_candidate pre n c s next : n <> [] -> slash ∉ n -> c < slash ->
  prefixLarger (pre ++ n ++ c :: s) next (locateLtSlash (pre ++ n ++ c :: s) (zlen pre)) = Ok true -> text_lt (pre ++ n ++ [slash]) next.
Proof.
  intros Hne Hsl Hc. destruct (candidate_found pre n c s Hne Hsl Hc) as (q & r & x & w & Eq & -> & Er & Hx & _). rewrite (assoc_L (++) pre n [slash]), (assoc_L (++) pre n), Eq, <- !app_assoc, Er.
  assert (exists z v, r ++ [slash] = z :: v /\ z <= slash) as (z & v & -> & Hz).
  { destruct r as [|y r]; simplify_eq/=; [by exists slash, []|exists x, (r ++ [slash]); split; [done|lia]]. }
  unfold prefixLarger. rewrite (proj2 (Z.ltb_ge _ _)) by (rewrite zlen_app; unfold zlen; lia).
  assert (Et : forall t : text, take (Z.to_nat (zlen q)) t = take (length q) t) by (intros; unfold zlen; by rewrite Nat2Z.id).
  rewrite !Et, take_app_length. clear Et.
  assert (Hcase : text_lt q (take (length q) next) -> text_lt (q ++ z :: v) next).
  { intros Hlt. rewrite <- (take_drop (length q) next). apply lt_extend; [done|]. rewrite length_take. lia. }
  destruct (_ || _) eqn:E1.
  - intros _. rewrite orb_true_iff, !andb_true_iff in E1. destruct E1 as [[_ E1]|[El E1]]; [by apply Hcase|].
    apply Hcase. rewrite take_ge; [done|]. apply Z.leb_le in El. unfold zlen in El. lia.
  - clear E1. destruct (_ && _) eqn:E2; [|done]. intros _. rewrite !andb_true_iff, bool_decide_eq_true in E2. destruct E2 as [[El Et] Ez].
    destruct (znth next (zlen q)) as [y|] eqn:Ey; [|done]. apply Z.ltb_lt in Ez. unfold znth, zlen in Ey. case_decide; [|done]. rewrite Nat2Z.id in Ey.
    rewrite <- (take_drop_middle next (length q) y Ey), <- Et. apply lt_app. apply lt_split. exists []. right. exists z, y, v, (drop (S (length q)) next).
    split_and!; [done|done|lia].
Qed.
(** What the server documents.  It has the keys [objects]; a listing of one key
    after [start] returns the first of them after [start]; and a common prefix
    that is listed is the beginning of some key. *)
Record server_ok (pre : text) (objects later : text -> Prop) (probe : text -> list text + error) : Prop := {
  so_probe : forall start ks, probe start = inl ks ->
    match ks with
    | [] => forall o, objects o -> text_le o start
    | k :: _ => objects k /\ text_lt start k /\ forall o, objects o -> text_lt start o -> text_le k o
    end;
  so_dirs : forall n, later (pre ++ n ++ [slash]) -> exists k, objects ((pre ++ n ++ [slash]) ++ k);
}.

(** A directory the question to the server misses: only the beginning of the
    last name up to its first character less than / is asked for, and the
    answer is another key if there is one between [probe_suffix] and /. *)
Definition unnoticed (pre : text) (objects : text -> Prop) n : Prop :=
  (exists y, y ∈ tail n /\ y < slash) \/ exists o, objects o /\ text_lt (pre ++ n ++ probe_suffix) o /\ text_lt o (pre ++ n ++ [slash]).

(** Names on the page come before those of all entries that are not on it, but for unnoticed directories. *)
Definition in_order (pre : text) (objects : text -> Prop) resp (later : text -> Prop) resp' : Prop :=
  forall k n e m, entry pre k n -> entry pre e m -> k ∈ entries resp \/ later k -> k ∉ entries resp' -> e ∈ entries resp' ->
    text_le m n \/ k = pre ++ n ++ [slash] /\ later k /\ unnoticed pre objects n.

Lemma begins_between (p x k : text) : text_le p x -> text_le x (p ++ k) -> exists k', x = p ++ k'.
Proof.
  intros Hpx%le_iff Hxk%le_iff. destruct Hpx as [Hpx| ->]; [|exists []; by rewrite app_nil_r]. destruct Hxk as [Hxk| ->]; [|by exists k].
  apply lt_split in Hpx as (q & [(y & t & -> & ->)|(a & b & t & u & -> & -> & Hab)]); [by exists (y :: t)|].
  exfalso. rewrite <- (assoc_L (++)) in Hxk. apply lt_app in Hxk. unfold text_lt in Hxk. cbn in Hxk. rewrite orb_true_iff, andb_true_iff, Z.ltb_lt, Z.eqb_eq in Hxk. lia.
Qed.
(** The answer shows the directory that was asked for. *)
Lemma probe_shows pre objects later probe n ks : server_ok pre objects later probe -> later (pre ++ n ++ [slash]) ->
  probe (pre ++ n ++ probe_suffix) = inl ks -> unnoticed pre objects n \/ exists k ks', ks = (pre ++ n ++ [slash] ++ k) :: ks'.
Proof.
  intros [Hprobe Hdirs] Hl E. destruct (Hdirs n Hl) as [k Hk]. specialize (Hprobe _ _ E).
  assert (Hlt : text_lt (pre ++ n ++ probe_suffix) ((pre ++ n ++ [slash]) ++ k)) by (rewrite <- !(assoc_L (++)); by do 2 apply lt_app).
  destruct ks as [|k0 ks]; [specialize (Hprobe _ Hk); by apply lt_nle in Hlt|]. destruct Hprobe as (Ho & Hlt0 & Hmin). specialize (Hmin _ Hk Hlt).
  destruct (decide (text_le (pre ++ n ++ [slash]) k0)) as [Hle|Hnle%nle_lt]; [|left; right; by exists k0].
  right. destruct (begins_between _ _ _ Hle Hmin) as [k' ->]. exists k', ks. by rewrite <- !(assoc_L (++)).
Qed.
Lemma below_slash n : (exists y, y ∈ tail n /\ y < slash) \/ forall y, y ∈ tail n -> slash <= y.
Proof.
  destruct (decide (Exists (fun y => y < slash) (tail n))) as [H|H]; [left; by apply Exists_exists in H|right].
  intros y Hy. destruct (decide (y < slash)); [|lia]. destruct H. apply Exists_exists. by exists y.
Qed.

Lemma order_of_candidates pre objects resp later resp' last :
  (forall k, k ∈ entries resp \/ later k -> k ∉ entries resp' -> text_lt last k) ->
  (forall e m, entry pre e m -> e ∈ entries resp' -> exists e', entry pre e' m /\ text_le e' last) ->
  (forall n c s, last = pre ++ n ++ c :: s -> n <> [] -> slash ∉ n -> c < slash ->
     pre ++ n ++ [slash] ∈ entries resp \/ later (pre ++ n ++ [slash]) -> pre ++ n ++ [slash] ∉ entries resp' ->
     later (pre ++ n ++ [slash]) /\ unnoticed pre objects n) ->
  in_order pre objects resp later resp'.
Proof.
  intros Hpast Hle Hno k n e m Hk He Hin Hout Hpage. destruct (decide (text_le m n)) as [|Hn]; [by left|right].
  apply nle_lt in Hn. destruct (Hle e m He Hpage) as (e' & He' & Hl).
  destruct (misplaced pre last k n e' m) as (-> & c & s & -> & Hc); try done; [by apply Hpast|].
  inversion Hk as [n' Hne Hsl E|n' Hne Hsl E]; simplify_eq.
  - exfalso. apply (f_equal length) in E. rewrite length_app in E. cbn in E. lia.
  - split; [done|]. by eapply (Hno n).
Qed.

Lemma largest_all resp m isP : largest resp (zlen (Items resp)) (zlen (Prefixes resp)) m isP -> m ∈ entries resp /\ forall e, e ∈ entries resp -> text_le e m.
Proof.
  intros (Hm & Hmax & _). unfold kept, entries in *. rewrite !take_ge in Hm, Hmax by (unfold keys, zlen; rewrite ?length_map; lia). done.
Qed.
Lemma kept_all resp e : e ∈ entries resp -> e ∈ kept resp (zlen (Items resp)) (zlen (Prefixes resp)).
Proof. unfold kept, entries. by rewrite !take_ge by (unfold keys, zlen; rewrite ?length_map; lia). Qed.
Lemma cut_entries resp ip pp tr : entries (mkList (take ip (Items resp)) (take pp (Prefixes resp)) tr) = take ip (keys resp) ++ take pp (Prefixes resp).
Proof. unfold entries, keys. cbn. by rewrite firstn_map. Qed.

(** A cut page. *)
Lemma cut_in_order pre objects resp later ip pp prev :
  page_ok pre resp later -> good_cut resp (zlen pre) ip pp prev ->
  in_order pre objects resp later (mkList (take (Z.to_nat ip) (Items resp)) (take (Z.to_nat pp) (Prefixes resp)) (IsTruncated resp)).
Proof.
  intros Hp (Hin & Hbig & Hpast & Hcond). destruct Hbig as [[Hz ->]|[isP Hbig]].
  { intros k n e m _ _ _ _ He. exfalso. rewrite cut_entries in He. assert (ip = 0 /\ pp = 0) as [-> ->] by (unfold in_page in Hin; lia). by apply elem_of_nil in He. }
  destruct Hbig as (Hmem & Hmax & _).
  assert (Hlt : forall k, k ∈ entries resp \/ later k -> k ∉ entries (mkList (take (Z.to_nat ip) (Items resp)) (take (Z.to_nat pp) (Prefixes resp)) (IsTruncated resp)) -> text_lt prev k).
  { intros k [Hk|Hk] Hout; rewrite cut_entries in Hout; [by destruct (Hpast k Hk)|]. apply (po_later _ _ _ Hp); [done|]. by apply kept_entries in Hmem. }
  apply (order_of_candidates pre objects resp later _ prev); [exact Hlt|..].
  - intros e m He Hpage. exists e. split; [done|]. rewrite cut_entries in Hpage. by apply Hmax.
  - intros n c s -> Hne Hsl Hc Hk Hout. exfalso. destruct Hcond as [Hneg|(next & Hl & Hin' & Hnext)].
    + destruct (candidate_found pre n c s Hne Hsl Hc) as (q & r & x & w & _ & El & _). rewrite El in Hneg. pose proof (zlen_nonneg q). lia.
    + apply past_candidate in Hl; [|done..]. destruct Hk as [Hk|Hk].
      * rewrite cut_entries in Hout. destruct (Hnext _ Hk) as [?|Hle]; [done|]. by apply (lt_nle _ _ Hl).
      * apply (lt_irrefl next). eapply lt_trans; [by eapply (po_later _ _ _ Hp)|exact Hl].
Qed.
(** The whole page, with the directory that was asked for. *)
Lemma probed_in_order pre objects resp later probe last isP ks added :
  page_ok pre resp later -> server_ok pre objects later probe ->
  largest resp (zlen (Items resp)) (zlen (Prefixes resp)) last isP ->
  let pos := locateLtSlash last (zlen pre) in
  let dir := take (Z.to_nat pos) last in
  0 <= pos -> probe (dir ++ probe_suffix) = inl ks ->
  added = (match ks with checked :: _ => if (pos + 1 <=? zlen checked) && bool_decide (take (Z.to_nat (pos + 1)) checked = dir ++ [slash])
                                         then [take (Z.to_nat (pos + 1)) checked] else [] | [] => [] end) ->
  in_order pre objects resp later (mkList (Items resp) (Prefixes resp ++ added) (IsTruncated resp)).
Proof.
  intros Hp Hserver [Hlast Hmax]%largest_all pos dir Hpos Hks Hadd.
  assert (Hent : forall e, e ∈ entries (mkList (Items resp) (Prefixes resp ++ added) (IsTruncated resp)) <-> e ∈ entries resp \/ e ∈ added).
  { intros e. unfold entries, keys. cbn. rewrite !elem_of_app. tauto. }
  apply (order_of_candidates pre objects resp later _ last).
  - intros k [Hk|Hk] Hout; rewrite Hent in Hout; [tauto|]. by apply (po_later _ _ _ Hp).
  - intros e m He [Hin|Hin]%Hent; [exists e; by split; [|apply Hmax]|].
    assert (e = dir ++ [slash]) as ->.
    { rewrite Hadd in Hin. destruct ks as [|checked ks']; [by apply elem_of_nil in Hin|]. destruct (_ && _) eqn:E; [|by apply elem_of_nil in Hin].
      apply andb_true_iff in E as [_ E]. apply bool_decide_eq_true in E. rewrite E in Hin. by apply list_elem_of_singleton in Hin. }
    exists (pre ++ m). inversion He as [n Hne Hsl E|n Hne Hsl E]; subst n.
    + exfalso. apply Hsl. destruct m as [|y m' _] using rev_ind; [done|]. rewrite (assoc_L (++)) in E. apply app_inj_tail in E as [_ ->]. apply elem_of_app. right. by left.
    + split; [by apply entry_file|]. rewrite (assoc_L (++)) in E. apply app_inj_tail in E as [E _]. rewrite E. unfold dir. rewrite <- (take_drop (Z.to_nat pos) last) at 2. apply le_app_r.
  - intros n c s El Hne Hsl Hc [Hk|Hk] Hout; rewrite Hent in Hout; [tauto|]. split; [done|].
    destruct (below_slash n) as [?|Hfirst]; [by left|].
    destruct (candidate_found pre n c s Hne Hsl Hc) as (q & r & x & w & Eq & Epos & _ & _ & Hr). rewrite (Hr Hfirst), app_nil_r in Eq. subst q.
    assert (Ed : dir = pre ++ n).
    { unfold dir, pos. rewrite El, Epos. unfold zlen. rewrite Nat2Z.id, (assoc_L (++)). by rewrite take_app_length. }
    destruct (probe_shows pre objects later probe n ks Hserver Hk) as [?|(k & ks' & ->)]; [by rewrite (assoc_L (++)), <- Ed|done|]. destruct Hout. right.
    rewrite Hadd. assert (Epos1 : pos + 1 = zlen (dir ++ [slash])) by (unfold pos; rewrite El, Epos, Ed, !zlen_app; unfold zlen; cbn; lia).
    replace (pre ++ n ++ [slash] ++ k) with ((dir ++ [slash]) ++ k) by (by rewrite Ed, <- !(assoc_L (++))).
    rewrite Epos1. unfold zlen. rewrite Nat2Z.id, take_app_length, bool_decide_true by done. rewrite (proj2 (Z.leb_le _ _)) by (rewrite !length_app; lia).
    cbn [andb]. rewrite Ed, <- (assoc_L (++)). by left.
Qed.

(** C22: Pages in order.  [intelligentListCut] never panics on a page the server
    returns.  What it cuts off comes after the name to go on after, so the next
    page starts with it; of two or more entries some are left; and every entry
    that is not on the page has a name that is not before any name on it, with
    one exception: a directory of a later page whose name has a character less
    than / after its first one, or for which some key lies between its name
    followed by [probe_suffix] and its name followed by /. *)
Theorem pages_in_order pre objects resp later probe :
  page_ok pre resp later -> server_ok pre objects later probe -> IsTruncated resp = true -> entries resp <> [] ->
  exists r, intelligentListCut resp probe pre = Ok r /\
    match r with
    | inl (resp', last) =>
      (forall e, e ∈ entries resp -> e ∈ entries resp' \/ text_lt last e) /\
      (2 <= zlen (entries resp) -> last ∈ entries resp /\ last ∈ entries resp') /\
      in_order pre objects resp later resp'
    | inr err => exists start, probe start = inr err
    end.
Proof.
  intros Hp Hserver Htr Hnonempty. pose proof Hp as [Hk Hpre Hd Hne _]. unfold intelligentListCut. replace (negb (IsTruncated resp)) with false by (by rewrite Htr).
  set (ip := zlen (Items resp)). set (pp := zlen (Prefixes resp)). assert (Hin : in_page resp ip pp) by (unfold in_page, ip, pp, zlen; lia).
  assert (Hcount : zlen (entries resp) = ip + pp) by (unfold entries, ip, pp, keys; rewrite zlen_app; unfold zlen; by rewrite length_map).
  assert (Hpos : 0 < ip + pp) by (rewrite <- Hcount; unfold zlen; destruct (entries resp); [done|cbn; lia]).
  destruct (maxName_spec resp ip pp Hk Hpre Hd Hin) as (last & isP & -> & Hbig). cbn [bindO fst snd].
  destruct Hbig as [[? _]|Hbig]; [lia|]. pose proof (largest_all _ _ _ Hbig) as [Hlast Hmax].
  destruct (Z.ltb_spec (locateLtSlash last (zlen pre)) 0) as [Hneg|Hge].
  { exists (inl (resp, last)). split; [done|]. split_and!; [auto|auto|].
    apply (order_of_candidates pre objects resp later resp last); [|intros e m He Hpage; exists e; auto|].
    - intros k [?|Hl] ?; [done|]. by apply (po_later _ _ _ Hp).
    - intros n c s -> Hn Hsl Hc _ _. exfalso. destruct (candidate_found pre n c s Hn Hsl Hc) as (q & r & x & w & _ & El & _). rewrite El in Hneg. pose proof (zlen_nonneg q). lia. }
  destruct (cut_loop_spec (Z.to_nat (ip + pp) + 1) resp (zlen pre) ((ip + pp) / 2) ip pp isP last) as (r & -> & Hr); try done; try lia.
  { apply zlen_nonneg. } { apply Z.div_pos; lia. } { assert (0 <= (ip + pp) / 2) by (apply Z.div_pos; lia). lia. } { intros e He. left. by apply kept_all. }
  cbn [bindO]. destruct r as [[[ip' pp'] prev]|].
  - destruct Hr as [Hgood Hhalf]. eexists. split; [done|]. cbn beta iota. split_and!; [| |by apply (cut_in_order pre objects resp later ip' pp' prev)].
    + rewrite cut_entries. apply Hgood.
    + rewrite Hcount, cut_entries. intros H2. assert (1 <= (ip + pp) / 2) by (apply Z.div_le_lower_bound; lia).
      destruct Hgood as (_ & [[? _]|[? (Hm & _)]] & _); [lia|]. split; [by eapply kept_entries|done].
  - destruct (probe _) as [ks|err] eqn:Eks; [|exists (inr err); eauto].
    pose proof (probed_in_order pre objects resp later probe last isP ks _ Hp Hserver Hbig Hge Eks eq_refl) as Ho.
    destruct ks as [|checked ks]; [|destruct (_ && _)]; eexists; (split; [done|]); cbn beta iota.
    1,3: rewrite app_nil_r in Ho; (split_and!; [auto|auto|]); by destruct resp.
    split_and!; [| |done]; unfold entries, keys; cbn; [intros e|intros _]; rewrite !elem_of_app; unfold entries, keys in Hlast; rewrite elem_of_app in Hlast; tauto.
Qed.
End page.

(** ** Ranges of keys already listed *)

Module Gaps.

(** A range of keys [start < key <= end]. *)
Record SlurpGap := mkGap { start : text; end_ : text; loadTime : Z }.

(** A Go slice of pointers: the array behind it and its length; the entries
    past the length are kept by the array. *)
Record slice := mkSlice { arr : list (option SlurpGap); len : Z }.
Definition nil_slice : slice := mkSlice [] 0.
Definition get (s : slice) (i : Z) : outcome SlurpGap :=
  if (0 <=? i) && (i <? len s) then match znth (arr s) i with Some (Some g) => Ok g | _ => Panic NilDereference end
  else Panic SliceOutOfRange.
Definition set (s : slice) (i : Z) (g : option SlurpGap) : outcome slice :=
  if (0 <=? i) && (i <? len s) then Ok (mkSlice (<[Z.to_nat i := g]> (arr s)) (len s)) else Panic SliceOutOfRange.
(** [append(s, nil)]; an array that is full is replaced by one with room for [extra] more. *)
Definition append_nil (extra : nat) (s : slice) : slice :=
  if len s <? zlen (arr s) then mkSlice (<[Z.to_nat (len s) := None]> (arr s)) (len s + 1)
  else mkSlice (arr s ++ None :: replicate extra None) (len s + 1).
(** [copy(s[to:], s[from:])] *)
Definition copy_within (s : slice) (to from : Z) : outcome slice :=
  if (to <=? len s) && (from <=? len s) then
    let n := Z.to_nat (Z.min (len s - to) (len s - from)) in
    let a := arr s in
    Ok (mkSlice (take (Z.to_nat to) a ++ take n (drop (Z.to_nat from) a) ++ drop (Z.to_nat to + n) a) (len s))
  else Panic SliceOutOfRange.
(** [s[0:l]], which may reach up to the end of the array. *)
Definition reslice (s : slice) (l : Z) : outcome slice :=
  if (0 <=? l) && (l <=? zlen (arr s)) then Ok (mkSlice (arr s) l) else Panic SliceOutOfRange.

(** [sort.Search] with a condition on the entries. *)
Definition search (s : slice) (f : SlurpGap -> bool) : Z :=
  Search (len s) (fun i => match get s i with Ok g => f g | _ => true end).

(** [for pos > 0 && dir.Gaps[pos-1].end > start { pos-- }] *)
Fixpoint step_back (fuel : nat) (s : slice) (from : text) (pos : Z) : outcome Z :=
  match fuel with
  | O => Ok pos
  | S fuel' =>
    if 0 <? pos then
      letO! g := get s (pos - 1) in
      if text_ltb from (end_ g) then step_back fuel' s from (pos - 1) else Ok pos
    else Ok pos
  end.

Definition markGapLoaded (extra : nat) (now : Z) (from to : text) (gaps : slice) : outcome slice :=
  let pos := if bool_decide (from = []) then 0 else search gaps (fun g => text_geb (start g) from) in
  letO! pos := step_back (Z.to_nat (len gaps)) gaps from pos in
  let endPos := search gaps (fun g => text_geb (start g) to) in
  letO! r := (if pos <? len gaps then
                letO! g := get gaps pos in
                if text_ltb (start g) from then
                  letO! s := set gaps pos (Some (mkGap (start g) from (loadTime g))) in Ok (s, pos + 1)
                else Ok (gaps, pos)
              else Ok (gaps, pos)) in
  let gaps := r.1 in let pos := r.2 in
  letO! r := (if 0 <? endPos then
                letO! g := get gaps (endPos - 1) in
                if text_ltb to (end_ g) then
                  letO! s := set gaps (endPos - 1) (Some (mkGap to (end_ g) (loadTime g))) in Ok (s, endPos - 1)
                else Ok (gaps, endPos)
              else Ok (gaps, endPos)) in
  let gaps := r.1 in let endPos := r.2 in
  let l := len gaps - (endPos - pos) in
  let gaps := if pos =? endPos then append_nil extra gaps else gaps in
  letO! gaps := copy_within gaps (pos + 1) endPos in
  letO! gaps := set gaps pos (Some (mkGap from to now)) in
  reslice gaps l.

Definition checkGapLoaded (key : text) (newerThan : Z) (gaps : slice) : outcome (bool * slice) :=
  let pos := search gaps (fun g => text_geb (end_ g) key) in
  if pos <? len gaps then
    letO! g := get gaps pos in
    if text_ltb (start g) key then
      if newerThan <? loadTime g then Ok (true, gaps)
      else
        letO! gaps := copy_within gaps pos (pos + 1) in
        letO! gaps := reslice gaps (len gaps - 1) in
        Ok (false, gaps)
    else Ok (false, gaps)
  else Ok (false, gaps).

(** A use of the list of a directory: a listing that was recorded, a question
    about a key, or its removal when the directory is listed anew. *)
Inductive op := Mark (extra : nat) (now : Z) (from to : text) | Ask (key : text) (newerThan : Z) | Forget.
Definition run_op (o : op) (gaps : slice) : outcome (bool * slice) :=
  match o with
  | Mark extra now from to => letO! g := markGapLoaded extra now from to gaps in Ok (false, g)
  | Ask key newerThan => checkGapLoaded key newerThan gaps
  | Forget => Ok (false, nil_slice)
  end.
(** The answers to all questions. *)
Fixpoint run_ops (ops : list op) (gaps : slice) : outcome (list bool) :=
  match ops with
  | [] => Ok []
  | o :: ops' => letO! r := run_op o gaps in letO! rest := run_ops ops' r.2 in Ok (r.1 :: rest)
  end.

Lemma mark_empty extra now from to a :
  exists a', markGapLoaded extra now from to (mkSlice a 0) = Ok (mkSlice a' 0).
Proof.
  unfold markGapLoaded, search, Search. cbn [len Z.to_nat Search_loop]. destruct (bool_decide _); cbn [step_back bindO len Z.ltb Z.compare fst snd Z.eqb].
  all: unfold append_nil; cbn [len arr]; destruct a as [|x a].
  all: cbn; eauto.
Qed.

(** The list of loaded ranges never holds anything. [markGapLoaded] keeps the
    length the list had before it makes room for a new range, so that the range
    is cut off again: whatever is marked and in whatever order, no key is ever
    found to be loaded, and [LookUp] always asks the server. *)
Lemma gaps_never_loaded ops a :
  exists answers, run_ops ops (mkSlice a 0) = Ok answers /\ forall b, b ∈ answers -> b = false.
Proof.
  revert a. induction ops as [|o ops IH]; intros a; cbn [run_ops]; [exists []; split; [done|by intros b ?%elem_of_nil]|].
  assert (exists a', run_op o (mkSlice a 0) = Ok (false, mkSlice a' 0)) as [a' ->].
  { destruct o as [extra now from to|key newer|]; cbn [run_op]; [|eauto..]. destruct (mark_empty extra now from to a) as [a' ->]. eauto. }
  cbn [bindO fst snd]. destruct (IH a') as (answers & -> & Hall). eexists. split; [done|]. intros b [-> |?]%elem_of_cons; auto.
Qed.
End Gaps.

(** ** Changes made while a listing runs *)

Module Inflight.

Record inflight := mkInflight {
  inflightListingId : Z;
  inflightListings : gmap Z (gset text);
  inflightChanges : gmap text Z;
}.
Definition empty : inflight := mkInflight 0 ∅ ∅.

Definition addInflightChange (key : text) (fs : inflight) : inflight :=
  mkInflight (inflightListingId fs) ((fun v => {[key]} ∪ v) <$> inflightListings fs)
    (<[key := (default 0 (inflightChanges fs !! key) + 1)%Z]> (inflightChanges fs)).
Definition completeInflightChange (key : text) (fs : inflight) : inflight :=
  let n := default 0 (inflightChanges fs !! key) - 1 in
  mkInflight (inflightListingId fs) (inflightListings fs)
    (if n <=? 0 then delete key (inflightChanges fs) else <[key := n]> (inflightChanges fs)).
Definition addInflightListing (fs : inflight) : Z * inflight :=
  let id := inflightListingId fs + 1 in
  (id, mkInflight id (<[id := dom (inflightChanges fs)]> (inflightListings fs)) (inflightChanges fs)).
Definition completeInflightListing (id : Z) (fs : inflight) : option (gset text) * inflight :=
  (inflightListings fs !! id, mkInflight (inflightListingId fs) (delete id (inflightListings fs)) (inflightChanges fs)).

(** What other goroutines do. *)
Inductive event := StartChange (key : text) | EndChange (key : text) | StartListing | EndListing (id : Z).
Definition step (fs : inflight) (e : event) : inflight :=
  match e with
  | StartChange key => addInflightChange key fs
  | EndChange key => completeInflightChange key fs
  | StartListing => (addInflightListing fs).2
  | EndListing id => (completeInflightListing id fs).2
  end.
Definition run (evs : list event) (fs : inflight) : inflight := fold_left step evs fs.

(** Changes of [key] that were started and not completed. *)
Fixpoint open_changes (evs : list event) (key : text) : Z :=
  match evs with
  | [] => 0
  | e :: evs' => open_changes evs' key + match e with
                                         | StartChange k => if bool_decide (k = key) then 1 else 0
                                         | EndChange k => if bool_decide (k = key) then -1 else 0
                                         | _ => 0
                                         end
  end.
(** A change is completed after it was started. *)
Definition bracketed (evs : list event) : Prop := forall n key, 0 <= open_changes (take n evs) key.

Lemma open_changes_app evs1 evs2 key : open_changes (evs1 ++ evs2) key = open_changes evs1 key + open_changes evs2 key.
Proof. induction evs1 as [|e evs1 IH]; cbn; [done|rewrite IH; lia]. Qed.

(** The counters are exact. *)
Lemma changes_exact evs key : bracketed evs ->
  inflightChanges (run evs empty) !! key = if 0 <? open_changes evs key then Some (open_changes evs key) else None.
Proof.
  revert key. induction evs as [|e evs IH] using rev_ind; intros key Hb; [done|].
  assert (Hb' : bracketed evs). { intros n k. specialize (Hb (n `min` length evs)%nat k). by rewrite <- take_take, take_app_length in Hb. }
  specialize (IH key Hb') as IHk. assert (Hge : 0 <= open_changes evs key) by (specialize (Hb' (length evs) key); by rewrite firstn_all in Hb').
  assert (Hge' : 0 <= open_changes (evs ++ [e]) key) by (specialize (Hb (length (evs ++ [e])) key); by rewrite firstn_all in Hb).
  rewrite open_changes_app in *. cbn in *. unfold run in *. rewrite fold_left_app. cbn [fold_left].
  set (fs := fold_left step evs empty) in *. destruct e as [k|k| |id]; cbn [step addInflightChange completeInflightChange addInflightListing completeInflightListing inflightChanges snd].
  - destruct (decide (k = key)) as [-> |]; [|rewrite lookup_insert_ne, bool_decide_false, Z.add_0_r by done; done].
    rewrite lookup_insert_eq, IHk, bool_decide_true by done. destruct (Z.ltb_spec 0 (open_changes evs key)); cbn; rewrite (proj2 (Z.ltb_lt _ _)) by lia; f_equal; lia.
  - destruct (decide (k = key)) as [-> |].
    + rewrite IHk. rewrite bool_decide_true in * by done. rewrite (proj2 (Z.ltb_lt 0 (open_changes evs key))) by lia. cbn.
      destruct (Z.leb_spec (open_changes evs key - 1) 0).
      * by rewrite lookup_delete_eq, (proj2 (Z.ltb_ge _ _)) by lia.
      * rewrite lookup_insert_eq, (proj2 (Z.ltb_lt _ _)) by lia. f_equal.
    + rewrite bool_decide_false, Z.add_0_r by done. by destruct (_ <=? 0); [rewrite lookup_delete_ne|rewrite lookup_insert_ne].
  - by rewrite Z.add_0_r.
  - by rewrite Z.add_0_r.
Qed.

(** What a listing in flight has collected. *)
Lemma listing_collects evs id fs v : inflightListings fs !! id = Some v -> id <= inflightListingId fs ->
  (forall e, e ∈ evs -> e <> EndListing id) ->
  exists v', inflightListings (run evs fs) !! id = Some v' /\ forall key, key ∈ v' <-> key ∈ v \/ StartChange key ∈ evs.
Proof.
  revert fs v. induction evs as [|e evs IH]; intros fs v Hv Hid Hno; cbn [run fold_left].
  { exists v. split; [done|]. intros key. rewrite elem_of_nil. tauto. }
  assert (Hno' : forall e', e' ∈ evs -> e' <> EndListing id) by (intros; apply Hno; by right).
  assert (Hstep : exists v1, inflightListings (step fs e) !! id = Some v1 /\ id <= inflightListingId (step fs e) /\ forall key, key ∈ v1 <-> key ∈ v \/ e = StartChange key).
  { destruct e as [k|k| |id']; cbn.
    - exists ({[k]} ∪ v). rewrite lookup_fmap, Hv. split_and!; [done|done|]. intros key. rewrite elem_of_union, elem_of_singleton. naive_solver.
    - exists v. split_and!; [done|done|]. naive_solver.
    - exists v. rewrite lookup_insert_ne by lia. split_and!; [done|lia|]. naive_solver.
    - exists v. rewrite lookup_delete_ne by (intros ->; by apply (Hno (EndListing id)); [left|]). split_and!; [done|done|]. naive_solver. }
  destruct Hstep as (v1 & Hv1 & Hid1 & Hiff). destruct (IH _ _ Hv1 Hid1 Hno') as (v' & Hv' & Hiff'). exists v'. split; [exact Hv'|].
  intros key. rewrite Hiff', Hiff, elem_of_cons. split; [intros [[?|?]|?]|intros [?|[?|?]]]; subst; auto.
Qed.

(** C23: Listings and changes.  Whatever happens in between, a listing is told to
    skip exactly the keys whose change was under way when the listing was
    started, or was started before the listing was completed: what the listing
    says about them may be older than the change. *)
Theorem listing_skips_changes before during :
  bracketed before ->
  let '(id, fs) := addInflightListing (run before empty) in
  (forall e, e ∈ during -> e <> EndListing id) ->
  exists skip, (completeInflightListing id (run during fs)).1 = Some skip /\
    forall key, key ∈ skip <-> 0 < open_changes before key \/ StartChange key ∈ during.
Proof.
  intros Hb. cbn [addInflightListing]. intros Hno. set (fs := run before empty) in *.
  destruct (listing_collects during (inflightListingId fs + 1) (addInflightListing fs).2 (dom (inflightChanges fs))) as (skip & Hs & Hiff);
    [by cbn; rewrite lookup_insert_eq|cbn; lia|done|].
  exists skip. split; [exact Hs|]. intros key. rewrite Hiff, elem_of_dom. unfold fs. rewrite changes_exact by done.
  destruct (Z.ltb_spec 0 (open_changes before key)).
  - split; [intros [?|?]; [left; done|by right]|intros _; left; by eexists].
  - split; [intros [[? ?]|?]; [done|by right]|intros [?|?]; [lia|by right]].
Qed.
End Inflight.

(** ** Examples *)

Module Examples.
Definition page (items prefixes : list string) : ListBlobsOutput (A := unit) := mkList ((fun s => (txt s, tt)) <$> items) (txt <$> prefixes) true.
Definition no_probe : text -> list text + error := fun _ => inl [].

(** The cases of [TestLocateLtSlash] and [TestIntelligentListCut] in [core/dir_test.go]. *)
Example locateLtSlash_tests :
  locateLtSlash (txt "wow") 0 = -1 /\ locateLtSlash (txt "w-o-w") 0 = 1 /\ locateLtSlash (txt "w o w") 0 = 1 /\
  locateLtSlash [119; 195; 184; 119] 0 = -1 /\ locateLtSlash (txt "w-o-w/w-o-w") 6 = 7 /\
  locateLtSlash (txt "w-o-w///w.jpg") 6 = 9 /\ locateLtSlash (txt "w-o-w//.hidden") 6 = -1.
Proof. vm_compute. done. Qed.
Definition cut (resp : ListBlobsOutput (A := unit)) (probe : text -> list text + error) : option (list text * list text * text) :=
  match intelligentListCut resp probe (txt "w-o-w/") with Ok (inl (r, last)) => Some (keys r, Prefixes r, last) | _ => None end.
Example cut_tests :
  cut (page ["w-o-w/item-has-dash"; "w-o-w/item.jpg"] ["w-o-w/prefix-has-dash/"; "w-o-w/prefix/"]) no_probe =
    Some (txt <$> ["w-o-w/item-has-dash"; "w-o-w/item.jpg"], txt <$> ["w-o-w/prefix-has-dash/"; "w-o-w/prefix/"], txt "w-o-w/prefix/") /\
  cut (page ["w-o-w/l180404688.req"; "w-o-w/l180404690.req"; "w-o-w/l180404692.req"]
            ["w-o-w/l180404687.req/"; "w-o-w/l180404689.req/"; "w-o-w/l180404691.req/"]) no_probe =
    Some (txt <$> ["w-o-w/l180404688.req"; "w-o-w/l180404690.req"],
          txt <$> ["w-o-w/l180404687.req/"; "w-o-w/l180404689.req/"; "w-o-w/l180404691.req/"], txt "w-o-w/l180404691.req/") /\
  cut (page ["w-o-w/l180404687.req"; "w-o-w/l180404688.req"; "w-o-w/l180404689.req"; "w-o-w/l180404690.req"; "w-o-w/l180404691-1.req"; "w-o-w/l180404691.req"] []) no_probe =
    Some (txt <$> ["w-o-w/l180404687.req"; "w-o-w/l180404688.req"; "w-o-w/l180404689.req"; "w-o-w/l180404690.req"], [], txt "w-o-w/l180404690.req") /\
  cut (page ["w-o-w/2019-0000"; "w-o-w/2019-0002"; "w-o-w/2019-0004"] ["w-o-w/2019-0001"; "w-o-w/2019-0003"; "w-o-w/2019-0005"])
      (fun start => inl (if bool_decide (start = txt "w-o-w/2019" ++ probe_suffix) then [txt "w-o-w/2019/"] else [])) =
    Some (txt <$> ["w-o-w/2019-0000"; "w-o-w/2019-0002"; "w-o-w/2019-0004"],
          txt <$> ["w-o-w/2019-0001"; "w-o-w/2019-0003"; "w-o-w/2019-0005"; "w-o-w/2019/"], txt "w-o-w/2019-0005").
Proof. vm_compute. done. Qed.

(** Of a page with a single entry that has a character less than / nothing is
    left, and the listing is to go on where it was: it never ends. *)
Example single_entry_is_cut_off :
  intelligentListCut (page ["a-b"] []) no_probe [] = Ok (inl (mkList [] [] true, [])).
Proof. vm_compute. done. Qed.

(** Only the first directory in question is asked for: after a page of names
    that begin with x-1- the directory x-1 is still to come, and its name is
    before all of them. *)
Example second_dash_is_not_asked_for :
  intelligentListCut (page ["x-1-0"; "x-1-1"] []) no_probe [] = Ok (inl (page ["x-1-0"; "x-1-1"] [], txt "x-1-1")) /\
  text_lt (txt "x-1-1") (txt "x-1/") /\ text_lt (txt "x-1") (txt "x-1-0").
Proof. vm_compute. done. Qed.

(** A key that begins with x. and a four-byte character comes between the key
    that is asked for and x/, so the answer is that key, not the directory. *)
Example four_byte_character_hides_directory :
  let o := txt "x." ++ [240; 159; 152; 128] in
  intelligentListCut (page ["x-0"; "x-1"] []) (fun _ => inl [o]) [] = Ok (inl (page ["x-0"; "x-1"] [], txt "x-1")) /\
  text_lt (txt "x" ++ probe_suffix) o /\ text_lt o (txt "x/") /\ text_lt (txt "x") (txt "x-0").
Proof. vm_compute. done. Qed.

(** A page that ends between a-1 and a: the directory a is on the next one. *)
Definition dashes : ListBlobsOutput (A := unit) := page ["a-1"; "b-1"; "b-2"] [].
Definition b_later (k : text) : Prop := k = txt "b/".
Lemma dashes_ok : page_ok [] dashes b_later.
Proof.
  split; try (vm_compute; repeat constructor); cbn.
  - intros k _. apply not_elem_of_nil.
  - intros e He. change (e ∈ txt <$> ["a-1"; "b-1"; "b-2"]) in He. cbn [fmap list_fmap] in He. rewrite !elem_of_cons, elem_of_nil in He. destruct He as [-> |[-> |[-> |[]]]]; discriminate.
  - intros k e -> He. change (e ∈ txt <$> ["a-1"; "b-1"; "b-2"]) in He. cbn [fmap list_fmap] in He. rewrite !elem_of_cons, elem_of_nil in He. destruct He as [-> |[-> |[-> |[]]]]; vm_compute; reflexivity.
Qed.
(** The objects after the page; the first of them is b/x. *)
Definition dash_objects (k : text) : Prop := k = txt "a-1" \/ k = txt "b-1" \/ k = txt "b-2" \/ k = txt "b/x".
Definition dash_probe (start : text) : list text + error := inl (filter (fun k => text_lt start k) (txt <$> ["a-1"; "b-1"; "b-2"; "b/x"])).
Lemma dashes_server : server_ok [] dash_objects b_later dash_probe.
Proof.
  split.
  - intros start ks [= <-]. cbn [fmap list_fmap]. unfold dash_objects.
    repeat (rewrite filter_cons; case_decide; [split; [tauto|]; split; [done|]; intros o [->|[->|[->| ->]]] ?; first [done|by vm_compute]|]).
    cbn. intros o [->|[->|[->| ->]]]; by apply nlt_le.
  - intros n Hn. exists (txt "x"). do 3 right. unfold b_later in Hn. cbn [app] in *. by rewrite Hn.
Qed.
Lemma pages_in_order_witness :
  exists resp' last, intelligentListCut dashes dash_probe [] = Ok (inl (resp', last)) /\ entries resp' = [txt "a-1"] /\
    in_order [] dash_objects dashes b_later resp'.
Proof.
  destruct (pages_in_order [] dash_objects dashes b_later dash_probe dashes_ok dashes_server) as (r & E & H); [reflexivity|discriminate|].
  destruct r as [[resp' last]|e]; [|destruct H; discriminate]. exists resp', last. split; [exact E|].
  split; [|apply H]. revert E. vm_compute. intros [= <- <-]. reflexivity.
Defined.

Lemma listing_skips_changes_witness :
  let before := [Inflight.StartChange (txt "a"); Inflight.StartChange (txt "b"); Inflight.EndChange (txt "b")] in
  let during := [Inflight.EndChange (txt "a"); Inflight.StartListing; Inflight.StartChange (txt "c")] in
  exists skip, fst (Inflight.completeInflightListing 1 (Inflight.run during (snd (Inflight.addInflightListing (Inflight.run before Inflight.empty))))) = Some skip /\
    txt "a" ∈ skip /\ (txt "b" ∉ skip) /\ txt "c" ∈ skip.
Proof.
  intros before during. destruct (Inflight.listing_skips_changes before during) as (skip & E & H).
  - intros n key. destruct n as [|[|[|[|n]]]]; cbn; repeat case_bool_decide; subst; try done; try lia.
  - intros e He. unfold during in He. rewrite !elem_of_cons, elem_of_nil in He. destruct He as [-> |[-> |[-> |[]]]]; discriminate.
  - exists skip. split; [exact E|]. rewrite !H. split_and!; [left; vm_compute; done| |right; unfold during; rewrite !elem_of_cons; auto].
    intros [Hp|Hin]; [revert Hp; vm_compute; discriminate|]. unfold during in Hin. rewrite !elem_of_cons, elem_of_nil in Hin.
    destruct Hin as [?|[?|[?|[]]]]; discriminate.
Defined.
End Examples.
End Listing.
