(* ===== verification/Children.v ===== *)
(** * The children of a directory and its readers

    [DirInodeData] of [core/dir.go]: the sorted list of children with its search,
    insertion and removal, and the handles that read the directory while it
    changes.  Children are pointers; [nm] gives the names of the inodes they
    point to.  [Tree] runs these operations on the inodes of a file system. *)

From stdpp Require Import strings.
From S2P Require Import Prelude Errors Attrs Names Listing.

Module Children.
Import Names Errors Listing.

(** ** Data *)

Record Dir := mkDir {
  lastOpenDirIdx : Z;
  seqOpenDirScore : Z;
  DirTime : Z;
  ImplicitDir : bool;
  listMarker : text;
  lastFromCloud : option text;
  listDone : bool;
  forgetDuringList : bool;
  refreshStartTime : Z;
  Children : list Z;
  gaps : Gaps.slice;
  handles : list Z;
  generation : Z;  (* uint64 *)
}.

Record DirHandle := mkHandle {
  dh_inode : Z;
  noSlurp : bool;
  lastExternalOffset : Z;
  lastInternalOffset : Z;
  dh_generation : Z;
  lastName : text;
}.
Definition NewDirHandle (inode : Z) : DirHandle := mkHandle inode false 0 0 0 [].

(** [set d f v] is [d] with field [f] replaced by [v]. *)
Ltac assign d f v :=
  let t := constr:(mkDir (lastOpenDirIdx d) (seqOpenDirScore d) (DirTime d) (ImplicitDir d) (listMarker d) (lastFromCloud d) (listDone d)
    (forgetDuringList d) (refreshStartTime d) (Children d) (gaps d) (handles d) (generation d)) in
  let p := eval pattern (f d) in t in
  match p with ?g _ => let r := eval cbv beta in (g v) in exact r end.
Definition set_lastOpenDirIdx (v : Z) (d : Dir) : Dir := ltac:(assign d lastOpenDirIdx v).
Definition set_seqOpenDirScore (v : Z) (d : Dir) : Dir := ltac:(assign d seqOpenDirScore v).
Definition set_DirTime (v : Z) (d : Dir) : Dir := ltac:(assign d DirTime v).
Definition set_ImplicitDir (v : bool) (d : Dir) : Dir := ltac:(assign d ImplicitDir v).
Definition set_listMarker (v : text) (d : Dir) : Dir := ltac:(assign d listMarker v).
Definition set_lastFromCloud (v : option text) (d : Dir) : Dir := ltac:(assign d lastFromCloud v).
Definition set_listDone (v : bool) (d : Dir) : Dir := ltac:(assign d listDone v).
Definition set_forgetDuringList (v : bool) (d : Dir) : Dir := ltac:(assign d forgetDuringList v).
Definition set_refreshStartTime (v : Z) (d : Dir) : Dir := ltac:(assign d refreshStartTime v).
Definition set_Children (v : list Z) (d : Dir) : Dir := ltac:(assign d Children v).
Definition set_gaps (v : Gaps.slice) (d : Dir) : Dir := ltac:(assign d gaps v).
Definition set_handles (v : list Z) (d : Dir) : Dir := ltac:(assign d handles v).
Definition set_generation (v : Z) (d : Dir) : Dir := ltac:(assign d generation v).

Section children.
Context (nm : Z -> text).
Implicit Types (dir : Dir) (dh : DirHandle) (name : text) (p : Z).

Definition names dir : list text := nm <$> Children dir.

(** ** Searching *)

(** The index [sort.Search] finds with [findInodeFunc]. *)
Definition search dir name : Z := search_name (names dir) name.
Definition findChildIdxUnlocked dir name : Z :=
  let l := zlen (Children dir) in
  if l =? 0 then -1
  else let i := search dir name in
       match znth (Children dir) i with
       | Some p => if bool_decide (nm p = name) then i else -1
       | None => -1
       end.
Definition findChildUnlocked dir name : option Z :=
  let l := zlen (Children dir) in
  if l =? 0 then None
  else let i := search dir name in
       match znth (Children dir) i with
       | Some p => if bool_decide (nm p = name) then Some p else None
       | None => None
       end.

(** ** Changes of the list *)

(** Without [inode.Ref]. *)
Definition insertChildUnlocked p dir : outcome Dir :=
  let l := zlen (Children dir) in
  if l =? 0 then Ok (set_Children [p] dir)
  else
    let i := search dir (nm p) in
    if i =? l then
      (* not found = new value is the biggest *)
      Ok (set_Children (Children dir ++ [p]) dir)
    else
      match znth (Children dir) i with
      | None => Panic SliceOutOfRange
      | Some c =>
        if bool_decide (nm c = nm p) then Panic ChildExists
        else
          let dir := set_generation (generation dir +u 1) dir in
          let dir := if i <=? lastOpenDirIdx dir then set_lastOpenDirIdx (lastOpenDirIdx dir + 1) dir else dir in
          Ok (set_Children (take (Z.to_nat i) (Children dir) ++ p :: drop (Z.to_nat i) (Children dir)) dir)
      end.

(** Without [inode.DeRef]; an empty list is left alone. *)
Definition removeChildUnlocked p dir : outcome (option Dir) :=
  let l := zlen (Children dir) in
  if l =? 0 then Ok None
  else
    let i := search dir (nm p) in
    match znth (Children dir) i with
    | None => Panic ChildNotFound
    | Some c =>
      if negb (bool_decide (nm c = nm p)) then Panic ChildNotFound
      else
        (* Handles notice the bump in checkDirPosition and re-find their place by lastName. *)
        let dir := set_generation (generation dir +u 1) dir in
        (* >= because we use the "last open dir" as the "next" one *)
        let dir := if i <=? lastOpenDirIdx dir then set_lastOpenDirIdx (lastOpenDirIdx dir - 1) dir else dir in
        Ok (Some (set_Children (take (Z.to_nat i) (Children dir) ++ drop (Z.to_nat i + 1) (Children dir)) dir))
    end.

(** ** Reading *)

Definition checkDirPosition dir dh : DirHandle :=
  let '(mkHandle inode noSlurp ext int gen last) := dh in
  (* A child mutator bumps the directory's generation, and the handle re-finds its place below. *)
  let '(int, gen) := if gen =? generation dir then (int, gen) else (-1, generation dir) in
  let int :=
    if int <? 0 then
      (* Directory position invalidated, try to find it again using lastName *)
      if ext =? 0 then 0
      else if bool_decide (last = txt ".") then 1
      else if bool_decide (last = txt "..") then 2
      else
        let i := search dir last in
        let found := match znth (Children dir) i with Some c => bool_decide (nm c = last) | None => false end in
        (if found then i + 1 else i) + 2
    else int in
  mkHandle inode noSlurp ext int gen last.

(** What is found at the position of a handle. *)
Inductive dir_entry := Dot | DotDot | Child (p : Z) | End.
(** The end of [ReadDir], with a position of at least 2. *)
Definition serve dir dh : outcome (dir_entry * Dir) :=
  let i := lastInternalOffset dh - 2 in
  if zlen (Children dir) <=? i then
    (* we've reached the end *)
    let dir := set_listDone false dir in
    Ok (End, if forgetDuringList dir then set_gaps Gaps.nil_slice (set_DirTime Attrs.zero_time dir) else dir)
  else match znth (Children dir) i with
       | None => Panic SliceOutOfRange
       | Some c => Ok (Child c, if bool_decide (lastFromCloud dir = Some (nm c)) then set_lastFromCloud None dir else dir)
       end.
(** [ReadDir] of a directory whose listing is not expired. *)
Definition ReadDir_cached dir dh : outcome (dir_entry * Dir * DirHandle) :=
  let dh := checkDirPosition dir dh in
  if lastInternalOffset dh =? 0 then Ok (Dot, dir, dh)
  else if lastInternalOffset dh =? 1 then Ok (DotDot, dir, dh)
  else letO! r := serve dir dh in Ok (r, dh).

Definition Next name dh : DirHandle :=
  let '(mkHandle inode noSlurp ext int gen last) := dh in
  mkHandle inode noSlurp (ext + 1) (if 0 <=? int then int + 1 else int) gen name.

Definition Seek (newOffset : Z) dir dh : outcome DirHandle :=
  let '(mkHandle inode noSlurp ext int gen last) := dh in
  if negb (newOffset =? 0) && negb (newOffset =? ext) then
    let l := zlen (Children dir) in
    let int := if 2 + l <? newOffset then 2 + l else newOffset in
    if int =? 1 then Ok (mkHandle inode noSlurp newOffset int gen (txt "."))
    else if int =? 2 then Ok (mkHandle inode noSlurp newOffset int gen (txt ".."))
    else match znth (Children dir) (int - 3) with
         | Some c => Ok (mkHandle inode noSlurp newOffset int gen (nm c))
         | None => Panic SliceOutOfRange
         end
  else if newOffset =? 0 then Ok (mkHandle inode noSlurp 0 0 gen [])
  else Ok dh.
End children.
(** ** The list is a sorted map *)

Section lemmas.
Context (nm : Z -> text).
Implicit Types (dir : Dir) (dh : DirHandle) (name : text) (p : Z).

Lemma znth_head {A} (x : A) l : znth (x :: l) 0 = Some x.
Proof. done. Qed.

(** Children are in the order of their names, and no name is empty. *)
Definition children_ok dir : Prop := sorted (names nm dir) /\ [] ∉ names nm dir.

(** Before and after a name. *)
Lemma search_split dir name : sorted (names nm dir) -> name <> [] ->
  exists l1 l2, Children dir = l1 ++ l2 /\ search nm dir name = zlen l1 /\
    (forall c, c ∈ l1 -> text_lt (nm c) name) /\ (forall c, c ∈ l2 -> text_le name (nm c)).
Proof.
  intros Hs Hne. destruct (search_name_split (names nm dir) name Hs Hne) as (n1 & n2 & E & Ei & H1 & H2).
  unfold names in E. apply fmap_app_inv in E as (l1 & l2 & -> & -> & Ec). exists l1, l2. split_and!; [done| |..].
  - unfold search. rewrite Ei. unfold zlen. by rewrite length_fmap.
  - intros c Hc. apply H1. apply list_elem_of_fmap. eauto.
  - intros c Hc. apply H2. apply list_elem_of_fmap. eauto.
Qed.
Lemma children_split l1 l2 dir : Children dir = l1 ++ l2 -> sorted (names nm dir) ->
  sorted (nm <$> l1) /\ sorted (nm <$> l2) /\ forall a b, a ∈ l1 -> b ∈ l2 -> text_lt (nm a) (nm b).
Proof.
  unfold names. intros -> Hs. rewrite fmap_app in Hs. apply sorted_app in Hs as (? & ? & Hlt). split_and!; try done.
  intros a b Ha Hb. apply Hlt; apply list_elem_of_fmap; eauto.
Qed.

Lemma findChildUnlocked_spec dir name : children_ok dir -> name <> [] ->
  match findChildUnlocked nm dir name with
  | Some p => p ∈ Children dir /\ nm p = name
  | None => name ∉ names nm dir
  end.
Proof.
  intros [Hs _] Hne. unfold findChildUnlocked. destruct (Z.eqb_spec (zlen (Children dir)) 0) as [E0|E0].
  { apply zlen_0 in E0. unfold names. rewrite E0. apply not_elem_of_nil. }
  destruct (search_split dir name Hs Hne) as (l1 & l2 & E & -> & H1 & H2). rewrite E, znth_app_r, Z.sub_diag by lia.
  assert (Hl1 : forall c, c ∈ l1 -> nm c <> name) by (intros c Hc Ec; apply (lt_irrefl name); rewrite <- Ec at 1; by apply H1).
  destruct l2 as [|c l2]; [change (znth (@nil Z) 0) with (@None Z)|rewrite znth_head].
  - unfold names. rewrite E, app_nil_r. intros (c & -> & Hc)%list_elem_of_fmap. by apply (Hl1 c).
  - case_bool_decide as Ec.
    + split; [apply elem_of_app; right; by left|done].
    + unfold names. rewrite E. intros (c' & -> & Hc)%list_elem_of_fmap. apply elem_of_app in Hc as [Hc|[-> |Hc]%elem_of_cons]; [by apply (Hl1 c')|done|].
      destruct (children_split (l1 ++ [c]) l2 dir) as (_ & _ & Hlt); [by rewrite <- app_assoc|done|].
      apply (lt_irrefl (nm c')). eapply le_lt_trans; [apply H2; by left|apply Hlt; [apply elem_of_app; right; by left|done]].
Qed.

(** A child with a new name gets its place; the reader's position can only be wrong if the generation changed. *)
Lemma insertChildUnlocked_spec p dir : children_ok dir -> nm p <> [] -> nm p ∉ names nm dir ->
  exists l1 l2 idx gen, Children dir = l1 ++ l2 /\
    insertChildUnlocked nm p dir = Ok (set_Children (l1 ++ p :: l2) (set_generation gen (set_lastOpenDirIdx idx dir))) /\
    children_ok (set_Children (l1 ++ p :: l2) dir) /\ (l2 <> [] /\ gen = generation dir +u 1 \/ l2 = [] /\ gen = generation dir).
Proof.
  intros [Hs Hn] Hne Hnew. unfold insertChildUnlocked.
  assert (Hok : forall l1 l2, Children dir = l1 ++ l2 -> (forall c, c ∈ l1 -> text_lt (nm c) (nm p)) -> (forall c, c ∈ l2 -> text_le (nm p) (nm c)) ->
    children_ok (set_Children (l1 ++ p :: l2) dir)).
  { intros l1 l2 E H1 H2. destruct (children_split l1 l2 dir E Hs) as (S1 & S2 & H12). unfold children_ok, names in *. cbn [Children set_Children] in *.
    rewrite E in *. rewrite fmap_app, fmap_cons in *. split.
    - apply sorted_app. split_and!; [done|constructor; [done|]|].
      + apply Forall_fmap, Forall_forall. intros c Hc. cbn. destruct (proj1 (le_iff _ _) (H2 c Hc)) as [?|Eq]; [done|]. destruct Hnew. rewrite Eq. apply elem_of_app. right. apply list_elem_of_fmap. eauto.
      + intros a b (c & -> & Hc)%list_elem_of_fmap [-> |(c' & -> & Hc')%list_elem_of_fmap]%elem_of_cons; [by apply H1|by apply H12].
    - rewrite elem_of_app, elem_of_cons. rewrite elem_of_app in Hn. intros [?|[?|?]]; [tauto|by destruct Hne|tauto]. }
  destruct (Z.eqb_spec (zlen (Children dir)) 0) as [E0|E0].
  { apply zlen_0 in E0. exists [], [], (lastOpenDirIdx dir), (generation dir). rewrite E0. split_and!; [done|by destruct dir| |by right].
    apply (Hok [] []); [done|by intros c ?%elem_of_nil..]. }
  destruct (search_split dir (nm p) Hs Hne) as (l1 & l2 & E & -> & H1 & H2). specialize (Hok l1 l2 E H1 H2).
  rewrite E, zlen_app. exists l1, l2. destruct l2 as [|c l2].
  - rewrite (proj2 (Z.eqb_eq _ _)) by (unfold zlen; cbn; lia). exists (lastOpenDirIdx dir), (generation dir). rewrite app_nil_r.
    split_and!; [done|by destruct dir|done|by right].
  - rewrite (proj2 (Z.eqb_neq _ _)) by (unfold zlen; cbn; lia). rewrite znth_app_r, Z.sub_diag, znth_head by lia.
    rewrite bool_decide_false.
    2: { intros Ec. apply Hnew. unfold names. rewrite E, <- Ec. apply list_elem_of_fmap. exists c. split; [done|]. apply elem_of_app. right. by left. }
    change (lastOpenDirIdx (set_generation (generation dir +u 1) dir)) with (lastOpenDirIdx dir).
    exists (if zlen l1 <=? lastOpenDirIdx dir then lastOpenDirIdx dir + 1 else lastOpenDirIdx dir), (generation dir +u 1).
    split_and!; [done| |done|by left]. destruct (zlen l1 <=? lastOpenDirIdx dir); cbn [Children set_lastOpenDirIdx set_generation]; rewrite E.
    all: unfold zlen; by rewrite Nat2Z.id, take_app_length, drop_app_length.
Qed.

Lemma removeChildUnlocked_spec p dir : children_ok dir -> p ∈ Children dir ->
  exists l1 l2 idx, Children dir = l1 ++ p :: l2 /\
    removeChildUnlocked nm p dir = Ok (Some (set_Children (l1 ++ l2) (set_generation (generation dir +u 1) (set_lastOpenDirIdx idx dir)))) /\
    children_ok (set_Children (l1 ++ l2) dir) /\ nm p ∉ nm <$> (l1 ++ l2).
Proof.
  intros [Hs Hn] Hp. unfold removeChildUnlocked. destruct (Z.eqb_spec (zlen (Children dir)) 0) as [E0|E0].
  { apply zlen_0 in E0. rewrite E0 in Hp. by apply elem_of_nil in Hp. }
  assert (Hne : nm p <> []). { intros E. apply Hn. unfold names. rewrite <- E. apply list_elem_of_fmap. eauto. }
  destruct (search_split dir (nm p) Hs Hne) as (l1 & l2 & E & -> & H1 & H2). destruct (children_split l1 l2 dir E Hs) as (S1 & S2 & H12).
  rewrite E in Hp. apply elem_of_app in Hp as [Hp|Hp]; [by apply H1, lt_irrefl in Hp|]. destruct l2 as [|c l2]; [by apply elem_of_nil in Hp|].
  assert (c = p) as ->.
  { apply elem_of_cons in Hp as [?|Hp]; [done|]. exfalso. rewrite fmap_cons in S2. apply StronglySorted_inv in S2 as [_ Hf]. rewrite Forall_fmap, Forall_forall in Hf.
    apply (lt_irrefl (nm c)). eapply lt_le_trans; [by apply (Hf p)|]. apply H2. by left. }
  exists l1, l2. rewrite E, znth_app_r, Z.sub_diag, znth_head by lia. rewrite bool_decide_true by done. cbn [negb].
  change (lastOpenDirIdx (set_generation (generation dir +u 1) dir)) with (lastOpenDirIdx dir).
  exists (if zlen l1 <=? lastOpenDirIdx dir then lastOpenDirIdx dir - 1 else lastOpenDirIdx dir).
  rewrite fmap_cons in S2. apply StronglySorted_inv in S2 as [S2 Hf]. rewrite Forall_fmap, Forall_forall in Hf.
  split_and!; [done| | |].
  - destruct (zlen l1 <=? lastOpenDirIdx dir); cbn [Children set_lastOpenDirIdx set_generation]; rewrite E.
    all: unfold zlen; by rewrite Nat2Z.id, take_app_length, <- drop_drop, drop_app_length.
  - unfold children_ok, names in *. cbn [Children set_Children]. rewrite E, fmap_app, fmap_cons in *. split.
    + apply sorted_app. split_and!; [done..|]. intros a b (x & -> & ?)%list_elem_of_fmap (y & -> & ?)%list_elem_of_fmap. apply H12; [done|by right].
    + intros H0. apply Hn. rewrite elem_of_app, elem_of_cons. apply elem_of_app in H0 as [?|?]; auto.
  - intros (x & Ex & Hx)%list_elem_of_fmap. apply elem_of_app in Hx as [Hx|Hx].
    + apply (lt_irrefl (nm p)). rewrite Ex at 1. by apply H1.
    + apply (lt_irrefl (nm p)). rewrite Ex at 2. by apply Hf.
Qed.
End lemmas.
(** ** Reading while the directory changes *)

Section readers.
(** The parent of the directory. *)
Context (parent : Z).

(** The name in [makeDirEntry]. *)
Definition makeDirEntry (nm : Z -> text) (inode offset : Z) : text :=
  if offset =? 0 then txt "." else if offset =? 1 then txt ".." else nm inode.

(** A directory, the names of inodes, one reader, the names of children it
    returned, and whether it was told that there are no more. *)
Record reader := mkReader { r_nm : Z -> text; r_dir : Dir; r_dh : DirHandle; returned : list text; ended : bool }.

(** A child appears, a child is removed, all are removed, or the reader asks
    for the next entry and takes it. *)
Inductive event := EInsert (p : Z) (name : text) | ERemove (p : Z) | ERemoveAll | ERead.

Definition named (nm : Z -> text) (p : Z) (name : text) : Z -> text := fun q => if q =? p then name else nm q.

(** The body of the loop of [GoofysFuse.ReadDir]. *)
Definition read_next (r : reader) : outcome reader :=
  letO! e := ReadDir_cached (r_nm r) (r_dir r) (r_dh r) in
  let '(entry, dir, dh) := e in
  let take inode names := let name := makeDirEntry (r_nm r) inode (lastExternalOffset dh) in
                          Ok (mkReader (r_nm r) dir (Next name dh) (returned r ++ names name) (ended r)) in
  match entry with
  | Dot => take (dh_inode dh) (fun _ => [])
  | DotDot => take parent (fun _ => [])
  | Child c => take c (fun name => [name])
  | End => Ok (mkReader (r_nm r) dir dh (returned r) true)
  end.
Definition run_event (e : event) (r : reader) : outcome reader :=
  match e with
  | EInsert p name =>
    let nm := named (r_nm r) p name in
    letO! dir := insertChildUnlocked nm p (r_dir r) in Ok (mkReader nm dir (r_dh r) (returned r) (ended r))
  | ERemove p =>
    letO! dir := removeChildUnlocked (r_nm r) p (r_dir r) in
    Ok (mkReader (r_nm r) (default (r_dir r) dir) (r_dh r) (returned r) (ended r))
  | ERemoveAll =>
    let dir := set_Children [] (set_generation (generation (r_dir r) +u 1) (r_dir r)) in
    Ok (mkReader (r_nm r) dir (r_dh r) (returned r) (ended r))
  | ERead => read_next r
  end.
Fixpoint run_events (evs : list event) (r : reader) : outcome reader :=
  match evs with
  | [] => Ok r
  | e :: evs' => letO! r' := run_event e r in run_events evs' r'
  end.

(** Names of children: not empty, and not one of the dot entries. *)
Definition good_name (name : text) : Prop := name <> [] /\ name <> txt "." /\ name <> txt "..".
Definition event_ok (r : reader) (e : event) : Prop :=
  match e with
  | EInsert p name => (p ∉ Children (r_dir r)) /\ good_name name /\ name ∉ names (r_nm r) (r_dir r)
  | ERemove p => p ∈ Children (r_dir r)
  | _ => True
  end.
(** Each event can occur, and the child [n] is there all the time. *)
Fixpoint events_ok (n : text) (evs : list event) (r : reader) : Prop :=
  n ∈ names (r_nm r) (r_dir r) /\
  match evs with
  | [] => True
  | e :: evs' => event_ok r e /\ forall r', run_event e r = Ok r' -> events_ok n evs' r'
  end.

(** *** The invariant of a reader *)

Definition times (n : text) (l : list text) : Z := zlen (filter (fun m => m = n) l).
(** The reader is past the name. *)
Definition passed dh (n : text) : Prop := 2 < lastExternalOffset dh /\ text_le n (lastName dh).
#[export] Instance passed_dec dh n : Decision (passed dh n).
Proof. unfold passed. apply _. Defined.
Definition position_ok (nm : Z -> text) dir dh (n : text) : Prop :=
  2 <= lastInternalOffset dh /\ forall i c, Children dir !! i = Some c -> nm c = n -> Z.of_nat i < lastInternalOffset dh - 2 <-> passed dh n.
(** The position is right, or was lost less than 2^64 changes ago. *)
Definition synced (b : Z) (nm : Z -> text) dir dh (n : text) : Prop :=
  lastExternalOffset dh < 2 /\ lastInternalOffset dh = lastExternalOffset dh \/
  generation dir = dh_generation dh +u b /\ (b = 0 -> if lastExternalOffset dh <? 2 then lastInternalOffset dh = lastExternalOffset dh else position_ok nm dir dh n).
Record reader_ok (b : Z) (n : text) (r : reader) : Prop := {
  ro_children : children_ok (r_nm r) (r_dir r);
  ro_names : forall m, m ∈ names (r_nm r) (r_dir r) -> good_name m;
  ro_present : n ∈ names (r_nm r) (r_dir r);
  ro_gen : 0 <= generation (r_dir r) < two64 /\ 0 <= dh_generation (r_dh r) < two64;
  ro_stage : 0 <= lastExternalOffset (r_dh r) /\
    match lastExternalOffset (r_dh r) with
    | 0 => True | 1 => lastName (r_dh r) = txt "." | 2 => lastName (r_dh r) = txt ".." | _ => good_name (lastName (r_dh r))
    end;
  ro_synced : synced b (r_nm r) (r_dir r) (r_dh r) n;
  ro_count : times n (returned r) = if bool_decide (passed (r_dh r) n) then 1 else 0;
  ro_ended : ended r = true -> passed (r_dh r) n;
}.
(** *** Each event keeps it *)

Lemma u64_unchanged g b : 0 <= g < two64 -> 0 <= b < two64 -> g = g +u b -> b = 0.
Proof.
  intros Hg Hb E. destruct (decide (g + b < two64)); [rewrite u64_small in E by lia; lia|].
  unfold u64 in E. rewrite <- (Z.mod_unique (g + b) two64 1 (g + b - two64)) in E by lia. lia.
Qed.
Lemma child_index nm dir n : n ∈ names nm dir -> exists (i : nat) c, Children dir !! i = Some c /\ nm c = n.
Proof. unfold names. intros (c & -> & [i Hi]%list_elem_of_lookup)%list_elem_of_fmap. eauto. Qed.
Lemma index_lt nm dir (i j : nat) c d : children_ok nm dir -> Children dir !! i = Some c -> Children dir !! j = Some d ->
  (i <= j)%nat <-> text_le (nm c) (nm d).
Proof.
  intros [Hs _] Hi Hj. assert (Hlt : forall (i j : nat) c d, Children dir !! i = Some c -> Children dir !! j = Some d -> (i < j)%nat -> text_lt (nm c) (nm d)).
  { intros i' j' c' d' Hi' Hj' ?. eapply (sorted_lookup (names nm dir)); [done|..|done]; unfold names; rewrite list_lookup_fmap; [by rewrite Hi'|by rewrite Hj']. }
  split.
  - intros ?. destruct (decide (i = j)) as [-> |]; [rewrite Hi in Hj; simplify_eq; apply le_refl|]. apply lt_le. eapply Hlt; [done..|lia].
  - intros Hle. destruct (decide (i <= j)%nat); [done|]. exfalso. eapply lt_nle; [|exact Hle]. eapply Hlt; [done..|lia].
Qed.

(** The position found by name. *)
Lemma search_position nm dir n last : children_ok nm dir -> last <> [] ->
  let k := search nm dir last in
  let found := match znth (Children dir) k with Some c => bool_decide (nm c = last) | None => false end in
  0 <= k /\ forall i c, Children dir !! i = Some c -> nm c = n -> Z.of_nat i < (if found then k + 1 else k) <-> text_le n last.
Proof.
  intros Hok Hne. pose proof Hok as [Hs _]. destruct (search_split nm dir last Hs Hne) as (l1 & l2 & E & Ek & H1 & H2). rewrite Ek. split; [apply zlen_nonneg|].
  intros i c Hi <-. rewrite E, znth_app_r, Z.sub_diag by lia. unfold zlen.
  assert (Hl1 : (i < length l1)%nat -> text_le (nm c) last).
  { intros ?. rewrite E, lookup_app_l in Hi by done. apply lt_le, H1. by eapply list_elem_of_lookup_2. }
  destruct (decide (i < length l1)%nat); [split; [auto|intros _; case_match; lia]|].
  destruct l2 as [|d l2]; [apply lookup_lt_Some in Hi; rewrite E, app_nil_r in Hi; lia|]. rewrite znth_head.
  assert (Hd : Children dir !! length l1 = Some d) by (rewrite E, lookup_app_r, Nat.sub_diag by lia; done).
  pose proof (index_lt nm dir i (length l1) c d Hok Hi Hd) as Hiff. case_bool_decide as Ed.
  - rewrite <- Ed. rewrite <- Hiff. lia.
  - split; [lia|]. intros Hle. exfalso. assert (text_le last (nm d)) as [Hlt| ->]%le_iff by (apply H2; by left); [|done].
    apply (lt_nle _ _ Hlt). eapply le_trans; [|exact Hle]. apply (index_lt nm dir (length l1) i d c Hok Hd Hi). lia.
Qed.

Lemma check_ok b n r : reader_ok b n r -> 0 <= b < two64 ->
  let dh := checkDirPosition (r_nm r) (r_dir r) (r_dh r) in
  reader_ok 0 n (mkReader (r_nm r) (r_dir r) dh (returned r) (ended r)) /\
  dh_generation dh = generation (r_dir r) /\
  if lastExternalOffset dh <? 2 then lastInternalOffset dh = lastExternalOffset dh else position_ok (r_nm r) (r_dir r) dh n.
Proof.
  intros [Hch Hnm Hpr [Hg1 Hg2] [Hext Hst] Hsync Hcnt Hend] Hb. destruct r as [nm dir [ino ns ext int gen last] ret end_].
  cbn [r_nm r_dir r_dh returned ended lastExternalOffset lastInternalOffset dh_generation lastName] in *.
  set (dh := mkHandle ino ns ext (lastInternalOffset (checkDirPosition nm dir (mkHandle ino ns ext int gen last))) (generation dir) last).
  assert (Edh : checkDirPosition nm dir (mkHandle ino ns ext int gen last) = dh).
  { unfold dh, checkDirPosition. destruct (Z.eqb_spec gen (generation dir)) as [-> |]; done. }
  assert (Hpos : if ext <? 2 then lastInternalOffset dh = ext else position_ok nm dir dh n).
  { unfold dh. cbn [lastInternalOffset]. unfold checkDirPosition. destruct (Z.eqb_spec gen (generation dir)) as [Eg|Eg].
    - destruct Hsync as [[He Hi]|[Eb Hs]]; cbn in *.
      + rewrite (proj2 (Z.ltb_lt ext 2)) by lia. rewrite (proj2 (Z.ltb_ge int 0)) by lia. cbn. lia.
      + assert (b = 0) as Eb0 by (apply (u64_unchanged gen); [lia|lia|congruence]). specialize (Hs Eb0). destruct (Z.ltb_spec ext 2).
        * rewrite (proj2 (Z.ltb_ge int 0)) by lia. done.
        * destruct Hs as [Hi Hs]. cbn in Hi. rewrite (proj2 (Z.ltb_ge int 0)) by lia. split; [done|exact Hs].
    - cbn [Z.ltb Z.compare]. destruct (Z.eqb_spec ext 0) as [-> |]; [done|].
      destruct (Z.ltb_spec ext 2); [assert (ext = 1) as -> by lia; cbn iota in Hst; rewrite Hst; by rewrite bool_decide_true|].
      destruct (decide (ext = 2)) as [-> |].
      { cbn iota in Hst. rewrite Hst, bool_decide_false, bool_decide_true by done. split; [done|]. intros i c _ _. unfold passed.
        cbn [lastExternalOffset lastInternalOffset lastName]. lia. }
      assert (good_name last) as (Hne & Hd1 & Hd2). { destruct ext as [|q|]; try lia. destruct q as [q|q|]; try done; destruct q; done. }
      rewrite !bool_decide_false by done. destruct (search_position nm dir n last Hch Hne) as [Hk Hiff]. cbn [lastInternalOffset].
      split; [case_match; cbn; lia|]. intros i c Hi Hc. cbn [lastInternalOffset]. specialize (Hiff i c Hi Hc). unfold passed. cbn [lastExternalOffset lastName].
      match goal with |- _ < ?a + 2 - 2 <-> _ => replace (a + 2 - 2) with a by lia end. rewrite Hiff. split; [split; [lia|done]|by intros [_ ?]]. }
  rewrite Edh. split; [|done]. split; try done. right. cbn [dh_generation r_dir r_dh dh]. rewrite Z.add_0_r, u64_small by done. split; [done|by intros _].
Qed.
Lemma times_app n l1 l2 : times n (l1 ++ l2) = times n l1 + times n l2.
Proof. unfold times. by rewrite filter_app, zlen_app. Qed.
Lemma times_one n m : times n [m] = if bool_decide (m = n) then 1 else 0.
Proof. unfold times. rewrite filter_cons, filter_nil. case_decide; case_bool_decide; done. Qed.

Ltac fields := cbn [r_nm r_dir r_dh returned ended Next lastExternalOffset lastInternalOffset dh_generation lastName dh_inode] in *.

(** One of the dot entries is taken. *)
Lemma dot_ok n nm dir ino ns ext gen last ret end_ :
  reader_ok 0 n (mkReader nm dir (mkHandle ino ns ext ext gen last) ret end_) -> gen = generation dir -> ext < 2 ->
  forall inode, reader_ok 0 n (mkReader nm dir (Next (makeDirEntry nm inode ext) (mkHandle ino ns ext ext gen last)) (ret ++ []) end_).
Proof.
  intros [Hch Hnm Hpr [Hg1 Hg2] [Hext Hst] Hsync Hcnt Hend] -> He inode. fields.
  assert (Hnp : forall dh, lastExternalOffset dh <= 2 -> ~ passed dh n) by (unfold passed; intros; lia).
  assert (Hcase : ext = 0 \/ ext = 1) by lia. rewrite bool_decide_false in Hcnt by (apply Hnp; fields; lia).
  assert (end_ = false) as -> by (destruct end_; [destruct (Hnp (mkHandle ino ns ext ext (generation dir) last)); [fields; lia|by apply Hend]|done]).
  split; fields; try done.
  - by destruct Hcase as [-> | ->].
  - right. fields. rewrite Z.add_0_r, u64_small by done. split; [done|]. intros _. destruct Hcase as [-> | ->]; [done|].
    split; [done|]. intros i c _ _. unfold passed. fields. cbn [Z.leb Z.compare]. lia.
  - rewrite app_nil_r, bool_decide_false; [done|]. apply Hnp. fields. lia.
Qed.

(** A child is taken. *)
Lemma child_ok n nm dir dir' ino ns ext int gen last ret end_ c :
  reader_ok 0 n (mkReader nm dir (mkHandle ino ns ext int gen last) ret end_) -> gen = generation dir -> 2 <= ext ->
  position_ok nm dir (mkHandle ino ns ext int gen last) n -> znth (Children dir) (int - 2) = Some c ->
  Children dir' = Children dir -> generation dir' = generation dir ->
  reader_ok 0 n (mkReader nm dir' (Next (nm c) (mkHandle ino ns ext int gen last)) (ret ++ [nm c]) end_).
Proof.
  intros [Hch Hnm Hpr [Hg1 Hg2] [Hext Hst] Hsync Hcnt Hend] -> He [Hi Hpos] Hc Ec Eg. fields.
  unfold znth in Hc. case_decide; [|done]. destruct (child_index nm dir n Hpr) as (j & d & Hj & Hd).
  pose proof (Hpos j d Hj Hd) as Hiff. pose proof (index_lt nm dir j (Z.to_nat (int - 2)) d c Hch Hj Hc) as Hle. rewrite Hd in Hle.
  assert (Hnew : passed (Next (nm c) (mkHandle ino ns ext int (generation dir) last)) n <-> (j <= Z.to_nat (int - 2))%nat).
  { unfold passed. fields. rewrite Hle. split; [by intros [_ ?]|intros; split; [lia|done]]. }
  assert (Hsame : (j = Z.to_nat (int - 2))%nat <-> nm c = n).
  { split; [intros ->; by simplify_eq|]. intros Ecn. apply Nat.le_antisymm; [apply Hle; rewrite Ecn; apply le_refl|].
    apply (index_lt nm dir (Z.to_nat (int - 2)) j c d Hch Hc Hj). rewrite Ecn, Hd. apply le_refl. }
  split; fields; unfold children_ok, names in *; rewrite ?Ec, ?Eg; try done.
  - split; [lia|]. assert (Hgood : good_name (nm c)) by (apply Hnm, list_elem_of_fmap; exists c; split; [done|by eapply list_elem_of_lookup_2]).
    destruct (ext + 1) as [|q|q] eqn:Eq; try lia. destruct q as [q|q|]; try lia; destruct q; try lia; exact Hgood.
  - right. fields. rewrite Eg, Z.add_0_r, u64_small by done. split; [done|]. intros _. rewrite (proj2 (Z.ltb_ge _ _)) by lia.
    split; fields; rewrite (proj2 (Z.leb_le 0 int)) by lia; [lia|]. intros i' c' Hi' Hc'. rewrite Ec in Hi'. rewrite Hnew.
    assert (i' = j) as -> by (apply Nat.le_antisymm; eapply (index_lt nm dir); try done; rewrite Hc', Hd; apply le_refl).
    lia.
  - rewrite times_app, times_one, Hcnt. rewrite (bool_decide_ext _ _ Hnew), (bool_decide_ext _ _ (iff_sym Hsame)), (bool_decide_ext _ _ (iff_sym Hiff)).
    repeat case_bool_decide; lia.
  - intros E. apply Hnew. apply Hend, Hiff in E. lia.
Qed.

(** The reader takes the next entry, or is past everything. *)
Lemma read_ok b n r : reader_ok b n r -> 0 <= b < two64 -> exists r', read_next r = Ok r' /\ reader_ok 0 n r'.
Proof.
  intros Hr Hb. unfold read_next, ReadDir_cached. destruct (check_ok b n r Hr Hb) as (Hr' & Hgen & Hpos). clear Hr.
  destruct r as [nm dir dh0 ret end_]. fields. set (dh := checkDirPosition nm dir dh0) in *. clearbody dh. destruct dh as [ino ns ext int gen last].
  pose proof (ro_stage _ _ _ Hr') as [Hext _]. fields. destruct (Z.ltb_spec ext 2) as [He|He].
  - subst int. assert (ext = 0 \/ ext = 1) as [-> | ->] by lia; cbn [Z.eqb Pos.eqb bindO]; eexists; (split; [done|]); by apply dot_ok.
  - pose proof Hpos as [Hi Hiff]. fields. rewrite !(proj2 (Z.eqb_neq _ _)) by lia. unfold serve. fields.
    destruct (Z.leb_spec (zlen (Children dir)) (int - 2)) as [Hlen|Hlen]; cbn [bindO].
    + assert (Hp : passed (mkHandle ino ns ext int gen last) n).
      { destruct (child_index nm dir n (ro_present _ _ _ Hr')) as (j & d & Hj & Hd). apply (Hiff j d Hj Hd). apply lookup_lt_Some in Hj. unfold zlen in Hlen. lia. }
      eexists. split; [done|]. destruct Hr' as [Hch Hnm Hpr Hg Hst Hsync Hcnt Hend]. fields. by destruct (forgetDuringList (set_listDone false dir)).
    + destruct (znth_Some (Children dir) (int - 2)) as [c Ec]; [lia|]. rewrite Ec. cbn [bindO]. fields. unfold makeDirEntry.
      rewrite !(proj2 (Z.eqb_neq _ _)) by lia. eexists. split; [done|]. eapply child_ok; try done; by case_bool_decide.
Qed.
(** The list has changed, and the reader can tell. *)
Lemma changed_ok b n nm dir nm' dir' dh ret end_ :
  reader_ok b n (mkReader nm dir dh ret end_) -> children_ok nm' dir' -> (forall m, m ∈ names nm' dir' -> good_name m) -> n ∈ names nm' dir' ->
  generation dir' = generation dir +u 1 -> 0 <= b < two64 - 1 -> reader_ok (b + 1) n (mkReader nm' dir' dh ret end_).
Proof.
  intros [Hch Hnm Hpr [Hg1 Hg2] Hst Hsync Hcnt Hend] Hch' Hnm' Hpr' Eg Hb. split; fields; try done.
  - rewrite Eg. split; [apply u64_range|done].
  - destruct Hsync as [?|[E _]]; [by left|]. right. split; [|lia]. rewrite Eg, E. unfold u64. by rewrite Zplus_mod_idemp_l, Z.add_assoc.
Qed.
Lemma names_named nm p name dir : p ∉ Children dir -> names (named nm p name) dir = names nm dir.
Proof.
  intros Hp. unfold names. apply list_fmap_ext. intros i c Hi. unfold named. destruct (Z.eqb_spec c p) as [-> |]; [|done].
  destruct Hp. by eapply list_elem_of_lookup_2.
Qed.

Lemma insert_ok b n r p name : reader_ok b n r -> event_ok r (EInsert p name) -> 0 <= b < two64 - 1 ->
  exists r' b', run_event (EInsert p name) r = Ok r' /\ b <= b' <= b + 1 /\ reader_ok b' n r'.
Proof.
  intros Hr (Hp & Hgood & Hnew) Hb. destruct r as [nm dir dh ret end_]. pose proof Hr as [Hch Hnm Hpr Hg Hst Hsync Hcnt Hend]. cbn [run_event]. fields.
  set (nm' := named nm p name). assert (En : names nm' dir = names nm dir) by (by apply names_named).
  assert (Enm : nm' p = name) by (unfold nm', named; by rewrite Z.eqb_refl).
  destruct (insertChildUnlocked_spec nm' p dir) as (l1 & l2 & idx & gen & E & -> & Hch' & Hcase); [unfold children_ok; by rewrite En|rewrite Enm; apply Hgood|by rewrite Enm, En|].
  cbn [bindO]. set (dir' := set_Children _ _). assert (Hdir' : Children dir' = l1 ++ p :: l2) by done. clearbody nm'.
  assert (Hin : forall m, m ∈ names nm' dir' <-> m = name \/ m ∈ names nm dir).
  { intros m. rewrite <- En. unfold names. rewrite Hdir', E, !fmap_app, fmap_cons, !elem_of_app, elem_of_cons, Enm. tauto. }
  assert (Hnm' : forall m, m ∈ names nm' dir' -> good_name m) by (intros m [-> |?]%Hin; auto).
  assert (Hpr' : n ∈ names nm' dir') by (apply Hin; by right).
  destruct Hcase as [[_ ->]|[-> ->]].
  - exists (mkReader nm' dir' dh ret end_), (b + 1). split_and!; [done|lia|lia|]. by apply (changed_ok b n nm dir).
  - exists (mkReader nm' dir' dh ret end_), b. split_and!; [done|lia|lia|]. split; fields; try done.
    destruct Hsync as [?|[Eg Hpos]]; [by left|]. right. split; [done|]. intros Hb0. specialize (Hpos Hb0). destruct (_ <? 2); [done|].
    destruct Hpos as [Hi Hpos]. split; [done|]. intros i c Hic Hc. rewrite Hdir' in Hic. rewrite app_nil_r in E. subst l1.
    apply lookup_app_Some in Hic as [Hic|[_ Hic]]; [|destruct (i - length (Children dir))%nat; cbn in Hic; simplify_eq; congruence].
    apply (Hpos i c Hic). rewrite <- Hc. assert (names nm' dir !! i = names nm dir !! i) as Ei by (by rewrite En). unfold names in Ei. rewrite !list_lookup_fmap, Hic in Ei. cbn in Ei. by simplify_eq.
Qed.
Lemma remove_ok b n r p : reader_ok b n r -> event_ok r (ERemove p) -> 0 <= b < two64 - 1 ->
  exists r', run_event (ERemove p) r = Ok r' /\ (n ∈ names (r_nm r') (r_dir r') -> reader_ok (b + 1) n r').
Proof.
  intros Hr Hp Hb. destruct r as [nm dir dh ret end_]. pose proof Hr as [Hch Hnm _ _ _ _ _ _]. cbn [run_event event_ok] in *. fields.
  destruct (removeChildUnlocked_spec nm p dir Hch Hp) as (l1 & l2 & idx & E & -> & Hch' & _). cbn [bindO default]. eexists. split; [done|]. fields. intros Hpr.
  apply (changed_ok b n nm dir); try done. intros m Hm. apply Hnm. change (m ∈ nm <$> (l1 ++ l2)) in Hm. unfold names. rewrite E.
  rewrite fmap_app, elem_of_app in Hm. rewrite fmap_app, fmap_cons, elem_of_app, elem_of_cons. tauto.
Qed.

Lemma events_run b n evs r : reader_ok b n r -> events_ok n evs r -> 0 <= b -> b + zlen evs < two64 ->
  exists r' b', run_events evs r = Ok r' /\ reader_ok b' n r'.
Proof.
  revert b r. induction evs as [|e evs IH]; intros b r Hr Hev Hb Hlen; cbn [run_events]; [eauto|]. destruct Hev as (Hpr & He & Hrest).
  assert (Hz : zlen (e :: evs) = zlen evs + 1) by (unfold zlen; cbn; lia). rewrite Hz in Hlen. pose proof (zlen_nonneg evs).
  assert (Hstep : exists r' b', run_event e r = Ok r' /\ 0 <= b' <= b + 1 /\ (n ∈ names (r_nm r') (r_dir r') -> reader_ok b' n r')).
  { destruct e as [p name|p| |].
    - destruct (insert_ok b n r p name Hr He) as (r' & b' & E & ? & ?); [lia|]. exists r', b'. split_and!; auto; lia.
    - destruct (remove_ok b n r p Hr He) as (r' & E & ?); [lia|]. exists r', (b + 1). split_and!; auto; lia.
    - eexists _, 0. split_and!; [done|lia|lia|]. fields. unfold names. cbn [Children set_Children]. by intros ?%elem_of_nil.
    - destruct (read_ok b n r Hr) as (r' & E & ?); [lia|]. exists r', 0. split_and!; auto; lia. }
  destruct Hstep as (r' & b' & E & Hb' & Hr'). rewrite E. cbn [bindO]. specialize (Hrest r' E).
  assert (Hn : n ∈ names (r_nm r') (r_dir r')) by (destruct evs; apply Hrest). apply (IH b'); [by apply Hr'|done|lia|lia].
Qed.

(** C16: Reading a directory while it changes.  A reader that opened the
    directory and reads until it is told that there are no more entries has
    received the name of every child that was there all the time exactly once,
    however many children were added, removed or renamed between its calls, at
    whatever places of the list; and no call panics. *)
Theorem readdir_complete nm dir inode n evs :
  children_ok nm dir -> (forall m, m ∈ names nm dir -> good_name m) -> 0 <= generation dir < two64 -> zlen evs < two64 ->
  let r := mkReader nm dir (NewDirHandle inode) [] false in
  events_ok n evs r ->
  exists r', run_events evs r = Ok r' /\ (ended r' = true -> times n (returned r') = 1).
Proof.
  intros Hch Hnm Hg Hlen r Hev. assert (Hn : n ∈ names nm dir) by (destruct evs; apply Hev).
  destruct (events_run 0 n evs r) as (r' & b' & E & Hr'); [|done|lia|lia|].
  - split; unfold r; fields; cbn [NewDirHandle lastExternalOffset dh_generation lastName]; try done. by left.
  - exists r'. split; [done|]. intros He. rewrite (ro_count _ _ _ Hr'). by rewrite bool_decide_true by (by apply (ro_ended _ _ _ Hr')).
Qed.
End readers.
(** ** An example *)

(** Children a, b and c. *)
Definition abc_names : Z -> text := fun p => if p =? 1 then txt "a" else if p =? 2 then txt "b" else txt "c".
Definition new_dir : Dir := mkDir (-1) 0 0 false [] None false false 0 [] Gaps.nil_slice [] 0.
Definition abc : Dir := set_Children [1; 2; 3] new_dir.
(** After a was read it is removed, and d and bb appear. *)
Definition abc_events : list event := [ERead; ERead; ERead; ERemove 1; EInsert 4 (txt "d"); ERead; EInsert 5 (txt "bb"); ERead; ERead; ERead; ERead].

Ltac next_event := split; [vm_compute; repeat (first [left; reflexivity | right])|]; split; [try exact I|intros r' E; vm_compute in E; injection E as <-].
Ltac not_listed := vm_compute; intros Hin; repeat (apply elem_of_cons in Hin as [Hin|Hin]; [discriminate Hin|]); by apply elem_of_nil in Hin.
Lemma readdir_complete_witness :
  exists r', run_events 0 abc_events (mkReader abc_names abc (NewDirHandle 7) [] false) = Ok r' /\
    returned r' = [txt "a"; txt "b"; txt "bb"; txt "c"; txt "d"] /\ ended r' = true /\ times (txt "c") (returned r') = 1.
Proof.
  destruct (readdir_complete 0 abc_names abc 7 (txt "c") abc_events) as (r' & E & H).
  - split; [vm_compute; repeat constructor|not_listed].
  - intros m Hm. change (m ∈ [txt "a"; txt "b"; txt "c"]) in Hm. rewrite !elem_of_cons, elem_of_nil in Hm.
    destruct Hm as [-> |[-> |[-> |[]]]]; vm_compute; split_and!; discriminate.
  - split; [done|]. reflexivity.
  - reflexivity.
  - do 3 next_event. next_event; [left|]. next_event; [split_and!; [not_listed|vm_compute; split_and!; discriminate|not_listed]|].
    next_event. next_event; [split_and!; [not_listed|vm_compute; split_and!; discriminate|not_listed]|]. do 4 next_event. split; [|exact I]. vm_compute. repeat (first [left; reflexivity | right]).
  - exists r'. assert (Hr : returned r' = [txt "a"; txt "b"; txt "bb"; txt "c"; txt "d"] /\ ended r' = true) by (revert E; vm_compute; intros [= <-]; split; reflexivity).
    destruct Hr as [Hr He]. split_and!; [exact E|exact Hr|exact He|exact (H He)].
Defined.
End Children.
