(* ===== verification/Inode.v ===== *)
(** * The state of a file

    The fields of [Inode] ([core/handles.go]) that reading, writing and flushing
    a file work on, with the counters of the file system these operations
    change, and the small operations on them that the rest of [core/file.go]
    shares.  Goroutines are the elements of [tasks]: a task holds what the
    goroutine keeps across a point where it has released the inode lock, so
    that each definition of the following files is one section executed under
    the lock, and a run is an interleaving of such sections.

    - The inode is a regular file: [isDir()] is false.
    - [fs.bufferPool.Use] is modelled in [Pool]; here [poolUse] adds up what the
      file charges, the eviction it may trigger is a separate step, and a
      refusal is an argument of the section.
    - [clock] is the current time.  The index [fs.inodesByTime], statistics and
      log messages are left out. *)

From stdpp Require Import strings.
From S2P Require Import Prelude BTree Parts BufferList BufferListInv Locks Errors ReadAhead Attrs.

Module Inode.
Import Errors Locks.

(** ** Flags of the mount, [cfg.FlagStorage] *)

Record Flags := mkFlags {
  PartSizes : list PartSizeConfig;
  MaxParallelParts : Z;
  MaxParallelCopy : Z;
  MaxFlushers : Z;
  SinglePartMB : Z;
  MaxMergeCopyMB : Z;
  UsePatch : bool;
  PreferPatchUploads : bool;
  DropPatchConflicts : bool;
  ReadMergeKB : Z;
  ReadAheadParallelKB : Z;
  ReadRetryAttempts : Z;
  UseEnomem : bool;
  has_CachePath : bool;  (* CachePath != the empty string *)
  attr_flags : Attrs.AttrFlags;
  RetryInterval : Z;
  StatCacheTTL : Z;
  read_flags : ReadAhead.ReadFlags;
}.

(** ** Cache states *)

Inductive cache_state := ST_CACHED | ST_DEAD | ST_CREATED | ST_MODIFIED | ST_DELETED.
#[export] Instance cache_state_eq_dec : EqDecision cache_state.
Proof. solve_decision. Defined.
Definition in_state (s : cache_state) (ss : list cache_state) : bool := bool_decide (s ∈ ss).
(** [CacheState <= ST_DEAD] *)
Definition settled (s : cache_state) : bool := in_state s [ST_CACHED; ST_DEAD].

(** A parent directory and a name in it; the object key of a file is made of these. *)
Definition location : Type := Z * text.

(** A multipart upload, [MultipartBlobCommitInput]: [upload] is its identity, [Parts] holds the tags of the stored parts. *)
Record MPU := mkMPU { upload : Z; mpu_key : location; Parts : gmap Z Z; NumParts : Z; with_Metadata : bool }.

(** ** Goroutines *)

(** Where a call of [LoadRange] stands: the lock was released around [Use], or
    it waits on [readCond]. *)
Inductive load_stage :=
| LoadRelock (offset size : Z) (miss wait : bool) (err : option error)
| LoadWaiting (offset size : Z).
(** A request to store data: the object, the range, what is sent, and the identifiers of the dirty buffers in it. *)
Record send_request := mkSend { rq_key : location; rq_offset : Z; rq_size : Z; rq_data : list (list byte); rq_ids : gset Z }.
(** Where a call of [flushPart] stands: it has not started, waits for data to
    load, or waits for the answer to an upload. *)
Inductive part_stage :=
| PartStart
| PartLoading (partSize : Z) (ls : load_stage)
| PartUploading (rq : send_request) (partFullSize up : Z).
(** [retryRead]: it has not taken its lock, has an attempt to make at
    [curOffset], or reads the body of an answer. *)
Inductive read_stage :=
| ReadStart
| ReadRequest (curOffset curSize allocated attempt : Z)
| ReadBody (curOffset curSize allocated attempt offset size totalDone : Z).

(** [patchFromBuffers]: it has not started, loads what is missing, or waits for the answer. *)
Inductive patch_stage :=
| PatchStart
| PatchLoading (offset size : Z) (ls : load_stage)
| PatchSending (rq : send_request).

(** [CheckLoadRange]: the first load, a call of [SyncFile] with writers paused, and loads after it. *)
Inductive check_stage := CheckLoading (ls : load_stage) | CheckSync | CheckReloading (ls : load_stage).

(** Goroutines, and calls of the kernel that wait. *)
Inductive task :=
| TRead (key : location) (offset size : Z) (st : read_stage)                   (* retryRead *)
| TPart (part offset size priority : Z) (st : part_stage)                      (* goFlushPart *)
| TSmall                                                                       (* flushSmallObject *)
| TSmallLoading (sz : Z) (ls : load_stage)
| TSmallPut (rq : send_request) (metadata : bool)
| TComplete                                                                    (* completeMultipart *)
| TCopying (key : location) (finalSize numParts up : Z) (todo running : list (Z * Z * Z)) (err : option error)
| TCommit (finalSize up : Z)
| TUpdateMeta                                                                  (* sendUpdateMeta *)
| TBegin (key : location)                                                      (* sendStartMultipart *)
| TBeginSent (key : location) (metadata : bool)
| TMinBegin (key : location)                                                   (* uploadMinMultipart *)
| TMinBeginSent (key : location) (metadata : bool)
| TMinPart (part : Z) (st : part_stage)
| TMinCommit (finalSize up : Z)
| TPatch (exclusive : bool) (offset size partSize : Z) (st : patch_stage)        (* patchSimpleObj, patchPart *)
| TRename (old new : location)                                                 (* sendRename *)
| TRenameLost (place : location) (old : option location)                       (* the object is gone: before [removeChild] *)
| TRenameUndelete (old : location)                                             (* before the lock of the old parent *)
| TRenameDelete (del : location)
| TFlushEnd                                                                    (* sendRename, before its last section *)
| TDelete (old : option location)                                              (* SendDelete *)
| TDeleteOld (old : location) (forget : bool)                                  (* before the lock of the old parent *)
| TDeleteEntry (forget : bool)                                                 (* before the lock of the parent *)
| TDeleteForget                                                                (* before [DeRef] *)
| TMkDir                                                                       (* SendMkDir, of a directory *)
| TReadFile (offset size readAhead : Z) (st : check_stage)                     (* ReadFile *)
| TResize (newSize : Z).                                                       (* ResizeUnlocked, in SyncFile *)

Section inode.
Context {M : Type -> Type} {Q : Type}.

Record Inode := mkInode {
  buffers : bl M Q;
  Size : Z;  (* Attributes.Size *)
  attrs : Attrs.t;  (* the other attributes and the metadata *)
  knownSize : Z;
  knownETag : text;
  CacheState : cache_state;
  mpu : option MPU;
  IsFlushing : Z;
  readRanges : list ReadRange;
  pauseWriters : Z;
  fileHandles : Z;
  forceFlush : bool;
  lastWriteEnd : Z;
  flushError : option error;
  flushErrorTime : Z;
  readError : option error;
  self : Z;  (* the pointer to it *)
  loc : location;  (* Parent and Name *)
  oldLoc : option location;  (* oldParent and oldName *)
  renamingTo : bool;
  AttrTime : Z;
  ExpireTime : Z;
  OnDisk : bool;
  DiskCacheFD : bool;  (* not nil *)
  activeFlushers : Z;  (* fs.activeFlushers *)
  flushPriorities : gmap Z Z;  (* fs.flushPriorities *)
  wantFree : Z;  (* fs.wantFree *)
  hasNewWrites : bool;  (* fs.hasNewWrites *)
  flushPending : bool;  (* fs.flushPending *)
  flushRetrySet : bool;  (* fs.flushRetrySet *)
  poolUse : Z;  (* the sum of the sizes passed to fs.bufferPool.Use *)
  ModifiedChildren : gmap Z Z;  (* of the directories, by the parent the change starts at *)
  DeletedChildren : gmap location Z;  (* of the directories, with the inodes they hold *)
  queued : bool;  (* in fs.inodeQueue *)
  clock : Z;  (* time.Now() *)
  nextUpload : Z;  (* source of upload identities *)
  tasks : list task;  (* running goroutines *)
}.

(** [assign i f v] is [i] with field [f] replaced by [v]. *)
Ltac assign i f v :=
  let t := constr:(mkInode
    (buffers i) (Size i) (attrs i) (knownSize i) (knownETag i) (CacheState i) (mpu i) (IsFlushing i)
    (readRanges i) (pauseWriters i) (fileHandles i) (forceFlush i) (lastWriteEnd i) (flushError i)
    (flushErrorTime i) (readError i) (self i) (loc i) (oldLoc i) (renamingTo i) (AttrTime i) (ExpireTime i)
    (OnDisk i) (DiskCacheFD i) (activeFlushers i) (flushPriorities i) (wantFree i) (hasNewWrites i)
    (flushPending i) (flushRetrySet i) (poolUse i) (ModifiedChildren i) (DeletedChildren i) (queued i) (clock i)
    (nextUpload i) (tasks i)) in
  let p := eval pattern (f i) in t in
  match p with ?g _ => let r := eval cbv beta in (g v) in exact r end.
Definition set_buffers (v : bl M Q) (i : Inode) : Inode := ltac:(assign i buffers v).
Definition set_Size (v : Z) (i : Inode) : Inode := ltac:(assign i Size v).
Definition set_attrs (v : Attrs.t) (i : Inode) : Inode := ltac:(assign i attrs v).
Definition set_knownSize (v : Z) (i : Inode) : Inode := ltac:(assign i knownSize v).
Definition set_knownETag (v : text) (i : Inode) : Inode := ltac:(assign i knownETag v).
Definition set_CacheState (v : cache_state) (i : Inode) : Inode := ltac:(assign i CacheState v).
Definition set_mpu (v : option MPU) (i : Inode) : Inode := ltac:(assign i mpu v).
Definition set_IsFlushing (v : Z) (i : Inode) : Inode := ltac:(assign i IsFlushing v).
Definition set_readRanges (v : list ReadRange) (i : Inode) : Inode := ltac:(assign i readRanges v).
Definition set_pauseWriters (v : Z) (i : Inode) : Inode := ltac:(assign i pauseWriters v).
Definition set_fileHandles (v : Z) (i : Inode) : Inode := ltac:(assign i fileHandles v).
Definition set_forceFlush (v : bool) (i : Inode) : Inode := ltac:(assign i forceFlush v).
Definition set_lastWriteEnd (v : Z) (i : Inode) : Inode := ltac:(assign i lastWriteEnd v).
Definition set_flushError (v : option error) (i : Inode) : Inode := ltac:(assign i flushError v).
Definition set_flushErrorTime (v : Z) (i : Inode) : Inode := ltac:(assign i flushErrorTime v).
Definition set_readError (v : option error) (i : Inode) : Inode := ltac:(assign i readError v).
Definition set_self (v : Z) (i : Inode) : Inode := ltac:(assign i self v).
Definition set_loc (v : location) (i : Inode) : Inode := ltac:(assign i loc v).
Definition set_oldLoc (v : option location) (i : Inode) : Inode := ltac:(assign i oldLoc v).
Definition set_renamingTo (v : bool) (i : Inode) : Inode := ltac:(assign i renamingTo v).
Definition set_AttrTime (v : Z) (i : Inode) : Inode := ltac:(assign i AttrTime v).
Definition set_ExpireTime (v : Z) (i : Inode) : Inode := ltac:(assign i ExpireTime v).
Definition set_OnDisk (v : bool) (i : Inode) : Inode := ltac:(assign i OnDisk v).
Definition set_DiskCacheFD (v : bool) (i : Inode) : Inode := ltac:(assign i DiskCacheFD v).
Definition set_activeFlushers (v : Z) (i : Inode) : Inode := ltac:(assign i activeFlushers v).
Definition set_flushPriorities (v : gmap Z Z) (i : Inode) : Inode := ltac:(assign i flushPriorities v).
Definition set_wantFree (v : Z) (i : Inode) : Inode := ltac:(assign i wantFree v).
Definition set_hasNewWrites (v : bool) (i : Inode) : Inode := ltac:(assign i hasNewWrites v).
Definition set_flushPending (v : bool) (i : Inode) : Inode := ltac:(assign i flushPending v).
Definition set_flushRetrySet (v : bool) (i : Inode) : Inode := ltac:(assign i flushRetrySet v).
Definition set_poolUse (v : Z) (i : Inode) : Inode := ltac:(assign i poolUse v).
Definition set_ModifiedChildren (v : gmap Z Z) (i : Inode) : Inode := ltac:(assign i ModifiedChildren v).
Definition set_DeletedChildren (v : gmap location Z) (i : Inode) : Inode := ltac:(assign i DeletedChildren v).
Definition set_queued (v : bool) (i : Inode) : Inode := ltac:(assign i queued v).
Definition set_clock (v : Z) (i : Inode) : Inode := ltac:(assign i clock v).
Definition set_nextUpload (v : Z) (i : Inode) : Inode := ltac:(assign i nextUpload v).
Definition set_tasks (v : list task) (i : Inode) : Inode := ltac:(assign i tasks v).

(** Run an operation of the buffer list. *)
Definition on_buffers {A} (m : St (bl M Q) A) : St Inode A := fun i =>
  match m (buffers i) with
  | Ok (a, l) => Ok (a, set_buffers l i)
  | Panic p => Panic p
  | OutOfFuel => OutOfFuel
  end.

Lemma wp_on_buffers {A} (m : St (bl M Q) A) (R : A -> Inode -> Prop) i :
  wp m (fun a l => R a (set_buffers l i)) (buffers i) -> wp (on_buffers m) R i.
Proof. unfold wp, on_buffers. by destruct (m (buffers i)) as [[]| |]. Qed.

(** ** Shared operations *)

Context (flags : Flags).

(** [go f()] *)
Definition go (t : task) : St Inode unit := modS (fun i => set_tasks (tasks i ++ [t]) i).

(** [fs.bufferPool.Use] *)
Definition Use (size : Z) : St Inode unit := modS (fun i => set_poolUse (poolUse i + size) i).

Definition WakeupFlusher : St Inode unit := modS (set_flushPending true).
Definition ScheduleRetryFlush : St Inode unit := modS (set_flushRetrySet true).

Definition addModified (parent inc : Z) : St Inode unit :=
  modS (fun i => set_ModifiedChildren (<[parent := (default 0 (ModifiedChildren i !! parent) + inc)%Z]> (ModifiedChildren i)) i).

Definition modified_state (s : cache_state) : bool := in_state s [ST_CREATED; ST_DELETED; ST_MODIFIED].
Definition SetCacheState (state : cache_state) : St Inode unit :=
  let! wasModified := gets (fun i => modified_state (CacheState i)) in
  let willBeModified := modified_state state in
  modS (set_CacheState state) ;;;
  if Bool.eqb wasModified willBeModified then ret tt
  else
    modS (set_queued (negb wasModified)) ;;;
    let! parent := gets (fun i => (loc i).1) in
    addModified parent (if wasModified then -1 else 1).

Definition mod_attrs (f : Attrs.t -> Attrs.t) : St Inode unit := modS (fun i => set_attrs (f (attrs i)) i).
Definition userMetadataDirty (i : Inode) : Z := Attrs.userMetadataDirty (attrs i).
Definition set_userMetadataDirty (d : Z) : St Inode unit := mod_attrs (Attrs.set_userMetadataDirty d).

(** [SetAttrTime] with [SetExpireTime], which only moves the time forward. *)
Definition SetAttrTime (tm : Z) : St Inode unit :=
  modS (set_AttrTime tm) ;;;
  let! i := getS in
  let tm := tm + StatCacheTTL flags in
  if tm <? ExpireTime i then ret tt else modS (set_ExpireTime tm).

Definition recordFlushError (err : option error) : St Inode unit :=
  modS (fun i => set_flushErrorTime (clock i) (set_flushError err i)) ;;;
  ScheduleRetryFlush.

Definition LockRange (offset size : Z) (flushing : bool) : St Inode unit :=
  modS (fun i => set_readRanges (Locks.LockRange offset size flushing (readRanges i)) i).
Definition UnlockRange (offset size : Z) (flushing : bool) : St Inode unit :=
  modS (fun i => set_readRanges (Locks.UnlockRange offset size flushing (readRanges i)) i).

(** Start and end of a flush: [weight] is 1 for a part, [MaxParallelParts] for an exclusive request. *)
Definition begin_flush (weight : Z) : St Inode unit :=
  modS (fun i => set_activeFlushers (activeFlushers i + 1) (set_IsFlushing (IsFlushing i + weight) i)).
Definition end_flush (weight : Z) : St Inode unit :=
  modS (fun i => set_activeFlushers (activeFlushers i - 1) (set_IsFlushing (IsFlushing i - weight) i)) ;;;
  WakeupFlusher.

(** Where the object is stored: a renamed file stays in the old place until it is copied. *)
Definition object_key (i : Inode) : location := default (loc i) (oldLoc i).

(** The request is sent by a goroutine of its own, which changes nothing here but dereferences the upload. *)
Definition abortMultipart : St Inode unit :=
  let! m := gets mpu in
  match m with
  | None => panicS NilDereference
  | Some _ => modS (set_mpu None)
  end.
(** [if inode.mpu != nil { inode.abortMultipart() }] *)
Definition abortMultipart_if : St Inode unit :=
  let! m := gets mpu in
  if bool_decide (m = None) then ret tt else abortMultipart.
End inode.
Arguments Inode : clear implicits.
End Inode.
