(* ===== verification/FileIO.v ===== *)
(** * Reading and writing a file

    The part of [core/file.go] between a file handle and the buffer list:
    writing, resizing, loading data from the server and from the disk cache,
    and reading.  Each definition is what runs under the inode lock between two
    points where the lock is released; where a function waits, its result says
    for what, and a second definition continues it.

    - What the operating system and the server answer is an argument: a
      function of the time ([Env]) for the disk cache, an argument of the
      section for a response.
    - [ignoreMemoryLimit] is only passed on to the memory pool, whose answer is
      an argument, so it is left out.
    - A goroutine that waits on a condition variable is resumed by evaluating
      the continuation again; a wake-up it was not waiting for leaves it where
      it is. *)

From stdpp Require Import strings.
From S2P Require Import Prelude BTree Parts BufferList BufferListInv Locks Errors ReadAhead Attrs Inode.

Module FileIO.
Import Errors BufferList Inode.

Definition READ_BUF_SIZE : Z := 128 * 1024.
Definition IOV_MAX : Z := 1024.

(** Answers of the operating system at a given time, and library functions. *)
Record Env := mkEnv {
  ToLower : text -> text;
  ConvertFileMode : Z -> Z;
  ConvertGoMode : Z -> Z;
  os_Remove : Z -> bool;                          (* whether os.Remove succeeds *)
  os_OpenFile : Z -> option error;
  fd_ReadAt : Z -> Z -> Z -> list byte + error;   (* time, offset, length *)
}.

Inductive load_result := LoadDone (miss : bool) (err : option error) | LoadPending (ls : load_stage).
Inductive write_result := WriteError (e : error) | WriteBlocked | WriteDone.
Inductive resize_result := ResizeDone | ResizeBlocked | ResizeSync.

Section ops.
Context {M : Type -> Type} `{BTreeMap M} {Q : Type} `{BufferListHelpers Q}.
Context (flags : Flags) (env : Env).
Abbreviation I := (Inode M Q).

Definition IsRangeLocked (offset size : Z) (onlyFlushing : bool) (i : I) : bool :=
  Locks.IsRangeLocked offset size onlyFlushing (readRanges i).

(** ** Dropping the cached data *)

Definition resetCache : St I unit :=
  (* Drop all buffers including dirty ones *)
  let! allocated := on_buffers (RemoveRange 0 18446744073709551615 None) in
  Use allocated ;;;
  (* Also remove the cache file from disk, if present *)
  modS (fun i => if OnDisk i then set_OnDisk (negb (os_Remove env (clock i))) (set_DiskCacheFD false i) else i) ;;;
  (* And abort multipart upload, too *)
  abortMultipart_if ;;;
  set_userMetadataDirty 0 ;;;
  SetCacheState ST_CACHED ;;;
  (* Invalidate metadata entry *)
  SetAttrTime flags Attrs.zero_time.

(** ** Resizing and writing *)

(** The loop of [ResizeUnlocked] that waits until nothing past the new end is
    part of an upload, and what follows it.  [ResizeSync] is the call of
    [SyncFile], after which [Resize_synced] goes on: the size is read again
    then, but not compared with the new one any more. *)
Definition Resize_loop (newSize : Z) : St I resize_result :=
  let! i := getS in
  if IsRangeLocked newSize (Size i -u newSize) true i || AnyFlushed newSize (Size i -u newSize) (buffers i) then
    (* We have to first finish the upload to be able to truncate it *)
    modS (set_pauseWriters (pauseWriters i + 1)) ;;; ret ResizeSync
  else
    let! allocated := on_buffers (RemoveRange newSize (Size i -u newSize) None) in
    Use allocated ;;; modS (set_Size newSize) ;;; ret ResizeDone.
Definition ResizeUnlocked (newSize : Z) : St I resize_result :=
  let! i := getS in
  if 0 <? pauseWriters i then ret ResizeBlocked
  else if newSize <? Size i then
    (* Truncate - remove extra buffers *)
    Resize_loop newSize
  else
    (* Zero fill extended region *)
    let! allocated := (if Size i <? newSize then let! '(_, a) := on_buffers (ZeroRange (Size i) (newSize -u Size i)) in ret a else ret 0) in
    Use allocated ;;; modS (set_Size newSize) ;;; ret ResizeDone.
Definition Resize_synced (newSize : Z) : St I resize_result :=
  modS (fun i => set_pauseWriters (pauseWriters i - 1) i) ;;; Resize_loop newSize.

(** [WriteFile] up to taking the lock; [enomem] is the answer of the memory pool. *)
Definition WriteFile_reserve (offset : Z) (data : list byte) (enomem : bool) : St I (option error) :=
  if getMaxFileSize (PartSizes flags) <? u64 offset +u zlen data then ret (Some (Errno EFBIG))
  else if UseEnomem flags then
    if enomem then ret (Some (Errno ENOMEM)) else Use (zlen data) ;;; ret None
  else ret None.
(** The check for a deleted file, made once. *)
Definition WriteFile_check (data : list byte) : St I (option error) :=
  let! st := gets CacheState in
  if in_state st [ST_DELETED; ST_DEAD] then
    (* It's a deleted file. We don't support changing invisible files *)
    (if UseEnomem flags then Use (- zlen data) else ret tt) ;;; ret (Some (Errno ENOENT))
  else ret None.
(** The rest, from [checkPauseWriters] on; false while writers are paused. *)
Definition WriteFile_body (offset : Z) (data spare : list byte) (copyData : bool) : St I bool :=
  let end_ := u64 offset +u zlen data in
  let! i := getS in
  if 0 <? pauseWriters i then ret false
  else
    (* Extend and zero fill *)
    let! _ := (if Size i <? end_ then ResizeUnlocked end_ else ret ResizeDone) in
    let! allocated := on_buffers (Add (u64 offset) data spare BUF_DIRTY copyData) in
    modS (fun i => set_lastWriteEnd end_ (set_hasNewWrites true i)) ;;;
    let! st := gets CacheState in
    (if bool_decide (st = ST_CACHED) then SetCacheState ST_MODIFIED else ret tt) ;;;
    WakeupFlusher ;;;
    let! now := gets clock in
    mod_attrs (Attrs.set_times now now) ;;;
    mod_attrs (fun a =>
      let attr := Attrs.MtimeAttr (attr_flags flags) in
      match Attrs.userMetadata a with
      | Some m => if Attrs.EnableMtime (attr_flags flags) && bool_decide (is_Some (m !! attr))
                  then Attrs.set_meta (Some (delete attr m)) 2 a else a
      | None => a
      end) ;;;
    (* Correct memory usage *)
    Use (if UseEnomem flags then allocated - zlen data else allocated) ;;;
    ret true.

(** The whole of it, up to a wait for the writers to be resumed. *)
Definition WriteFile (offset : Z) (data spare : list byte) (copyData enomem : bool) : St I write_result :=
  let! err := WriteFile_reserve offset data enomem in
  match err with
  | Some e => ret (WriteError e)
  | None =>
    let! err := WriteFile_check data in
    match err with
    | Some e => ret (WriteError e)
    | None => let! done := WriteFile_body offset data spare copyData in ret (if done : bool then WriteDone else WriteBlocked)
    end
  end.

(** ** Loading *)

(** The loop over the ranges at the end of [loadFromServer]. *)
Fixpoint mark_loading (rr : list Range) : St (bl M Q) unit :=
  match rr with
  | [] => ret tt
  | r :: rr' => AddLoading (Start r) (End_ r -u Start r) ;;; mark_loading rr'
  end.
Definition loadFromServer (readRanges : list Range) (readAheadSize : Z) : St I (option error) :=
  (* Add readahead & merge adjacent requests *)
  let! rr := liftO (ReadAhead.mergeRA readRanges readAheadSize (ReadMergeKB flags *u 1024)) in
  let! known := gets knownSize in
  match last rr with
  | None => panicS SliceOutOfRange
  | Some lst =>
    if (known <? End_ lst) && (known <? Start lst) then ret (Some (Errno ERANGE))
    else
      let! rr := (if known <? End_ lst then liftO (ReadAhead.set_last_end rr known) else ret rr) in
      (* Split very large requests into smaller chunks to read in parallel *)
      let! rr := liftO (ReadAhead.splitRA rr (ReadAheadParallelKB flags *u 1024)) in
      (* Mark new ranges as being loaded from the server *)
      on_buffers (mark_loading rr) ;;;
      (* Send requests *)
      modS (fun i => set_tasks (tasks i ++ ((fun r => TRead (object_key i) (Start r) (End_ r -u Start r) ReadStart) <$> rr)) i) ;;;
      ret None
  end.

Definition OpenCacheFD : St I (option error) :=
  let! i := getS in
  if DiskCacheFD i then ret None
  else match os_OpenFile env (clock i) with
       | Some e => ret (Some e)
       | None => modS (fun i => set_OnDisk true (set_DiskCacheFD true i)) ;;; ret None
       end.
(** The error is that of the last range.  No memory is reported as allocated. *)
Fixpoint loadFromDisk_loop (diskRanges : list Range) (err : option error) : St I (option error) :=
  match diskRanges with
  | [] => ret err
  | rr :: rest =>
    let! i := getS in
    match fd_ReadAt env (clock i) (Start rr) (End_ rr -u Start rr) with
    | inl data => on_buffers (ReviveFromDisk (Start rr) data []) ;;; loadFromDisk_loop rest None
    | inr e => loadFromDisk_loop rest (Some e)
    end
  end.
Definition loadFromDisk (diskRanges : list Range) : St I (option error) :=
  let! err := OpenCacheFD in
  match err with
  | Some e => ret (Some e)
  | None => loadFromDisk_loop diskRanges None
  end.

(** One turn of the loop that waits for the data. *)
Definition LoadRange_poll (offset size : Z) : St I load_result :=
  let! i := getS in
  let! '(_, _, err) := liftO (GetData offset size false (buffers i)) in
  match err with
  | Some ErrBufferIsLoading => ret (LoadPending (LoadWaiting offset size))
  | Some ErrBufferIsMissing =>
    (* loading buffer disappeared => read error *)
    ret (LoadDone true (Some (default (Errno EIO) (readError i))))
  | None => ret (LoadDone true None)
  end.
Definition LoadRange_wait (offset size : Z) (miss wait : bool) : St I load_result :=
  if wait then LoadRange_poll offset size else ret (LoadDone miss None).
Definition LoadRange (offset size readAheadSize : Z) : St I load_result :=
  let! i := getS in
  if Size i <=? offset then ret (LoadDone false None)
  else
    let size := if Size i <=? offset +u size then Size i -u offset else size in
    let raSize := if size <? readAheadSize then readAheadSize else size in
    let raSize := if Size i <? offset +u raSize then Size i -u offset else raSize in
    (* Collect requests to the server and disk *)
    let '(holes, loading, flushCleared) := GetHoles offset raSize (buffers i) in
    if flushCleared then
      (* One of the buffers is saved as a part and then removed
         We must complete multipart upload to be able to read it back *)
      ret (LoadDone true (Some (Errno ESPIPE)))
    else
      let miss := negb (bool_decide (holes = [])) in
      let! err := (if miss then loadFromServer holes readAheadSize else ret None) in
      match err with
      | Some e => ret (LoadDone miss (Some e))
      | None =>
        let! diskRanges := (if has_CachePath flags then on_buffers (AddLoadingFromDisk offset size) else ret []) in
        if bool_decide (diskRanges = []) then LoadRange_wait offset size miss (miss || loading)
        else
          let! err := loadFromDisk diskRanges in
          (* Correct memory usage without the inode lock *)
          ret (LoadPending (LoadRelock offset size miss (miss || loading) err))
      end.
Definition LoadRange_resume (ls : load_stage) : St I load_result :=
  match ls with
  | LoadRelock offset size miss wait err =>
    match err with
    | Some e => ret (LoadDone miss (Some e))
    | None => LoadRange_wait offset size miss wait
    end
  | LoadWaiting offset size => LoadRange_poll offset size
  end.
(** ** The goroutine that reads from the server *)

Definition retryRead_start (offset size : Z) (enomem : bool) : St I (option read_stage) :=
  if UseEnomem flags && enomem then
    modS (set_readError (Some (Errno ENOMEM))) ;;;
    on_buffers (RemoveLoading offset size) ;;;
    ret None
  else
    (if UseEnomem flags then Use size else ret tt) ;;;
    LockRange offset size false ;;;
    ret (Some (ReadRequest offset size 0 1)).
(** After the last attempt. *)
Definition retryRead_finish (offset size allocated : Z) (err : option error) : St I (option read_stage) :=
  Use (if UseEnomem flags then allocated - size else allocated) ;;;
  on_buffers (RemoveLoading offset size) ;;;
  UnlockRange offset size false ;;;
  modS (set_readError err) ;;;
  ret None.
(** [ReadBackoff] after a failed attempt. *)
Definition retryRead_failed (offset size curOffset curSize allocated attempt : Z) (e : error) : St I (option read_stage) :=
  if shouldRetry e && ((ReadRetryAttempts flags <? 1) || (attempt <? ReadRetryAttempts flags))
  then ret (Some (ReadRequest curOffset curSize allocated (attempt + 1)))
  else retryRead_finish offset size allocated (Some e).

(** [sendRead]: the answer to [GetBlob] is an error or a body; [done] is the end of its loop. *)
Definition sendRead_response (offset size curOffset curSize allocated attempt : Z) (err : option error) : St I (option read_stage) :=
  match err with
  | Some e => retryRead_failed offset size curOffset curSize allocated attempt e
  | None =>
    if 0 <? curSize then ret (Some (ReadBody curOffset curSize allocated attempt curOffset curSize 0))
    else retryRead_finish offset size allocated None
  end.
(** The number of bytes the loop asks for next. *)
Definition chunk_size (size : Z) : Z := if READ_BUF_SIZE <? size then READ_BUF_SIZE else size.
(** A whole chunk arrived, or the connection failed before that. *)
Definition sendRead_chunk (offset size curOffset curSize allocated attempt chunkOffset left totalDone : Z)
    (head : Attrs.Head) (chunk : list byte + error) : St I (option read_stage) :=
  match chunk with
  | inr e => retryRead_failed offset size (curOffset +u totalDone) (curSize -u totalDone) allocated attempt e
  | inl buf =>
    mod_attrs (fun a => match Attrs.userMetadata a with
                        | None => Attrs.fillXattrFromHead (attr_flags flags) (ToLower env) (ConvertFileMode env) head a
                        | Some _ => a
                        end) ;;;
    let! n := on_buffers (Add chunkOffset buf [] BUF_CLEAN false) in
    let done := zlen buf in
    if 0 <? left -u done
    then ret (Some (ReadBody curOffset curSize (allocated + n) attempt (chunkOffset +u done) (left -u done) (totalDone +u done)))
    else retryRead_finish offset size (allocated + n) None
  end.

(** [resp.Body.Read] calls fill one chunk: each takes the next piece of the
    body, or what of it fits, and reports an error with or after the data. *)
Fixpoint read_chunk (bs : Z) (buf : list byte) (body : list (list byte * option error))
    : (list byte * list (list byte * option error)) + error :=
  if bs <=? zlen buf then inl (buf, body)
  else match body with
       | [] => inr EOF
       | (d, e) :: rest =>
         let want := bs - zlen buf in
         if want <? zlen d then inl (buf ++ slice 0 want d, (slice want (zlen d) d, e) :: rest)
         else match e with
              | Some er => if negb (bool_decide (er = EOF)) || (zlen buf + zlen d <? bs) then inr er
                           else inl (buf ++ d, rest)
              | None => read_chunk bs (buf ++ d) rest
              end
       end.

(** ** Reading *)

(** [CheckLoadRange] *)
Inductive check_result := CheckDone (miss : bool) (err : option error) | CheckPending (st : check_stage).
Definition check_first (r : load_result) : St I check_result :=
  match r with
  | LoadPending ls => ret (CheckPending (CheckLoading ls))
  | LoadDone miss err =>
    if bool_decide (err = Some (Errno ESPIPE)) then
      (* Finalize multipart upload to get some flushed data back *)
      modS (fun i => set_pauseWriters (pauseWriters i + 1) i) ;;;
      ret (CheckPending CheckSync)
    else ret (CheckDone miss err)
  end.
Definition check_again (err : option error) : St I check_result :=
  if bool_decide (err = Some (Errno ESPIPE)) then ret (CheckPending CheckSync)
  else modS (fun i => set_pauseWriters (pauseWriters i - 1) i) ;;; ret (CheckDone true err).
Definition check_reload (r : load_result) : St I check_result :=
  match r with
  | LoadPending ls => ret (CheckPending (CheckReloading ls))
  | LoadDone _ err => check_again err
  end.
Definition CheckLoadRange (offset size readAheadSize : Z) : St I check_result :=
  let! r := LoadRange offset size readAheadSize in check_first r.
(** [syncErr] is what [SyncFile] returned. *)
Definition CheckLoadRange_resume (offset size readAheadSize : Z) (st : check_stage) (syncErr : option error) : St I check_result :=
  match st with
  | CheckLoading ls => let! r := LoadRange_resume ls in check_first r
  | CheckReloading ls => let! r := LoadRange_resume ls in check_reload r
  | CheckSync =>
    match syncErr with
    | Some e => check_again (Some e)
    | None => let! r := LoadRange offset size readAheadSize in check_reload r
    end
  end.

Inductive read_result :=
| ReadReturn (data : list (list byte)) (bytesRead : Z) (err : option error)
| ReadPending (offset size readAhead : Z) (st : check_stage).

(** [io.EOF] becomes nil in the deferred function. *)
Definition hide_EOF (err : option error) : option error := if bool_decide (err = Some EOF) then None else err.
(** Don't exceed [IOV_MAX-1] buffers. *)
Definition limit_iov (data : list (list byte)) : list (list byte) :=
  if IOV_MAX - 1 <? zlen data
  then take (Z.to_nat (IOV_MAX - 2)) data ++ [concat (drop (Z.to_nat (IOV_MAX - 2)) data)]
  else data.
Definition ReadFile_loaded (offset size readAhead : Z) (r : check_result) : St I read_result :=
  match r with
  | CheckPending st => ret (ReadPending offset size readAhead st)
  | CheckDone _ (Some e) =>
    (* Object is deleted or resized remotely (416). Discard local version *)
    (if remote_conflict (Some e) then resetCache else ret tt) ;;;
    UnlockRange offset size false ;;;
    ret (ReadReturn [] 0 (hide_EOF (Some e)))
  | CheckDone _ None =>
    (* return cached buffers directly without copying *)
    let! i := getS in
    let! '(data, _, err) := liftO (GetData offset size false (buffers i)) in
    UnlockRange offset size false ;;;
    match err with
    | Some _ => ret (ReadReturn [] 0 (Some (Errno EIO)))
    | None => ret (ReadReturn (limit_iov data) size None)
    end
  end.
Definition ReadFile (fh : ReadAhead.FileHandle) (sOffset sLen : Z) : St I (read_result * ReadAhead.FileHandle) :=
  let offset := u64 sOffset in
  let size := u64 sLen in
  let! i := getS in
  if Size i <=? offset then ret (ReadReturn [] 0 None, fh)   (* nothing to read *)
  else
    let size := if Size i <? offset +u size then Size i -u offset else size in
    (* Guard buffers against eviction *)
    LockRange offset size false ;;;
    (* Check if anything requires to be loaded from the server *)
    let ra := ReadAhead.getReadAhead (read_flags flags) fh in
    let! c := CheckLoadRange offset size ra in
    let! r := ReadFile_loaded offset size ra c in
    ret (r, ReadAhead.trackRead offset size fh).
Definition ReadFile_resume (offset size readAhead : Z) (st : check_stage) (syncErr : option error) : St I read_result :=
  let! c := CheckLoadRange_resume offset size readAhead st syncErr in
  ReadFile_loaded offset size readAhead c.

(** ** Handles *)

Definition OpenFile : St I ReadAhead.FileHandle :=
  modS (fun i => set_fileHandles (fileHandles i + 1) i) ;;;
  let! i := getS in
  (if fileHandles i =? 1 then addModified (loc i).1 1 else ret tt) ;;;
  ret (ReadAhead.NewFileHandle (read_flags flags)).
Definition Release : St I unit :=
  modS (fun i => set_fileHandles (fileHandles i - 1) i) ;;;
  let! i := getS in
  if fileHandles i =? -1 then panicS HandleUnderflow
  else (if fileHandles i =? 0 then addModified (loc i).1 (-1) else ret tt) ;;; WakeupFlusher.

(** The data of a range for an upload, with the identifiers of its dirty buffers. *)
Definition getMultiReader (offset size : Z) : St I (option send_request) :=
  on_buffers (SplitAt offset) ;;;
  on_buffers (SplitAt (offset +u size)) ;;;
  let! i := getS in
  let! '(data, ids, err) := liftO (GetData offset size true (buffers i)) in
  match err with
  | Some _ => ret None
  | None => ret (Some (mkSend (object_key i) offset size data ids))
  end.
End ops.
End FileIO.
