(* ===== verification/Upload.v ===== *)
(** * Flushing a file

    The second half of [core/file.go]: what the flusher decides to do with a
    modified file, and the goroutines it starts.  Each definition is what runs
    under the inode lock between two points where the lock is released; the
    stages of the goroutines are the constructors of [task].

    - The answers of the server are arguments of the sections that follow a request.
    - The goroutine of a patch is given pointers to the buffers to send.  Other
      operations may change these objects before it gets the lock, so what they
      hold by then is an argument of its first section. *)

From stdpp Require Import strings.
From S2P Require Import Prelude BTree Parts BufferList BufferListInv Locks Errors ReadAhead Attrs Inode FileIO.

Module Upload.
Import Errors BufferList Inode FileIO.

(** The fields of a response to a store request that are used. *)
Record Stored := mkStored { r_ETag : option text; r_LastModified : option Z; r_StorageClass : option text }.

Section ops.
Context {M : Type -> Type} `{BTreeMap M} {Q : Type} `{BufferListHelpers Q}.
Context (flags : Flags) (env : Env).
Abbreviation I := (Inode M Q).

Abbreviation partRange := (partRange (PartSizes flags)).
Abbreviation partNum := (partNum (PartSizes flags)).
Abbreviation Max := (MaxParallelParts flags).

Definition isStillDirty (i : I) : bool :=
  negb (userMetadataDirty i =? 0) || bool_decide (oldLoc i <> None) || negb (Size i =? knownSize i) || AnyUnclean (buffers i).

(** The dereference of [etag] is not under the test. *)
Definition updateFromFlush (size : Z) (resp : Stored) : St I unit :=
  mod_attrs (fun a =>
    let s3 := Attrs.s3Metadata a in
    let s3 := match r_ETag resp with Some e => <[txt "etag" := e]> s3 | None => s3 end in
    let s3 := match r_StorageClass resp with Some c => <[txt "storage-class" := c]> s3 | None => s3 end in
    let a := Attrs.set_s3 s3 a in
    match r_LastModified resp with Some c => Attrs.set_times (Attrs.Mtime a) c a | None => a end) ;;;
  match r_ETag resp with
  | None => panicS NilDereference
  | Some e =>
    modS (fun i => set_knownETag e (set_knownSize size i)) ;;;
    let! now := gets clock in SetAttrTime flags now
  end.
Definition uploadedAsMultipart (i : I) : bool := bool_decide (45 ∈ knownETag i).

(** [fileHandles == 0 || forceFlush] *)
Definition flushInode (i : I) : bool := (fileHandles i =? 0) || forceFlush i.
Definition wantFlush (i : I) : bool := flushInode i || (0 <? wantFree i).
Definition flushLimitsExceeded (i : I) : bool := (MaxFlushers flags <=? activeFlushers i) || (Max <=? IsFlushing i).
Definition smallFile (i : I) : bool := Size i <=? SinglePartMB flags *u 1024 *u 1024.

(** After a flush: cached when nothing more is dirty, modified otherwise. *)
Definition settle : St I unit :=
  let! i := getS in
  if in_state (CacheState i) [ST_CREATED; ST_MODIFIED] then
    if isStillDirty i then SetCacheState ST_MODIFIED else SetCacheState ST_CACHED
  else ret tt.

(** ** Uploading a part *)

Definition flushPart_send (part partSize partOffset partFullSize : Z) : St I (option part_stage) :=
  let! m := gets mpu in
  match m with
  | None => ret None   (* Multipart upload was canceled in the meantime => don't flush *)
  | Some m =>
    let! rq := getMultiReader partOffset partSize in
    match rq with
    | None => ret None
    | Some rq => ret (Some (PartUploading rq partFullSize (upload m)))
    end
  end.
Definition flushPart_loaded (part partSize : Z) (r : load_result) : St I (option part_stage) :=
  match r with
  | LoadPending ls => ret (Some (PartLoading partSize ls))
  | LoadDone _ err =>
    if bool_decide (err = Some (Errno ESPIPE)) then ret None   (* Part is partly evicted, we can't flush it *)
    else if remote_conflict err then resetCache flags env ;;; ret None
    else match err with
    | Some _ => ret None
    | None =>
      (* File size may have been changed again *)
      let! '(partOffset, partFullSize) := liftO (partRange part) in
      let! i := getS in
      if (Size i <=? partOffset) || negb (bool_decide (CacheState i = ST_MODIFIED)) then ret None   (* Abort flush *)
      else
        let partSize := if Size i <? partOffset +u partSize then Size i -u partOffset else partSize in
        flushPart_send part partSize partOffset partFullSize
    end
  end.
Definition flushPart (part : Z) : St I (option part_stage) :=
  let! '(partOffset, partFullSize) := liftO (partRange part) in
  let! i := getS in
  (* Last part may be shorter *)
  let partSize := if Size i <? partOffset +u partFullSize then Size i -u partOffset else partFullSize in
  if bool_decide (CacheState i = ST_MODIFIED) then
    (* Load part from the server if we have to read-modify-write it *)
    let! r := LoadRange flags env partOffset partSize 0 in
    flushPart_loaded part partSize r
  else flushPart_send part partSize partOffset partFullSize.
(** The answer to [MultipartBlobAdd]: the tag of the part, or an error. *)
Definition flushPart_done (part : Z) (rq : send_request) (partFullSize : Z) (resp : Z + error) : St I unit :=
  let! st := gets CacheState in
  if bool_decide (st = ST_DELETED) then ret tt   (* File was deleted while we were flushing it *)
  else
    recordFlushError (match resp with inl _ => None | inr e => Some e end) ;;;
    match resp with
    | inr e => if is_errno ENOENT (mapAwsError (Some e)) then resetCache flags env else ret tt
    | inl tag =>
      (* It could become nil if the file was deleted remotely in the meantime *)
      modS (fun i => match mpu i with
                     | Some m => set_mpu (Some (mkMPU (upload m) (mpu_key m) (<[part := tag]> (Parts m)) (NumParts m) (with_Metadata m))) i
                     | None => i
                     end) ;;;
      let bufLen := zlen (concat (rq_data rq)) in
      (* Do not evict modified header (first part) *)
      let doneState := if (bufLen <? partFullSize) || (part =? 0) then BUF_FLUSHED_CUT else BUF_FLUSHED_FULL in
      on_buffers (SetState (rq_offset rq) (rq_size rq) (rq_ids rq) doneState)
    end.
(** Where the call continues after a wait. *)
Definition flushPart_resume (part : Z) (st : part_stage) : St I (option part_stage) :=
  match st with
  | PartStart => flushPart part
  | PartLoading partSize ls => let! r := LoadRange_resume ls in flushPart_loaded part partSize r
  | PartUploading _ _ _ => ret (Some st)
  end.

Definition goFlushPart (part partOffset partSize priority : Z) : St I bool :=
  (* Guard part against eviction *)
  LockRange partOffset partSize true ;;;
  begin_flush 1 ;;;
  modS (fun i => set_flushPriorities (<[priority := (default 0 (flushPriorities i !! priority) + 1)%Z]> (flushPriorities i)) i) ;;;
  go (TPart part partOffset partSize priority PartStart) ;;;
  ret true.
(** The end of the goroutine. *)
Definition goFlushPart_end (partOffset partSize priority : Z) : St I unit :=
  UnlockRange partOffset partSize true ;;;
  modS (fun i => set_flushPriorities (<[priority := (default 0 (flushPriorities i !! priority) - 1)%Z]> (flushPriorities i)) i) ;;;
  end_flush 1.

(** What [sendUploadParts] finds out about the buffers of a part. *)
Record part_info := mkInfo { partDirty : bool; partEvicted : bool; partZero : bool; partNonZero : bool; lastBufferEnd : Z }.
Definition scan_part (partOffset partEnd : Z) (l : bl M Q) : part_info :=
  iter_until (fun p '(end_, buf) =>
      if partEnd <=? b_offset buf then (p, false)
      else (mkInfo (partDirty p || is_state buf BUF_DIRTY) (partEvicted p || is_state buf BUF_FL_CLEARED)
                   (partZero p || b_zero buf) (partNonZero p || negb (b_zero buf)) end_, true))
    (mkInfo false false false false 0) (bt_ascend (partOffset +u 1) (l_at l)).

Record pick := mkPick { initiated : bool; shouldComplete : bool; anyEvicted : bool; partlyZero : list Z; fullyZero : list Z }.
Definition pick_part (priority : Z) (acc : pick) (part : Z) : St I (pick * bool) :=
  let! '(partOffset, partSize) := liftO (partRange part) in
  let! i := getS in
  let skip := mkPick (initiated acc) false (anyEvicted acc) (partlyZero acc) (fullyZero acc) in
  (* Don't flush parts being currently flushed *)
  if IsRangeLocked partOffset partSize true i then ret (skip, true)
  else
    let! lastPart := liftO (partNum (lastWriteEnd i)) in
    (* Don't write out the last part which is still written to (if not under memory pressure) *)
    if (part =? lastPart) && negb (flushInode i) && negb (0 <? wantFree i) then ret (skip, true)
    else
      let partEnd := partOffset +u partSize in
      let p := scan_part partOffset partEnd (buffers i) in
      let zero := partZero p || (lastBufferEnd p <? partEnd) in
      if negb (partDirty p) || partEvicted p then
        (* Don't flush parts which require RMW with evicted buffers *)
        ret (mkPick (initiated acc) (shouldComplete acc) (anyEvicted acc || partEvicted p) (partlyZero acc) (fullyZero acc), true)
      else if zero && negb (flushInode i) then
        (* Don't flush parts with empty ranges UNLESS we're under memory pressure *)
        let fz := if negb (partNonZero p) && (3 <=? priority) then fullyZero acc ++ [part] else fullyZero acc in
        let pz := if (0 <? wantFree i) && partNonZero p && (2 <=? priority) then partlyZero acc ++ [part] else partlyZero acc in
        ret (mkPick (initiated acc) false (anyEvicted acc) pz fz, true)
      else
        goFlushPart part partOffset partSize 1 ;;;
        let! full := gets flushLimitsExceeded in
        ret (mkPick true false (anyEvicted acc) (partlyZero acc) (fullyZero acc), negb full).
Fixpoint iterM {A} (f : A -> Z -> St I (A * bool)) (acc : A) (items : list Z) : St I A :=
  match items with
  | [] => ret acc
  | x :: rest => let! '(acc', cont) := f acc x in if cont : bool then iterM f acc' rest else ret acc'
  end.
(** The loops over the parts with empty ranges; [initiated || goFlushPart(...)] starts the first one only. *)
Fixpoint flush_zero_parts (prio : Z) (init : bool) (parts : list Z) : St I bool :=
  match parts with
  | [] => ret init
  | part :: rest =>
    let! '(partOffset, partSize) := liftO (partRange part) in
    let! init' := (if init then ret true else goFlushPart part partOffset partSize prio) in
    let! full := gets flushLimitsExceeded in
    if full : bool then ret init' else flush_zero_parts prio init' rest
  end.
Definition dirty_parts (i : I) : list Z := snd <$> bt_ascend 0 (l_dirtyQueue (buffers i)).
Definition sendUploadParts (priority : Z) : St I (bool * bool) :=
  let! parts := gets dirty_parts in
  let! p := iterM (pick_part priority) (mkPick false true false [] []) parts in
  let! init := (if initiated p then ret true else flush_zero_parts 2 false (partlyZero p)) in
  let! init := (if negb init && anyEvicted p && negb (bool_decide (fullyZero p = []))
                then flush_zero_parts 3 init (partlyZero p) else ret init) in
  ret (init, shouldComplete p).
(** ** Uploading a small file in one request *)

Definition flushSmallObject_send (sz : Z) : St I (option task) :=
  (* File size may have been changed in between *)
  let! rq := getMultiReader 0 sz in
  match rq with
  | None => UnlockRange 0 sz true ;;; end_flush Max ;;; ret None
  | Some rq =>
    let! i := getS in
    let metadata := negb (userMetadataDirty i =? 0) in
    (if metadata then set_userMetadataDirty 0 else ret tt) ;;;
    (* Abort and forget abort multipart upload, because otherwise we may
       not be able to proceed to rename - it waits until inode.mpu == nil *)
    abortMultipart_if ;;;
    ret (Some (TSmallPut rq metadata))
  end.
Definition flushSmallObject_loaded (sz : Z) (r : load_result) : St I (option task) :=
  match r with
  | LoadPending ls => ret (Some (TSmallLoading sz ls))
  | LoadDone _ err =>
    if remote_conflict err then
      (* Object is deleted or resized remotely (416). Discard local version *)
      resetCache flags env ;;; end_flush Max ;;; ret None
    else flushSmallObject_send sz
  end.
Definition flushSmallObject : St I (option task) :=
  let! i := getS in
  if negb (in_state (CacheState i) [ST_CREATED; ST_MODIFIED]) then end_flush Max ;;; ret None
  else
    let sz := Size i in
    LockRange 0 sz true ;;;
    if bool_decide (CacheState i = ST_MODIFIED) then
      let! r := LoadRange flags env 0 sz 0 in flushSmallObject_loaded sz r
    else flushSmallObject_send sz.
Definition flushSmallObject_done (rq : send_request) (metadata : bool) (resp : Stored + error) : St I unit :=
  recordFlushError (match resp with inl _ => None | inr e => Some e end) ;;;
  match resp with
  | inr _ => if metadata then set_userMetadataDirty 2 else ret tt
  | inl r =>
    on_buffers (SetState 0 (rq_size rq) (rq_ids rq) BUF_CLEAN) ;;;
    updateFromFlush (rq_size rq) r ;;;
    settle
  end ;;;
  UnlockRange 0 (rq_size rq) true ;;;
  end_flush Max.

(** ** Completing a multipart upload *)

(** The ranges to copy, as (part, offset, size): runs of parts that were not
    uploaded, cut when they reach [maxMerge].  [endPart] is 0 outside a run. *)
Record copy_state := mkCopy { cp_ranges : list (Z * Z * Z); startPart : Z; endPart : Z; startOffset : Z; endOffset : Z }.
Definition copy_part (uploaded : gmap Z Z) (size maxMerge : Z) (s : copy_state) (i : Z) : outcome copy_state :=
  letO! r := partRange i in
  let '(partOffset, partSize) := r in
  let partEnd := partOffset +u partSize in
  let partEnd := if size <? partEnd then size else partEnd in
  let close := mkCopy (cp_ranges s ++ [(startPart s, startOffset s, endOffset s -u startOffset s)]) (startPart s) 0 (startOffset s) (endOffset s) in
  match uploaded !! i with
  | None =>
    let '(sp, so) := if endPart s =? 0 then (i, partOffset) else (startPart s, startOffset s) in
    if maxMerge <=? partEnd -u so then Ok (mkCopy (cp_ranges s ++ [(sp, so, partEnd -u so)]) 0 0 so partEnd)
    else Ok (mkCopy (cp_ranges s) sp (i + 1) so partEnd)
  | Some _ => if endPart s =? 0 then Ok s else Ok close
  end.
Fixpoint copy_parts (uploaded : gmap Z Z) (size maxMerge : Z) (s : copy_state) (nums : list Z) : outcome copy_state :=
  match nums with
  | [] => Ok s
  | i :: rest => letO! s' := copy_part uploaded size maxMerge s i in copy_parts uploaded size maxMerge s' rest
  end.
Definition copyUnmodifiedParts_ranges (uploaded : gmap Z Z) (size numParts : Z) : outcome (list (Z * Z * Z)) :=
  letO! s := copy_parts uploaded size (MaxMergeCopyMB flags *u 1024 *u 1024) (mkCopy [] 0 0 0 0) (seqZ 0 numParts) in
  Ok (if endPart s =? 0 then cp_ranges s else cp_ranges s ++ [(startPart s, startOffset s, endOffset s -u startOffset s)]).

(** After the copies, and the request to commit. *)
Definition commitMultipartUpload (numParts finalSize : Z) (next : Z -> task) : St I (option task) :=
  let! m := gets mpu in
  match m with
  | None => panicS NilDereference
  | Some m =>
    modS (set_mpu (Some (mkMPU (upload m) (mpu_key m) (Parts m) numParts (with_Metadata m)))) ;;;
    ret (Some (next (upload m)))
  end.
Definition completeMultipart_copied (finalSize numParts : Z) (err : option error) : St I (option task) :=
  let! i := getS in
  (* State changed, abort this flush (even if we get ENOENT) *)
  if negb (in_state (CacheState i) [ST_CREATED; ST_MODIFIED]) then ret None
  else if remote_conflict err then resetCache flags env ;;; ret None
  else
    recordFlushError err ;;;
    if bool_decide (err <> None) || bool_decide (mpu i = None) then ret None
    else commitMultipartUpload numParts finalSize (TCommit finalSize).
Definition completeMultipart : St I (option task) :=
  let! i := getS in
  match mpu i with
  | None => ret None   (* Multipart upload was canceled in the meantime *)
  | Some m =>
    let finalSize := Size i in
    let! n := liftO (numParts (PartSizes flags) finalSize) in
    let! ranges := liftO (copyUnmodifiedParts_ranges (Parts m) finalSize n) in
    if bool_decide (ranges = []) then completeMultipart_copied finalSize n None
    else ret (Some (TCopying (object_key i) finalSize n (upload m) ranges [] None))
  end.
(** The goroutine of one copy: it is started unless an error was seen, and gives up when the upload is gone. *)
Definition copy_start (key : location) (finalSize n up : Z) (r : Z * Z * Z) (todo running : list (Z * Z * Z)) : St I (option task) :=
  let! i := getS in
  match mpu i with
  | None => ret (Some (TCopying key finalSize n up todo running (Some (Errno ENOENT))))
  | Some _ => ret (Some (TCopying key finalSize n up todo (running ++ [r]) None))
  end.
(** Its answer; the tag goes to the upload the copy was made for. *)
Definition copy_done (key : location) (finalSize n up : Z) (part : Z) (todo running : list (Z * Z * Z)) (err : option error) (resp : Z + error) : St I (option task) :=
  match resp with
  | inr e => ret (Some (TCopying key finalSize n up todo running (Some e)))
  | inl tag =>
    modS (fun i => match mpu i with
                   | Some m => if upload m =? up
                               then set_mpu (Some (mkMPU (upload m) (mpu_key m) (<[part := tag]> (Parts m)) (NumParts m) (with_Metadata m))) i else i
                   | None => i
                   end) ;;;
    ret (Some (TCopying key finalSize n up todo running err))
  end.
Definition commitMultipartUpload_done (finalSize up : Z) (resp : Stored + error) : St I unit :=
  let! i := getS in
  match mpu i with
  | Some m =>
    if (upload m =? up) && in_state (CacheState i) [ST_CREATED; ST_MODIFIED] then
      recordFlushError (match resp with inl _ => None | inr e => Some e end) ;;;
      match resp with
      | inr _ => if with_Metadata m then set_userMetadataDirty 2 else ret tt
      | inl r =>
        (if userMetadataDirty i =? 1 then set_userMetadataDirty 0 else ret tt) ;;;
        modS (set_mpu None) ;;;
        on_buffers SetFlushedClean ;;;
        updateFromFlush finalSize r ;;;
        settle
      end
    else ret tt
  | None => ret tt
  end.

(** ** Starting a multipart upload *)

Definition beginMultipartUpload : St I bool :=
  let! i := getS in
  if userMetadataDirty i =? 0 then ret false
  else set_userMetadataDirty 1 ;;; ret true.
(** The answer; on success a new upload of the object at [key]. *)
Definition beginMultipartUpload_done (key : location) (metadata : bool) (err : option error) : St I unit :=
  recordFlushError err ;;;
  match err with
  | Some _ => ret tt
  | None => modS (fun i => set_nextUpload (nextUpload i + 1) (set_mpu (Some (mkMPU (nextUpload i) key ∅ 0 metadata)) i))
  end.
Definition sendStartMultipart : St I unit :=
  begin_flush Max ;;;
  let! key := gets loc in
  go (TBegin key).
(** The first two parts one after the other, then a commit; the rest is patched. *)
Definition uploadMinMultipart : St I unit :=
  begin_flush Max ;;;
  let! key := gets loc in
  go (TMinBegin key).
Definition uploadMinMultipart_failed : St I (option task) := abortMultipart ;;; end_flush Max ;;; ret None.
Definition uploadMinMultipart_commit : St I (option task) :=
  let! '(partOffset, partSize) := liftO (partRange 1) in
  let! i := getS in
  let partSize := if Size i <? partOffset +u partSize then Size i -u partOffset else partSize in
  commitMultipartUpload 2 (partOffset +u partSize) (TMinCommit (partOffset +u partSize)).
(** [syncFlushPartsUpTo(2)]: after [flushPart(part)] returned. *)
Definition syncFlushPartsUpTo_next (part : Z) : St I (option task) :=
  let! i := getS in
  match mpu i with
  | Some m =>
    match Parts m !! part with
    | Some _ => if part + 1 <? 2 then ret (Some (TMinPart (part + 1) PartStart)) else uploadMinMultipart_commit
    | None => uploadMinMultipart_failed
    end
  | None => uploadMinMultipart_failed
  end.
Definition uploadMinMultipart_part (part : Z) (r : option part_stage) : St I (option task) :=
  match r with
  | Some st => ret (Some (TMinPart part st))
  | None => syncFlushPartsUpTo_next part
  end.
Definition uploadMinMultipart_begun (key : location) (metadata : bool) (err : option error) : St I (option task) :=
  beginMultipartUpload_done key metadata err ;;;
  let! m := gets mpu in
  match m with
  | None => end_flush Max ;;; ret None
  | Some _ => ret (Some (TMinPart 0 PartStart))
  end.
Definition uploadMinMultipart_committed (finalSize up : Z) (resp : Stored + error) : St I unit :=
  commitMultipartUpload_done finalSize up resp ;;;
  abortMultipart_if ;;;
  end_flush Max.

(** ** Metadata *)

Definition sendUpdateMeta : St I unit :=
  set_userMetadataDirty 0 ;;;
  begin_flush Max ;;;
  go TUpdateMeta.
Definition sendUpdateMeta_done (err : option error) : St I unit :=
  recordFlushError err ;;;
  match err with
  | Some _ =>
    set_userMetadataDirty 2 ;;;
    (* Object is deleted or resized remotely (416). Discard local version *)
    if remote_conflict err then resetCache flags env else ret tt
  | None =>
    let! i := getS in
    if bool_decide (CacheState i = ST_MODIFIED) && negb (isStillDirty i)
    then SetCacheState ST_CACHED ;;; SetAttrTime flags (clock i) else ret tt
  end ;;;
  end_flush Max.
(** ** Patching an object in place *)

Definition discardChanges (offset size : Z) : St I unit :=
  let! allocated := on_buffers (RemoveRange offset size None) in Use allocated.
(** The answer to [PatchBlob]; true when the patch was stored. *)
Definition sendPatch_done (offset size : Z) (resp : Stored + error) : St I bool :=
  let! st := gets CacheState in
  (* File was deleted while we were flushing it *)
  if bool_decide (st = ST_DELETED) then ret false
  else
    recordFlushError (match resp with inl _ => None | inr e => Some e end) ;;;
    match resp with
    | inr e =>
      (if remote_conflict (Some e) then resetCache flags env
       else if is_errno EBUSY (mapAwsError (Some e)) && DropPatchConflicts flags then discardChanges offset size
       else ret tt) ;;; ret false
    | inl r =>
      let! known := gets knownSize in
      updateFromFlush (Z.max known (offset +u size)) (mkStored (r_ETag r) (r_LastModified r) None) ;;;
      ret true
    end.
Definition patchFromBuffers_done (rq : send_request) (resp : Stored + error) : St I unit :=
  let! ok := sendPatch_done (rq_offset rq) (rq_size rq) resp in
  if ok : bool then
    on_buffers (SetState (rq_offset rq) (rq_size rq) (rq_ids rq) BUF_CLEAN) ;;;
    let! i := getS in
    if isStillDirty i then ret tt else SetCacheState ST_CACHED
  else ret tt.
Definition patchFromBuffers_loaded (offset size : Z) (r : load_result) : St I (option patch_stage) :=
  match r with
  | LoadPending ls => ret (Some (PatchLoading offset size ls))
  | LoadDone _ (Some e) => (if remote_conflict (Some e) then resetCache flags env else ret tt) ;;; ret None
  | LoadDone _ None =>
    let! i := getS in
    (* File size or inode state may have been changed again, abort patch *)
    if (Size i <? offset) || negb (bool_decide (CacheState i = ST_MODIFIED)) then ret None
    else let! rq := getMultiReader offset size in ret (PatchSending <$> rq)
  end.
(** The bytes of a buffer, [data] or zeroes. *)
Definition buffer_data (b : FileBuffer) (l : bl M Q) : outcome (list byte) :=
  if b_zero b then Ok (replicate (Z.to_nat (b_len b)) 0)
  else match b_data b with
       | None => Ok []
       | Some s => read_slice b 0 (sl_len s) l
       end.
Fixpoint buffers_data (bufs : list FileBuffer) (l : bl M Q) : outcome (list (list byte)) :=
  match bufs with
  | [] => Ok []
  | b :: rest => letO! d := buffer_data b l in letO! ds := buffers_data rest l in Ok (d :: ds)
  end.
Definition patchFromBuffers (bufs : list FileBuffer) : St I (option patch_stage) :=
  match head bufs, last bufs with
  | Some first, Some lst =>
    let offset := b_offset first in
    let size := b_offset lst +u b_len lst -u b_offset first in
    let bufsSize := fold_left (fun n b => n +u b_len b) bufs 0 in
    (* If bufs is a contiguous range of buffers then we can send them as PATCH immediately,
       otherwise we need to read missing ranges first. *)
    if bufsSize =? size then
      let! i := getS in
      let! data := liftO (buffers_data bufs (buffers i)) in
      ret (Some (PatchSending (mkSend (object_key i) offset size data (list_to_set (b_dirtyID <$> bufs)))))
    else
      let! r := LoadRange flags env offset size 0 in patchFromBuffers_loaded offset size r
  | _, _ => ret None
  end.
Definition patchFromBuffers_resume (st : patch_stage) (bufs : list FileBuffer) : St I (option patch_stage) :=
  match st with
  | PatchStart => patchFromBuffers bufs
  | PatchLoading offset size ls => let! r := LoadRange_resume ls in patchFromBuffers_loaded offset size r
  | PatchSending _ => ret (Some st)
  end.
Definition patch_weight (exclusive : bool) : Z := if exclusive then Max else 1.
Definition patch_end (exclusive : bool) (offset size : Z) : St I unit :=
  UnlockRange offset size true ;;; end_flush (patch_weight exclusive).
Definition patchSimpleObj : St I unit :=
  let! size := gets Size in
  LockRange 0 size true ;;;
  begin_flush Max ;;;
  go (TPatch true 0 size (SinglePartMB flags *u 1024 *u 1024) PatchStart).
Definition patchPart (partOffset partSize : Z) : St I unit :=
  LockRange partOffset partSize true ;;;
  begin_flush 1 ;;;
  go (TPatch false partOffset partSize partSize PatchStart).

(** One dirty part of [patchObjectRanges]; the accumulator tells whether a patch was started. *)
Definition patch_range (wantFlush : bool) (updatedPartID : Z) (initiated : bool) (part : Z) : St I (bool * bool) :=
  let! i := getS in
  if flushLimitsExceeded i then ret (initiated, false)
  else
    let! '(partStart, partSize) := liftO (partRange part) in
    (* In its current implementation PATCH doesn't support ranges with start offset larger than object size. *)
    if knownSize i <? partStart then ret (initiated, false)
    else
      let! '(_, prevSize) := liftO (partRange (if 0 <? part then part - 1 else 0)) in
      let rangeBorder := negb (partSize =? prevSize) in
      let partEnd := partStart +u partSize in
      let appendPatch := knownSize i <? partEnd in
      let newPart := partStart =? knownSize i in
      (* When entering a new part range, we can't immediately switch to the new part size,
         because we need to init a new part first. *)
      let '(partEnd, partSize) := if newPart && rangeBorder then (partStart +u prevSize, prevSize) else (partEnd, partSize) in
      let smallTail := appendPatch && (Size i -u partStart <? partSize) in
      if smallTail && negb wantFlush then ret (initiated, false)
      else if IsRangeLocked partStart partEnd true i || (negb wantFlush && (part =? updatedPartID)) then ret (initiated, true)
      else
        on_buffers (SplitAt partStart) ;;;
        on_buffers (SplitAt partEnd) ;;;
        let! i := getS in
        let flushBufs := Select partStart partEnd (fun buf => is_state buf BUF_DIRTY && (negb (b_zero buf) || wantFlush || appendPatch)) (buffers i) in
        if bool_decide (flushBufs = []) then ret (initiated, true)
        else patchPart partStart partSize ;;; ret (true, true).
Definition patchObjectRanges : St I bool :=
  let! i := getS in
  if smallFile i then
    if flushLimitsExceeded i || negb (wantFlush i) then ret false
    else patchSimpleObj ;;; ret true
  else
    let! updatedPartID := liftO (partNum (lastWriteEnd i)) in
    iterM (patch_range (wantFlush i) updatedPartID) false (dirty_parts i).

(** ** Renaming and deleting *)

(** The copy of a renamed object; [DeletedChildren] entries of the old place are those of this inode. *)
Definition sendRename : St I unit :=
  let! i := getS in
  match oldLoc i with
  | None => panicS NilDereference
  | Some old =>
    begin_flush Max ;;;
    modS (set_renamingTo true) ;;;
    go (TRename old (loc i))
  end.
Definition uncache_if_clean : St I unit :=
  let! i := getS in
  if in_state (CacheState i) [ST_MODIFIED; ST_CREATED] && negb (isStillDirty i)
  then SetCacheState ST_CACHED ;;; SetAttrTime flags (clock i) else ret tt.
Definition undelete (l : location) (i : I) : I := set_DeletedChildren (delete l (DeletedChildren i)) i.
Definition sendRename_copied (old new : location) (err : option error) : St I (option task) :=
  match err with
  | Some _ =>
    if remote_conflict err then
      (* File is removed remotely, dropping cache *)
      let! i := getS in
      modS (fun i => set_renamingTo false (set_oldLoc None i)) ;;;
      resetCache flags env ;;;
      ret (Some (TRenameLost (loc i) (oldLoc i)))
    else
      recordFlushError err ;;;
      let! i := getS in
      (if bool_decide (loc i = old) then
         (* Someone renamed the inode back to the original name ...while we failed to copy it :) *)
         modS (fun i => set_renamingTo false (set_oldLoc None i)) ;;;
         addModified (loc i).1 (-1) ;;;
         uncache_if_clean
       else ret tt) ;;;
      ret (Some TFlushEnd)
  | None =>
    let! i := getS in
    (* Now we know that the object is accessible by the new name *)
    let! del := (if bool_decide (loc i = new) then
                   (* Just clear the old path *)
                   modS (set_oldLoc None) ;;; ret old
                 else if bool_decide (loc i = old) then
                   (* Someone renamed the inode back to the original name(!)
                      Delete the new key instead of the old one (?) *)
                   modS (set_oldLoc None) ;;; ret new
                 else
                   (* Someone renamed the inode again(!) *)
                   modS (set_oldLoc (Some new)) ;;; ret old) in
    uncache_if_clean ;;;
    modS (set_renamingTo false) ;;;
    ret (Some (TRenameDelete del))
  end.
(** After a conflict: once the inode is removed from its directory, which is the tree's, the old place is freed. *)
Definition sendRename_removed (old : option location) : St I (option task) :=
  ret (Some (match old with Some l => TRenameUndelete l | None => TFlushEnd end)).
Definition sendRename_undelete (l : location) : St I (option task) :=
  let! i := getS in
  (if bool_decide (is_Some (DeletedChildren i !! l)) then modS (undelete l) ;;; addModified l.1 (-1) else ret tt) ;;;
  ret (Some TFlushEnd).
(** The answer to the removal of the old object; on failure a deleted file is put in its place. *)
Definition sendRename_deleted (del : location) (err : option error) (tombId : Z) : St I (option task) :=
  match err with
  | Some _ => addModified del.1 1 ;;; modS (fun i => set_DeletedChildren (<[del := tombId]> (DeletedChildren i)) i)
  | None => modS (undelete del) ;;; addModified del.1 (-1)
  end ;;;
  ret (Some TFlushEnd).

Definition SendDelete : St I unit :=
  let! i := getS in
  modS (set_oldLoc None) ;;;
  begin_flush Max ;;;
  go (TDelete (oldLoc i)).
(** Under the lock of the inode; [unreferenced] tells whether [refcnt] is 0.
    The sections after it take the locks of the parents, one after the other. *)
Definition SendDelete_done (old : option location) (err : option error) (unreferenced : bool) : St I (option task) :=
  modS (fun i => set_activeFlushers (activeFlushers i - 1) (set_IsFlushing (IsFlushing i - Max) i)) ;;;
  let err := if is_errno ENOENT (mapAwsError err) then None else err in   (* object is already deleted *)
  recordFlushError err ;;;
  match err with
  | Some _ => WakeupFlusher ;;; ret None
  | None =>
    let! st := gets CacheState in
    (if bool_decide (st = ST_DELETED) then resetCache flags env ;;; SetCacheState ST_DEAD else ret tt) ;;;
    let forget := bool_decide (st = ST_DELETED) && unreferenced in
    ret (Some (match old with Some l => TDeleteOld l forget | None => TDeleteEntry forget end))
  end.
Definition SendDelete_old (l : location) (forget : bool) : St I (option task) :=
  modS (undelete l) ;;; addModified l.1 (-1) ;;; ret (Some (TDeleteEntry forget)).
(** With [forget], [DeRef] and the wake-up are left to do. *)
Definition SendDelete_entry (forget : bool) : St I (option task) :=
  modS (fun i => undelete (loc i) i) ;;;
  if forget then ret (Some TDeleteForget) else WakeupFlusher ;;; ret None.
(** Storing the object of a directory; [ImplicitDir] is cleared by the caller. *)
Definition SendMkDir : St I unit := begin_flush Max ;;; go TMkDir.
Definition SendMkDir_done (err : option error) : St I unit :=
  modS (fun i => set_IsFlushing (IsFlushing i - Max) (set_activeFlushers (activeFlushers i - 1) i)) ;;;
  recordFlushError err ;;;
  match err with
  | Some _ => ret tt
  | None =>
    let! st := gets CacheState in
    if in_state st [ST_CREATED; ST_MODIFIED]
    then SetCacheState ST_CACHED ;;; let! now := gets clock in SetAttrTime flags now else ret tt
  end ;;;
  WakeupFlusher.
Definition doUnlink : St I unit :=
  let! i := getS in
  (if bool_decide (oldLoc i <> None) && negb (renamingTo i) then
     resetCache flags env ;;; SetCacheState ST_DELETED
   else if negb (bool_decide (CacheState i = ST_CREATED)) || (0 <? IsFlushing i) then
     (* resetCache will clear all buffers and abort the multipart upload *)
     resetCache flags env ;;;
     if bool_decide (DeletedChildren i !! loc i = None) then
       SetCacheState ST_DELETED ;;;
       modS (fun i => set_DeletedChildren (<[loc i := self i]> (DeletedChildren i)) i)
     else
       (* A deleted file is already present, we can just reset the cache *)
       SetCacheState ST_DEAD
   else resetCache flags env ;;; SetCacheState ST_DEAD) ;;;
  modS (set_Size 0).
(** The move of a file between directories, apart from the lists of children;
    [renamed] tells whether the file of the disk cache could be moved. *)
Definition renameInCache (to : location) (renamed : bool) : St I unit :=
  let! i := getS in
  let mark_deleted (i : I) : I :=
    if bool_decide (DeletedChildren i !! loc i = None) then set_DeletedChildren (<[loc i := self i]> (DeletedChildren i)) i else i in
  (if (bool_decide (CacheState i = ST_CREATED) && (IsFlushing i =? 0) && bool_decide (mpu i = None)) || bool_decide (oldLoc i <> None) then
     (* File is either just created or already renamed
        In both cases we can move it without changing oldParent *)
     if renamingTo i then
       (* File is already being copied to the new name *)
       modS (fun i => set_renamingTo false (mark_deleted i))
     else
       addModified (loc i).1 (-1) ;;;
       (* Moved back. Unrename! :D *)
       if bool_decide (oldLoc i = Some (to.1, (loc i).2)) then modS (set_oldLoc None) else ret tt
   else
     (* Remember that the original file is "deleted" *)
     modS mark_deleted ;;;
     (if bool_decide (CacheState i = ST_CACHED) then addModified (loc i).1 1 else ret tt) ;;;
     modS (set_oldLoc (Some (loc i)))) ;;;
  (* Moved back. Undelete! *)
  modS (fun j => if bool_decide (DeletedChildren j !! to = Some (self j)) then undelete to j else j) ;;;
  (* Rename on-disk cache entry *)
  modS (fun j => if OnDisk j && negb renamed then set_DiskCacheFD false j else j) ;;;
  (if 0 <? fileHandles i then addModified (loc i).1 (-1) ;;; addModified to.1 1 else ret tt) ;;;
  modS (set_loc to) ;;;
  (if bool_decide (CacheState i = ST_CACHED) then SetCacheState ST_MODIFIED else addModified to.1 1) ;;;
  WakeupFlusher.

(** ** The decisions of the flusher *)

Definition canPatch (i : I) : bool :=
  UsePatch flags &&
  (* Can only patch modified inodes with completed MPUs. *)
  bool_decide (CacheState i = ST_MODIFIED) && bool_decide (mpu i = None) &&
  (* In current implemetation we should not patch big simple objects. *)
  (uploadedAsMultipart i || bool_decide (knownETag i = []) || smallFile i) &&
  (* Do not update the empty file using PATCH. *)
  (0 <? knownSize i) &&
  (* Currently PATCH does not support truncates. *)
  (knownSize i <=? Size i).
Definition sendUpload (priority : Z) : St I bool :=
  let! i := getS in
  if bool_decide (oldLoc i <> None) && (IsFlushing i =? 0) && bool_decide (mpu i = None) then
    sendRename ;;; ret true
  else if bool_decide (CacheState i = ST_MODIFIED) && negb (userMetadataDirty i =? 0) && bool_decide (oldLoc i = None)
          && (IsFlushing i =? 0) && negb (AnyUnclean (buffers i)) then
    sendUpdateMeta ;;; ret true
  else if Max <=? IsFlushing i then ret false
  else if canPatch i then patchObjectRanges
  else if smallFile i && bool_decide (mpu i = None) then
    (* Don't flush small files with active file handles (if not under memory pressure) *)
    if (IsFlushing i =? 0) && wantFlush i then
      (* Don't accidentally trigger a parallel multipart flush *)
      begin_flush Max ;;; go TSmall ;;; ret true
    else ret false
  else if bool_decide (mpu i = None) then
    (* Wait for other updates to complete. *)
    if 0 <? IsFlushing i then ret false
    else if UsePatch flags && PreferPatchUploads flags then uploadMinMultipart ;;; ret true
    else sendStartMultipart ;;; ret true
  else
    (* Pick part(s) to flush *)
    let! '(initiated, canComplete) := sendUploadParts priority in
    if initiated : bool then ret true
    else
      let! i := getS in
      if canComplete && negb (IsRangeLocked 0 (Size i) true i) && wantFlush i then
        (* Complete the multipart upload *)
        begin_flush Max ;;; go TComplete ;;; ret true
      else ret false.
(** [parent] and [overDeleted] were read before the lock of the inode was taken. *)
Definition TryFlush (priority parent : Z) (overDeleted : bool) : St I bool :=
  let! i := getS in
  if negb ((loc i).1 =? parent) then ret false
  else if bool_decide (flushError i <> None) && (clock i - flushErrorTime i <? RetryInterval flags) then
    ScheduleRetryFlush ;;; ret false
  else match CacheState i with
  | ST_DELETED => if IsFlushing i =? 0 then SendDelete ;;; ret true else ret false
  | ST_CREATED | ST_MODIFIED => if overDeleted then ret false else sendUpload priority
  | _ => ret false
  end.

(** [SyncFile]: the sections of one turn of its loop; [Some err] is a return. *)
Definition SyncFile_check : St I (option (option error)) :=
  modS (set_forceFlush false) ;;;
  let! i := getS in
  if settled (CacheState i) then ret (Some None)
  else match flushError i with
       | Some e => ret (Some (Some e))
       | None => modS (set_forceFlush true) ;;; ret None
       end.
(** After [TryFlush(MAX_FLUSH_PRIORITY)]: whether it waits for the flusher. *)
Definition SyncFile_wait : St I bool :=
  gets (fun i => negb (settled (CacheState i)) && bool_decide (flushError i = None) && negb (flushPending i)).

(** ** Changes seen on the server *)

(** [BlobItemOutput], the fields that are used. *)
Record BlobItem := mkItem { it_ETag : option text; it_Size : Z; it_LastModified : option Z; it_StorageClass : option text; it_Metadata : option (gmap text text) }.
Definition SetFromBlobItem (item : BlobItem) (rootCtime : Z) : St I unit :=
  let! i := getS in
  (* If ongoing patch requests exist, then concurrent etag changes is normal. *)
  let patchInProgress := UsePatch flags && bool_decide (mpu i = None) && bool_decide (CacheState i = ST_MODIFIED) && (0 <? IsFlushing i) in
  (* If a file is renamed from a different file then we also don't know its server-side ETag or Size *)
  let renameInProgress := match oldLoc i with Some (_, name) => negb (bool_decide (name = [])) | None => false end in
  let differs := match it_ETag item with Some e => negb (bool_decide (knownETag i = e)) | None => false end || negb (it_Size item =? knownSize i) in
  (if differs && negb patchInProgress && negb renameInProgress then
     (* We always just drop our local cache when inode size or etag changes remotely *)
     resetCache flags env ;;;
     modS (fun i => set_knownSize (it_Size item) (set_Size (it_Size item) i)) ;;;
     let tm := default rootCtime (it_LastModified item) in
     mod_attrs (Attrs.set_times tm tm) ;;;
     match it_Metadata item with
     | Some m => mod_attrs (Attrs.setMetadata (attr_flags flags) (ToLower env) (ConvertFileMode env) m) ;;; set_userMetadataDirty 0
     | None => ret tt
     end
   else ret tt) ;;;
  mod_attrs (fun a =>
    let s3 := Attrs.s3Metadata a in
    let s3 := match it_ETag item with Some e => <[txt "etag" := e]> s3 | None => delete (txt "etag") s3 end in
    let s3 := match it_StorageClass item with Some c => <[txt "storage-class" := c]> s3 | None => delete (txt "storage-class") s3 end in
    Attrs.set_s3 s3 a) ;;;
  modS (fun i => match it_ETag item with Some e => set_knownETag e i | None => i end) ;;;
  let! i := getS in
  if AttrTime i <? clock i then SetAttrTime flags (clock i) else ret tt.
End ops.
End Upload.
