(* ===== verification/Machine.v ===== *)
(** * A file and its goroutines as a state machine

    The sections of [FileIO] and [Upload], put together the way the goroutines
    of [core/file.go] and [core/dir.go] run them: [run_task] is what a
    goroutine does from the point where it takes the inode lock to the next
    point where it releases it, given the answer it was waiting for;
    [run_action] is a call from the kernel, the flusher, the memory pool or the
    directory, or one turn of a goroutine.  A run is a list of actions: any
    interleaving of sections. *)

From stdpp Require Import strings.
From S2P Require Import Prelude BTree Parts BufferList BufferListInv BufferListSpec Locks Errors ReadAhead Attrs Inode FileIO Upload.

Module Machine.
Import Errors BufferList BufferListSpec Inode FileIO Upload.

(** What a goroutine was waiting for: [Continue] is the lock or a condition
    variable (with the memory pool's answer for a read), the rest are answers. *)
Inductive response :=
| Continue (enomem : bool)
| Answered                                            (* success without a value, or the body of an object *)
| Failed (e : error)
| GotTag (tag : Z)
| GotStored (r : Stored)
| GotChunk (head : Attrs.Head) (chunk : list byte + error)
| CopyAnswer (idx : nat) (resp : Z + error)
| DeleteAnswer (err : option error) (tombId : Z)
| PatchBuffers (bufs : list FileBuffer)
| Synced (err : option error)
| DeleteDone (err : option error) (unreferenced : bool).

Inductive action :=
| AWrite (offset : Z) (data spare : list byte) (copyData enomem : bool)
| AWriteAgain (offset : Z) (data spare : list byte) (copyData : bool)
| AResize (newSize : Z)
| ARead (fh : ReadAhead.FileHandle) (offset len : Z)
| AOpen
| ARelease
| ATryFlush (priority parent : Z) (overDeleted : bool)
| ASyncFile
| AEvict (cleanEnd : Z) (toDisk : bool)
| AUnlink
| ARename (to : location) (renamed : bool)
| ABlobItem (item : BlobItem) (rootCtime : Z)
| AOthers (now activeFlushers wantFree : Z)            (* time passes, other files are flushed *)
| ATask (n : nat) (r : response).

Section machine.
Context {M : Type -> Type} `{BTreeMap M} {Q : Type} `{BufferListHelpers Q}.
Context (flags : Flags) (env : Env).
Abbreviation I := (Inode M Q).
Abbreviation Max := (MaxParallelParts flags).

(** The goroutine of [goFlushPart] after a section of [flushPart]. *)
Definition part_next (part offset size priority : Z) (st : option part_stage) : St I (option task) :=
  match st with
  | Some st => ret (Some (TPart part offset size priority st))
  | None => goFlushPart_end offset size priority ;;; ret None
  end.
(** The goroutine that completes an upload, after a section of [completeMultipart]. *)
Definition complete_next (t : option task) : St I (option task) :=
  match t with
  | Some t => ret (Some t)
  | None => end_flush Max ;;; ret None
  end.
Definition patch_next (exclusive : bool) (offset size partSize : Z) (st : option patch_stage) : St I (option task) :=
  match st with
  | Some st => ret (Some (TPatch exclusive offset size partSize st))
  | None => patch_end flags exclusive offset size ;;; ret None
  end.
(** [copyUnmodifiedParts] after it has collected the ranges: start the next copy unless one failed, or wait for those that run. *)
Definition copy_next (key : location) (finalSize n up : Z) (todo running : list (Z * Z * Z)) (err : option error) : St I (option task) :=
  match err, todo with
  | None, r :: todo' => copy_start key finalSize n up r todo' running
  | _, _ => if bool_decide (running = [])
            then let! t := completeMultipart_copied flags env finalSize n err in complete_next t
            else ret (Some (TCopying key finalSize n up todo running err))
  end.
Definition read_next (r : read_result) : option task :=
  match r with
  | ReadPending offset size ra st => Some (TReadFile offset size ra st)
  | ReadReturn _ _ _ => None
  end.
Definition resize_next (newSize : Z) (r : resize_result) : option task :=
  match r with ResizeSync => Some (TResize newSize) | _ => None end.

Definition stored (r : response) : option (Stored + error) :=
  match r with GotStored s => Some (inl s) | Failed e => Some (inr e) | _ => None end.
Definition tagged (r : response) : option (Z + error) :=
  match r with GotTag t => Some (inl t) | Failed e => Some (inr e) | _ => None end.
Definition answered (r : response) : option (option error) :=
  match r with Answered => Some None | Failed e => Some (Some e) | _ => None end.

(** [None] is the end of the goroutine.  An answer to something else than the
    goroutine asked for does not occur, and leaves it waiting. *)
Definition run_task (t : task) (r : response) : St I (option task) :=
  let stay := ret (Some t) in
  match t with
  | TRead key offset size ReadStart =>
    match r with
    | Continue enomem => let! st := retryRead_start flags offset size enomem in ret (TRead key offset size <$> st)
    | _ => stay
    end
  | TRead key offset size (ReadRequest curOffset curSize allocated attempt) =>
    match answered r with
    | Some err => let! st := sendRead_response flags offset size curOffset curSize allocated attempt err in ret (TRead key offset size <$> st)
    | None => stay
    end
  | TRead key offset size (ReadBody curOffset curSize allocated attempt chunkOffset rest totalDone) =>
    match r with
    | GotChunk head chunk =>
      let! st := sendRead_chunk flags env offset size curOffset curSize allocated attempt chunkOffset rest totalDone head chunk in
      ret (TRead key offset size <$> st)
    | _ => stay
    end
  | TPart part offset size priority (PartUploading rq partFullSize _) =>
    match tagged r with
    | Some resp => flushPart_done flags env part rq partFullSize resp ;;; part_next part offset size priority None
    | None => stay
    end
  | TPart part offset size priority st =>
    match r with
    | Continue _ => let! st' := flushPart_resume flags env part st in part_next part offset size priority st'
    | _ => stay
    end
  | TSmall => match r with Continue _ => flushSmallObject flags env | _ => stay end
  | TSmallLoading sz ls =>
    match r with
    | Continue _ => let! res := LoadRange_resume ls in flushSmallObject_loaded flags env sz res
    | _ => stay
    end
  | TSmallPut rq metadata =>
    match stored r with Some resp => flushSmallObject_done flags rq metadata resp ;;; ret None | None => stay end
  | TComplete => match r with Continue _ => let! t' := completeMultipart flags env in complete_next t' | _ => stay end
  | TCopying key finalSize n up todo running err =>
    match r with
    | Continue _ => copy_next key finalSize n up todo running err
    | CopyAnswer idx resp =>
      match running !! idx with
      | Some (part, _, _) => copy_done key finalSize n up part todo (delete idx running) err resp
      | None => stay
      end
    | _ => stay
    end
  | TCommit finalSize up =>
    match stored r with Some resp => commitMultipartUpload_done flags finalSize up resp ;;; complete_next None | None => stay end
  | TUpdateMeta => match answered r with Some err => sendUpdateMeta_done flags env err ;;; ret None | None => stay end
  | TBegin key => match r with Continue _ => let! metadata := beginMultipartUpload in ret (Some (TBeginSent key metadata)) | _ => stay end
  | TBeginSent key metadata =>
    match answered r with
    | Some err => beginMultipartUpload_done key metadata err ;;; end_flush Max ;;; ret None
    | None => stay
    end
  | TMinBegin key => match r with Continue _ => let! metadata := beginMultipartUpload in ret (Some (TMinBeginSent key metadata)) | _ => stay end
  | TMinBeginSent key metadata => match answered r with Some err => uploadMinMultipart_begun flags key metadata err | None => stay end
  | TMinPart part (PartUploading rq partFullSize _) =>
    match tagged r with
    | Some resp => flushPart_done flags env part rq partFullSize resp ;;; uploadMinMultipart_part flags part None
    | None => stay
    end
  | TMinPart part st =>
    match r with
    | Continue _ => let! st' := flushPart_resume flags env part st in uploadMinMultipart_part flags part st'
    | _ => stay
    end
  | TMinCommit finalSize up =>
    match stored r with Some resp => uploadMinMultipart_committed flags finalSize up resp ;;; ret None | None => stay end
  | TPatch exclusive offset size partSize (PatchSending rq) =>
    match stored r with
    | Some resp => patchFromBuffers_done flags env rq resp ;;; patch_next exclusive offset size partSize None
    | None => stay
    end
  | TPatch exclusive offset size partSize st =>
    match r with
    | PatchBuffers bufs => let! st' := patchFromBuffers_resume flags env st bufs in patch_next exclusive offset size partSize st'
    | _ => stay
    end
  | TRename old new => match answered r with Some err => sendRename_copied flags env old new err | None => stay end
  | TRenameLost _ old => match r with Continue _ => sendRename_removed old | _ => stay end
  | TRenameUndelete l => match r with Continue _ => sendRename_undelete l | _ => stay end
  | TRenameDelete del => match r with DeleteAnswer err tombId => sendRename_deleted del err tombId | _ => stay end
  | TFlushEnd => match r with Continue _ => end_flush Max ;;; ret None | _ => stay end
  | TDelete old => match r with DeleteDone err unreferenced => SendDelete_done flags env old err unreferenced | _ => stay end
  | TDeleteOld l forget => match r with Continue _ => SendDelete_old l forget | _ => stay end
  | TDeleteEntry forget => match r with Continue _ => SendDelete_entry forget | _ => stay end
  | TDeleteForget => match r with Continue _ => ret None | _ => stay end
  | TMkDir => match answered r with Some err => SendMkDir_done flags err ;;; ret None | None => stay end
  | TReadFile offset size ra st =>
    match r with
    | Synced err => let! res := ReadFile_resume flags env offset size ra st err in ret (read_next res)
    | _ => stay
    end
  | TResize newSize => match r with Synced _ => let! res := Resize_synced newSize in ret (resize_next newSize res) | _ => stay end
  end.

Definition start_if (t : option task) : St I unit := match t with Some t => go t | None => ret tt end.

(** The loop of [FreeSomeCleanBuffers] for one buffer of this file. *)
Definition evict_one (cleanEnd : Z) (toDisk : bool) : St I unit :=
  let! i := getS in
  match Get cleanEnd (buffers i) with
  | None => ret tt
  | Some b =>
    let locked := IsRangeLocked (b_offset b) (b_len b) false i in
    let! allocated := on_buffers (evictClean cleanEnd locked toDisk) in
    Use allocated
  end.

Definition run_action (a : action) : St I unit :=
  match a with
  | AWrite offset data spare copyData enomem => WriteFile flags offset data spare copyData enomem ;;; ret tt
  | AWriteAgain offset data spare copyData => WriteFile_body flags offset data spare copyData ;;; ret tt
  | AResize newSize => let! r := ResizeUnlocked newSize in start_if (resize_next newSize r)
  | ARead fh offset len => let! '(r, _) := ReadFile flags env fh offset len in start_if (read_next r)
  | AOpen => OpenFile flags ;;; ret tt
  | ARelease => Release
  | ATryFlush priority parent overDeleted => TryFlush flags priority parent overDeleted ;;; ret tt
  | ASyncFile => SyncFile_check ;;; ret tt
  | AEvict cleanEnd toDisk => evict_one cleanEnd toDisk
  | AUnlink => doUnlink flags env
  | ARename to renamed => renameInCache to renamed
  | ABlobItem item rootCtime => SetFromBlobItem flags env item rootCtime
  | AOthers now active want => modS (fun i => set_wantFree want (set_activeFlushers active (set_clock now i)))
  | ATask n r =>
    let! i := getS in
    match tasks i !! n with
    | None => ret tt
    | Some t =>
      modS (set_tasks (delete n (tasks i))) ;;;
      let! t' := run_task t r in
      start_if t'
    end
  end.
Fixpoint run_actions (acts : list action) : St I unit :=
  match acts with
  | [] => ret tt
  | a :: rest => run_action a ;;; run_actions rest
  end.
End machine.
End Machine.
