(* ===== verification/Tree.v ===== *)
(** * The tree of directories

    [core/dir.go] with the parts of [core/handles.go], [core/goofys.go] and
    [core/goofys_fuse.go] it uses: inodes in directories, their creation,
    removal, renaming, lookup, listing and eviction.  An inode is a node of a
    heap; its pointer is the key.  The part of it that belongs to a file, with
    its data and goroutines, is an inode of [Inode], on which the operations of
    [FileIO], [Upload] and [Machine] run: [on_inode] lends it the fields it
    shares with all others, [World].

    - Each definition is what runs with the locks of the directories and inodes
      involved held; a call that releases them is split there.
    - [ModifiedChildren] of a directory counts the changes below it.  As the
      parent of a directory never changes, the counter is the sum of what was
      added at the directories below it, [modified_below].
    - The file system has one backend, mounted at the root.  Nested mounts, the
      index of inodes by expiration time and the notifications to the kernel
      are left out.  The keys a listing has to skip are an argument here;
      [Listing.Inflight] collects them. *)

From stdpp Require Import strings.
From S2P Require Import Prelude BTree Parts BufferList Locks Errors ReadAhead Attrs Names Listing Children Inode FileIO Upload Machine.

Module Tree.
Import Errors Names Listing Children Inode FileIO Upload Machine.

(** ** State *)

(** The fields an operation on one inode shares with the others. *)
Record World := mkWorld {
  w_activeFlushers : Z;
  w_flushPriorities : gmap Z Z;
  w_wantFree : Z;
  w_hasNewWrites : bool;
  w_flushPending : bool;
  w_flushRetrySet : bool;
  w_poolUse : Z;
  w_ModifiedChildren : gmap Z Z;
  w_DeletedChildren : gmap location Z;
  w_clock : Z;
  w_nextUpload : Z;
}.
Definition w_set_flushPending (v : bool) (w : World) : World :=
  mkWorld (w_activeFlushers w) (w_flushPriorities w) (w_wantFree w) (w_hasNewWrites w) v (w_flushRetrySet w) (w_poolUse w)
    (w_ModifiedChildren w) (w_DeletedChildren w) (w_clock w) (w_nextUpload w).
Definition w_set_ModifiedChildren (v : gmap Z Z) (w : World) : World :=
  mkWorld (w_activeFlushers w) (w_flushPriorities w) (w_wantFree w) (w_hasNewWrites w) (w_flushPending w) (w_flushRetrySet w) (w_poolUse w)
    v (w_DeletedChildren w) (w_clock w) (w_nextUpload w).
Definition w_set_DeletedChildren (v : gmap location Z) (w : World) : World :=
  mkWorld (w_activeFlushers w) (w_flushPriorities w) (w_wantFree w) (w_hasNewWrites w) (w_flushPending w) (w_flushRetrySet w) (w_poolUse w)
    (w_ModifiedChildren w) v (w_clock w) (w_nextUpload w).
Definition w_others (now active want : Z) (w : World) : World :=
  mkWorld active (w_flushPriorities w) want (w_hasNewWrites w) (w_flushPending w) (w_flushRetrySet w) (w_poolUse w)
    (w_ModifiedChildren w) (w_DeletedChildren w) now (w_nextUpload w).

(** More flags of the mount, the capabilities of the backend, its prefix, and the time of the mount. *)
Record TreeFlags := mkTreeFlags {
  NoDirObject : bool;
  NoPreloadDir : bool;
  Cheap : bool;
  ExplicitDir : bool;
  isS3 : bool;
  DirBlob : bool;
  mountPrefix : text;
  rootCtime : Z;
}.

Section state.
Context {M : Type -> Type} {Q : Type}.
Abbreviation I := (Inode M Q).

Definition load_world (w : World) (i : I) : I :=
  set_activeFlushers (w_activeFlushers w) (set_flushPriorities (w_flushPriorities w) (set_wantFree (w_wantFree w)
    (set_hasNewWrites (w_hasNewWrites w) (set_flushPending (w_flushPending w) (set_flushRetrySet (w_flushRetrySet w)
      (set_poolUse (w_poolUse w) (set_ModifiedChildren (w_ModifiedChildren w) (set_DeletedChildren (w_DeletedChildren w)
        (set_clock (w_clock w) (set_nextUpload (w_nextUpload w) i)))))))))).
Definition save_world (i : I) : World :=
  mkWorld (activeFlushers i) (flushPriorities i) (wantFree i) (hasNewWrites i) (flushPending i) (flushRetrySet i) (poolUse i)
    (ModifiedChildren i) (DeletedChildren i) (clock i) (nextUpload i).

(** An inode; the pointer 0 is nil. *)
Record Node := mkNode { inode : I; dir : option Dir; Id : Z; refcnt : Z }.
Definition with_inode (i : I) (nd : Node) : Node := mkNode i (dir nd) (Id nd) (refcnt nd).
Definition with_dir (di : option Dir) (nd : Node) : Node := mkNode (inode nd) di (Id nd) (refcnt nd).
Definition with_Id (id : Z) (nd : Node) : Node := mkNode (inode nd) (dir nd) id (refcnt nd).
Definition with_refcnt (n : Z) (nd : Node) : Node := mkNode (inode nd) (dir nd) (Id nd) n.

Record FS := mkFS {
  nodes : gmap Z Node;
  nextPtr : Z;
  inodes : gmap Z Z;  (* fs.inodes: pointers by number *)
  nextInodeID : Z;
  forgotCnt : Z;
  world : World;
  dirHandles : gmap Z DirHandle;  (* the directory handles, by pointer *)
}.
Definition set_nodes (v : gmap Z Node) (fs : FS) : FS :=
  mkFS v (nextPtr fs) (inodes fs) (nextInodeID fs) (forgotCnt fs) (world fs) (dirHandles fs).
Definition set_inodes (v : gmap Z Z) (fs : FS) : FS :=
  mkFS (nodes fs) (nextPtr fs) v (nextInodeID fs) (forgotCnt fs) (world fs) (dirHandles fs).
Definition set_world (v : World) (fs : FS) : FS :=
  mkFS (nodes fs) (nextPtr fs) (inodes fs) (nextInodeID fs) (forgotCnt fs) v (dirHandles fs).
Definition set_dirHandles (v : gmap Z DirHandle) (fs : FS) : FS :=
  mkFS (nodes fs) (nextPtr fs) (inodes fs) (nextInodeID fs) (forgotCnt fs) (world fs) v.

Implicit Types (p d c : Z) (fs : FS) (name : text).

(** *** Access *)

Definition node p : St FS Node :=
  let! fs := getS in match nodes fs !! p with Some nd => ret nd | None => panicS NilDereference end.
Definition mod_node p (f : Node -> Node) : St FS unit :=
  let! nd := node p in modS (fun fs => set_nodes (<[p := f nd]> (nodes fs)) fs).
Definition dir_at d : St FS Dir :=
  let! nd := node d in match dir nd with Some di => ret di | None => panicS NilDereference end.
Definition mod_dir d (f : Dir -> Dir) : St FS unit :=
  let! di := dir_at d in mod_node d (with_dir (Some (f di))).
Definition handle h : St FS DirHandle :=
  let! fs := getS in match dirHandles fs !! h with Some dh => ret dh | None => panicS NilDereference end.
Definition put_handle h (dh : DirHandle) : St FS unit := modS (fun fs => set_dirHandles (<[h := dh]> (dirHandles fs)) fs).
Definition mod_world (f : World -> World) : St FS unit := modS (fun fs => set_world (f (world fs)) fs).
(** Run an operation of the inode. *)
Definition on_inode {A} p (m : St I A) : St FS A :=
  let! nd := node p in
  let! w := gets world in
  match m (load_world w (inode nd)) with
  | Ok (a, i) => mod_node p (with_inode i) ;;; mod_world (fun _ => save_world i) ;;; ret a
  | Panic e => panicS e
  | OutOfFuel => fun _ => OutOfFuel
  end.

Definition at_node {A} fs p (f : Node -> A) (none : A) : A := match nodes fs !! p with Some nd => f nd | None => none end.
Definition name_of fs p : text := at_node fs p (fun nd => (loc (inode nd)).2) [].
(** [Parent] *)
Definition parent_of fs p : Z := at_node fs p (fun nd => (loc (inode nd)).1) 0.
Definition isDir fs p : bool := at_node fs p (fun nd => bool_decide (dir nd <> None)) false.
Definition deleted fs d name : option Z := w_DeletedChildren (world fs) !! (d, name).
Definition now : St FS Z := gets (fun fs => w_clock (world fs)).
Definition undelete d name : St FS unit := mod_world (fun w => w_set_DeletedChildren (delete (d, name) (w_DeletedChildren w)) w).

(** *** Ancestors *)

(** Following [Parent]: directories are nested at most as deep as pointers were allocated. *)
Definition depth fs : nat := Z.to_nat (nextPtr fs).
Fixpoint is_ancestor (fuel : nat) fs d p : bool :=
  let q := parent_of fs p in
  negb (q =? 0) && ((d =? q) || match fuel with O => false | S fuel' => is_ancestor fuel' fs d q end).
Definition isParentOf fs d p : bool := is_ancestor (depth fs) fs d p.
(** The counter [ModifiedChildren] of a directory. *)
Definition modified_below fs d : Z :=
  map_fold (fun e n sum => if (e =? d) || isParentOf fs d e then n + sum else sum) 0 (w_ModifiedChildren (world fs)).

Section names.
Context (tflags : TreeFlags).
Fixpoint path_loop (fuel : nat) fs p (path : text) : text :=
  match fuel with
  | O => path
  | S fuel' =>
    if parent_of fs p =? 0 then path   (* the root has the backend *)
    else path_loop fuel' fs (parent_of fs p) (if bool_decide (path = []) then name_of fs p else name_of fs p ++ slash :: path)
  end.
Fixpoint trim_right (s : text) : text :=
  match s with
  | [] => []
  | b :: s' => match trim_right s' with
               | [] => if b =? slash then [] else [b]
               | s'' => b :: s''
               end
  end.
(** The path of [cloud()]. *)
Definition cloud_path fs p : text :=
  let path := if isDir fs p then path_loop (depth fs) fs p [] else path_loop (depth fs) fs (parent_of fs p) (name_of fs p) in
  if bool_decide (path = []) then trim_right (mountPrefix tflags) else mountPrefix tflags ++ path.
End names.
End state.
Arguments Node : clear implicits.
Arguments FS : clear implicits.

(** ** Operations *)

Section ops.
Context {M : Type -> Type} `{HBT : BTreeMap M} {Q : Type} `{HQ : BufferListHelpers Q}.
Context (flags : Flags) (tflags : TreeFlags) (env : Env).
(** The queue of clean buffers as a new inode finds it. *)
Context (q0 : Q).
Abbreviation I := (Inode M Q).
Abbreviation FS := (FS M Q).
Implicit Types (p d c h : Z) (fs : FS) (name : text).

Definition WakeupFlusher : St FS unit := mod_world (w_set_flushPending true).
Definition addModified d (inc : Z) : St FS unit :=
  mod_world (fun w => w_set_ModifiedChildren (<[d := (default 0 (w_ModifiedChildren w !! d) + inc)%Z]> (w_ModifiedChildren w)) w).
Definition touch p : St FS unit := on_inode p (let! t := gets clock in mod_attrs (Attrs.set_times t t)).
(** The times of a directory are moved forward to [t]. *)
Definition raise_times p (t : Z) : St FS unit :=
  on_inode p (mod_attrs (fun a => Attrs.set_times (Z.max (Attrs.Mtime a) t) (Z.max (Attrs.Ctime a) t) a)).
Definition set_state p (st : cache_state) : St FS unit := on_inode p (SetCacheState st).
Definition reset p : St FS unit := on_inode p (resetCache flags env).
(** [if inode.AttrTime.Before(now) { inode.SetAttrTime(now) }] *)
Definition refresh_AttrTime p : St FS unit :=
  on_inode p (let! i := getS in if AttrTime i <? clock i then SetAttrTime flags (clock i) else ret tt).

(** *** References *)

Definition Ref p : St FS unit := mod_node p (fun nd => with_refcnt (refcnt nd + 1) nd).
Definition forget p : St FS unit :=
  on_inode p (modS (set_ExpireTime Attrs.zero_time)) ;;;
  let! nd := node p in
  modS (fun fs => mkFS (nodes fs) (nextPtr fs) (delete (Id nd) (inodes fs)) (nextInodeID fs) (forgotCnt fs + 1) (world fs) (dirHandles fs)).
Definition DeRef p (n : Z) : St FS bool :=
  let! nd := node p in
  let res := Z.max 0 (refcnt nd - n) in
  mod_node p (with_refcnt res) ;;;
  (if (res =? 0) && settled (CacheState (inode nd)) then reset p ;;; forget p else ret tt) ;;;
  ret (res =? 0).

(** *** Children *)

Definition findChildUnlocked d name : St FS (option Z) :=
  let! di := dir_at d in let! fs := getS in ret (Children.findChildUnlocked (name_of fs) di name).
Definition insertChildUnlocked d p : St FS unit :=
  Ref p ;;;
  let! di := dir_at d in
  let! fs := getS in
  let! di' := liftO (Children.insertChildUnlocked (name_of fs) p di) in
  mod_dir d (fun _ => di').
Definition removeChildUnlocked d p : St FS unit :=
  let! di := dir_at d in
  let! fs := getS in
  let! di' := liftO (Children.removeChildUnlocked (name_of fs) p di) in
  match di' with
  | None => ret tt
  | Some di' => mod_dir d (fun _ => di') ;;; DeRef p 1 ;;; ret tt
  end.
(** Nothing happens unless the child is the one found under its name. *)
Definition removeChild d p : St FS unit :=
  let! di := dir_at d in
  let! fs := getS in
  if bool_decide (znth (Children di) (Children.search (name_of fs) di (name_of fs p)) = Some p) then removeChildUnlocked d p else ret tt.
Fixpoint removeAllChildren (fuel : nat) d : St FS unit :=
  let! di := dir_at d in
  let fix children (cs : list Z) : St FS unit :=
    match cs with
    | [] => ret tt
    | c :: cs' =>
      let! fs := getS in
      (if isDir fs c then match fuel with O => fun _ => OutOfFuel | S fuel' => removeAllChildren fuel' c end else ret tt) ;;;
      DeRef c 1 ;;;
      children cs'
    end in
  children (Children di) ;;;
  mod_dir d (fun di => set_Children [] (set_generation (generation di +u 1) di)).
Definition removeAllChildrenUnlocked d : St FS unit := let! fs := getS in removeAllChildren (depth fs) d.

(** [findPath], a path of names. *)
Fixpoint findPath fs d (path : list text) : option Z :=
  match path with
  | [] => Some d
  | name :: path' =>
    match nodes fs !! d with
    | Some nd => match dir nd with
                 | Some di => match Children.findChildUnlocked (name_of fs) di name with Some c => findPath fs c path' | None => None end
                 | None => None
                 end
    | None => None
    end
  end.

(** *** New inodes *)

Definition new_attrs (a : Attrs.AttrFlags) : Attrs.t :=
  Attrs.mk Attrs.zero_time Attrs.zero_time (Attrs.flag_Uid a) (Attrs.flag_Gid a) (Attrs.FileMode a) 0 None 0 ∅.
Definition new_inode p d name (w : World) : I :=
  load_world w
    (mkInode (BufferList.empty_list q0) 0 (new_attrs (attr_flags flags)) 0 [] ST_CACHED None 0 [] 0 0 false 0
       None Attrs.zero_time None p (d, name) None false (w_clock w) Attrs.zero_time false false 0 ∅ 0 false false false 0 ∅ ∅ false 0 0 []).
Definition NewInode d name : St FS Z :=
  let! p := gets nextPtr in
  modS (fun fs => mkFS (<[p := mkNode (new_inode p d name (world fs)) None 0 0]> (nodes fs)) (p + 1) (inodes fs) (nextInodeID fs) (forgotCnt fs) (world fs) (dirHandles fs)) ;;;
  ret p.
Definition fresh_dir : Dir := mkDir (-1) 0 Attrs.zero_time false [] None false false Attrs.zero_time [] Gaps.nil_slice [] 0.
Definition dir_attrs (a : Attrs.t) : Attrs.t :=
  Attrs.mk Attrs.zero_time Attrs.zero_time (Attrs.Uid a) (Attrs.Gid a) (Z.lor (Attrs.DirMode (attr_flags flags)) Attrs.ModeDir) 0
    (Attrs.userMetadata a) (Attrs.userMetadataDirty a) (Attrs.s3Metadata a).
Definition ToDir p : St FS unit :=
  let! nd := node p in
  match dir nd with
  | Some _ => ret tt
  | None => on_inode p (modS (fun i => set_Size 4096 (set_attrs (dir_attrs (attrs i)) i))) ;;; mod_node p (with_dir (Some fresh_dir))
  end.
Definition allocateInodeId : St FS Z :=
  let! id := gets nextInodeID in
  modS (fun fs => mkFS (nodes fs) (nextPtr fs) (inodes fs) (id + 1) (forgotCnt fs) (world fs) (dirHandles fs)) ;;; ret id.
Definition number p (id : Z) : St FS unit := modS (fun fs => set_inodes (<[id := p]> (inodes fs)) fs).
Definition insertInode d p : St FS unit :=
  let! nd := node p in
  if negb (Id nd =? 0) then panicS InodeIdSet
  else
    let! id := allocateInodeId in
    mod_node p (with_Id id) ;;;
    insertChildUnlocked d p ;;;
    number p id.
Definition new_file d name : St FS Z := let! p := NewInode d name in insertInode d p ;;; ret p.
Definition new_dir d name : St FS Z := let! p := NewInode d name in ToDir p ;;; insertInode d p ;;; ret p.
Definition set_userMetadata p (m : gmap text text) (dirty : Z) : St FS unit := on_inode p (mod_attrs (Attrs.set_meta (Some m) dirty)).
(** *** Creation *)

(** The attributes of a new file. *)
Definition created_attrs (t : Z) (m : gmap text text) (dirty : Z) (a : Attrs.t) : Attrs.t :=
  let f := attr_flags flags in
  Attrs.mk t t (Attrs.flag_Uid f) (Attrs.flag_Gid f) (Attrs.FileMode f) 0 (Some m) dirty (Attrs.s3Metadata a).
(** A new file in a directory without a child of that name. *)
Definition create d name (m : gmap text text) (dirty : Z) : St FS Z :=
  let! t := now in
  let! p := NewInode d name in
  on_inode p (modS (fun i => set_Size 0 (set_attrs (created_attrs t m dirty (attrs i)) i))) ;;;
  (* one ref is for lookup *)
  Ref p ;;;
  (* another ref is for being in Children *)
  insertInode d p ;;;
  set_state p ST_CREATED ;;;
  WakeupFlusher ;;;
  ret p.
Definition CreateOrOpen d name (open : bool) : St FS (Z + errno) :=
  let! c := findChildUnlocked d name in
  match c with
  | Some c => if open then on_inode c (OpenFile flags) ;;; ret (inl c) else ret (inr EEXIST)
  | None =>
    let! p := create d name ∅ 0 in
    on_inode p (modS (set_fileHandles 1)) ;;;
    (* protect directories with open files from eviction *)
    addModified d 1 ;;;
    touch d ;;;
    ret (inl p)
  end.
Definition CreateSymlink d name (target : text) : St FS (Z + errno) :=
  let! c := findChildUnlocked d name in
  match c with
  | Some _ => ret (inr EEXIST)
  | None =>
    let! p := create d name {[Attrs.SymlinkAttr (attr_flags flags) := target]} 2 in
    touch d ;;;
    ret (inl p)
  end.
Definition ReadSymlink p : St FS (text + errno) :=
  let! nd := node p in
  ret (match default ∅ (Attrs.userMetadata (attrs (inode nd))) !! Attrs.SymlinkAttr (attr_flags flags) with
       | Some target => inl target
       | None => inr EIO
       end).

(** Creating a directory over a removed one resurrects the old one; a new inode
    takes its number only for the calls of forget. *)
Definition resurrect d name old : St FS Z :=
  undelete d name ;;;
  let! p := NewInode d name in
  ToDir p ;;;
  let! nd := node old in
  mod_node p (fun n => with_refcnt (refcnt nd) (with_Id (Id nd) n)) ;;;
  number p (Id nd) ;;;
  let! id := allocateInodeId in
  mod_node old (with_Id id) ;;;
  number old id ;;;
  set_userMetadata old ∅ 0 ;;;
  touch old ;;;
  mod_node old (with_refcnt 0) ;;;
  Ref old ;;;
  set_state old ST_MODIFIED ;;;
  let! t := now in
  touch old ;;;
  raise_times d t ;;;
  insertChildUnlocked d old ;;;
  ret old.
Definition doMkDir d name : St FS Z :=
  let! fs := getS in
  match (match deleted fs d name with Some old => if isDir fs old then Some old else None | None => None end) with
  | Some old => resurrect d name old
  | None =>
    let! p := NewInode d name in
    ToDir p ;;;
    set_userMetadata p ∅ 0 ;;;
    touch p ;;;
    let! t := now in
    (* Record dir as actual *)
    mod_dir p (set_DirTime t) ;;;
    raise_times d t ;;;
    (* one ref is for lookup *)
    Ref p ;;;
    (* another ref is for being in Children *)
    insertInode d p ;;;
    (if NoDirObject tflags then mod_dir p (set_ImplicitDir true) else set_state p ST_CREATED) ;;;
    on_inode p (SetAttrTime flags t) ;;;
    ret p
  end.
Definition MkDir d name : St FS (Z + errno) :=
  let! c := findChildUnlocked d name in
  match c with
  | Some _ => ret (inr EEXIST)
  | None => let! p := doMkDir d name in WakeupFlusher ;;; ret (inl p)
  end.

(** *** Removal *)

Definition doUnlink p : St FS unit :=
  let! fs := getS in
  on_inode p (Upload.doUnlink flags env) ;;;
  removeChildUnlocked (parent_of fs p) p.
Definition Unlink d name : St FS unit :=
  let! c := findChildUnlocked d name in
  match c with
  | Some c => doUnlink c ;;; WakeupFlusher
  | None => ret tt
  end.
(** The end of [RmDir], after the directory was found to be empty without the
    lock of the parent. *)
Definition RmDir_unlink d name : St FS unit :=
  let! c := findChildUnlocked d name in
  match c with
  | Some c => doUnlink c ;;; WakeupFlusher
  | None => panicS NilDereference
  end.

(** *** Expiration *)

Definition expired (cache ttl t : Z) : bool := if t <? cache then false else negb (t <? cache + ttl).
Definition findChildMaxTime d : St FS (Z * Z) :=
  let! nd := node d in
  let! di := dir_at d in
  let! fs := getS in
  ret (fold_left (fun '(m, c) p => (Z.max m (at_node fs p (fun nd => Attrs.Mtime (attrs (inode nd))) m),
                                    Z.max c (at_node fs p (fun nd => Attrs.Ctime (attrs (inode nd))) c)))
         (Children di) (Attrs.Mtime (attrs (inode nd)), Attrs.Ctime (attrs (inode nd)))).
(** Neither open nor modified, and for a directory nothing below it. *)
Definition idle_entry fs p (nd : Node M Q) : bool :=
  (fileHandles (inode nd) =? 0) && settled (CacheState (inode nd)) && (negb (isDir fs p) || (modified_below fs p =? 0)).
(** A stale child is dropped; [fuel] counts the children left. *)
Fixpoint removeExpired_loop (fuel : nat) d (i : Z) : St FS unit :=
  let! di := dir_at d in
  match znth (Children di) i with
  | None => ret tt
  | Some c =>
    let! fs := getS in
    if match lastFromCloud di with Some l => text_geb (name_of fs c) l | None => false end then ret tt
    else match fuel with
    | O => fun _ => OutOfFuel
    | S fuel' =>
      let! nd := node c in
      if (AttrTime (inode nd) <? refreshStartTime di) && idle_entry fs c nd then
        reset c ;;;
        set_state c ST_DEAD ;;;
        (if isDir fs c then removeAllChildrenUnlocked c else ret tt) ;;;
        removeChildUnlocked d c ;;;
        removeExpired_loop fuel' d i
      else removeExpired_loop fuel' d (i + 1)
    end
  end.
Definition removeExpired d (from : text) : St FS unit :=
  let! di := dir_at d in
  let! fs := getS in
  let pos := if bool_decide (from <> [] /\ from <> txt "." /\ from <> txt "..") then Children.search (name_of fs) di from else 0 in
  removeExpired_loop (length (Children di)) d pos.
Definition sealDir d : St FS unit :=
  let! t := now in
  mod_dir d (fun di => set_DirTime t (set_lastFromCloud None (set_listDone true (set_listMarker [] di)))) ;;;
  let! '(m, c) := findChildMaxTime d in
  on_inode d (mod_attrs (fun a =>
    let f := attr_flags flags in
    if Attrs.EnableMtime f && bool_decide (is_Some (default ∅ (Attrs.userMetadata a) !! Attrs.MtimeAttr f))
    then Attrs.set_times (Attrs.Mtime a) c a else Attrs.set_times m c a)) ;;;
  removeExpired d [].
(** *** Entries from the server *)

Abbreviation page := (ListBlobsOutput (A := BlobItem)).
(** [s[n:]] *)
Definition slice_from (s : text) (n : Z) : outcome text := if (0 <=? n) && (n <=? zlen s) then Ok (drop (Z.to_nat n) s) else Panic SliceOutOfRange.
Definition skipped (skip : option (gset text)) (key : text) : bool := match skip with Some ks => bool_decide (key ∈ ks) | None => false end.
Definition setFromBlobItem p (item : BlobItem) : St FS unit := on_inode p (SetFromBlobItem flags env item (rootCtime tflags)).
(** [lastFromCloud] moves forward. *)
Definition saw d name : St FS unit :=
  mod_dir d (fun di => match lastFromCloud di with
                       | Some l => if text_ltb l name then set_lastFromCloud (Some name) di else di
                       | None => set_lastFromCloud (Some name) di
                       end).
Definition handle_prefix d (prefixLen : Z) (skip : option (gset text)) (prefix : text) : St FS unit :=
  if skipped skip prefix then ret tt
  else if zlen prefix <? 1 then panicS SliceOutOfRange
  else
    (* strip trailing / and the previous prefix *)
    let! name := liftO (slice_from (take (Z.to_nat (zlen prefix - 1)) prefix) prefixLen) in
    if isInvalidName name then ret tt
    else
      let! c := findChildUnlocked d name in
      match c with
      | Some c => refresh_AttrTime c
      | None =>
        let! fs := getS in
        (* don't revive deleted items *)
        if bool_decide (deleted fs d name = None) then new_dir d name ;;; ret tt else ret tt
      end ;;;
      saw d name.
Definition handle_item d (prefixLen : Z) (skip : option (gset text)) (obj : text * BlobItem) : St FS unit :=
  let '(key, item) := obj in
  if skipped skip key then ret tt
  else
    let! baseName := liftO (slice_from key prefixLen) in
    if isInvalidName baseName then ret tt
    else
      let sl := Index baseName [slash] in
      if sl =? -1 then
        let! c := findChildUnlocked d baseName in
        match c with
        | Some c => setFromBlobItem c item
        | None =>
          let! fs := getS in
          (* don't revive deleted items *)
          if bool_decide (deleted fs d baseName = None) then let! p := new_file d baseName in setFromBlobItem p item else ret tt
        end ;;;
        saw d baseName
      else
        (* this is a slurped up object which was already cached *)
        saw d (take (Z.to_nat sl) baseName).
Fixpoint each {A} (f : A -> St FS unit) (l : list A) : St FS unit :=
  match l with
  | [] => ret tt
  | x :: l' => f x ;;; each f l'
  end.
Definition handleListResult d (resp : page) (prefix : text) (skip : option (gset text)) : St FS unit :=
  each (handle_prefix d (zlen prefix) skip) (Prefixes resp) ;;;
  each (handle_item d (zlen prefix) skip) (Items resp).

(** Directories seen by a listing, and whether each is known to be complete. *)
Definition sealPastDirs fs (dirs : gmap Z bool) d : gmap Z bool :=
  <[d := false]> (map_imap (fun p (sealed : bool) => Some (sealed || (negb (p =? d) && negb (isParentOf fs p d)))) dirs).
(** The path gets shorter with every directory. *)
Fixpoint insertSubTree (fuel : nat) d (path : text) (item : BlobItem) (dirs : gmap Z bool) : St FS (gmap Z bool) :=
  let sl := Index path [slash] in
  if sl =? -1 then
    let! c := findChildUnlocked d path in
    match c with
    | None =>
      let! fs := getS in
      (* don't revive deleted items *)
      if bool_decide (deleted fs d path = None) then let! p := new_file d path in setFromBlobItem p item else ret tt
    | Some c => setFromBlobItem c item
    end ;;;
    let! fs := getS in
    ret (sealPastDirs fs dirs d)
  else
    let name := take (Z.to_nat sl) path in
    let path' := drop (Z.to_nat (sl + 1)) path in
    (* ensure that the potentially implicit dir is added *)
    let! c := findChildUnlocked d name in
    let! fs := getS in
    let! sub := match c with
                | None =>
                  (* don't revive deleted items *)
                  if bool_decide (deleted fs d name = None) then let! p := new_dir d name in ret (Some p) else ret None
                | Some c =>
                  if isDir fs c then ret (Some c)
                  else
                    (* replace unmodified file item with a directory *)
                    let! nd := node c in
                    if settled (CacheState (inode nd)) then
                      reset c ;;;
                      set_state c ST_DEAD ;;;
                      removeChildUnlocked d c ;;;
                      let! p := new_dir d name in ret (Some p)
                    else ret None
                end in
    match sub with
    | None => ret dirs
    | Some sub =>
      if bool_decide (path' = []) then
        setFromBlobItem sub item ;;;
        let! fs := getS in
        ret (<[sub := false]> (sealPastDirs fs dirs sub))
      else
        refresh_AttrTime sub ;;;
        (* mark this dir but don't seal anything else until we get to the leaf *)
        match fuel with
        | O => fun _ => OutOfFuel
        | S fuel' => insertSubTree fuel' sub path' item (<[sub := false]> dirs)
        end
    end.
(** *** Listings *)

(** Where a slurp starts: at an inode, or in [LookUp] at an unknown one in a directory. *)
Inductive slurp_from := At (p : Z) | In (d : Z).
Definition isParentOf_start fs d (s : slurp_from) : bool :=
  match s with
  | At p => isParentOf fs d p
  | In q => (d =? q) || isParentOf fs d q
  end.
Definition slashed (path : text) : text := if bool_decide (path = []) then [] else path ++ [slash].
(** The prefix and the key to start after; none is the empty one. *)
Definition listObjectsSlurp_request fs d (s : slurp_from) (startAfter : text) : text * text :=
  let key := match s with At p => cloud_path tflags fs p | In q => cloud_path tflags fs q end in
  (slashed (cloud_path tflags fs d),
   if bool_decide (startAfter <> []) then startAfter else slashed key).
Fixpoint slurp_items d (prefixLen : Z) (skip : option (gset text)) (items : list (text * BlobItem)) (dirs : gmap Z bool) : St FS (gmap Z bool) :=
  match items with
  | [] => ret dirs
  | (key, item) :: items' =>
    if skipped skip key then slurp_items d prefixLen skip items' dirs
    else
      let! baseName := liftO (slice_from key prefixLen) in
      if isInvalidName baseName then slurp_items d prefixLen skip items' dirs
      else let! dirs' := insertSubTree (length baseName) d baseName item dirs in slurp_items d prefixLen skip items' dirs'
  end.
Definition seal_if (truncated : bool) (s : slurp_from) (dirs : gmap Z bool) p : St FS unit :=
  let! fs := getS in
  match dirs !! p with
  | Some sealed => if (sealed || negb truncated) && negb (isParentOf_start fs p s) then sealDir p else ret tt
  | None => ret tt
  end.
(** [order] is the order in which Go walks through the map of directories. *)
Definition listObjectsSlurp_done d (s : slurp_from) (sealEnd : bool) (prefix startWith : text) (skip : option (gset text)) (order : list Z) (resp : page) : St FS text :=
  let! dirs := slurp_items d (zlen prefix) skip (Items resp) ∅ in
  (* It's not safe to seal upper directories, we're not slurping at their start *)
  each (seal_if (IsTruncated resp) s dirs) order ;;;
  let obj := last (Items resp) in
  let seal := sealEnd &&
    match obj with
    | Some (key, _) => if bool_decide (prefix <> []) && negb (has_prefix prefix key) then text_ltb prefix key else negb (IsTruncated resp)
    | None => negb (IsTruncated resp)
    end in
  let! next := (if seal then match s with At p => sealDir p | In _ => panicS NilDereference end ;;; ret []
                else ret (match obj with Some (key, _) => key | None => [] end)) in
  (* Remember this range as already loaded *)
  let! t := now in
  let! di := dir_at d in
  let! g := liftO (Gaps.markGapLoaded 0 t startWith next (gaps di)) in
  mod_dir d (set_gaps g) ;;;
  ret next.

(** [listObjectsFlat] up to the request: what is returned as [start], the marker and the prefix. *)
Definition listObjectsFlat_request d : St FS (text * text * text) :=
  let! nd := node d in
  let! di := dir_at d in
  let! fs := getS in
  let path := match oldLoc (inode nd) with
              | Some (q, name) => appendChildName (cloud_path tflags fs q) name
              | None => cloud_path tflags fs d
              end in
  let prefix := slashed path in
  ret (if has_prefix prefix (listMarker di) then drop (length prefix) (listMarker di) else [], listMarker di, prefix).
(** The page was cut; another handle may have listed the same page meanwhile. *)
Definition listObjectsFlat_done d (startAfter prefix : text) (skip : option (gset text)) (resp : page) (lastName : text) : St FS unit :=
  let! di := dir_at d in
  if negb (bool_decide (listMarker di = startAfter)) then ret tt
  else
    handleListResult d resp prefix skip ;;;
    if IsTruncated resp then
      mod_dir d (fun di => if bool_decide (listMarker di = []) || text_ltb (listMarker di) lastName then set_listMarker lastName di else di)
    else sealDir d.
(** The answer of the server, with the answer to the question of [intelligentListCut]. *)
Definition listObjectsFlat_answer d (startAfter prefix : text) (skip : option (gset text)) (probe : text -> list text + error) (resp : page + error) : St FS (option error) :=
  match resp with
  | inr e => ret (Some e)
  | inl resp =>
    let! cut := liftO (intelligentListCut resp probe prefix) in
    match cut with
    | inr e => ret (Some e)
    | inl (resp', lastName) => listObjectsFlat_done d startAfter prefix skip resp' lastName ;;; ret None
    end
  end.

(** [loadListing]: whether it starts with a slurp. *)
Definition loadListing_start d (noSlurp : bool) : St FS bool :=
  let! di := dir_at d in
  let! t := now in
  (if negb (listDone di) && bool_decide (listMarker di = []) then
     (* We just started refreshing this directory *)
     mod_dir d (fun di => set_forgetDuringList false (set_gaps Gaps.nil_slice (set_refreshStartTime t (set_lastFromCloud None di))))
   else ret tt) ;;;
  ret (negb noSlurp && bool_decide (listMarker di = []) && negb (StatCacheTTL flags =? 0)).
(** After the slurp, [done] when there is no more to list. *)
Definition loadListing_slurped d (done : bool) : St FS unit :=
  let! di := dir_at d in
  if done && negb (listDone di) then sealDir d else ret tt.
Definition loadListing_more d : St FS bool :=
  let! di := dir_at d in
  ret (bool_decide (lastFromCloud di = None) && negb (listDone di)).
(** [loaded] is what the first call of [listObjectsFlat] returned. *)
Definition loadListing_end d (loaded : option text) : St FS unit :=
  let! di := dir_at d in
  if bool_decide (loaded <> None) || listDone di then removeExpired d (default [] loaded) else ret tt.
(** *** Directory handles *)

Definition root : Z := 1.
Definition newDirHandle d (noSlurp : bool) : St FS Z :=
  let! h := gets (fun fs => fresh (dom (dirHandles fs))) in
  put_handle h (mkHandle d noSlurp 0 0 0 []) ;;;
  ret h.
(** The first directory among the children [start, stop), if it is [name]. *)
Fixpoint next_dir fs name (i : Z) (cs : list Z) : option Z :=
  match cs with
  | [] => None
  | c :: cs' => if isDir fs c then if bool_decide (name_of fs c = name) then Some i else None else next_dir fs name (i + 1) cs'
  end.
Definition scan fs di name (start stop : Z) : option Z :=
  next_dir fs name start (take (Z.to_nat (stop - start)) (drop (Z.to_nat start) (Children di))).
(** Whether the directories of [q] are opened one after the other. *)
Definition track_open q d : St FS unit :=
  let! di := dir_at q in
  let! fs := getS in
  let name := name_of fs d in
  let n := zlen (Children di) in
  let lastIdx := lastOpenDirIdx di in
  let first := lastIdx <? 0 in
  if negb first && match znth (Children di) lastIdx with Some c => isDir fs c && bool_decide (name_of fs c = name) | None => false end
  then ret tt   (* same directory again *)
  else match (if first then scan fs di name 0 (Z.min n 1000) else scan fs di name (lastIdx + 1) (Z.min n (lastIdx + 1000))) with
       | Some i =>
         let score := if seqOpenDirScore di <? 255 then seqOpenDirScore di + 1 else seqOpenDirScore di in
         mod_dir q (fun di => set_lastOpenDirIdx i (set_seqOpenDirScore score di)) ;;;
         (* propagate down the score for the depth-first search case *)
         if first then mod_dir d (set_seqOpenDirScore score) else ret tt
       | None => mod_dir q (fun di => set_lastOpenDirIdx (findChildIdxUnlocked (name_of fs) di name) (set_seqOpenDirScore 0 di))
       end.
Definition OpenDir d : St FS Z :=
  let! _ := dir_at d in
  let! fs := getS in
  let q := parent_of fs d in
  (if isS3 tflags && negb (q =? 0) && negb (StatCacheTTL flags =? 0) then track_open q d else ret tt) ;;;
  let! h := newDirHandle d false in
  mod_dir d (fun di => set_handles (handles di ++ [h]) di) ;;;
  on_inode d (modS (fun i => set_fileHandles (fileHandles i + 1) i)) ;;;
  let! nd := node d in
  (if fileHandles (inode nd) =? 1 then addModified q 1 else ret tt) ;;;
  ret h.
Definition CloseDir h : St FS unit :=
  let! dh := handle h in
  let d := dh_inode dh in
  let! di := dir_at d in
  match list_find (fun x => x = h) (handles di) with
  | None => ret tt
  | Some (i, _) =>
    mod_dir d (fun di => set_handles (delete i (handles di)) di) ;;;
    on_inode d (modS (fun i => set_fileHandles (fileHandles i - 1) i)) ;;;
    let! nd := node d in
    let! fs := getS in
    if fileHandles (inode nd) =? 0 then addModified (parent_of fs d) (-1) else ret tt
  end.
Definition Seek h (newOffset : Z) : St FS unit :=
  let! dh := handle h in
  let! di := dir_at (dh_inode dh) in
  let! fs := getS in
  let! dh' := liftO (Children.Seek (name_of fs) newOffset di dh) in
  put_handle h dh'.

(** The caller has passed the entry on. *)
Definition advance h name : St FS unit := let! dh := handle h in put_handle h (Next name dh).

(** A call of [ReadDir]: it returns an entry, waits for a slurp, for the lock
    after it, before it goes on with the loop of [loadListing], before a
    request, or for the answer to it.  [loaded] is the marker of the first page. *)
Inductive readdir_stage :=
| RServed (e : dir_entry)
| RSlurp (prefix startWith : text)
| RSlurped (done : bool)
| RMore (loaded : option text)
| RAsk (loaded : option text)
| RFlat (loaded : option text) (start startAfter prefix : text).
(** The answer of the server to a request with a prefix and a key to start after. *)
Definition list_response : Type := text -> text -> page + error.
Inductive list_answer :=
| Lock
| SlurpPage (skip : option (gset text)) (order : list Z) (resp : list_response)
| FlatPage (skip : option (gset text)) (probe : text -> list text + error) (resp : list_response).

Definition check_position h : St FS Z :=
  let! dh := handle h in
  let! di := dir_at (dh_inode dh) in
  let! fs := getS in
  let dh' := checkDirPosition (name_of fs) di dh in
  put_handle h dh' ;;;
  ret (lastInternalOffset dh').
Definition serve_at h : St FS readdir_stage :=
  let! dh := handle h in
  let! di := dir_at (dh_inode dh) in
  let! fs := getS in
  let! '(e, di') := liftO (serve (name_of fs) di dh) in
  mod_dir (dh_inode dh) (fun _ => di') ;;;
  ret (RServed e).
Definition ReadDir_start h : St FS readdir_stage :=
  let! pos := check_position h in
  let! dh := handle h in
  let d := dh_inode dh in
  if pos =? 0 then ret (RServed Dot)
  else if pos =? 1 then ret (RServed DotDot)
  else
    let! di := dir_at d in
    let! t := now in
    if expired (DirTime di) (StatCacheTTL flags) t then
      let! slurp := loadListing_start d (noSlurp dh) in
      let! fs := getS in
      if slurp then let '(prefix, startWith) := listObjectsSlurp_request fs root (At d) [] in ret (RSlurp prefix startWith)
      else ret (RMore None)
    else serve_at h.
(** After [loadListing]. *)
Definition ReadDir_finish h : St FS readdir_stage :=
  let! pos := check_position h in
  if pos <? 2 then ret (RServed (if pos =? 1 then DotDot else Dot)) else serve_at h.
Definition ReadDir_next h (st : readdir_stage) (a : list_answer) : St FS (readdir_stage + error) :=
  let! dh := handle h in
  let d := dh_inode dh in
  match st, a with
  | RSlurp prefix startWith, SlurpPage skip order resp =>
    match resp prefix startWith with
    | inl page =>
      let! next := listObjectsSlurp_done root (At d) true prefix startWith skip order page in
      ret (inl (RSlurped (bool_decide (next = []))))
    | inr e => ret (inr e)
    end
  | RSlurped done, Lock => loadListing_slurped d done ;;; ret (inl (RMore None))
  | RMore loaded, Lock =>
    let! more := loadListing_more d in
    if more then ret (inl (RAsk loaded))
    else loadListing_end d loaded ;;; let! st' := ReadDir_finish h in ret (inl st')
  | RAsk loaded, Lock =>
    let! '(start, startAfter, prefix) := listObjectsFlat_request d in
    ret (inl (RFlat loaded start startAfter prefix))
  | RFlat loaded start startAfter prefix, FlatPage skip probe resp =>
    let! err := listObjectsFlat_answer d startAfter prefix skip probe (resp prefix startAfter) in
    ret (match err with Some e => inr e | None => inl (RMore (Some (default start loaded))) end)
  | _, _ => ret (inl st)   (* it keeps waiting *)
  end.
(** A whole call with the answers it gets; [None] while it waits. *)
Fixpoint ReadDir_run h (st : readdir_stage) (answers : list list_answer) : St FS (option (dir_entry + error)) :=
  match st, answers with
  | RServed e, _ => ret (Some (inl e))
  | _, [] => ret None
  | _, a :: answers' =>
    let! r := ReadDir_next h st a in
    match r with
    | inr e => ret (Some (inr e))
    | inl st' => ReadDir_run h st' answers'
    end
  end.
Definition isEmptyDir d (answers : list list_answer) : St FS (option (bool + error)) :=
  let! h := newDirHandle d true in
  Seek h 2 ;;;
  let! st := ReadDir_start h in
  let! r := ReadDir_run h st answers in
  ret (match r with
       | Some (inl End) => Some (inl true)
       | Some (inl _) => Some (inl false)
       | Some (inr e) => Some (inr e)
       | None => None
       end).
(** [RmDir] up to the call of [ReadDir], with what it goes on with. *)
Definition RmDir_start d name : St FS (option (Z * readdir_stage) + errno) :=
  let! c := findChildUnlocked d name in
  let! fs := getS in
  match c with
  | None => ret (inl None)
  | Some c =>
    if negb (isDir fs c) then ret (inr ENOTDIR)
    else
      let! h := newDirHandle c false in
      Seek h 2 ;;;
      let! st := ReadDir_start h in
      ret (inl (Some (h, st)))
  end.
(** *** Renaming *)

(** [renamed] tells whether the file of the disk cache could be moved.  The old
    place is left before the name changes, as the search uses the name. *)
Definition renameInCache p d name (renamed : bool) : St FS unit :=
  let! fs := getS in
  Ref p ;;;
  removeChildUnlocked (parent_of fs p) p ;;;
  on_inode p (Upload.renameInCache (d, name) renamed) ;;;
  insertChildUnlocked d p ;;;
  DeRef p 1 ;;;
  ret tt.
(** The new directory takes the number and the references of the old one. *)
Definition trick_ids old new : St FS unit :=
  let! o := node old in
  let! n := node new in
  mod_node old (fun nd => with_refcnt (refcnt n) (with_Id (Id n) nd)) ;;;
  mod_node new (fun nd => with_refcnt (refcnt o) (with_Id (Id o) nd)) ;;;
  number old (Id n) ;;;
  number new (Id o).
(** Move the first child until there is none; each turn takes a child away. *)
Fixpoint move_children (n : nat) (rename : Z -> text -> St FS unit) p toDir (renamed : Z -> bool) : St FS unit :=
  let! di := dir_at p in
  match Children di, n with
  | [], _ => ret tt
  | _ :: _, O => fun _ => OutOfFuel
  | c :: _, S n' =>
    let! fs := getS in
    (if isDir fs c then rename c (name_of fs c) else renameInCache c toDir (name_of fs c) (renamed c)) ;;;
    move_children n' rename p toDir renamed
  end.
(** Directories nest no deeper than [fuel]. *)
Fixpoint renameRecursive (fuel : nat) p d name (renamed : Z -> bool) : St FS unit :=
  let! toDir := doMkDir d name in
  let! nd := node p in
  on_inode toDir (mod_attrs (fun a => Attrs.set_meta (Attrs.userMetadata (attrs (inode nd))) (Attrs.userMetadataDirty a) a)) ;;;
  let! di := dir_at p in
  mod_dir toDir (set_ImplicitDir (ImplicitDir di)) ;;;
  doUnlink p ;;;
  trick_ids p toDir ;;;
  move_children (length (Children di))
    (fun c n => match fuel with O => fun _ => OutOfFuel | S fuel' => renameRecursive fuel' c toDir n renamed end) p toDir renamed.

(** The target of a rename is replaced: [None] while the question whether it is empty waits for the server. *)
Definition Rename_target (fromDir : bool) to (answers : list list_answer) : St FS (option (option error)) :=
  let! fs := getS in
  if fromDir then
    if negb (isDir fs to) then ret (Some (Some (Errno ENOTDIR)))
    else
      let! e := isEmptyDir to answers in
      ret (match e with
           | None => None
           | Some (inr e) => Some (Some e)
           | Some (inl true) => Some None
           | Some (inl false) => Some (Some (Errno ENOTEMPTY))
           end)
  else ret (Some (if isDir fs to then Some (Errno EISDIR) else None)).
Definition detach_target d to : St FS unit :=
  let! fs := getS in
  if isDir fs to then doUnlink to
  else
    (* Do not unlink target file if it's a file to make situation where the old
       file is already deleted, but the new one is not uploaded yet, impossible *)
    removeChildUnlocked d to ;;;
    reset to ;;;
    set_state to ST_DEAD.
(** All objects below the directory are listed, keeping its lock. *)
Fixpoint Rename_list p (next : text) (pages : list list_answer) : St FS (option (option error)) :=
  let! di := dir_at p in
  if listDone di then ret (Some None)
  else match pages with
       | SlurpPage skip order resp :: pages' =>
         let! fs := getS in
         let '(prefix, startWith) := listObjectsSlurp_request fs p (At p) next in
         match resp prefix startWith with
         | inl page =>
           let! next' := listObjectsSlurp_done p (At p) true prefix startWith skip order page in
           Rename_list p next' pages'
         | inr e => ret (Some (mapAwsError (Some e)))
         end
       | _ => ret None
       end.
(** The locks of both directories and of the inode are held throughout.  The
    result is [None] while the call waits for the server. *)
Definition Rename d from d' to (renamed : Z -> bool) (answers pages : list list_answer) : St FS (option (option error)) :=
  let! fromInode := findChildUnlocked d from in
  let! toInode := findChildUnlocked d' to in
  match fromInode with
  | None => ret (Some (Some (Errno ENOENT)))
  | Some p =>
    let! fs := getS in
    let! r := match toInode with Some t => Rename_target (isDir fs p) t answers | None => ret (Some None) end in
    match r with
    | None => ret None
    | Some (Some e) => ret (Some (Some e))
    | Some None =>
      match toInode with Some t => detach_target d' t | None => ret tt end ;;;
      if isDir fs p then
        mod_dir p (set_listDone false) ;;;
        let! r := Rename_list p [] pages in
        match r with
        | Some None => let! fs' := getS in renameRecursive (depth fs') p d' to renamed ;;; WakeupFlusher ;;; ret (Some None)
        | _ => ret r
        end
      else renameInCache p d' to (renamed p) ;;; WakeupFlusher ;;; ret (Some None)
    end
  end.
(** *** Lookup *)

(** What [LookUpCached] finds: an inode, that there is none, or that the server has to be asked. *)
Inductive lookup := Cached (p : Z) | NoEntry | Recheck (stale : option Z).
Definition LookUpCached d name : St FS lookup :=
  let! di := dir_at d in
  let! c := findChildUnlocked d name in
  let! fs := getS in
  let! t := now in
  match c with
  | Some c =>
    let! nd := node c in
    (* what is modified here is more accurate than the server *)
    ret (if expired (AttrTime (inode nd)) (StatCacheTTL flags) t && bool_decide (CacheState (inode nd) = ST_CACHED)
            && negb (isDir fs c && (0 <? modified_below fs c))
         then Recheck (Some c) else Cached c)
  | None =>
    ret (if bool_decide (deleted fs d name <> None) then NoEntry        (* File is deleted locally *)
         else if expired (DirTime di) (StatCacheTTL flags) t then Recheck None
         else NoEntry)                                                  (* directory cache is actual *)
  end.
Definition check_gap d (key : text) (newerThan : Z) : St FS bool :=
  let! di := dir_at d in
  let! '(r, g) := liftO (Gaps.checkGapLoaded key newerThan (gaps di)) in
  mod_dir d (set_gaps g) ;;;
  ret r.
(** Whether the key and the directory of that name are in loaded ranges. *)
Definition key_loaded (key : text) (newerThan : Z) : St FS bool :=
  let! a := check_gap root key newerThan in
  if a then check_gap root (key ++ [slash]) newerThan else ret false.

(** A call of [LookUp]: it returns, waits for a slurp, or for the requests of [LookUpInodeMaybeDir]. *)
Inductive lookup_stage :=
| LFound (c : option Z)
| LSlurp (prefix startWith : text)
| LProbe.
Definition LookUp_start d name (doSlurp : bool) : St FS lookup_stage :=
  let! fs := getS in
  let! t := now in
  let key := appendChildName (cloud_path tflags fs d) name in
  let! loaded := key_loaded key (t - StatCacheTTL flags) in
  if loaded then let! c := findChildUnlocked d name in ret (LFound c)
  else if doSlurp then let '(prefix, startWith) := listObjectsSlurp_request fs root (In d) key in ret (LSlurp prefix startWith)
  else ret LProbe.
Definition LookUp_slurped d name (expire : Z) (prefix startWith : text) (skip : option (gset text)) (order : list Z) (resp : page) : St FS lookup_stage :=
  listObjectsSlurp_done root (In d) false prefix startWith skip order resp ;;;
  let! c := findChildUnlocked d name in
  let! fs := getS in
  let! loaded := key_loaded (appendChildName (cloud_path tflags fs d) name) expire in
  ret (if bool_decide (c <> None) || loaded then LFound c else LProbe).
(** The object found by [LookUpInodeMaybeDir] is inserted. *)
Definition LookUp_insert d name (skip : option (gset text)) (blob : text * BlobItem) : St FS (option Z) :=
  let! fs := getS in
  let '(key, item) := blob in
  (if skipped skip key then ret tt
   else
     let! path := liftO (slice_from key (zlen (slashed (cloud_path tflags fs d)))) in
     insertSubTree (length path) d path item ∅ ;;; ret tt) ;;;
  findChildUnlocked d name.
(** [recheckInode] when the lookup failed. *)
Definition recheck_failed d (stale : option Z) : St FS unit :=
  match stale with
  | Some c => removeChild d c
  | None => ret tt
  end.

(** *** Refreshing *)

(** One inode of [resetDirTimeRec], with the children it goes on with. *)
Definition resetDirTime p : St FS (list Z) :=
  on_inode p (SetAttrTime flags Attrs.zero_time) ;;;
  let! nd := node p in
  match dir nd with
  | None => ret []
  | Some di => mod_dir p (fun di => set_DirTime Attrs.zero_time (set_listDone false di)) ;;; ret (Children di)
  end.
(** The inode holds state the backend does not. *)
Definition isDirtyLocked fs p : bool :=
  at_node fs p (fun nd => bool_decide (CacheState (inode nd) <> ST_CACHED)) false || (isDir fs p && (0 <? modified_below fs p)).
(** What [refreshCurrentChild] goes on with: [recheckInode], nothing, or a lookup because the inode is stale. *)
Inductive refresh_stage := RecheckChild | KeptDirty | LookUpStale (current : Z).
Definition refreshCurrentChild_start d p name : St FS refresh_stage :=
  let! current := findChildUnlocked d name in
  let! fs := getS in
  ret (match current with
       | None => RecheckChild
       | Some c => if c =? p then RecheckChild else if isDirtyLocked fs c then KeptDirty else LookUpStale c
       end).
(** The counters [ModifiedChildren] are changed without a lock. *)
Fixpoint addModifieds (window : list (Z * Z)) : St FS unit :=
  match window with
  | [] => ret tt
  | (d, inc) :: window' => addModified d inc ;;; addModifieds window'
  end.
(** [window] is what other calls add to the counters between the check and the
    removal, under whose locks only the state of the child itself is settled. *)
Definition removeChildUnlessDirty (window : list (Z * Z)) d p : St FS bool :=
  let! di := dir_at d in
  let! fs := getS in
  if bool_decide (znth (Children di) (Children.search (name_of fs) di (name_of fs p)) = Some p) then
    if isDirtyLocked fs p then ret true
    else
      addModifieds window ;;;
      removeChildUnlocked d p ;;;
      ret false
  else ret false.
(** The lookup returned [err]. *)
Definition refreshCurrentChild_done (window : list (Z * Z)) d current (err : option error) : St FS (option error) :=
  if is_errno ENOENT (mapAwsError err) then
    let! dirty := removeChildUnlessDirty window d current in
    (* it turned dirty between the pre-check and the removal, so it was kept *)
    ret (if dirty then None else err)
  else ret err.

(** *** The requests of [LookUpInodeMaybeDir] *)

Inductive probe_answer :=
| ObjectAnswer (r : (text * BlobItem) + error)
| DirObjectAnswer (r : (text * BlobItem) + error)
| PrefixListAnswer (r : page + error).
Record probes := mkProbes {
  object : option (text * BlobItem); dirObject : option (text * BlobItem); prefixList : option page;
  objectError : option error; dirError : option error; prefixError : option error;
}.
Definition value {A} (r : A + error) : option A := match r with inl a => Some a | inr _ => None end.
Definition failure {A} (r : A + error) : option error := match r with inl _ => None | inr e => Some e end.
Definition receiveResult (a : probe_answer) (ps : probes) : probes :=
  match a with
  | ObjectAnswer r => mkProbes (value r) (dirObject ps) (prefixList ps) (failure r) (dirError ps) (prefixError ps)
  | DirObjectAnswer r => mkProbes (object ps) (value r) (prefixList ps) (objectError ps) (failure r) (prefixError ps)
  | PrefixListAnswer r => mkProbes (object ps) (dirObject ps) (value r) (objectError ps) (dirError ps) (failure r)
  end.
Definition no_item : BlobItem := mkItem None 0 None None None.
Definition usable (key : text) (ps : probes) : outcome (option (text * BlobItem)) :=
  match object ps, dirObject ps, prefixList ps with
  | Some o, _, _ => Ok (Some o)
  | None, Some o, _ => Ok (Some o)
  | None, None, Some l =>
    match Items l, Prefixes l with
    | [], [] => Ok None
    | [], _ :: _ => Ok (Some (key ++ [slash], no_item))
    | (k, item) :: _, _ =>
      if bool_decide (k = key) then Ok (Some (k, item))
      else if zlen k <? zlen key + 1 then Panic SliceOutOfRange
      else if has_prefix (key ++ [slash]) k then Ok (Some (k, item))
      else Ok (Some (key ++ [slash], no_item))
    end
  | None, None, None => Ok None
  end.
Definition not_found (err : option error) : bool := is_errno ENOENT (mapAwsError err).
(** The error when no answer is usable. *)
Definition verdict (ps : probes) : error :=
  match objectError ps, dirError ps, prefixError ps with
  | o, dE, l =>
    match (if not_found o then None else o), (if not_found dE then None else dE), (if not_found l then None else l) with
    | Some e, _, _ => e
    | None, Some e, _ => e
    | None, None, Some e => e
    | None, None, None => Errno ENOENT
    end
  end.
Definition no_probes : probes := mkProbes None None None None None None.
(** Results in the order of arrival; the first usable one is returned. *)
Fixpoint first_usable (key : text) (answers : list probe_answer) (ps : probes) : outcome ((text * BlobItem) + error) :=
  match answers with
  | [] => Ok (inr (verdict ps))
  | a :: answers' =>
    let ps := receiveResult a ps in
    letO! u := usable key ps in
    match u with
    | Some o => Ok (inl o)
    | None => first_usable key answers' ps
    end
  end.
(** The requests that are made, with their results; one after the other when requests are expensive. *)
Definition asked (o dO : (text * BlobItem) + error) (l : page + error) : list probe_answer :=
  let rest := if ExplicitDir tflags then [] else [PrefixListAnswer l] in
  if DirBlob tflags then [ObjectAnswer o]
  else if Cheap tflags then
    ObjectAnswer o ::
    (if not_found (failure o) then
       if NoDirObject tflags then rest
       else DirObjectAnswer dO :: (if not_found (failure dO) then rest else [])
     else [])
  else ObjectAnswer o :: (if NoDirObject tflags then [] else [DirObjectAnswer dO]) ++ rest.
(** [arrived] are the results in the order of their arrival. *)
Definition LookUpInodeMaybeDir (key : text) (arrived : list probe_answer) : outcome ((text * BlobItem) + error) :=
  if DirBlob tflags || Cheap tflags then
    let ps := fold_left (fun ps a => receiveResult a ps) arrived no_probes in
    letO! u := usable key ps in
    Ok (match u with Some o => inl o | None => inr (verdict ps) end)
  else first_usable key arrived no_probes.

(** *** The flusher, eviction and the kernel *)

(** [parent] and [overDeleted] were read before the lock of the inode was taken. *)
Definition TryFlush_read p : St FS (Z * bool) :=
  let! fs := getS in
  let q := parent_of fs p in
  ret (q, negb (q =? 0) && bool_decide (deleted fs q (name_of fs p) <> None)).
Definition TryFlush p (priority parent : Z) (overDeleted : bool) : St FS bool :=
  let! nd := node p in
  let! fs := getS in
  let! t := now in
  let i := inode nd in
  match dir nd with
  | None => on_inode p (Upload.TryFlush flags priority parent overDeleted)
  | Some _ =>
    if negb ((loc i).1 =? parent) then ret false
    else if bool_decide (flushError i <> None) && (t - flushErrorTime i <? RetryInterval flags) then
      on_inode p ScheduleRetryFlush ;;; ret false
    else match CacheState i with
    | ST_DELETED =>
      if (IsFlushing i =? 0) && (modified_below fs p =? 0) then on_inode p (SendDelete flags) ;;; ret true else ret false
    | ST_CREATED | ST_MODIFIED =>
      if (IsFlushing i =? 0) && negb overDeleted then
        mod_dir p (set_ImplicitDir false) ;;; on_inode p (SendMkDir flags) ;;; ret true
      else ret false
    | _ => ret false
    end
  end.
(** [busy] tells whether a lock could not be taken. *)
Definition EvictEntry (id : Z) (busy : bool) : St FS bool :=
  let! fs := getS in
  match inodes fs !! id with
  | None => ret false
  | Some c =>
    let! nd := node c in
    let! t := now in
    if (Id nd =? 1) || (0 <? fileHandles (inode nd)) || negb (settled (CacheState (inode nd))) || (isDir fs c && (0 <? modified_below fs c))
       || busy || (t <? ExpireTime (inode nd)) then ret false
    else
      let q := parent_of fs c in
      let! qd := node q in
      if 0 <? fileHandles (inode qd) then ret false
      else
        let! found := findChildUnlocked q (name_of fs c) in
        (if bool_decide (found = Some c) then
           removeChildUnlocked q c ;;;
           (* Mark directory listing as unfinished *)
           mod_dir q (fun di => set_forgetDuringList true (set_DirTime Attrs.zero_time di))
         else ret tt) ;;;
        reset c ;;;
        set_state c ST_DEAD ;;;
        (* Drop inode *)
        forget c ;;;
        ret true
  end.
(** A turn of a goroutine of the inode, with what it does to the tree: the
    removal of an old key that failed is tried again as that of a deleted file,
    an inode whose object was found to be gone while it was copied leaves its
    directory, and a deleted inode the kernel does not know any more is
    dropped. *)
Definition task_turn p (n : nat) (r : response) : St FS unit :=
  let! nd := node p in
  let turn r := on_inode p (run_action flags env (ATask n r)) in
  match tasks (inode nd) !! n, r with
  | Some (TRenameDelete del), DeleteAnswer (Some e) _ =>
    let! tomb := NewInode del.1 del.2 in
    let! id := allocateInodeId in
    mod_node tomb (with_Id id) ;;;
    number tomb id ;;;
    set_userMetadata tomb ∅ 0 ;;;
    on_inode tomb (modS (fun i => set_queued true (set_CacheState ST_DELETED i)) ;;; recordFlushError (Some e)) ;;;
    turn (DeleteAnswer (Some e) tomb)
  | Some (TRenameLost place _), Continue _ => turn r ;;; removeChild place.1 p
  | Some (TDelete _), DeleteDone err _ => turn (DeleteDone err (refcnt nd =? 0))
  | Some TDeleteForget, Continue _ => turn r ;;; DeRef p 0 ;;; WakeupFlusher
  | _, _ => turn r
  end.
Definition getInodeOrDie (id : Z) : St FS Z :=
  let! fs := getS in match inodes fs !! id with Some p => ret p | None => panicS UnknownInode end.
Definition SetExpireTime p (tm : Z) : St FS unit :=
  on_inode p (modS (fun i => if tm <? ExpireTime i then i else set_ExpireTime tm i)).
(** The end of [GoofysFuse.LookUpInode]. *)
Definition LookUpInode_found p : St FS Z :=
  Ref p ;;;
  let! nd := node p in
  let! t := now in
  SetExpireTime p (t + StatCacheTTL flags) ;;;
  ret (Id nd).
Definition ForgetInode (id n : Z) : St FS unit :=
  let! fs := getS in
  match inodes fs !! id with
  | Some p => DeRef p n ;;; ret tt
  | None => ret tt
  end.
(** The inodes [SyncTree] flushes. *)
Definition SyncTree_targets fs (parent : option Z) : list Z :=
  (map_to_list (filter (fun idp => match parent with None => true | Some d => isParentOf fs d idp.2 end = true) (inodes fs))).*1.
End ops.
End Tree.
