(* ===== verification/Frame.v ===== *)
(** * What the operations of a file leave alone

    The sections of a file change its data, its goroutines and the counters it
    shares with other files.  Apart from [doUnlink] and [renameInCache], which
    the directories call, none of them moves the file; and of the names that
    count as deleted in directories they only take some away, except for the
    tombstone that is put in place of an old key which could not be removed. *)

From stdpp Require Import strings.
From S2P Require Import Prelude BTree Parts BufferList Locks Errors ReadAhead Attrs Inode FileIO Upload Machine.

Create HintDb keeps.

Module Frame.
Import Errors BufferList Inode FileIO Upload Machine.

Section keeps.
Context {M : Type -> Type} {Q : Type}.
Abbreviation I := (Inode M Q).
Implicit Types (i : I) (T : Z -> Prop).

(** The places an inode may come back to are in [P]: the one it was renamed
    from, and those in the goroutines that rename it. *)
Definition task_placed (P : location -> Prop) (l : location) (t : task) : Prop :=
  match t with
  | TRename old new => P old /\ P new /\ P l
  | TRenameLost place _ => P place
  | TRenameDelete del => P del
  | _ => True
  end.
Definition placed (P : location -> Prop) i : Prop :=
  (forall l, oldLoc i = Some l -> P l /\ P (loc i)) /\ Forall (task_placed P (loc i)) (tasks i).
Lemma task_placed_mono (P P' : location -> Prop) l t : (forall l, P l -> P' l) -> task_placed P l t -> task_placed P' l t.
Proof. intros HP. destruct t; cbn; naive_solver. Qed.
Lemma placed_mono (P P' : location -> Prop) i : (forall l, P l -> P' l) -> placed P i -> placed P' i.
Proof.
  intros HP [Ho Ht]. split; [intros l Hl; destruct (Ho l Hl); auto|]. eapply Forall_impl; [exact Ht|]. intros t. by apply task_placed_mono.
Qed.

(** [T] are the tombstones that may be new. *)
Definition stays T i i' : Prop :=
  self i' = self i /\ loc i' = loc i /\ (forall l p, DeletedChildren i' !! l = Some p -> DeletedChildren i !! l = Some p \/ T p) /\
  forall P, placed P i -> placed P i'.
Definition keeps {A} T (m : St I A) : Prop := forall i a i', m i = Ok (a, i') -> stays T i i'.

Lemma stays_refl T i : stays T i i.
Proof. split_and!; auto. Qed.
Lemma stays_trans T i i' i'' : stays T i i' -> stays T i' i'' -> stays T i i''.
Proof. intros (Es & El & Ed & Hp) (Es' & El' & Ed' & Hp'). split_and!; [congruence..| |auto]. intros l p [?|?]%Ed'; auto. Qed.
Lemma stays_when T i i' : self i' = self i -> loc i' = loc i -> DeletedChildren i' = DeletedChildren i -> (forall P, placed P i -> placed P i') -> stays T i i'.
Proof. intros ? ? E ?. split_and!; [done..| |done]. rewrite E. auto. Qed.
Lemma stays_same T i i' : self i' = self i -> loc i' = loc i -> DeletedChildren i' = DeletedChildren i -> oldLoc i' = oldLoc i -> tasks i' = tasks i -> stays T i i'.
Proof. intros ? El ? Eo Et. apply stays_when; [done..|]. intros P. unfold placed. by rewrite El, Eo, Et. Qed.
(** The old place is forgotten, or goroutines that do not rename are started. *)
Lemma stays_forget T i i' : self i' = self i -> loc i' = loc i -> DeletedChildren i' = DeletedChildren i -> oldLoc i' = None -> tasks i' = tasks i -> stays T i i'.
Proof. intros ? El ? Eo Et. apply stays_when; [done..|]. intros P [_ Ht]. split; [by rewrite Eo|]. by rewrite El, Et. Qed.
Lemma stays_start T i ts : (forall P l, Forall (task_placed P l) ts) -> stays T i (set_tasks (tasks i ++ ts) i).
Proof. intros Ht. apply stays_when; [done..|]. intros P [Ho Hts]. split; [done|]. cbn. apply Forall_app. auto. Qed.
Lemma stays_end T i n : stays T i (set_tasks (delete n (tasks i)) i).
Proof. apply stays_when; [done..|]. intros P [Ho Hts]. split; [done|]. by apply Forall_delete. Qed.

Lemma keeps_ret {A} T (a : A) : keeps T (ret a).
Proof. intros i x i' [= _ <-]. apply stays_refl. Qed.
Lemma keeps_getS T : keeps T getS.
Proof. intros i x i' [= _ <-]. apply stays_refl. Qed.
Lemma keeps_gets {A} T (f : I -> A) : keeps T (gets f).
Proof. intros i x i' [= _ <-]. apply stays_refl. Qed.
Lemma keeps_panic {A} T e : keeps T (panicS (A := A) e).
Proof. done. Qed.
Lemma keeps_fuel {A} T : keeps T ((fun _ => OutOfFuel) : St I A).
Proof. done. Qed.
Lemma keeps_liftO {A} T (m : outcome A) : keeps T (liftO m).
Proof. intros i x i'. unfold liftO. destruct m; [|done..]. intros [= _ <-]. apply stays_refl. Qed.
Lemma keeps_bind {A B} T (m : St I A) (k : A -> St I B) : keeps T m -> (forall a, keeps T (k a)) -> keeps T (bind m k).
Proof.
  intros Hm Hk i b i'. unfold bind. destruct (m i) as [[a i1]| |] eqn:E; [|done..]. intros E'.
  eapply stays_trans; [by eapply Hm|by eapply Hk].
Qed.
Lemma keeps_modS T (f : I -> I) : (forall i, stays T i (f i)) -> keeps T (modS f).
Proof. intros Hf i x i' [= _ <-]. apply Hf. Qed.
Lemma keeps_on_buffers {A} T (m : St (bl M Q) A) : keeps T (on_buffers m).
Proof.
  unfold on_buffers. intros i a i'. destruct (m (buffers i)) as [[b l]| |]; [|done..]. intros [= _ <-]. by apply stays_same.
Qed.
Lemma stays_undelete T i l : stays T i (undelete l i).
Proof. split_and!; [done..| |done]. cbn. intros l' p [_ ?]%lookup_delete_Some. auto. Qed.
End keeps.
#[export] Hint Resolve keeps_ret keeps_getS keeps_gets keeps_panic keeps_fuel keeps_liftO keeps_on_buffers : keeps.

(** Go through a section, unfolding what it calls. *)
Ltac keeps_unfold m :=
  match m with
  | ?f _ => keeps_unfold f
  | ?c => unfold c
  end.
Ltac keeps_step :=
  lazymatch goal with
  | |- keeps _ (bind _ _) => apply keeps_bind; [|intro]
  | |- keeps _ (modS _) => apply keeps_modS; intro; repeat case_match; first [by apply stays_same | by apply stays_undelete | by apply stays_forget | by apply stays_start; intros; repeat constructor | by apply stays_start; intros; apply Forall_fmap, Forall_true | idtac]
  | |- keeps _ (match ?d with _ => _ end) => destruct d
  | |- keeps _ (let _ := _ in _) => cbv zeta
  | |- keeps _ ?m => first [solve [eauto with keeps nocore] | keeps_unfold m]
  end.
Ltac keeps := repeat keeps_step.

Section sections.
Context {M : Type -> Type} `{BTreeMap M} {Q : Type} `{BufferListHelpers Q}.
Context (flags : Flags) (env : Env) (T : Z -> Prop).
Abbreviation I := (Inode M Q).

Lemma resetCache_keeps : keeps T (resetCache (M := M) (Q := Q) flags env).
Proof. keeps. Qed.
#[local] Hint Resolve resetCache_keeps : keeps.
Lemma loadFromDisk_loop_keeps rr err : keeps T (loadFromDisk_loop (M := M) (Q := Q) env rr err).
Proof. revert err. induction rr; intros; cbn [loadFromDisk_loop]; keeps. Qed.
Lemma iterM_keeps {A} (f : A -> Z -> St I (A * bool)) acc items : (forall a x, keeps T (f a x)) -> keeps T (iterM f acc items).
Proof. intros Hf. revert acc. induction items; intros; cbn [iterM]; keeps. Qed.
Lemma flush_zero_parts_keeps prio init parts : keeps T (flush_zero_parts (M := M) (Q := Q) flags prio init parts).
Proof. revert init. induction parts; intros; cbn [flush_zero_parts]; keeps. Qed.
#[local] Hint Resolve loadFromDisk_loop_keeps flush_zero_parts_keeps : keeps.
Lemma pick_part_keeps prio acc part : keeps T (pick_part (M := M) (Q := Q) flags prio acc part).
Proof. keeps. Qed.
Lemma patch_range_keeps wf key acc part : keeps T (patch_range (M := M) (Q := Q) flags wf key acc part).
Proof. keeps. Qed.
#[local] Hint Resolve iterM_keeps pick_part_keeps patch_range_keeps : keeps.

Lemma LoadRange_keeps offset size ra : keeps T (LoadRange (M := M) (Q := Q) flags env offset size ra).
Proof. keeps. Qed.
#[local] Hint Resolve LoadRange_keeps : keeps.
Lemma ReadFile_keeps fh offset len : keeps T (ReadFile (M := M) (Q := Q) flags env fh offset len).
Proof. keeps. Qed.
(** The rename of an object starts with the places of the inode. *)
Lemma sendRename_keeps : keeps T (sendRename (M := M) (Q := Q) flags).
Proof.
  unfold sendRename. intros i u i'. unfold bind at 1, getS. destruct (oldLoc i) as [old|] eqn:Eo; [|done].
  assert (Hb : keeps T (begin_flush (MaxParallelParts flags) ;;; modS (set_renamingTo (M := M) (Q := Q) true))) by keeps.
  intros Hrun. set (m := begin_flush _) in *. assert (exists i1, (m ;;; modS (set_renamingTo true)) i = Ok (tt, i1) /\ go (TRename old (loc i)) i1 = Ok (u, i')) as (i1 & E1 & E2).
  { unfold bind in *. destruct (m i) as [[a j]| |]; [|done..]. by eexists. }
  apply Hb in E1 as (Es & El & Ed & Hp). injection E2 as <- <-. split_and!; [done..|]. intros P Hpl. destruct (proj1 Hpl old Eo). destruct (Hp P Hpl) as [Ho Ht].
  split; [done|]. cbn. apply Forall_app. split; [done|]. repeat constructor; try done. by rewrite El.
Qed.
#[local] Hint Resolve sendRename_keeps : keeps.
Lemma TryFlush_keeps prio parent od : keeps T (TryFlush (M := M) (Q := Q) flags prio parent od).
Proof. keeps. Qed.
Lemma SetFromBlobItem_keeps item ct : keeps T (SetFromBlobItem (M := M) (Q := Q) flags env item ct).
Proof. keeps. Qed.
#[local] Hint Resolve ReadFile_keeps TryFlush_keeps SetFromBlobItem_keeps : keeps.

(** *** Turns of the goroutines *)

(** Goroutines that do not rename. *)
Definition plain (t : task) : Prop := match t with TRename _ _ | TRenameLost _ _ | TRenameDelete _ => False | _ => True end.
Lemma plain_placed P l t : plain t -> task_placed P l t.
Proof. by destruct t. Qed.
Definition gives {A} (R : A -> Prop) (m : St I A) : Prop := forall i a i', m i = Ok (a, i') -> R a.
Lemma gives_bind {A B} (R : B -> Prop) (m : St I A) (k : A -> St I B) : (forall a, gives R (k a)) -> gives R (bind m k).
Proof. intros Hk i b i'. unfold bind. destruct (m i) as [[a i1]| |]; [|done..]. apply Hk. Qed.
Lemma gives_ret {A} (R : A -> Prop) (a : A) : R a -> gives R (ret a).
Proof. intros Ha i x i' [= <- _]. done. Qed.
Definition next_plain (o : option task) : Prop := forall t, o = Some t -> plain t.
Lemma next_plain_Some t : plain t -> next_plain (Some t).
Proof. by intros ? ? [= <-]. Qed.
Lemma start_if_keeps o : next_plain o -> keeps T (start_if (M := M) (Q := Q) o).
Proof.
  intros Ho. destruct o as [t|]; [|apply keeps_ret]. apply keeps_modS. intros i. apply stays_start. intros P l. repeat constructor. by apply plain_placed, Ho.
Qed.
Lemma gives_complete (m : St I (option task)) : gives next_plain m -> gives next_plain (let! t := m in complete_next flags t).
Proof.
  intros Hm i o i'. unfold bind at 1. destruct (m i) as [[a i1]| |] eqn:E; [|done..]. pose proof (Hm _ _ _ E) as Ha.
  destruct a as [t|]; cbn [complete_next]; [by intros [= <- _]|]. unfold bind. destruct (end_flush _ _) as [[? ?]| |]; [|done..]. by intros [= <- _].
Qed.
Ltac gives_step :=
  lazymatch goal with
  | |- gives _ (bind _ (fun t => complete_next _ t)) => apply gives_complete
  | |- gives _ (bind _ _) => apply gives_bind; intro
  | |- gives _ (ret _) => apply gives_ret
  | |- gives _ (panicS _) => done
  | |- gives _ (match ?d with _ => _ end) => destruct d
  | |- gives _ (let _ := _ in _) => cbv zeta
  | |- gives _ ?m => keeps_unfold m
  | |- next_plain (Some (match ?d with _ => _ end)) => destruct d
  | |- next_plain (Some _) => by apply next_plain_Some
  | |- next_plain None => done
  | |- next_plain (match ?d with _ => _ end) => destruct d
  | |- next_plain ?o => keeps_unfold o
  end.
Ltac gives := repeat gives_step.
Lemma run_plain_gives t r : plain t -> gives next_plain (run_task (M := M) (Q := Q) flags env t r).
Proof. intros Ht. destruct t; try done; cbn [run_task]; gives. Qed.
Lemma run_plain_keeps t r : plain t -> keeps T (run_task (M := M) (Q := Q) flags env t r).
Proof. intros Ht. destruct t; try done; keeps. Qed.

(** A turn that renames, from a state whose places are in [P]. *)
Definition turns {A} (P : location -> Prop) i (m : St I A) (R : A -> Prop) : Prop :=
  forall a i', m i = Ok (a, i') ->
    (self i' = self i /\ loc i' = loc i /\ forall l p, DeletedChildren i' !! l = Some p -> DeletedChildren i !! l = Some p \/ T p) /\ placed P i' /\ R a.
Lemma turns_keeps {A} P i (m : St I A) : keeps T m -> placed P i -> turns P i m (fun _ => True).
Proof. intros Hk Hp a i' Hm. destruct (Hk _ _ _ Hm) as (? & ? & ? & Hpl). auto. Qed.
Lemma turns_bind {A B} P i (m : St I A) (k : A -> St I B) R R' :
  turns P i m R -> (forall a i', loc i' = loc i -> placed P i' -> R a -> turns P i' (k a) R') -> turns P i (bind m k) R'.
Proof.
  intros Hm Hk b i'. unfold bind. destruct (m i) as [[a i1]| |] eqn:E; [|done..]. intros E'. destruct (Hm _ _ E) as ((Es & El & Ed) & Hp & Ha).
  destruct (Hk a i1 El Hp Ha _ _ E') as ((Es' & El' & Ed') & Hp' & Hb). split_and!; try congruence. intros l p [?|?]%Ed'; auto.
Qed.
Lemma turns_ret {A} P i (a : A) (R : A -> Prop) : placed P i -> R a -> turns P i (ret a) R.
Proof. intros Hp Ha x i' [= <- <-]. auto. Qed.
Lemma turns_mono {A} P i (m : St I A) (R R' : A -> Prop) : turns P i m R -> (forall a, R a -> R' a) -> turns P i m R'.
Proof. intros Hm HR a i' E. destruct (Hm a i' E) as (? & ? & ?). auto. Qed.
Abbreviation next_placed P l := (fun o => forall t, o = Some t -> task_placed P l t).
Lemma renamed_turns P i old new err : placed P i -> task_placed P (loc i) (TRename old new) -> turns P i (sendRename_copied flags env old new err) (next_placed P (loc i)).
Proof.
  intros Hp (Ho & Hn & Hl). unfold sendRename_copied. destruct err as [e|].
  { destruct (remote_conflict _).
    - apply (turns_bind _ _ _ _ (fun j => j = i)); [intros j i' [= <- <-]; auto|]. intros _ i1 El1 Hp1 ->.
      eapply turns_bind; [apply turns_keeps; [keeps|done]|]. intros _ i2 El2 Hp2 _. eapply turns_bind; [apply turns_keeps; [keeps|done]|]. intros _ i3 El3 Hp3 _.
      apply turns_ret; [done|]. by intros t [= <-].
    - eapply turns_bind; [apply turns_keeps; [keeps|done]|]. intros _ i1 El1 Hp1 _. eapply turns_bind; [apply turns_keeps; [keeps|done]|]. intros j i2 El2 Hp2 _.
      eapply turns_bind; [apply turns_keeps; [keeps|done]|]. intros _ i3 El3 Hp3 _. apply turns_ret; [done|]. by intros t [= <-]. }
  eapply turns_bind; [apply turns_keeps; [keeps|done]|]. intros j i1 El1 Hp1 _.
  apply (turns_bind _ _ _ _ P).
  { destruct (bool_decide _); [|destruct (bool_decide _)].
    1,2: eapply turns_bind; [apply turns_keeps; [keeps|done]|]; intros _ i2 El2 Hp2 _; by apply turns_ret.
    intros del i2 [= <- <-]. split_and!; try done; auto. cbn. split; [|apply Hp1]. cbn. intros l [= <-]. by rewrite El1. }
  intros del i2 El2 Hp2 Hdel. eapply turns_bind; [apply turns_keeps; [keeps|done]|]. intros _ i3 El3 Hp3 _.
  eapply turns_bind; [apply turns_keeps; [keeps|done]|]. intros _ i4 El4 Hp4 _. apply turns_ret; [done|]. by intros t [= <-].
Qed.
(** What puts a tombstone in place. *)
Definition answer_keeps (t : task) (r : response) : Prop :=
  match t, r with TRenameDelete _, DeleteAnswer (Some _) tomb => T tomb | _, _ => True end.
Lemma run_task_turns P i t r : placed P i -> task_placed P (loc i) t -> answer_keeps t r -> turns P i (run_task flags env t r) (next_placed P (loc i)).
Proof.
  intros Hp Ht Hr. assert (plain t \/ ~ plain t) as [Hpl|Hpl] by (destruct t; cbn; tauto).
  { intros o i' E. destruct (turns_keeps P i _ (run_plain_keeps t r Hpl) Hp o i' E) as (? & ? & _). split; [done|split; [done|]].
    intros t' ->. by eapply plain_placed, (run_plain_gives t r Hpl _ _ _ E). }
  assert (Hstay : turns P i (ret (Some t)) (next_placed P (loc i))) by (apply turns_ret; [done|]; by intros ? [= <-]).
  destruct t; try (by destruct Hpl); cbn [run_task].
  - destruct (answered r); [by apply renamed_turns|done].
  - destruct r; try done. apply turns_ret; [done|]. intros t [= <-]. by destruct old.
  - destruct r as [| | | | | | |err tomb| | |]; try done. eapply turns_bind; [apply turns_keeps; [|done]|intros _ i1 El1 Hp1 _; apply turns_ret; [done|by intros t [= <-]]].
    destruct err; cbn in Hr; keeps; try (split_and!; [done..| |done]). cbn. intros l p [[<- <-]|[_ ?]]%lookup_insert_Some; auto.
Qed.
Lemma task_stays n r i u i' : (forall t, tasks i !! n = Some t -> answer_keeps t r) -> run_action flags env (ATask n r) i = Ok (u, i') -> stays T i i'.
Proof.
  intros Hr Hrun. assert (Hturn : forall P, placed P i -> turns P i (run_action flags env (ATask n r)) (fun _ => True)).
  { intros P Hp. cbn [run_action]. enough (Hm : turns P i (match tasks i !! n with None => ret tt | Some t => modS (set_tasks (delete n (tasks i))) ;;; (let! t' := run_task flags env t r in start_if t') end) (fun _ => True)) by exact Hm.
    destruct (tasks i !! n) as [t|] eqn:E; [|by apply turns_ret]. pose proof (Forall_lookup_1 _ _ _ _ (proj2 Hp) E) as Ht.
    apply (turns_bind _ _ _ _ (fun _ => True)); [|intros _ i1 El1 Hp1 _].
    - intros [] i1 [= <-]. split_and!; [done..|auto|split; [apply Hp|by apply Forall_delete, Hp]|done].
    - eapply turns_bind; [apply run_task_turns; [done|by rewrite El1|by apply Hr]|]. intros o i2 El2 Hp2 Ho. destruct o as [t'|]; [|by apply turns_ret].
      intros [] i3 [= <-]. split_and!; [done..|auto|split; [apply Hp2|]|done]. cbn. apply Forall_app. split; [apply Hp2|]. repeat constructor. rewrite El2. by apply Ho. }
  destruct (Hturn (fun _ => True)) with (a := u) (i' := i') as ((? & ? & ?) & _); [|done|].
  - split; [done|]. apply Forall_forall. intros t _. by destruct t.
  - split_and!; try done. intros P Hp. by eapply Hturn.
Qed.
Definition stays_put (a : action) : Prop :=
  match a with
  | AUnlink | ARename _ _ => False
  | ATask _ _ => False
  | _ => True
  end.
(** Every action of the file itself, the turns of its goroutines apart. *)
Lemma run_action_keeps a : stays_put a -> keeps T (run_action (M := M) (Q := Q) flags env a).
Proof.
  assert (Hread : forall r, keeps T (start_if (M := M) (Q := Q) (read_next r))) by (intros r; apply start_if_keeps; gives).
  assert (Hresize : forall n r, keeps T (start_if (M := M) (Q := Q) (resize_next n r))) by (intros n r; apply start_if_keeps; gives).
  intros Ha. destruct a; try done; keeps.
Qed.
End sections.
(** ** Unlinking and moving *)

Section moves.
Context {M : Type -> Type} `{BTreeMap M} {Q : Type} `{BufferListHelpers Q}.
Context (flags : Flags) (env : Env).
Abbreviation I := (Inode M Q).
Implicit Types (i : I).

(** The inode of [i0], now at [l]; the place of [i0] may count as deleted with it. *)
Definition moved i0 (l : location) i : Prop :=
  self i = self i0 /\ loc i = l /\
  (forall l' p, DeletedChildren i !! l' = Some p -> DeletedChildren i0 !! l' = Some p \/ l' = loc i0 /\ p = self i0) /\
  forall P, placed P i0 -> P (loc i0) -> P l -> placed P i.
Definition moves {A} i0 (l l' : location) (m : St I A) : Prop := forall i a i', moved i0 l i -> m i = Ok (a, i') -> moved i0 l' i'.

Lemma keeps_moves {A} i0 l (m : St I A) : keeps (fun _ => False) m -> moves i0 l l m.
Proof.
  intros Hk i a i' (Es & El & Ed & Hp) Hm. destruct (Hk i a i' Hm) as (Es' & El' & Ed' & Hp'). split_and!; [congruence..| |by auto].
  intros l' p Hq. destruct (Ed' l' p Hq) as [?|[]]. auto.
Qed.
Lemma placed_move P to i : P to -> placed P i -> placed P (set_loc to i).
Proof.
  intros Hto [Ho Ht]. split; cbn; [intros l Hl; by destruct (Ho l Hl)|]. eapply Forall_impl; [exact Ht|]. intros t. destruct t; cbn; tauto.
Qed.
Lemma moves_bind {A B} i0 l l' l'' (m : St I A) (k : A -> St I B) : moves i0 l l' m -> (forall a, moves i0 l' l'' (k a)) -> moves i0 l l'' (bind m k).
Proof.
  intros Hm Hk i b i' Hi. unfold bind. destruct (m i) as [[a i1]| |] eqn:E; [|done..]. intros E'. eapply Hk; [by eapply Hm|exact E'].
Qed.
Lemma moves_modS i0 l l' (f : I -> I) : (forall i, moved i0 l i -> moved i0 l' (f i)) -> moves i0 l l' (modS f).
Proof. intros Hf i a i' Hi [= _ <-]. auto. Qed.
Lemma moves_getS {B} i0 l l' (k : I -> St I B) : (forall i, moved i0 l i -> moves i0 l l' (k i)) -> moves i0 l l' (bind getS k).
Proof. intros Hk i b i' Hi Hm. by eapply Hk. Qed.
Lemma moved_delete i0 i : moved i0 (loc i0) i -> moved i0 (loc i0) (set_DeletedChildren (<[loc i := self i]> (DeletedChildren i)) i).
Proof.
  intros (Es & El & Ed & Hp). split_and!; [done..| |done]. cbn. intros l p [[<- <-]|[_ ?]]%lookup_insert_Some; [rewrite Es, El; auto|auto].
Qed.
Lemma moved_refl i : moved i (loc i) i.
Proof. split_and!; auto. Qed.

Lemma doUnlink_moves i0 : moves i0 (loc i0) (loc i0) (doUnlink (M := M) (Q := Q) flags env).
Proof.
  unfold doUnlink. apply moves_getS. intros i Hi. apply moves_bind with (loc i0); [|intros _; apply keeps_moves; keeps].
  destruct (_ && _); [apply keeps_moves; keeps|]. destruct (_ || _); [|apply keeps_moves; keeps].
  apply moves_bind with (loc i0); [apply keeps_moves; keeps|intros _]. destruct (bool_decide _); [|apply keeps_moves; keeps].
  apply moves_bind with (loc i0); [apply keeps_moves; keeps|intros _]. apply moves_modS. intros j Hj. by apply moved_delete.
Qed.
Lemma renameInCache_moves i0 to renamed : moves i0 (loc i0) to (renameInCache (M := M) (Q := Q) to renamed).
Proof.
  unfold renameInCache. apply moves_getS. intros i Hi. apply moves_bind with (loc i0).
  { destruct (_ || _).
    - destruct (renamingTo i); [|apply keeps_moves; keeps]. apply moves_modS. intros j Hj. case_bool_decide; [|done]. by apply moved_delete in Hj.
    - apply moves_bind with (loc i0); [|intros _; apply moves_bind with (loc i0); [apply keeps_moves; keeps|intros _]].
      + apply moves_modS. intros j Hj. case_bool_decide; [|done]. by apply moved_delete.
      + apply moves_modS. intros j (Es & El & Ed & Hp). split_and!; [done..|]. intros P Hp0 Hl _. specialize (Hp P Hp0 Hl Hl). split; [|apply Hp].
        cbn. intros l [= <-]. destruct Hi as (_ & -> & _). by rewrite El. }
  intros _. apply moves_bind with (loc i0); [apply keeps_moves; keeps|intros _]. apply moves_bind with (loc i0); [apply keeps_moves; keeps|intros _].
  apply moves_bind with (loc i0); [apply keeps_moves; keeps|intros _]. apply moves_bind with to; [|intros _; apply keeps_moves; keeps].
  apply moves_modS. intros j (? & ? & ? & Hp). split_and!; [done..|]. intros P Hp0 Hl Hto. apply placed_move; auto.
Qed.
End moves.
End Frame.
