(* ===== verification/ListEffect.v ===== *)
(** * What an operation of the buffer list does to each byte

    One relation, [effect], that every operation of the buffer list satisfies,
    for the invariants of a file: after the operation a byte is as it was,
    newly written, clean, acknowledged by the server, or dropped from memory
    after a flush, and the sets of offsets at which each of these can happen
    are parameters.  The disk cache is not in use: no buffer has a copy on
    disk. *)

From S2P Require Import Prelude BTree Parts BufferList BufferListInv BufferListView.
From S2P Require Import BufferListRemove BufferListAdd BufferListRead BufferListState BufferListSpec.

Module ListEffect.
Import BufferList BufferListInv BufferListView BufferListRemove BufferListAdd BufferListRead BufferListState BufferListSpec.

Definition nowhere (x : Z) : Prop := False.
Definition within (lo n x : Z) : Prop := lo <= x < lo + n.

Section effect.
Context {M : Type -> Type} `{HBT : BTreeMap M} `{HBL : !BTreeMapLaws M} {Q : Type} `{HQ : BufferListHelpers Q}.
Context {limit : Z} `{HLaws : !BufferListHelpersLaws Q limit}.
Implicit Types (l : bl M Q) (b : FileBuffer) (x : Z).
Abbreviation Inv := (@Inv M HBT Q HQ limit HLaws).

Definition no_disk l : Prop := forall x b, owner l x = Some b -> b_onDisk b = false.

(** How the byte of buffer [b'] came about. *)
Inductive origin (W A E : Z -> Prop) l l' x b' : Prop :=
| kept b : owner l x = Some b -> b_state b' = b_state b -> newer (l_curDirtyID l) (b_dirtyID b) (b_dirtyID b') ->
    buf_byte (l_ptrs l') b' x = buf_byte (l_ptrs l) b x -> b_zero b' = b_zero b -> origin W A E l l' x b'
| written : W x -> b_state b' = BUF_DIRTY -> l_curDirtyID l < b_dirtyID b' -> origin W A E l l' x b'
| cleaned : b_state b' = BUF_CLEAN -> b_dirtyID b' = 0 -> origin W A E l l' x b'
| acked b : A x -> owner l x = Some b -> b_state b = BUF_DIRTY -> b_state b' <> BUF_DIRTY -> b_state b' <> BUF_FL_CLEARED ->
    b_dirtyID b' = 0 -> origin W A E l l' x b'
| dropped b : E x -> owner l x = Some b -> b_state b = BUF_FLUSHED_FULL -> b_state b' = BUF_FL_CLEARED -> b_dirtyID b' = 0 ->
    origin W A E l l' x b'.

(** [W]: offsets written to; [A]: acknowledged; [E]: evicted; [D]: removed. *)
Record effect (W A E D : Z -> Prop) l l' : Prop := {
  ef_inv : Inv l';
  ef_cur : l_curDirtyID l <= l_curDirtyID l';
  ef_own : forall x b', owner l' x = Some b' -> origin W A E l l' x b';
  ef_disk : no_disk l';
  ef_pending : forall x, pending l' x = pending l x \/ W x \/ A x \/ D x;
}.

Lemma effect_refl W A E D l : Inv l -> no_disk l -> effect W A E D l l.
Proof using Type*.
  intros HI Hd. split; try done; [|by left]. intros x b' E'. by eapply kept; [done|done|left|..].
Qed.

Lemma kept_keepsW W A E l l' x b' : keepsW l l' x -> owner l' x = Some b' -> origin W A E l l' x b'.
Proof using Type*.
  unfold keepsW. intros Hk E'. destruct (owner l x) as [b|] eqn:Eo; [|congruence].
  destruct Hk as (b0 & E0 & Es & _ & Ez & _ & Eb & Hn). assert (b0 = b') as -> by congruence. by eapply kept.
Qed.
Lemma keepsW_disk l l' x b' : no_disk l -> keepsW l l' x -> owner l' x = Some b' -> b_onDisk b' = false.
Proof using Type*.
  unfold keepsW. intros Hd Hk E'. destruct (owner l x) as [b|] eqn:Eo; [|congruence].
  destruct Hk as (b0 & E0 & _ & _ & _ & Hod & _). assert (b0 = b') as -> by congruence. destruct (b_onDisk b') eqn:Ed; [|done].
  rewrite <- (Hd x b Eo). symmetry. by apply Hod.
Qed.

(** Operations described by [keepsW] off a set of new cells. *)
Lemma effect_new W l l' (new : Z -> bool) (cellf : Z -> cell) :
  Inv l' -> l_curDirtyID l <= l_curDirtyID l' -> no_disk l ->
  (forall x, if new x then new_at (l_curDirtyID l) l' x (cellf x) else keepsW l l' x) ->
  (forall x, new x = true -> c_onDisk (cellf x) = false /\
     (c_state (cellf x) = BUF_DIRTY /\ W x \/ c_state (cellf x) = BUF_CLEAN /\ pending l x = None)) ->
  effect W nowhere nowhere nowhere l l'.
Proof using Type*.
  intros HI' Hc Hd Hv Hcell. split; try done.
  - intros x b' E'. specialize (Hv x). specialize (Hcell x). destruct (new x); [|by eapply kept_keepsW].
    destruct Hv as (b0 & E0 & Ec & Hid). assert (b0 = b') as -> by congruence. apply (f_equal c_state) in Ec. cbn in Ec.
    destruct (Hcell eq_refl) as [_ [[Es HW]|[Es _]]]; rewrite Es in *.
    + by apply written; [done|done|apply Hid].
    + apply cleaned; [done|]. pose proof E' as (k & Hk & _)%(owner_lookup l' x b' (inv_shape _ HI')).
      destruct (decide (b_dirtyID b' = 0)) as [|Hne]; [done|]. apply (id_dirty _ _ (inv_ids _ HI') k b' Hk) in Hne. congruence.
  - intros x b' E'. specialize (Hv x). specialize (Hcell x). destruct (new x); [|by eapply keepsW_disk].
    destruct Hv as (b0 & E0 & Ec & _). assert (b0 = b') as -> by congruence. apply (f_equal c_onDisk) in Ec. cbn in Ec.
    destruct (Hcell eq_refl) as [Ed _]. congruence.
  - intros x. specialize (Hv x). specialize (Hcell x). destruct (new x); [|left; by apply pending_keepsW].
    destruct (Hcell eq_refl) as [_ [[_ HW]|[Es Hp]]]; [auto|]. left. by rewrite (pending_new _ _ _ _ Hv), Es, Hp.
Qed.

Lemma Add_dirty_effect l off (data spare : list byte) copyData :
  Inv l -> no_disk l -> 0 <= off -> 0 < zlen data -> off + zlen data <= limit ->
  wp (Add off data spare BUF_DIRTY copyData) (fun _ l' => effect (within off (zlen data)) nowhere nowhere nowhere l l') l.
Proof using Type*.
  intros HI Hd ? ? ?. wp_use (Add_dirty_spec l off data spare BUF_DIRTY copyData HI); try done. intros a l' [[HI' Hv Hc] _].
  apply (effect_new _ l l' (fun x => bool_decide (off <= x < off + zlen data) && writes l BUF_DIRTY x)
    (fun x => mkCell BUF_DIRTY false false false (znth data (x - off)))); try done.
  - intros x. specialize (Hv x). destruct (_ && _); [|done]. by destruct Hv as (v & -> & ?).
  - intros x [Hx%bool_decide_eq_true _]%andb_true_iff. split; [done|by left].
Qed.

Lemma Add_clean_effect l off (data spare : list byte) :
  Inv l -> no_disk l -> 0 <= off -> 0 < zlen data -> off + zlen data <= limit ->
  wp (Add off data spare BUF_CLEAN false) (fun _ l' => effect nowhere nowhere nowhere nowhere l l') l.
Proof using Type*.
  intros HI Hd ? ? ?. wp_use (Add_clean_spec l off data spare false HI); try done. intros a l' [[HI' Hv Hc] _].
  apply (effect_new _ l l' (fun x => bool_decide (off <= x < off + zlen data) && writes l BUF_CLEAN x)
    (fun x => mkCell BUF_CLEAN false false false (znth data (x - off)))); try done.
  - intros x. specialize (Hv x). destruct (_ && _); [|done]. by destruct Hv as (v & -> & ?).
  - intros x [_ Hw]%andb_true_iff. split; [done|right; split; [done|]]. unfold writes, add_filter in Hw.
    destruct (owner l x) as [b|] eqn:Eo; [|by apply pending_none]. rewrite orb_false_r in Hw. apply is_state_true in Hw.
    eapply pending_clean; [done|congruence].
Qed.

Lemma ZeroRange_effect l off n :
  Inv l -> no_disk l -> 0 <= off -> 0 < n -> off + n <= limit ->
  wp (ZeroRange off n) (fun _ l' => effect (within off n) nowhere nowhere nowhere l l') l.
Proof using Type*.
  intros HI Hd ? ? ?. wp_use (ZeroRange_spec l off n HI); try done. intros [[|] a] l'; [|intros (-> & _); by apply effect_refl].
  intros (HI' & _ & Hc & Hv). apply (effect_new _ l l' (fun x => bool_decide (off <= x < off + n)) (fun _ => zero_cell)); try done.
  intros x Hx%bool_decide_eq_true. split; [done|by left].
Qed.

Lemma AddLoading_effect l off n :
  Inv l -> no_disk l -> 0 <= off -> 0 < n -> off + n <= limit ->
  wp (AddLoading off n) (fun _ l' => effect nowhere nowhere nowhere nowhere l l') l.
Proof using Type*.
  intros HI Hd ? ? ?. wp_use (AddLoading_spec l off n HI); try done. intros _ l' [[HI' Hv Hc] _].
  apply (effect_new _ l l' (fun x => bool_decide (off <= x < off + n) && bool_decide (owner l x = None)) (fun _ => loading_cell)); try done.
  intros x [_ Ho%bool_decide_eq_true]%andb_true_iff. split; [done|right; split; [done|by apply pending_none]].
Qed.

Lemma cut_effect g D l a l' :
  no_disk l -> cut g l a l' -> (forall x, g x = true -> D x \/ pending l x = None) -> effect nowhere nowhere nowhere D l l'.
Proof using Type*.
  intros Hd HC Hg. split; try apply HC.
  - intros x b' E'. pose proof (cut_own _ _ _ _ HC x) as Ho. destruct (g x); [congruence|]. eapply kept_keepsW; [|done].
    by apply keeps_keepsW.
  - intros x b' E'. pose proof (cut_own _ _ _ _ HC x) as Ho. destruct (g x); [congruence|].
    eapply keepsW_disk; [done|by apply keeps_keepsW|done].
  - intros x. pose proof (cut_own _ _ _ _ HC x) as Ho. specialize (Hg x). destruct (g x); [|left; by apply pending_keeps].
    destruct (Hg eq_refl) as [?|Hp]; [auto|]. left. by rewrite Hp, pending_none.
Qed.
Lemma RemoveRange_effect l lo n :
  Inv l -> no_disk l -> 0 <= lo -> 0 < n -> lo + n < two64 ->
  wp (RemoveRange lo n None) (fun _ l' => effect nowhere nowhere nowhere (within lo n) l l' /\ forall x, within lo n x -> owner l' x = None) l.
Proof using Type*.
  intros HI Hd ? ? ?. wp_use (RemoveRange_cut l lo n None HI); try done. intros a l' HC.
  assert (Hg : forall x, gone l lo (lo + n) None x = true -> within lo n x).
  { intros x Hx. unfold gone, hit in Hx. unfold within. apply andb_true_iff in Hx as [Hx _]. lia. }
  split; [eapply cut_effect; [done|done|eauto]|]. intros x Hx. pose proof (cut_own _ _ _ _ HC x) as Ho.
  destruct (gone _ _ _ _ x) eqn:Eg; [done|]. unfold gone, hit, within in *. destruct (owner l x) eqn:Eo; [|by eapply keeps_none].
  cbn in Eg. lia.
Qed.

Lemma RemoveLoading_effect l lo n :
  Inv l -> no_disk l -> 0 <= lo -> 0 < n -> lo + n < two64 ->
  wp (RemoveLoading lo n) (fun _ l' => effect nowhere nowhere nowhere nowhere l l') l.
Proof using Type*.
  intros HI Hd ? ? ?. unfold RemoveLoading. apply wp_bind.
  wp_use (RemoveRange_cut l lo n (Some (fun b => negb (b_onDisk b) && b_loading b)) HI); try done. intros a l' HC. wp_steps.
  eapply cut_effect; [done|done|]. intros x Hg. right. unfold gone, hit in Hg. apply andb_true_iff in Hg as [_ Hg].
  destruct (owner l x) as [b|] eqn:E; [|done]. cbn in Hg. apply andb_true_iff in Hg as [Hod Hld]. apply negb_true_iff in Hod.
  eapply pending_clean; [done|]. apply (owner_lookup l x b (inv_shape _ HI)) in E as (k & Hk & _).
  pose proof (inv_place _ HI k b Hk) as [_ Hp]. rewrite Hod, Hld in Hp.
  destruct (b_data b); [naive_solver|]. destruct (b_zero b); [naive_solver|]. congruence.
Qed.

Lemma SplitAt_effect l off :
  Inv l -> no_disk l -> 0 <= off -> off + 1 < two64 ->
  wp (SplitAt off) (fun _ l' => effect nowhere nowhere nowhere nowhere l l') l.
Proof using Type*. intros HI Hd ? ?. wp_use (SplitAt_spec l off HI); try done. intros _ l' HC. by eapply cut_effect. Qed.

(** Bytes whose buffer carries one of the identifiers. *)
Definition carries l (ids : gset Z) x : Prop := exists b, owner l x = Some b /\ in_flight ids b.

(** Every buffer after [SetState] is one from before, with the new state if it carried an identifier. *)
Lemma restated_owner ids st lo hi l l' x b' :
  Inv l -> restated (limit := limit) ids st lo hi l l' -> owner l' x = Some b' ->
  exists b, owner l x = Some b /\ ((exists i, b' = relabel st i b) /\ in_flight ids b \/ b' = b).
Proof using Type*.
  intros HI [HI' Hs Hn _ _] (k & Hk' & Hx)%(owner_lookup l' x b' (inv_shape _ HI')). pose proof (inv_shape _ HI) as HS.
  destruct (bufs l !! k) as [b|] eqn:Hk; [|by rewrite Hn in Hk'].
  exists b. destruct (Hs k b Hk) as [(i & E & Hf)|[E _]]; rewrite E in Hk'; injection Hk' as <-.
  all: split; [by eapply (owner_intro l x k b HS)|]; eauto.
Qed.
Lemma restated_rest ids st lo hi l l' :
  Inv l -> no_disk l -> st <> BUF_DIRTY -> restated (limit := limit) ids st lo hi l l' ->
  no_disk l' /\ (forall x, pending l' x = pending l x \/ carries l ids x) /\ forall x, carries l ids x -> lo <= x < hi -> pending l' x = None.
Proof using Type*.
  intros HI Hd Hst HR. pose proof (restated_pending ids st lo hi l l') as Hpend. split_and!.
  - intros x b' E'. destruct (restated_owner _ _ _ _ _ _ x b' HI HR E') as (b & Eo & [[[i ->] _]| -> ]); exact (Hd x _ Eo).
  - intros x. specialize (Hpend x HI Hst HR). destruct (owner l x) as [b|] eqn:Eo.
    + destruct (decide (b_dirtyID b <> 0 /\ b_dirtyID b ∈ ids)) as [Hf|Hf]; [right; by exists b|]. left. by apply Hpend.
    + left. by rewrite Hpend, pending_none.
  - intros x (b & Eo & Hf) Hx. specialize (Hpend x HI Hst HR). rewrite Eo in Hpend. by apply Hpend.
Qed.

Lemma SetState_effect l off n ids st :
  Inv l -> no_disk l -> 0 <= off -> 0 < n -> off + n < two64 -> st <> BUF_DIRTY -> st <> BUF_FL_CLEARED ->
  wp (SetState off n ids st) (fun _ l' => effect nowhere (carries l ids) nowhere nowhere l l' /\
    forall x, carries l ids x -> within off n x -> pending l' x = None) l.
Proof using Type*.
  intros HI Hd ? ? ? Hst Hst2. wp_use (SetState_spec l off n ids st HI); try done. intros _ l' HR. pose proof (inv_shape _ HI) as HS.
  destruct (restated_rest _ _ _ _ _ _ HI Hd Hst HR) as (Hd' & Hpend & Hclean). pose proof HR as [HI' _ _ Hp Hc].
  split; [|done]. split; try done; [lia| |intros x; destruct (Hpend x); auto].
  intros x b' E'. destruct (restated_owner _ _ _ _ _ _ x b' HI HR E') as (b & Eo & [[[i ->] Hf]| -> ]).
  - pose proof Eo as (k & Hk & _)%(owner_lookup l x b HS). destruct Hf as [Hne Hin].
    eapply acked; [by exists b|done|by apply (id_dirty _ _ (inv_ids _ HI) k b Hk)|done..].
  - eapply kept; [done|done|by left|by rewrite Hp|done].
Qed.

(** When the whole file was stored, there is nothing left to finalize. *)
Lemma SetState_clean_effect l off n ids :
  Inv l -> no_disk l -> 0 <= off -> 0 < n -> off + n < two64 ->
  wp (SetState off n ids BUF_CLEAN) (fun _ l' => effect nowhere nowhere nowhere (carries l ids) l l') l.
Proof using Type*.
  intros HI Hd ? ? ?. wp_use (SetState_spec l off n ids BUF_CLEAN HI); try done. intros _ l' HR.
  destruct (restated_rest ids BUF_CLEAN off (off + n) l l' HI Hd ltac:(done) HR) as (Hd' & Hpend & Hclean). pose proof HR as [HI' _ _ Hp Hc].
  split; try done; [lia| |intros x; destruct (Hpend x); auto].
  intros x b' E'. destruct (restated_owner _ _ _ _ _ _ x b' HI HR E') as (b & Eo & [[[i ->] _]| -> ]).
  - by apply cleaned.
  - eapply kept; [done|done|by left|by rewrite Hp|done].
Qed.

(** Identifiers no buffer carries change nothing, whatever the range. *)
Lemma SetState_idle l off n ids st :
  (forall k b, bufs l !! k = Some b -> ~ in_flight ids b) -> wp (SetState off n ids st) (fun _ l' => l' = l) l.
Proof using HBL.
  intros Hno. unfold SetState. wp_steps.
  assert (Hall : forall k b, (k, b) ∈ bt_ascend (off +u 1) (l_at l) -> ~ in_flight ids b).
  { intros k b [_ Hk]%bt_ascend_elem. rewrite <- bt_map_lookup in Hk. by apply (Hno k). }
  induction (bt_ascend (off +u 1) (l_at l)) as [|[k b] rest IH]; cbn [SetState_loop]; wp_steps; [done|].
  assert (Hb : ~ in_flight ids b) by (apply (Hall k); by left). unfold in_flight in Hb.
  destruct (Z.eqb_spec (b_dirtyID b) 0); cbn [negb andb]; [|rewrite bool_decide_false by tauto]; wp_steps.
  all: destruct (_ <? _); wp_steps; [|done]; apply IH; intros k' b' Hin; apply (Hall k'); by right.
Qed.
(** ** The source of identifiers *)

Lemma for_parts_cur b (f : Z -> St (bl M Q) unit) :
  (forall i, unchanged l_curDirtyID (f i)) -> unchanged l_curDirtyID (for_parts b f).
Proof.
  intros Hf. unfold for_parts. unchanged. match goal with |- unchanged _ (forM_ ?xs _) => induction xs as [|y ys IH] end; cbn; unchanged.
Qed.
Lemma unqueue_cur b : unchanged (l_curDirtyID (M := M) (Q := Q)) (unqueue b).
Proof. unfold unqueue. unchanged. apply for_parts_cur. intros i. unfold unreferenceDirtyPart. unchanged. Qed.
Lemma queue_cur b : unchanged (l_curDirtyID (M := M) (Q := Q)) (queue b).
Proof.
  unfold queue, queueClean, put_buf, at_set. unchanged. apply for_parts_cur. intros i. unfold referenceDirtyPart. unchanged.
  by case_match.
Qed.
#[local] Hint Resolve unqueue_cur queue_cur : go.
Lemma release_cur p : unchanged (l_curDirtyID (M := M) (Q := Q)) (release p).
Proof. unfold release, get_ptr, set_ptr. unchanged. Qed.
#[local] Hint Resolve release_cur : go.
Lemma ascendChange_cur {B} start (f : B -> Z -> FileBuffer -> St (bl M Q) (B * (bool * bool))) acc :
  (forall a k b, unchanged l_curDirtyID (f a k b)) -> unchanged l_curDirtyID (ascendChange start f acc).
Proof.
  intros Hf.
  assert (Hloop : forall fuel acc items lst, unchanged l_curDirtyID (ascendChange_loop fuel f acc lst items)).
  { induction fuel as [|fuel IH]; intros ac items lst; cbn [ascendChange_loop]; unchanged. }
  unfold ascendChange. unchanged.
Qed.
Lemma SetFlushedClean_cur : unchanged (l_curDirtyID (M := M) (Q := Q)) SetFlushedClean.
Proof. apply ascendChange_cur. intros _ k b. unfold delete_, at_delete. unchanged. Qed.
Lemma evictClean_cur k locked toDisk : unchanged (l_curDirtyID (M := M) (Q := Q)) (evictClean k locked toDisk).
Proof. unfold evictClean, EvictFromMemory, put_buf, at_set, at_delete. unchanged. Qed.
(** ** Finalizing an upload, and evicting *)

Lemma SetFlushedClean_effect l :
  Inv l -> no_disk l ->
  wp SetFlushedClean (fun _ l' => effect nowhere nowhere nowhere nowhere l l' /\
    forall x b', owner l' x = Some b' -> b_state b' = BUF_CLEAN \/ b_state b' = BUF_DIRTY) l.
Proof using Type*.
  intros HI Hd. wp_use (wp_unchanged l_curDirtyID); [apply SetFlushedClean_cur|by apply SetFlushedClean_spec|].
  intros _ l' [(HI' & Hs & Hn & Hm) Hc]. pose proof (inv_shape _ HI) as HS. pose proof (inv_shape _ HI') as HS'.
  assert (Hback : forall x b', owner l' x = Some b' -> exists b, owner l x = Some b /\
    (b' = b /\ (b_state b = BUF_CLEAN \/ b_state b = BUF_DIRTY) \/ exists i, b' = relabel BUF_CLEAN i b)).
  { intros x b' (k & Hk' & Hx)%(owner_lookup l' x b' HS'). destruct (bufs l !! k) as [b|] eqn:Hk; [|by rewrite Hn in Hk'].
    specialize (Hs k b Hk). unfold finalized in Hs. exists b.
    destruct (b_state b) eqn:Es; [| | | |congruence]; destruct Hs as [i Hi]; rewrite Hi in Hk'; injection Hk' as <-;
      (split; [by eapply (owner_intro l x k b HS)|]); eauto. }
  split; [split; try done; [lia| | |]|].
  - intros x b' E'. destruct (Hback x b' E') as (b & Eo & [[-> _]|[i ->]]).
    + eapply kept; [done|done|by left| |done]. by apply buf_byte_mem.
    + by apply cleaned.
  - intros x b' E'. destruct (Hback x b' E') as (b & Eo & [[-> _]|[i ->]]); exact (Hd x _ Eo).
  - intros x. left. by eapply finalized_pending.
  - intros x b' E'. destruct (Hback x b' E') as (b & Eo & [[-> ?]|[i ->]]); auto.
Qed.

(** The bytes of the buffer that ends at [k]. *)
Definition buffer_at l (k x : Z) : Prop := exists b, bufs l !! k = Some b /\ b_offset b <= x < k.

Lemma evictClean_bytes l k :
  Inv l -> no_disk l ->
  wp (evictClean k false false) (fun _ l' => l' = l \/ exists b, bufs l !! k = Some b /\ cleanish (b_state b) = true /\
    forall x, evicted l k b l' x) l.
Proof using Type*.
  intros HI Hd. unfold evictClean, Get. wp_steps. rewrite <- bt_map_lookup. fold (bufs l).
  destruct (bufs l !! k) as [b|] eqn:Hk; wp_steps; [|by left].
  destruct (cleanish (b_state b)) eqn:Hcl; cbn [andb]; wp_steps; [|by left].
  case_bool_decide as Hptr; cbn [andb negb]; wp_steps; [|by left]. change (tryEvictToDisk false b) with b.
  assert (Hs : exists s, b_data b = Some s).
  { destruct (b_data b) eqn:E; [eauto|]. exfalso. apply Hptr. eapply nodata_noptr; [|done]. by eapply (hp_data _ _ _ (inv_heap _ HI)). }
  destruct Hs as [s Hs]. wp_use (put_buf_spec l k b b HI Hk); try done; [by eapply inv_place|].
  intros _ l1 (HI1 & Eb & Eh & _). assert (Hk1 : bufs l1 !! k = Some b) by (by rewrite Eb, lookup_insert_eq).
  apply wp_bind. wp_use (EvictFromMemory_post l1 k b s HI1 Hk1); [done|done|].
  intros [a d] l2 (HI2 & _ & Hev & _). wp_steps. right. exists b. split_and!; try done. intros x. specialize (Hev x).
  unfold evicted in *. case_bool_decide as Hx; [done|].
  pose proof (update_owner l l1 k b b x (inv_shape _ HI) (inv_shape _ HI1) Hk Eb eq_refl) as Ho.
  rewrite bool_decide_false in Ho by done. by rewrite Ho, Eh in Hev.
Qed.

Lemma evict_effect l k :
  Inv l -> no_disk l -> wp (evictClean k false false) (fun _ l' => effect nowhere nowhere (buffer_at l k) nowhere l l') l.
Proof using Type*.
  intros HI Hd. pose proof (wp_conj _ _ _ _ (evictClean_spec l k false false HI) (evictClean_bytes l k HI Hd)) as Hw.
  wp_use (wp_unchanged l_curDirtyID); [apply evictClean_cur|exact Hw|].
  intros a l' [[(HI' & _ & Hsp & _) Hev] Hc]. destruct Hev as [->|(b & Hk & Hcl & Hev)]; [by apply effect_refl|].
  pose proof (inv_shape _ HI) as HS.
  assert (Hdb : b_onDisk b = false).
  { pose proof (sh_ok _ HS k b Hk) as (? & ? & ? & ?). apply (Hd (b_offset b)). eapply (owner_intro l _ k b HS Hk). lia. }
  split; try done; [lia| | |intros x; left; by apply spares_dirty_pending].
  - intros x b' E'. specialize (Hev x). unfold evicted in Hev. rewrite Hdb in Hev. case_bool_decide as Hx.
    + destruct (is_state b BUF_CLEAN) eqn:Ecl; [congruence|]. destruct Hev as (b0 & E0 & Es & _).
      assert (b0 = b') as -> by congruence. eapply dropped; [by exists b|by eapply (owner_intro l x k b HS)| |done|].
      * apply is_state_false in Ecl. destruct (b_state b); done.
      * apply (owner_lookup l' x b' (inv_shape _ HI')) in E' as (k' & Hk' & _).
        destruct (decide (b_dirtyID b' = 0)) as [|Hne]; [done|]. apply (id_dirty _ _ (inv_ids _ HI') k' b' Hk') in Hne. congruence.
    + destruct (owner l x) as [b0|] eqn:Eo; [|congruence]. destruct Hev as (b0' & E0 & Es & _ & Ez & Eb & Eid & _).
      assert (b0' = b') as -> by congruence. eapply kept; [done|done|by left|done|done].
  - intros x b' E'. specialize (Hev x). unfold evicted in Hev. rewrite Hdb in Hev. case_bool_decide as Hx.
    + destruct (is_state b BUF_CLEAN) eqn:Ecl; [congruence|]. destruct Hev as (b0 & E0 & Es & Ed).
      assert (b0 = b') as -> by congruence. apply (owner_lookup l' x b' (inv_shape _ HI')) in E' as (k' & Hk' & _).
      pose proof (inv_place _ HI' k' b' Hk') as [_ Hp]. rewrite Ed, Es in Hp. destruct (b_zero b'), (b_onDisk b'); naive_solver.
    + destruct (owner l x) as [b0|] eqn:Eo; [|congruence]. destruct Hev as (b0' & E0 & _ & Eod & _).
      assert (b0' = b') as -> by congruence. rewrite Eod. by apply (Hd x).
Qed.
(** ** Scanning the buffers of a range *)

(** A scan that stops at [hi] and keeps a flag: the flag tells whether a byte of
    the range is in a buffer that satisfies [p]. *)
Lemma scan_exists {A} l (f : A -> Z * FileBuffer -> A * bool) (flag : A -> bool) (p : FileBuffer -> bool) c hi acc :
  Inv l -> 0 <= c < hi ->
  (forall a k b, if hi <=? b_offset b then flag (f a (k, b)).1 = flag a /\ (f a (k, b)).2 = false
     else flag (f a (k, b)).1 = flag a || p b /\ ((f a (k, b)).2 = true \/ flag (f a (k, b)).1 = true)) ->
  flag (iter_until f acc (bt_ascend (c + 1) (l_at l))) = true <->
    flag acc = true \/ exists x b, c <= x < hi /\ owner l x = Some b /\ p b = true.
Proof using Type*.
  intros HI Hc Hf. pose proof (inv_shape _ HI) as HS.
  remember (bt_ascend (c + 1) (l_at l)) as items eqn:Eit. symmetry in Eit. revert c acc Hc Eit.
  induction items as [|[k b] rest IH]; intros c acc Hc Eit; cbn [iter_until].
  { split; [by left|]. intros [?|(x & b & Hx & E & _)]; [done|]. rewrite (walk_nil l c x HS Eit) in E by lia. done. }
  destruct (walk_cons l c k b rest HS Eit) as (Hk & Hck & Hr & Er & Hgap & Hown). destruct Hr as (? & ? & ? & ?).
  pose proof (Hf acc k b) as Hs. destruct (f acc (k, b)) as [a' cont]; cbn [fst snd] in Hs.
  destruct (Z.leb_spec hi (b_offset b)) as [Hhi|Hhi].
  { destruct Hs as [Ha ->]. rewrite Ha. split; [by left|]. intros [?|(x & b' & Hx & E & _)]; [done|]. rewrite Hgap in E by lia. done. }
  destruct Hs as [Ha Hcont].
  assert (Hsplit : (exists x b', c <= x < hi /\ owner l x = Some b' /\ p b' = true) <->
    p b = true \/ k < hi /\ exists x b', k <= x < hi /\ owner l x = Some b' /\ p b' = true).
  { split.
    - intros (x & b' & Hx & E & Hp). destruct (decide (x < b_offset b)); [rewrite Hgap in E by lia; done|].
      destruct (decide (x < k)); [rewrite Hown in E by lia; left; congruence|].
      right. split; [lia|]. exists x, b'. split_and!; try done; lia.
    - intros [Hp|(? & x & b' & Hx & E & Hp)]; [|exists x, b'; split_and!; try done; lia].
      exists (Z.max c (b_offset b)), b. split_and!; try done; [lia..|]. apply Hown. lia. }
  destruct cont.
  - destruct (decide (k < hi)).
    + rewrite (IH k a') by (congruence || lia). rewrite Ha, Hsplit, orb_true_iff. tauto.
    + destruct rest as [|[k2 b2] rest']; cbn [iter_until]; [rewrite Ha, Hsplit, orb_true_iff; intuition lia|].
      symmetry in Er. destruct (walk_cons l k k2 b2 rest' HS Er) as (Hk2 & _ & _).
      pose proof (sh_disj _ HS k k2 b b2 Hk Hk2). pose proof (Hf a' k2 b2) as Hs2. destruct (f a' (k2, b2)) as [a2 c2]; cbn [fst snd] in Hs2.
      rewrite (proj2 (Z.leb_le hi (b_offset b2))) in Hs2 by (pose proof (bt_ascend_cons _ _ _ _ _ Er) as (? & _); lia).
      destruct Hs2 as [Ha2 ->]. rewrite Ha2, Ha, Hsplit, orb_true_iff. intuition lia.
  - destruct Hcont as [?|Hfl]; [done|]. split; [|done]. rewrite Ha, orb_true_iff in Hfl. intros _. rewrite Hsplit. tauto.
Qed.

Definition is_flushed b : bool := negb (is_state b BUF_CLEAN) && negb (is_state b BUF_DIRTY).

Lemma AnyFlushed_iff l off n :
  Inv l -> 0 <= off -> 0 < n -> off + n < two64 ->
  AnyFlushed off n l = true <-> exists x b, off <= x < off + n /\ owner l x = Some b /\ is_flushed b = true.
Proof using Type*.
  intros HI ? ? ?. unfold AnyFlushed. rewrite !(u64_small (off + 1)) by lia.
  rewrite (scan_exists l _ (fun a => a) is_flushed off (off + n) false HI); [naive_solver|lia|].
  intros a k b. rewrite u64_small by lia. destruct (Z.leb_spec (off + n) (b_offset b)); [done|].
  unfold is_flushed, is_state. destruct (b_state b), a; cbn; auto.
Qed.
(** Operations that change no byte that is not clean. *)
Abbreviation quiet := (effect nowhere nowhere nowhere nowhere).

Lemma quiet_origin l l' x b' : origin nowhere nowhere nowhere l l' x b' ->
  (exists b, owner l x = Some b /\ b_state b' = b_state b /\ newer (l_curDirtyID l) (b_dirtyID b) (b_dirtyID b') /\
     buf_byte (l_ptrs l') b' x = buf_byte (l_ptrs l) b x /\ b_zero b' = b_zero b) \/ b_state b' = BUF_CLEAN /\ b_dirtyID b' = 0.
Proof using Type*. intros [b ? ? ? ? ?|[]|? ?|? []|? []]; [left; eauto 10|by right]. Qed.

Lemma quiet_trans l1 l2 l3 : quiet l1 l2 -> quiet l2 l3 -> quiet l1 l3.
Proof using Type*.
  intros H1 H2. pose proof (ef_cur _ _ _ _ _ _ H1). split; try apply H2.
  - pose proof (ef_cur _ _ _ _ _ _ H2). lia.
  - intros x b' Eo. destruct (quiet_origin _ _ _ _ (ef_own _ _ _ _ _ _ H2 x b' Eo)) as [(b2 & E2 & Es & Hn & Eb & Ez)|[? ?]]; [|by apply cleaned].
    destruct (quiet_origin _ _ _ _ (ef_own _ _ _ _ _ _ H1 x b2 E2)) as [(b1 & E1 & Es1 & Hn1 & Eb1 & Ez1)|[Es1 Ei1]].
    + eapply kept; [done|congruence| |congruence|congruence]. unfold newer in *. lia.
    + apply cleaned; [congruence|]. unfold newer in Hn. lia.
  - intros x. left. destruct (ef_pending _ _ _ _ _ _ H2 x) as [->|[[]|[[]|[]]]]. by destruct (ef_pending _ _ _ _ _ _ H1 x) as [->|[[]|[[]|[]]]].
Qed.
(** ** Buffers that do not cross an offset *)

Definition boundary l (p : Z) : Prop := forall k b, bufs l !! k = Some b -> ~ (b_offset b < p < k).

Lemma SplitAt_boundary l off p :
  Inv l -> 0 <= off -> off + 1 < two64 -> boundary l p ->
  wp (SplitAt off) (fun _ l' => boundary l' off /\ boundary l' p) l.
Proof using Type*.
  intros HI Hoff Hlim Hp. unfold SplitAt. wp_steps. rewrite u64_small by lia. pose proof (inv_shape _ HI) as HS.
  assert (Hno : forall items, bt_ascend (off + 1) (l_at l) = items -> (forall b, hd_buf items = Some b -> off <= b_offset b) -> boundary l off).
  { intros items Eit Hhd k b Hk Hx. destruct items as [|[k0 b0] rest].
    - pose proof (walk_nil l off off HS Eit ltac:(lia)) as E. rewrite (owner_intro l off k b HS Hk) in E by lia. done.
    - destruct (walk_cons l off k0 b0 rest HS Eit) as (Hk0 & ? & _ & _ & Hgap & _). specialize (Hhd b0 eq_refl).
      assert (k <> k0) by (intros ->; assert (b = b0) as -> by congruence; lia).
      pose proof (sh_disj _ HS k k0 b b0 Hk Hk0). pose proof (sh_disj _ HS k0 k b0 b Hk0 Hk).
      destruct (decide (off < b_offset b0)); [|assert (b_offset b0 = off) by lia; lia].
      assert (owner l off = None) by (apply Hgap; lia). rewrite (owner_intro l off k b HS Hk) in * by lia. done. }
  destruct (bt_ascend (off + 1) (l_at l)) as [|[k b] rest] eqn:E; cbn [hd_buf head fmap option_fmap option_map snd]; wp_steps.
  { split; [|done]. apply (Hno [] eq_refl). by intros b. }
  destruct (walk_cons l off k b rest HS E) as (Hk & Hck & _). destruct (Z.ltb_spec (b_offset b) off).
  2: { wp_steps. split; [|done]. apply (Hno _ eq_refl). cbn. by intros b' [= ->]. }
  wp_steps. wp_use (split_cut l k b off HI Hk); [lia|]. intros [lft rgt] l' (_ & Eb & El & Er & _). wp_steps.
  assert (Hall : forall q k' b', bufs l' !! k' = Some b' -> b_offset b' < q < k' -> q <> off ->
    exists k0 b0, bufs l !! k0 = Some b0 /\ b_offset b0 < q < k0).
  { intros q k' b' Hb' Hq Hne. rewrite Eb in Hb'. apply lookup_insert_Some in Hb' as [[<- <-]|[_ Hb']]; [exists k, b; split; [done|lia]|].
    apply lookup_insert_Some in Hb' as [[<- <-]|[_ Hb']]; [exists k, b; split; [done|lia]|]. eauto. }
  split.
  - intros k' b' Hb' Hq. rewrite Eb in Hb'. apply lookup_insert_Some in Hb' as [[<- <-]|[_ Hb']]; [lia|].
    apply lookup_insert_Some in Hb' as [[<- <-]|[? Hb']]; [lia|].
    assert (k <> k') by congruence. pose proof (sh_disj _ HS k k' b b' Hk Hb'). pose proof (sh_disj _ HS k' k b' b Hb' Hk). lia.
  - intros k' b' Hb' Hq. destruct (decide (p = off)) as [->|Hne].
    + rewrite Eb in Hb'. apply lookup_insert_Some in Hb' as [[<- <-]|[_ Hb']]; [lia|].
      apply lookup_insert_Some in Hb' as [[<- <-]|[? Hb']]; [lia|]. by apply (Hp k' b' Hb').
    + destruct (Hall p k' b' Hb' Hq Hne) as (k0 & b0 & Hk0 & Hx). by apply (Hp k0 b0 Hk0).
Qed.

(** The whole buffer of a byte between two boundaries lies between them. *)
Lemma boundary_inside l lo hi k b x :
  Inv l -> boundary l lo -> boundary l hi -> bufs l !! k = Some b -> b_offset b <= x < k -> lo <= x < hi -> lo <= b_offset b /\ k <= hi.
Proof using Type*. intros HI Hlo Hhi Hk Hx Hr. specialize (Hlo k b Hk). specialize (Hhi k b Hk). lia. Qed.
End effect.
End ListEffect.
