(* ===== verification/FileSpec.v ===== *)
(** * What writing, resizing and reading do to a file

    The functional behaviour of the operations of [FileIO], in terms of what a
    read of each byte gives ([status_at]): its value, a hole to be fetched from
    the server, a byte being loaded, or a byte dropped from memory. *)

From stdpp Require Import strings.
From S2P Require Import Prelude BTree Parts BufferList BufferListInv BufferListView.
From S2P Require Import BufferListRemove BufferListAdd BufferListRead BufferListState BufferListSpec.
From S2P Require Import Locks Errors ReadAhead Attrs Inode FileIO ListEffect.

Module FileSpec.
Import Errors BufferList BufferListInv BufferListView BufferListRemove BufferListAdd BufferListRead BufferListState BufferListSpec.
Import Inode FileIO ListEffect.
Section spec.
Context {M : Type -> Type} `{HBT : BTreeMap M} `{HBL : !BTreeMapLaws M} {Q : Type} `{HQ : BufferListHelpers Q}.
Context {limit : Z} `{HLaws : !BufferListHelpersLaws Q limit}.
Context (flags : Flags) (env : Env).
Abbreviation I := (Inode M Q).
Abbreviation Inv := (@Inv M HBT Q HQ limit HLaws).
Implicit Types (l : bl M Q) (i : I) (x : Z).

(** What byte [x] of the file reads as. *)
Definition reads_as i x : status := status_at (buffers i) x.

Lemma status_keepsW l l' x : keepsW l l' x -> status_at l' x = status_at l x.
Proof using Type*.
  unfold keepsW, status_at. destruct (owner l x) as [b|]; [|by intros ->].
  by intros (b' & -> & _ & -> & _ & _ & -> & _).
Qed.
Lemma status_new n l x st od z v : new_at n l x (mkCell st false od z (Some v)) -> status_at l x = Byte v.
Proof using Type*. intros (b & E & Ec & _). unfold status_at. rewrite E. by injection Ec as _ -> _ _ ->. Qed.

(** The bytes from the old end of the file read as zeroes when it is extended. *)
Lemma extend_zeroes l off n :
  Inv l -> 0 <= off -> 0 < n -> off + n <= limit ->
  wp (ZeroRange off n) (fun '(_, a) l' => Inv l' /\ a = held (l_ptrs l') - held (l_ptrs l) /\
    forall x, status_at l' x = if bool_decide (off <= x < off + n) then Byte 0 else status_at l x) l.
Proof using Type*.
  intros HI ? ? ?. wp_use (ZeroRange_spec l off n HI); try done. intros [[|] a] l'.
  - intros (HI' & Ha & _ & Hv). split_and!; [done..|]. intros x. specialize (Hv x). case_bool_decide.
    + by eapply status_new.
    + by apply status_keepsW.
  - intros (-> & -> & Hz). split_and!; [done|lia|]. intros x. case_bool_decide as Hx; [|done].
    destruct (Hz x Hx) as (b & E & Ez). unfold status_at, buf_byte. rewrite E, Ez.
    apply (owner_lookup l x b (inv_shape _ HI)) in E as (k & Hk & _). pose proof (inv_place _ HI k b Hk) as [_ Hp].
    rewrite Ez in Hp. destruct (b_data b), (b_loading b); naive_solver.
Qed.

Lemma write_bytes l off (data spare : list byte) copyData :
  Inv l -> 0 <= off -> 0 < zlen data -> off + zlen data <= limit ->
  wp (Add off data spare BUF_DIRTY copyData) (fun a l' => Inv l' /\ a = held (l_ptrs l') - held (l_ptrs l) /\
    (forall x, status_at l' x = match znth data (x - off) with Some v => Byte v | None => status_at l x end) /\
    forall x v, znth data (x - off) = Some v -> pending l' x = Some v) l.
Proof using Type*.
  intros HI ? ? ?. wp_use (Add_dirty_spec l off data spare BUF_DIRTY copyData HI); try done. intros a l' [[HI' Hv _] Ha].
  assert (Hw : forall x, writes l BUF_DIRTY x = true) by (intros x; unfold writes, add_filter; destruct (owner l x); [by rewrite orb_true_r|done]).
  split_and!; [done..| |]; intros x; specialize (Hv x); rewrite Hw, andb_true_r in Hv.
  2: { intros v Hd. rewrite bool_decide_true in Hv by (apply znth_bound in Hd; lia). destruct Hv as (v' & Hv' & Hn).
       rewrite Hd in Hv'. injection Hv' as <-. by apply pending_new in Hn. }
  case_bool_decide as Hx.
  - destruct Hv as (v & -> & Hn). by eapply status_new.
  - destruct (znth data (x - off)) eqn:E; [apply znth_bound in E; lia|]. by apply status_keepsW.
Qed.

(** ** Resizing *)

(** What was charged to the memory pool is what the buffers came to hold. *)
Definition charged i i' : Prop := poolUse i' - poolUse i = held (l_ptrs (buffers i')) - held (l_ptrs (buffers i)).
(** The state [ResizeUnlocked] leaves when it need not wait. *)
Definition resized i (newSize : Z) i' : Prop :=
  Inv (buffers i') /\ Size i' = newSize /\ pauseWriters i' = pauseWriters i /\ CacheState i' = CacheState i /\ charged i i' /\
  forall x, reads_as i' x =
    if bool_decide (newSize <= x < Size i) then Hole
    else if bool_decide (Size i <= x < newSize) then Byte 0
    else reads_as i x.

Lemma Resize_loop_spec newSize i :
  Inv (buffers i) -> 0 <= newSize < Size i -> Size i <= limit ->
  wp (Resize_loop newSize) (fun r i' =>
    if IsRangeLocked newSize (Size i - newSize) true i || AnyFlushed newSize (Size i - newSize) (buffers i)
    then r = ResizeSync /\ i' = set_pauseWriters (pauseWriters i + 1) i
    else r = ResizeDone /\ resized i newSize i') i.
Proof using Type*.
  intros HI Hn Hs. pose proof limit_range. unfold Resize_loop. wp_steps. u64s. destruct (_ || _); wp_steps; [done|]. apply wp_on_buffers.
  wp_use (RemoveRange_cut (buffers i) newSize (Size i - newSize) None HI); [lia..|].
  intros a l' HC. unfold Use. wp_steps. split; [done|]. unfold resized. cbn. split_and!; try done; [apply HC| |].
  { unfold charged. cbn. rewrite (cut_held _ _ _ _ HC). lia. }
  intros x. unfold reads_as. cbn. rewrite (bool_decide_false (Size i <= x < newSize)) by lia.
  pose proof (cut_own _ _ _ _ HC x) as Ho. unfold gone, hit in Ho. cbn in Ho. case_bool_decide as Hx.
  - unfold status_at. replace (owner l' x) with (@None FileBuffer); [done|]. destruct (owner (buffers i) x) eqn:Eo.
    + rewrite (proj2 (Z.leb_le newSize x)), (proj2 (Z.ltb_lt x _)) in Ho by lia. done.
    + rewrite andb_false_r in Ho. symmetry. by eapply keeps_none.
  - apply status_keepsW, keeps_keepsW. destruct (Z.leb_spec newSize x), (Z.ltb_spec x (newSize + (Size i - newSize))); done || lia.
Qed.
Lemma ResizeUnlocked_spec newSize i :
  Inv (buffers i) -> 0 <= Size i <= limit -> 0 <= newSize <= limit -> pauseWriters i <= 0 ->
  wp (ResizeUnlocked newSize) (fun r i' =>
    if (newSize <? Size i) && (IsRangeLocked newSize (Size i - newSize) true i || AnyFlushed newSize (Size i - newSize) (buffers i))
    then r = ResizeSync /\ i' = set_pauseWriters (pauseWriters i + 1) i
    else r = ResizeDone /\ resized i newSize i') i.
Proof using Type*.
  intros HI Hs Hn Hp. pose proof limit_range. unfold ResizeUnlocked. wp_steps. rewrite (proj2 (Z.ltb_ge 0 _)) by done.
  destruct (Z.ltb_spec newSize (Size i)) as [Hlt|Hge]; cbn [andb]; [by apply Resize_loop_spec; [|lia..]|].
  destruct (Z.ltb_spec (Size i) newSize); wp_steps.
  - u64s. apply wp_on_buffers. wp_use (extend_zeroes (buffers i) (Size i) (newSize - Size i) HI); [lia..|].
    intros [? a] l' (HI' & Ha & Hv). unfold Use. wp_steps. split; [done|]. unfold resized. cbn.
    split_and!; try done; [unfold charged; cbn; lia|].
    intros x. unfold reads_as. cbn. rewrite Hv, (bool_decide_false (newSize <= x < Size i)) by lia.
    by replace (Size i + (newSize - Size i)) with newSize by lia.
  - unfold Use. wp_steps. split; [done|]. unfold resized. cbn. split_and!; try done; [unfold charged; cbn; lia|]. intros x. by rewrite !bool_decide_false by lia.
Qed.
(** Byte [x] is part of an upload: being sent, or stored in a part. *)
Definition being_flushed i x : Prop :=
  (exists r, r ∈ readRanges i /\ Locks.Flushing r = true /\ Locks.Offset r <= x < Locks.Offset r + Locks.Size r) \/
  (exists b, owner (buffers i) x = Some b /\ is_flushed b = true).
(** The locks held on a file are ranges of it; only the lock of a whole empty file is empty. *)
Definition locks_ok i : Prop :=
  forall r, r ∈ readRanges i -> 0 <= Locks.Offset r /\ (0 < Locks.Size r \/ Locks.Offset r = 0 /\ Locks.Size r = 0) /\
    Locks.Offset r + Locks.Size r < two64.

Lemma IsRangeLocked_iff i off n flushing :
  locks_ok i -> 0 <= off -> 0 < n -> off + n < two64 ->
  IsRangeLocked off n flushing i = true <-> exists r x, r ∈ readRanges i /\ off <= x < off + n /\
    Locks.Offset r <= x < Locks.Offset r + Locks.Size r /\ (flushing = true -> Locks.Flushing r = true).
Proof using Type*.
  intros Hl ? ? ?. unfold IsRangeLocked, Locks.IsRangeLocked. rewrite existsb_exists. rewrite u64_small by lia. split.
  - intros (r & Hin%list_elem_of_In & Hb). pose proof (Hl r Hin). rewrite u64_small in Hb by lia. exists r, (Z.max off (Locks.Offset r)).
    apply andb_true_iff in Hb as [Hb Hf]. split_and!; try done; try lia. intros ->. done.
  - intros (r & x & Hin & Hx & Hr & Hf). pose proof (Hl r Hin). exists r. split; [by apply list_elem_of_In|]. rewrite u64_small by lia.
    rewrite (proj2 (Z.ltb_lt (Locks.Offset r) _)), (proj2 (Z.ltb_lt off _)) by lia. destruct flushing; cbn; [by apply Hf|done].
Qed.

(** C8: Resizing.  Unless writers are paused, [ResizeUnlocked] never fails: it
    waits for the flusher exactly when a byte to be cut off is part of an
    upload, changing nothing but the pause counter; otherwise it sets the size,
    and of the contents cuts off exactly the bytes past the new end, or adds
    zeroes from the old end on, and keeps every other byte as it was. *)
Theorem ResizeUnlocked_correct newSize i :
  Inv (buffers i) -> locks_ok i -> 0 <= Size i <= limit -> 0 <= newSize <= limit -> pauseWriters i <= 0 ->
  exists r i', ResizeUnlocked newSize i = Ok (r, i') /\
    (r = ResizeSync <-> exists x, newSize <= x < Size i /\ being_flushed i x) /\
    match r with
    | ResizeSync => i' = set_pauseWriters (pauseWriters i + 1) i
    | ResizeDone => resized i newSize i'
    | ResizeBlocked => False
    end.
Proof using HBL.
  intros HI Hl Hs Hn Hp. pose proof limit_range. apply wp_run. wp_use ResizeUnlocked_spec; [done..|]. intros r i'.
  assert (Hiff : (newSize <? Size i) && (IsRangeLocked newSize (Size i - newSize) true i || AnyFlushed newSize (Size i - newSize) (buffers i)) = true
    <-> exists x, newSize <= x < Size i /\ being_flushed i x).
  { destruct (Z.ltb_spec newSize (Size i)) as [Hlt|]; cbn [andb]; [|split; [done|intros (x & ? & _); lia]].
    rewrite orb_true_iff, IsRangeLocked_iff, AnyFlushed_iff by (done || lia). replace (newSize + (Size i - newSize)) with (Size i) by lia.
    unfold being_flushed. split.
    - intros [(q & x & ? & ? & ? & Hf)|(x & b & ? & ? & ?)]; exists x; (split; [done|]); [left|right]; eauto.
    - intros (x & Hx & [(q & ? & ? & ?)|(b & ? & ?)]); [left; exists q, x|right; exists x, b]; done. }
  rewrite <- Hiff. destruct (_ && _); intros [-> Hi']; (split; [|done]); done.
Qed.

(** ** Writing *)

(** The contents after [data] was written at [off]; the data is pending. *)
Definition overwritten (off : Z) (data : list byte) i i' : Prop :=
  Size i' = Z.max (Size i) (off + zlen data) /\
  (forall x, reads_as i' x = match znth data (x - off) with
                             | Some v => Byte v
                             | None => if bool_decide (Size i <= x < off) then Byte 0 else reads_as i x
                             end) /\
  forall x v, znth data (x - off) = Some v -> pending (buffers i') x = Some v.

(** The insertion, after the file was extended if necessary. *)
Lemma write_into off (data spare : list byte) copyData i i1 :
  Inv (buffers i1) -> 0 <= off -> 0 < zlen data -> off + zlen data <= limit ->
  Size i1 = Z.max (Size i) (off + zlen data) -> CacheState i1 = CacheState i -> charged i i1 ->
  (forall x, reads_as i1 x = if bool_decide (Size i <= x < off + zlen data) then Byte 0 else reads_as i x) ->
  wp (on_buffers (Add off data spare BUF_DIRTY copyData)) (fun a i' => Inv (buffers i') /\ CacheState i' = CacheState i /\
    charged i (set_poolUse (poolUse i' + a) i') /\ overwritten off data i i') i1.
Proof using Type*.
  intros HI1 Hoff Hd Hlim Es Ec Hch Hv. apply wp_on_buffers. wp_use write_bytes; [done..|]. intros a l' (HI' & Ha & Hv' & Hpend).
  unfold charged, overwritten in *. cbn. split_and!; try done; [lia|]. intros x. unfold reads_as at 1. cbn. rewrite Hv'.
  destruct (znth data (x - off)) eqn:E; [done|]. fold (reads_as i1 x). rewrite Hv.
  destruct (decide (off <= x < off + zlen data)) as [Hx|Hx].
  - destruct (znth_Some data (x - off)) as [v Ev]; [lia|]. congruence.
  - destruct (decide (Size i <= x < off)); [by rewrite !bool_decide_true by lia|by rewrite !bool_decide_false by lia].
Qed.

Lemma WriteFile_body_spec off (data spare : list byte) copyData i :
  Inv (buffers i) -> 0 <= Size i -> 0 <= off -> 0 < zlen data -> off + zlen data <= limit -> pauseWriters i <= 0 ->
  wp (WriteFile_body flags off data spare copyData) (fun done i' => done = true /\ Inv (buffers i') /\ overwritten off data i i' /\
    lastWriteEnd i' = off + zlen data /\
    CacheState i' = (if bool_decide (CacheState i = ST_CACHED) then ST_MODIFIED else CacheState i) /\
    charged i (set_poolUse (poolUse i' + if UseEnomem flags then zlen data else 0) i')) i.
Proof using Type*.
  intros HI Hs Hoff Hd Hlim Hp. pose proof limit_range. unfold WriteFile_body. wp_steps.
  rewrite (proj2 (Z.ltb_ge 0 _)) by done. u64s. apply wp_bind.
  apply wp_mono with (fun _ i1 => Inv (buffers i1) /\ Size i1 = Z.max (Size i) (off + zlen data) /\ CacheState i1 = CacheState i /\ charged i i1 /\
    forall x, reads_as i1 x = if bool_decide (Size i <= x < off + zlen data) then Byte 0 else reads_as i x).
  { destruct (Z.ltb_spec (Size i) (off + zlen data)).
    - pose proof (ResizeUnlocked_spec (off + zlen data) i HI ltac:(lia) ltac:(lia) Hp) as Hw. rewrite (proj2 (Z.ltb_ge _ _)) in Hw by lia.
      cbn [andb] in Hw. wp_use Hw. intros r i' [-> (HI' & Es & _ & Ec & Hch & Hv)]. split_and!; try done; [lia|].
      intros x. rewrite Hv, bool_decide_false by lia. done.
    - wp_steps. unfold charged. split_and!; try done; [lia|lia|]. intros x. by rewrite bool_decide_false by lia. }
  intros _ i1 (HI1 & Es & Ec & Hch & Hv). wp_steps. wp_use (write_into off data spare copyData i i1); [done..|].
  intros a i2 (HI2 & Ec2 & Hch2 & How). unfold SetCacheState, WakeupFlusher, mod_attrs, Use, addModified. wp_steps. cbn [CacheState set_lastWriteEnd set_hasNewWrites]. rewrite Ec2.
  unfold charged, overwritten, reads_as in *. cbn in Hch2. destruct How as (How1 & How2 & How3).
  case_bool_decide; wp_steps; [case_match; wp_steps|]; cbn; split_and!; try done; destruct (UseEnomem flags); try lia.
Qed.
(** Nothing the contents or the memory account depend on has changed. *)
Definition untouched i i' : Prop := buffers i' = buffers i /\ Size i' = Size i /\ CacheState i' = CacheState i.

Lemma WriteFile_spec off (data spare : list byte) copyData enomem i :
  Inv (buffers i) -> limit = getMaxFileSize (PartSizes flags) -> 0 <= Size i <= limit ->
  0 <= off < 9223372036854775808 -> 0 < zlen data < 9223372036854775808 ->
  exists r i', WriteFile flags off data spare copyData enomem i = Ok (r, i') /\
    if limit <? off + zlen data then r = WriteError (Errno EFBIG) /\ i' = i
    else if UseEnomem flags && enomem then r = WriteError (Errno ENOMEM) /\ i' = i
    else if in_state (CacheState i) [ST_DELETED; ST_DEAD] then
      r = WriteError (Errno ENOENT) /\ untouched i i' /\ poolUse i' = poolUse i
    else if 0 <? pauseWriters i then
      r = WriteBlocked /\ untouched i i' /\ poolUse i' = poolUse i + (if UseEnomem flags then zlen data else 0)
    else
      r = WriteDone /\ Inv (buffers i') /\ overwritten off data i i' /\ charged i i' /\
      CacheState i' = (if bool_decide (CacheState i = ST_CACHED) then ST_MODIFIED else CacheState i).
Proof using HBL.
  intros HI El Hs Hoff Hd. apply wp_run. unfold WriteFile, WriteFile_reserve. wp_steps. u64s. rewrite <- El.
  destruct (Z.ltb_spec limit (off + zlen data)); wp_steps; [done|].
  assert (Hrest : forall i1, untouched i i1 -> pauseWriters i1 = pauseWriters i ->
    poolUse i1 = poolUse i + (if UseEnomem flags then zlen data else 0) ->
    wp (let! err := WriteFile_check flags data in
        match err with
        | Some e => ret (WriteError e)
        | None => let! done := WriteFile_body flags off data spare copyData in ret (if done : bool then WriteDone else WriteBlocked)
        end) (fun r i' => if in_state (CacheState i) [ST_DELETED; ST_DEAD] then
        r = WriteError (Errno ENOENT) /\ untouched i i' /\ poolUse i' = poolUse i
      else if 0 <? pauseWriters i then
        r = WriteBlocked /\ untouched i i' /\ poolUse i' = poolUse i + (if UseEnomem flags then zlen data else 0)
      else r = WriteDone /\ Inv (buffers i') /\ overwritten off data i i' /\ charged i i' /\
        CacheState i' = (if bool_decide (CacheState i = ST_CACHED) then ST_MODIFIED else CacheState i)) i1).
  { intros i1 (Eb & Es & Ec) Ep Eu. unfold WriteFile_check, Use. wp_steps. rewrite Ec. destruct (in_state _ _).
    { destruct (UseEnomem flags); wp_steps; unfold untouched; cbn; split_and!; try done; lia. }
    wp_steps. destruct (Z.ltb_spec 0 (pauseWriters i)).
    { unfold WriteFile_body. wp_steps. rewrite Ep, (proj2 (Z.ltb_lt 0 _)) by done. wp_steps. done. }
    wp_use (WriteFile_body_spec off data spare copyData i1); [by rewrite Eb|lia..|].
    intros done i' (-> & HI' & How & _ & Ec' & Hch). wp_steps. unfold charged, overwritten, reads_as in *. cbn in Hch.
    rewrite Eb, Es, Ec in *. destruct How as (? & ? & ?). split_and!; try done; destruct (UseEnomem flags); try done; lia. }
  destruct (UseEnomem flags); cbn [andb]; [|apply wp_ret, Hrest; done || cbn; lia].
  destruct enomem; [by wp_steps|]. unfold Use. apply wp_bind, wp_modS, wp_ret. by apply Hrest.
Qed.

(** C7: Writing. [WriteFile] of at least one byte never panics, and every branch
    is as documented: a write past the maximum file size is refused with EFBIG,
    one the memory pool refuses with ENOMEM, one to a deleted file with ENOENT,
    and then nothing changes and no memory stays reserved; while writers are
    paused it waits and holds its reservation; otherwise the data is in the
    file, a gap behind the old end reads as zeroes, every other byte reads as
    before, the size is the larger of the old size and the end of the write, the
    file counts as modified, and the memory pool was charged exactly what the
    buffers came to hold. *)
Theorem WriteFile_correct off (data spare : list byte) copyData enomem i :
  Inv (buffers i) -> limit = getMaxFileSize (PartSizes flags) -> 0 <= Size i <= limit ->
  0 <= off < 9223372036854775808 -> 0 < zlen data < 9223372036854775808 ->
  exists r i', WriteFile flags off data spare copyData enomem i = Ok (r, i') /\
    if limit <? off + zlen data then r = WriteError (Errno EFBIG) /\ i' = i
    else if UseEnomem flags && enomem then r = WriteError (Errno ENOMEM) /\ i' = i
    else if in_state (CacheState i) [ST_DELETED; ST_DEAD] then
      r = WriteError (Errno ENOENT) /\ untouched i i' /\ poolUse i' = poolUse i
    else if 0 <? pauseWriters i then
      r = WriteBlocked /\ untouched i i' /\ poolUse i' = poolUse i + (if UseEnomem flags then zlen data else 0)
    else
      r = WriteDone /\ Inv (buffers i') /\ overwritten off data i i' /\ charged i i' /\
      CacheState i' = (if bool_decide (CacheState i = ST_CACHED) then ST_MODIFIED else CacheState i).
Proof using HBL. apply WriteFile_spec. Qed.
End spec.
End FileSpec.
