(* ===== verification/FileInv.v ===== *)
(** * The invariant of a file and its goroutines

    What holds of an inode between any two sections, as long as the file
    system runs without the disk cache and without PATCH requests: the buffers
    are a well-formed list whose modified bytes lie below the size of the file,
    [IsFlushing] is the sum of the weights of the goroutines that flush, one
    that needs the file for itself is alone, every goroutine holds its lock,
    what an upload was given is what the buffers it will acknowledge still
    hold, nothing is marked as flushed without an upload in progress, and
    [pauseWriters] counts the calls that wait for a flush.

    [cur] holds the goroutines that are in the middle of a section; the others
    are in [tasks]. *)

From stdpp Require Import strings.
From S2P Require Import Prelude BTree Parts BufferList BufferListInv BufferListView.
From S2P Require Import BufferListRemove BufferListAdd BufferListRead BufferListState BufferListSpec.
From S2P Require Import Locks Errors ReadAhead Attrs Inode FileIO Upload ListEffect FileSpec.

Module FileInv.
Import Errors BufferList BufferListInv BufferListView BufferListRemove BufferListAdd BufferListRead BufferListState BufferListSpec.
Import Inode FileIO Upload ListEffect FileSpec.

(** The mounts the invariant is about: parts as the buffer list numbers them,
    no disk cache, no PATCH, and sizes far from the 64-bit limit. *)
Record mount_ok `{BufferListHelpers Q} (limit : Z) (flags : Flags) : Prop := {
  mt_limit : limit = getMaxFileSize (PartSizes flags);
  mt_table : table_ok (PartSizes flags);
  mt_parts : forall x, PartNum Q x = partNum (PartSizes flags) x;
  mt_patch : UsePatch flags = false;
  mt_disk : has_CachePath flags = false;
  mt_max : 1 <= MaxParallelParts flags;
  mt_room : limit < 4611686018427387904;
  mt_split : 0 < ReadAheadParallelKB flags < 4294967296;
  mt_merge : 0 <= ReadMergeKB flags < 4294967296;
  mt_ahead : forall fh, 0 <= ReadAhead.getReadAhead (read_flags flags) fh < 4611686018427387904;
}.
Arguments mount_ok Q {_} limit flags.

(** A property that holds by the circumstances of a section. *)
Class May (P : Prop) : Prop := may : P.

Section inv.
Context {M : Type -> Type} `{HBT : BTreeMap M} `{HBL : !BTreeMapLaws M} {Q : Type} `{HQ : BufferListHelpers Q}.
Context {limit : Z} `{HLaws : !BufferListHelpersLaws Q limit}.
Context (flags : Flags).
Abbreviation I := (Inode M Q).
Abbreviation Inv := (@Inv M HBT Q HQ limit HLaws).
Abbreviation Max := (MaxParallelParts flags).
Abbreviation partRange := (partRange (PartSizes flags)).
Implicit Types (l : bl M Q) (i : I) (x : Z) (t : task).

(** ** Goroutines *)

Definition weight t : Z :=
  match t with
  | TRead _ _ _ _ | TReadFile _ _ _ _ | TResize _ | TDeleteOld _ _ | TDeleteEntry _ | TDeleteForget => 0
  | TPart _ _ _ _ _ => 1
  | TPatch exclusive _ _ _ _ => patch_weight flags exclusive
  | _ => Max
  end.
(** Those that need the file for themselves. *)
Definition exclusive t : bool :=
  match t with
  | TRead _ _ _ _ | TReadFile _ _ _ _ | TResize _ | TPart _ _ _ _ _ | TDeleteOld _ _ | TDeleteEntry _ | TDeleteForget => false
  | TPatch exclusive _ _ _ _ => exclusive
  | _ => true
  end.
Definition task_locks t : list Locks.ReadRange :=
  match t with
  | TRead _ _ _ ReadStart => []
  | TRead _ offset size _ | TReadFile offset size _ _ => [Locks.mkRR offset size false]
  | TPart _ offset size _ _ | TPatch _ offset size _ _ => [Locks.mkRR offset size true]
  | TSmallLoading sz _ => [Locks.mkRR 0 sz true]
  | TSmallPut rq _ => [Locks.mkRR 0 (rq_size rq) true]
  | _ => []
  end.
Definition pauses t : Z :=
  match t with
  | TResize _ | TReadFile _ _ _ (CheckSync | CheckReloading _) => 1
  | _ => 0
  end.
Fixpoint total (f : task -> Z) (ts : list task) : Z :=
  match ts with [] => 0 | t :: ts' => f t + total f ts' end.

(** ** What goroutines rely on *)

Definition no_cleared l (off n : Z) : Prop :=
  forall x b, owner l x = Some b -> within off n x -> b_state b <> BUF_FL_CLEARED.
(** What was sent is what the buffers to be acknowledged hold. *)
Definition sent_ok l (rq : send_request) : Prop :=
  (forall n, n ∈ rq_ids rq -> n <= l_curDirtyID l) /\ zlen (concat (rq_data rq)) = rq_size rq /\
  forall x b, owner l x = Some b -> in_flight (rq_ids rq) b ->
    within (rq_offset rq) (rq_size rq) x /\ buf_byte (l_ptrs l) b x = znth (concat (rq_data rq)) (x - rq_offset rq).
(** A wait for data of [off, off+n). *)
Definition load_ok l (off n : Z) (ls : load_stage) : Prop :=
  match ls with
  | LoadWaiting offset size => off <= offset /\ 0 < size /\ offset + size <= off + n /\ no_cleared l off n
  | LoadRelock _ _ _ _ _ => False
  end.
Definition read_ok (offset size : Z) (st : read_stage) : Prop :=
  match st with
  | ReadStart => True
  | ReadRequest curOffset curSize _ _ => offset <= curOffset /\ 0 <= curSize /\ curOffset + curSize = offset + size
  | ReadBody curOffset curSize _ _ chunkOffset left_ totalDone =>
      offset <= curOffset /\ curOffset + curSize = offset + size /\ 0 < left_ /\ 0 <= totalDone /\
      chunkOffset = curOffset + totalDone /\ chunkOffset + left_ = offset + size
  end.
Definition current_upload i (up : Z) : Prop := forall m, mpu i = Some m -> upload m = up.
Definition part_ok i (offset size : Z) (st : part_stage) : Prop :=
  match st with
  | PartStart => True
  | PartLoading partSize ls => 0 < partSize <= size /\ load_ok (buffers i) offset size ls
  | PartUploading rq _ up =>
      rq_offset rq = offset /\ 0 < rq_size rq <= size /\ sent_ok (buffers i) rq /\ current_upload i up /\
      (mpu i = None -> forall x, ~ carries (buffers i) (rq_ids rq) x)
  end.
Definition in_file (offset size : Z) : Prop := 0 <= offset /\ 0 < size /\ offset + size <= limit.
Definition task_ok i t : Prop :=
  match t with
  | TRead _ offset size st => in_file offset size /\ read_ok offset size st
  | TPart part offset size _ st =>
      partRange part = Ok (offset, size) /\ in_file offset size /\ (mpu i <> None -> offset < Size i) /\
      no_cleared (buffers i) offset size /\ part_ok i offset size st
  | TSmall | TBegin _ | TBeginSent _ _ => mpu i = None
  | TSmallLoading sz ls => mpu i = None /\ 0 <= sz <= limit /\ load_ok (buffers i) 0 sz ls
  | TSmallPut rq _ => mpu i = None /\ rq_offset rq = 0 /\ 0 <= rq_size rq <= limit /\ sent_ok (buffers i) rq
  | TCopying _ finalSize _ up _ _ _ | TCommit finalSize up => 0 <= finalSize <= limit /\ current_upload i up
  | TComplete | TUpdateMeta | TRename _ _ | TRenameLost _ _ | TRenameUndelete _ | TRenameDelete _ | TFlushEnd => True
  | TDelete _ | TDeleteOld _ _ | TDeleteEntry _ | TDeleteForget | TMkDir => True
  | TMinBegin _ | TMinBeginSent _ _ | TMinPart _ _ | TMinCommit _ _ | TPatch _ _ _ _ _ => False
  | TReadFile offset size ra st =>
      in_file offset size /\ 0 <= ra < 4611686018427387904 /\
      match st with CheckLoading ls | CheckReloading ls => load_ok (buffers i) offset size ls | CheckSync => True end
  | TResize newSize => 0 <= newSize <= limit
  end.

Definition goroutines (cur : list task) i : list task := cur ++ tasks i.

(** ** What happened to the pending bytes since some point *)

(** [base] are the bytes that were pending, [lost] those that may be gone, and
    [resets] tells whether the cached data may have been dropped as a whole. *)
Context {base : Z -> option byte} {lost : Z -> Prop} {resets : Prop}.
Definition kept l : Prop :=
  resets /\ (forall x, pending l x = None \/ lost x) \/ forall x, pending l x = base x \/ lost x.

Lemma kept_effect W A E D l l' :
  kept l -> effect (limit := limit) W A E D l l' -> (forall x, W x \/ A x \/ D x -> lost x) -> kept l'.
Proof using HBL.
  intros Hk He Hl. pose proof (ef_pending _ _ _ _ _ _ He) as Hp.
  destruct Hk as [[? Hk]|Hk]; [left; split; [done|]|right]; intros x; (destruct (Hp x) as [-> |Hx]; [apply Hk|right; by apply Hl]).
Qed.

Record ok (cur : list task) i : Prop := {
  ok_list : Inv (buffers i);
  ok_disk : no_disk (buffers i);
  ok_size : 0 <= Size i <= limit;
  ok_known : 0 <= knownSize i <= limit;
  ok_last : 0 <= lastWriteEnd i <= limit;
  ok_bound : forall x b, owner (buffers i) x = Some b -> b_state b <> BUF_CLEAN -> x < Size i;
  ok_mpu : mpu i = None -> forall x b, owner (buffers i) x = Some b -> is_flushed b = false;
  ok_flushing : IsFlushing i = total weight (goroutines cur i);
  ok_max : IsFlushing i <= Max;
  ok_held : flat_map task_locks (goroutines cur i) ⊆+ readRanges i;
  ok_ranges : locks_ok i;
  ok_pause : pauseWriters i = total pauses (goroutines cur i);
  ok_tasks : forall t, t ∈ goroutines cur i -> task_ok i t;
  ok_kept : kept (buffers i);
}.
(** ** Sums over goroutines *)

Lemma total_app f ts1 ts2 : total f (ts1 ++ ts2) = total f ts1 + total f ts2.
Proof. induction ts1 as [|t ts1 IH]; cbn; lia. Qed.
Lemma total_perm f ts1 ts2 : ts1 ≡ₚ ts2 -> total f ts1 = total f ts2.
Proof. induction 1; cbn; lia. Qed.
Lemma total_ge f ts t : (forall t, 0 <= f t) -> t ∈ ts -> f t <= total f ts.
Proof.
  intros Hf. induction ts as [|t' ts IH]; intros Hin; [by apply elem_of_nil in Hin|]. cbn.
  assert (0 <= total f ts) by (clear -Hf; induction ts as [|u ts IH]; cbn; [lia|specialize (Hf u); lia]).
  apply elem_of_cons in Hin as [->|Hin]; [lia|]. specialize (IH Hin). specialize (Hf t'). lia.
Qed.
Lemma locks_perm ts1 ts2 : ts1 ≡ₚ ts2 -> flat_map task_locks ts1 ≡ₚ flat_map task_locks ts2.
Proof. induction 1; cbn; [done|by f_equiv|by rewrite !app_assoc, (Permutation_app_comm (task_locks _) (task_locks _))|by etrans]. Qed.
Lemma task_lock_in ts t r : t ∈ ts -> r ∈ task_locks t -> r ∈ flat_map task_locks ts.
Proof.
  intros Ht Hr. apply list_elem_of_In, in_flat_map. exists t. by rewrite <- !list_elem_of_In.
Qed.

(** ** Operations on the buffers *)

Lemma effect_cleared W A E D l l' o n :
  effect W A E D l l' -> (forall x, within o n x -> ~ E x) -> no_cleared l o n -> no_cleared l' o n.
Proof using Type*.
  intros He HE Hn x b' Eo Hx Hs. destruct (ef_own _ _ _ _ _ _ He x b' Eo) as [b E0 Es _ _ _|_ Es _|Es _|b _ _ _ _ Es _|b HEx _ _ _ _]; try congruence.
  - apply (Hn x b E0 Hx). congruence.
  - by apply (HE x Hx).
Qed.

(** A buffer that carries an old identifier is as it was. *)
Lemma effect_id W A E D l l' x b' (ids : gset Z) :
  effect W A E D l l' -> (forall n, n ∈ ids -> n <= l_curDirtyID l) -> owner l' x = Some b' -> in_flight ids b' ->
  exists b, owner l x = Some b /\ in_flight ids b /\ buf_byte (l_ptrs l') b' x = buf_byte (l_ptrs l) b x.
Proof using Type*.
  intros He Hids Eo [Hne Hin]. specialize (Hids _ Hin).
  destruct (ef_own _ _ _ _ _ _ He x b' Eo) as [b E0 _ Hn Eb _|_ _ Hlt|_ E0|b _ _ _ _ _ E0|b _ _ _ _ E0]; try congruence; [|lia].
  exists b. unfold newer in Hn. assert (Ei : b_dirtyID b' = b_dirtyID b) by lia. rewrite Ei in Hne, Hin. done.
Qed.

Lemma effect_sent W A E D l l' rq : effect W A E D l l' -> sent_ok l rq -> sent_ok l' rq.
Proof using Type*.
  intros He (Hids & Hlen & Hb). split_and!; [|done|].
  - intros n Hn. specialize (Hids n Hn). pose proof (ef_cur _ _ _ _ _ _ He). lia.
  - intros x b' Eo Hf. destruct (effect_id _ _ _ _ _ _ x b' _ He Hids Eo Hf) as (b & E0 & Hf0 & ->). by apply Hb.
Qed.

Lemma effect_stale W A E D l l' rq : effect W A E D l l' -> sent_ok l rq ->
  (forall x, ~ carries l (rq_ids rq) x) -> forall x, ~ carries l' (rq_ids rq) x.
Proof using Type*.
  intros He (Hids & _) Hno x (b' & Eo & Hf). destruct (effect_id _ _ _ _ _ _ x b' _ He Hids Eo Hf) as (b & E0 & Hf0 & _).
  apply (Hno x). by exists b.
Qed.

Lemma effect_load W A E D l l' o n ls :
  effect W A E D l l' -> (forall x, within o n x -> ~ E x) -> load_ok l o n ls -> load_ok l' o n ls.
Proof using Type*. intros He HE. destruct ls; cbn; [done|]. intros (? & ? & ? & ?). split_and!; try done. by eapply effect_cleared. Qed.

(** Goroutines after a change of the buffers and the size. *)
Lemma effect_task W A E D i l' s' t :
  effect W A E D (buffers i) l' ->
  (forall r x, r ∈ task_locks t -> within (Locks.Offset r) (Locks.Size r) x -> ~ E x) ->
  (forall part o s p st, t = TPart part o s p st -> mpu i <> None -> o < Size i -> o < s') ->
  task_ok i t -> task_ok (set_Size s' (set_buffers l' i)) t.
Proof using Type*.
  intros He HE Hp Ht. destruct t; cbn in *; try done.
  - destruct Ht as (? & ? & Hs & Hc & Hst). split_and!; try done.
    + intros Hm. eapply Hp; [done|done|by apply Hs].
    + eapply effect_cleared; [done| |done]. intros x. apply HE with (r := Locks.mkRR offset size true). constructor.
    + destruct st as [|psz ls|rq full up]; cbn in *; [done| |].
      * destruct Hst as [? ?]. split; [done|]. eapply effect_load; [done| |done]. intros x. apply HE with (r := Locks.mkRR offset size true). constructor.
      * destruct Hst as (? & ? & Hsent & Hcur & Hno). split_and!; try done; try lia; [by eapply effect_sent|].
        intros Hm. eapply effect_stale; [done|done|by apply Hno].
  - destruct Ht as (? & ? & ?). split_and!; try done; try lia. eapply effect_load; [done| |done].
    intros x. apply HE with (r := Locks.mkRR 0 sz true). constructor.
  - destruct Ht as (? & ? & ? & ?). split_and!; try done; try lia. by eapply effect_sent.
  - destruct Ht as (? & ? & Hst). split_and!; try done; try lia.
    assert (HE' : forall x, within offset size x -> ~ E x).
    { intros x. apply HE with (r := Locks.mkRR offset size false). constructor. }
    destruct st; [by eapply effect_load|done|by eapply effect_load].
Qed.
(** ** Changes of the inode that keep the invariant *)

(** The fields the invariant depends on. *)
Definition core i := (buffers i, Size i, knownSize i, lastWriteEnd i, mpu i, IsFlushing i, readRanges i, pauseWriters i).

Lemma task_ok_same i i' t : buffers i' = buffers i -> Size i' = Size i -> mpu i' = mpu i -> task_ok i t -> task_ok i' t.
Proof. intros Eb Es Em. destruct t; cbn; unfold part_ok, current_upload; rewrite ?Eb, ?Es, ?Em; done. Qed.

Lemma ok_same cur cur' i i' : ok cur i -> core i' = core i -> goroutines cur' i' ≡ₚ goroutines cur i -> ok cur' i'.
Proof using Type*.
  intros [] [= Eb Es Ek El Em Ef Er Ep] Hts.
  split; rewrite ?Eb, ?Es, ?Ek, ?El, ?Em, ?Ef, ?Er, ?Ep, ?(total_perm _ _ _ Hts), ?(locks_perm _ _ Hts); try done.
  - unfold locks_ok. by rewrite Er.
  - intros t Ht. rewrite Hts in Ht. eapply task_ok_same; eauto.
Qed.

Lemma weight_nonneg t : 1 <= Max -> 0 <= weight t.
Proof. intros. destruct t; cbn; try lia. unfold patch_weight. case_match; lia. Qed.

(** A goroutine that needs the file for itself is the only one that flushes. *)
Lemma exclusive_weight t : exclusive t = true -> weight t = Max.
Proof. destruct t; cbn; try done. by intros ->. Qed.

Lemma ok_alone cur i t t' :
  1 <= Max -> ok (t :: cur) i -> exclusive t = true -> t' ∈ cur ++ tasks i -> weight t' = 0.
Proof using Type*.
  intros HM [] He Hin. unfold goroutines in *. cbn in *. rewrite (exclusive_weight t He) in *.
  pose proof (total_ge weight (cur ++ tasks i) t' (fun u => weight_nonneg u HM) Hin). pose proof (weight_nonneg t' HM). lia.
Qed.

(** The range of a lock held by a goroutine is locked. *)
Lemma task_lock_held cur i t r : ok cur i -> t ∈ goroutines cur i -> r ∈ task_locks t -> r ∈ readRanges i.
Proof using Type*. intros [] Ht Hr. eapply elem_of_submseteq; [by eapply task_lock_in|done]. Qed.

Lemma ok_buffers cur i W A E D l' s' :
  ok cur i -> effect W A E D (buffers i) l' -> 0 <= s' <= limit ->
  (forall r x, r ∈ readRanges i -> within (Locks.Offset r) (Locks.Size r) x -> ~ E x) ->
  (mpu i = None -> forall x, ~ A x) ->
  (forall x b', owner l' x = Some b' -> b_state b' <> BUF_CLEAN -> x < s') ->
  (forall part o s p st, TPart part o s p st ∈ goroutines cur i -> mpu i <> None -> o < Size i -> o < s') ->
  (forall x, W x \/ A x \/ D x -> lost x) ->
  ok cur (set_Size s' (set_buffers l' i)).
Proof using Type*.
  intros Hok He Hs HE HA Hb Hp HL. pose proof Hok as []. split; cbn; try done; try apply He; [| |by eapply kept_effect].
  - intros Hm x b' Eo. destruct (ef_own _ _ _ _ _ _ He x b' Eo) as [b E0 Es _ _ _|_ Es _|Es _|b HAx _ _ _ _ _|b _ E0 Es Es' _].
    + specialize (ok_mpu0 Hm x b E0). unfold is_flushed, is_state in *. by rewrite Es.
    + unfold is_flushed, is_state. by rewrite Es.
    + unfold is_flushed, is_state. by rewrite Es.
    + by destruct (HA Hm x).
    + specialize (ok_mpu0 Hm x b E0). unfold is_flushed, is_state in ok_mpu0. by rewrite Es in ok_mpu0.
  - intros t Ht. eapply effect_task; [done| | |by apply ok_tasks0].
    + intros r x Hr. apply HE. by eapply task_lock_held.
    + intros part o s p st ->. by eapply Hp.
Qed.

(** The common case: the size stays, nothing is evicted. *)
Lemma ok_effect cur i W A D l' :
  ok cur i -> effect W A nowhere D (buffers i) l' -> (forall x, W x -> x < Size i) -> (mpu i = None -> forall x, ~ A x) ->
  (forall x, W x \/ A x \/ D x -> lost x) -> ok cur (set_buffers l' i).
Proof using HBL.
  intros Hok He HW HA HL. pose proof Hok as []. 
  assert (H' : ok cur (set_Size (Size i) (set_buffers l' i))); [|eapply ok_same; [exact H'|done|done]].
  eapply ok_buffers; try done.
  - by intros r x _ _ [].
  - intros x b' Eo Hc. destruct (ef_own _ _ _ _ _ _ He x b' Eo) as [b E0 Es _ _ _|? _ _|Es _|b _ E0 Es _ _ _|b [] _ _ _ _]; try done.
    + apply (ok_bound0 x b E0). congruence.
    + by apply HW.
    + apply (ok_bound0 x b E0). by rewrite Es.
Qed.

Lemma ok_quiet cur i l' : ok cur i -> effect (limit := limit) nowhere nowhere nowhere nowhere (buffers i) l' -> ok cur (set_buffers l' i).
Proof using HBL. intros Hok He. eapply ok_effect; [done|done|by intros x []|by intros _ x []|by intros x [[]|[[]|[]]]]. Qed.

(** A goroutine starts, and takes what it needs. *)
Lemma ok_push cur i i' t :
  ok cur i -> task_ok i t ->
  (buffers i', Size i', knownSize i', lastWriteEnd i', mpu i', tasks i') = (buffers i, Size i, knownSize i, lastWriteEnd i, mpu i, tasks i) ->
  IsFlushing i' = IsFlushing i + weight t -> IsFlushing i + weight t <= Max ->
  readRanges i' ≡ₚ task_locks t ++ readRanges i -> locks_ok i' -> pauseWriters i' = pauseWriters i + pauses t ->
  ok (t :: cur) i'.
Proof using Type*.
  intros [] Ht [= Eb Es Ek El Em Et] Ef Hmax Hr Hl Hp. unfold goroutines in *.
  split; rewrite ?Eb, ?Es, ?Ek, ?El, ?Em; unfold goroutines; rewrite ?Et; cbn; try done; try lia.
  - rewrite Hr. by apply submseteq_app.
  - intros t' [->|Ht']%elem_of_cons; (eapply task_ok_same; [done|done|done|]); auto.
Qed.

(** A goroutine ends, and gives back what it had. *)
Lemma ok_pop cur i i' t :
  1 <= Max -> ok (t :: cur) i ->
  (buffers i', Size i', knownSize i', lastWriteEnd i', mpu i', tasks i') = (buffers i, Size i, knownSize i, lastWriteEnd i, mpu i, tasks i) ->
  IsFlushing i' = IsFlushing i - weight t -> task_locks t ++ readRanges i' ≡ₚ readRanges i -> pauseWriters i' = pauseWriters i - pauses t ->
  ok cur i'.
Proof using Type*.
  intros HM [] [= Eb Es Ek El Em Et] Ef Hr Hp. unfold goroutines in *. cbn in *. pose proof (weight_nonneg t HM).
  split; rewrite ?Eb, ?Es, ?Ek, ?El, ?Em; unfold goroutines; rewrite ?Et; cbn; try done; try lia.
  - rewrite <- Hr in ok_held0. by apply submseteq_app_inv_l in ok_held0.
  - intros r Hin. apply ok_ranges0. rewrite <- Hr. apply elem_of_app. by right.
  - intros t' Ht'. eapply task_ok_same; [done|done|done|]. apply ok_tasks0. by constructor.
Qed.

(** A goroutine goes on to its next stage. *)
Lemma ok_swap cur i t t' :
  ok (t :: cur) i -> weight t' = weight t -> task_locks t' = task_locks t -> pauses t' = pauses t -> task_ok i t' -> ok (t' :: cur) i.
Proof using Type*.
  intros [] Ew El Ep Ht. unfold goroutines in *. cbn in *. split; unfold goroutines; cbn; rewrite ?Ew, ?El, ?Ep; try done.
  intros u [->|Hu]%elem_of_cons; [done|]. apply ok_tasks0. by constructor.
Qed.
End inv.

(** The point can be moved forward. *)
Lemma ok_rebase {M : Type -> Type} `{HBT : BTreeMap M} {Q : Type} `{HQ : BufferListHelpers Q} {limit : Z} `{HLaws : !BufferListHelpersLaws Q limit}
    flags base lost resets lost' resets' cur (i : Inode M Q) :
  ok (limit := limit) (base := base) (lost := lost) (resets := resets) flags cur i ->
  ok (limit := limit) (base := pending (buffers i)) (lost := lost') (resets := resets') flags cur i.
Proof. intros []. split; try done. right. by left. Qed.
End FileInv.
