(* ===== verification/FileSteps.v ===== *)
(** * Reading and writing keep the invariant of a file

    Every section of [FileIO], run on a file that satisfies [FileInv.ok], ends
    without a panic and leaves a file that satisfies it. *)

From stdpp Require Import strings.
From S2P Require Import Prelude BTree Parts BufferList BufferListInv BufferListView.
From S2P Require Import BufferListRemove BufferListAdd BufferListRead BufferListState BufferListSpec.
From S2P Require Import Locks Errors ReadAhead Attrs Inode FileIO Upload Machine ListEffect FileSpec FileInv.

Module FileSteps.
Import Errors BufferList BufferListInv BufferListView BufferListRemove BufferListAdd BufferListRead BufferListState BufferListSpec.
Import Inode FileIO Upload Machine ListEffect FileSpec FileInv.
Section steps.
Context {M : Type -> Type} `{HBT : BTreeMap M} `{HBL : !BTreeMapLaws M} {Q : Type} `{HQ : BufferListHelpers Q}.
Context {limit : Z} `{HLaws : !BufferListHelpersLaws Q limit}.
Context (flags : Flags) (env : Env) (HMt : mount_ok Q limit flags).
Abbreviation I := (Inode M Q).
Abbreviation Inv := (@Inv M HBT Q HQ limit HLaws).
Abbreviation Max := (MaxParallelParts flags).
Implicit Types (l : bl M Q) (i : I) (x : Z) (t : task).

(** An empty list of buffers suits every goroutine once there is no upload. *)
Lemma task_ok_empty i l' t :
  task_ok (limit := limit) flags i t -> l_curDirtyID (buffers i) <= l_curDirtyID l' -> (forall x, owner l' x = None) ->
  task_ok (limit := limit) flags (set_mpu None (set_buffers l' i)) t.
Proof using HBL.
  intros Ht Hc Hno. assert (Hcl : forall o n, no_cleared l' o n) by (intros o n x b E; by rewrite Hno in E).
  assert (Hsent : forall rq, sent_ok (buffers i) rq -> sent_ok l' rq).
  { intros rq (Hids & Hlen & _). split_and!; [intros n Hn; specialize (Hids n Hn); lia|done|]. intros x b E. by rewrite Hno in E. }
  assert (Hload : forall o n ls, load_ok (buffers i) o n ls -> load_ok l' o n ls) by (intros o n [] Hl; cbn in *; naive_solver).
  destruct t; cbn in *; try done; unfold current_upload; cbn.
  - destruct Ht as (? & ? & _ & _ & Hst). split_and!; try done. destruct st as [|psz ls|rq full up]; cbn in *; [done|destruct Hst; auto|].
    destruct Hst as (? & ? & ? & _ & _). split_and!; auto; try lia; [done|]. intros _ x (b & E & _). by rewrite Hno in E.
  - destruct Ht as (_ & ? & ?). auto.
  - destruct Ht as (_ & ? & ? & ?). auto.
  - by destruct Ht.
  - by destruct Ht.
  - destruct Ht as (? & ? & Hst). split_and!; try done; try lia. destruct st; auto.
Qed.

Context {base : Z -> option byte} {lost : Z -> Prop} {resets : Prop}.
Abbreviation ok := (FileInv.ok (limit := limit) (base := base) (lost := lost) (resets := resets) flags).

(** Close a goal about fields that a chain of assignments did not touch. *)
Ltac same_core H := eapply ok_same; [exact H|reflexivity|reflexivity].

Lemma SetCacheState_ok cur st i : ok cur i -> wp (SetCacheState st) (fun _ i' => ok cur i' /\ core i' = core i /\ tasks i' = tasks i) i.
Proof using HBL.
  intros Hok. unfold SetCacheState, addModified. wp_steps. destruct (Bool.eqb _ _); wp_steps; (split; [same_core Hok|done]).
Qed.
Lemma SetAttrTime_ok cur tm i : ok cur i -> wp (SetAttrTime flags tm) (fun _ i' => ok cur i' /\ core i' = core i /\ tasks i' = tasks i) i.
Proof using HBL. intros Hok. unfold SetAttrTime. wp_steps. destruct (_ <? _); wp_steps; (split; [same_core Hok|done]). Qed.

Lemma resetCache_ok `{HM : !May resets} cur i : ok cur i -> wp (resetCache flags env) (fun _ i' =>
  ok cur i' /\ mpu i' = None /\ Size i' = Size i /\ forall x, owner (buffers i') x = None) i.
Proof using HBL.
  intros Hok. pose proof Hok as []. unfold resetCache, Use, abortMultipart_if, abortMultipart, set_userMetadataDirty, mod_attrs.
  apply wp_bind, wp_on_buffers. wp_use (RemoveRange_effect (buffers i) 0 18446744073709551615); [done..|].
  intros a l' [He Hno].
  assert (Hemp : forall x, owner l' x = None).
  { intros x. destruct (decide (within 0 18446744073709551615 x)) as [Hx|Hx]; [by apply Hno|].
    apply (owner_None l' x (inv_shape _ (ef_inv _ _ _ _ _ _ He))). intros k b Hk Hb.
    pose proof (sh_ok _ (inv_shape _ (ef_inv _ _ _ _ _ _ He)) k b Hk) as (? & ? & ? & ?). pose proof limit_range. apply Hx. unfold within. lia. }
  assert (Hok' : ok cur (set_mpu None (set_buffers l' i))).
  { split; cbn; try done; try apply He.
    - intros x b E. by rewrite Hemp in E.
    - intros _ x b E. by rewrite Hemp in E.
    - intros t Ht. apply task_ok_empty; [by apply ok_tasks0|apply He|done].
    - left. split; [exact HM|]. intros x. left. by apply pending_none. }
  unfold Use. do 2 (apply wp_bind, wp_modS). match goal with |- wp _ _ ?j => set (i1 := j) end.
  assert (E1 : core i1 = core (set_buffers l' i) /\ tasks i1 = tasks i) by (unfold i1; cbn; by destruct (OnDisk i)).
  destruct E1 as [[= Eb Es Ek El Em Ef Er Ep] Et].
  assert (Hok2 : forall i2, core i2 = core (set_mpu None i1) -> tasks i2 = tasks i1 -> ok cur i2).
  { intros i2 Ec2 Et2. eapply ok_same; [exact Hok'| |unfold goroutines; cbn; by rewrite Et2, Et].
    rewrite Ec2. unfold core. cbn. congruence. }
  wp_steps. case_bool_decide as Hm; wp_steps; rewrite ?Em; [|destruct (mpu i) as [m|] eqn:Em0; [wp_steps|by rewrite Em in Hm]].
  all: wp_use SetCacheState_ok; [apply (Hok2); unfold core; cbn; try done; by rewrite <- Hm|];
    intros _ i2 (Hok3 & Ec3 & Et3); wp_use SetAttrTime_ok; [exact Hok3|]; intros _ i3 (Hok4 & Ec4 & Et4);
    rewrite Ec3 in Ec4; injection Ec4; intros; split_and!; [done|cbn in *; congruence|cbn in *; congruence|];
    intros x; cbn in *; replace (buffers i3) with l' by congruence; apply Hemp.
Qed.
(** ** Loading *)

Abbreviation quiet := (effect (limit := limit) nowhere nowhere nowhere nowhere).

Lemma mark_loading_quiet rr l :
  Inv l -> no_disk l -> Forall (fun r => 0 <= Start r < End_ r /\ End_ r <= limit) rr ->
  wp (mark_loading rr) (fun _ l' => quiet l l') l.
Proof using HBL.
  intros HI Hd Hrr. pose proof limit_range. revert l HI Hd. induction Hrr as [|r rr [Hr Hl] _ IH]; intros l HI Hd; cbn [mark_loading]; wp_steps.
  { by apply effect_refl. }
  rewrite u64_small by lia. wp_use (AddLoading_effect l (Start r) (End_ r - Start r) HI Hd); [lia..|].
  intros _ l1 He. wp_use IH; [apply He|apply He|]. intros _ l2 He2. by eapply quiet_trans.
Qed.

(** What loading leaves alone. *)
Definition loads i i' : Prop :=
  quiet (buffers i) (buffers i') /\ Size i' = Size i /\ CacheState i' = CacheState i /\ mpu i' = mpu i /\ readRanges i' = readRanges i /\
  knownSize i' = knownSize i /\ loc i' = loc i /\ oldLoc i' = oldLoc i /\ readError i' = readError i.

(** Loading finds out that the object was changed by someone else: the server
    said so to a read, or the file has a hole past the known end of the object. *)
Definition load_conflict i : Prop :=
  remote_conflict (readError i) = true \/ exists x, knownSize i < x < Size i /\ owner (buffers i) x = None.

(** The byte behind the known end of the object is not a hole: it was written, or the file ends there. *)
Definition load_guard i : Prop := Size i <= knownSize i \/ owner (buffers i) (knownSize i) <> None.

Lemma ok_reads cur i new :
  ok cur i -> (forall t, t ∈ new -> task_ok (limit := limit) flags i t /\ weight flags t = 0 /\ task_locks t = [] /\ pauses t = 0) ->
  ok cur (set_tasks (tasks i ++ new) i).
Proof using HBL.
  intros Hok Hnew.
  assert (Hz : forall ts, (forall t, t ∈ ts -> weight flags t = 0 /\ task_locks t = [] /\ pauses t = 0) ->
    total (weight flags) ts = 0 /\ total pauses ts = 0 /\ flat_map task_locks ts = []).
  { induction ts as [|t ts IH]; intros Hts; cbn; [done|]. destruct (Hts t) as (-> & -> & ->); [constructor|].
    destruct IH as (-> & -> & ->); [|done]. intros u Hu. apply Hts. by constructor. }
  destruct (Hz new) as (Hw & Hp & Hl); [intros t Ht; by apply Hnew|]. pose proof Hok as [].
  split; cbn; try done; unfold goroutines in *; cbn; rewrite ?app_assoc, ?total_app, ?flat_map_app, ?Hw, ?Hp, ?Hl, ?app_nil_r;
    rewrite <- ?total_app, <- ?flat_map_app; try done; try lia.
  intros t [Ht|Ht]%elem_of_app; [by apply ok_tasks0|by apply Hnew].
Qed.

Lemma ranges_ok_elem lo hi rs r : ranges_ok lo hi rs -> r ∈ rs -> lo <= Start r < End_ r /\ End_ r <= hi.
Proof.
  revert lo. induction rs as [|r' rs IH]; intros lo Hh Hr; [by apply elem_of_nil in Hr|].
  destruct Hh as (? & ? & Hh). apply elem_of_cons in Hr as [->|Hr]; [lia|]. destruct (IH _ Hh Hr). lia.
Qed.

Lemma loadFromServer_ok cur i holes ra lo hi :
  ok cur i -> ranges_ok lo hi holes -> holes <> [] -> 0 <= lo -> hi <= Size i -> 0 <= ra < 4611686018427387904 ->
  (forall x, lo <= x < hi -> in_ranges holes x <-> owner (buffers i) x = None) -> load_guard i ->
  wp (loadFromServer flags holes ra) (fun err i' => ok cur i' /\ loads i i' /\
    (err <> None -> exists x, knownSize i < x < Size i /\ owner (buffers i) x = None)) i.
Proof using Type*.
  intros Hok Hh Hne Hlo Hhi Hra Hex Hg. pose proof HMt as []. pose proof Hok as [].
  assert (Hhole : forall r, r ∈ holes -> Start r < Size i /\ owner (buffers i) (Start r) = None).
  { intros r Hr. pose proof (ranges_ok_elem _ _ _ _ Hh Hr). split; [lia|]. apply Hex; [lia|]. exists r. split; [done|lia]. }
  assert (Hstart : forall r, r ∈ holes -> Start r <> knownSize i).
  { intros r Hr E. destruct (Hhole r Hr). destruct Hg as [Hg|Hg]; [lia|]. apply Hg. by rewrite <- E. }
  unfold loadFromServer.
  destruct (ReadAhead.requests_spec holes lo hi ra (ReadMergeKB flags *u 1024) (ReadAheadParallelKB flags *u 1024) (knownSize i))
    as (rr & lst & Em & El & Hcase); u64s; try done; try lia.
  apply wp_bind. eapply wp_liftO; [done|]. wp_steps. rewrite El.
  assert (Hself : loads i i) by (unfold loads; split_and!; try done; by apply effect_refl).
  destruct Hcase as [(H1 & H2 & r & Hr & Er)|(H1 & rr1 & rr2 & E1 & E2 & T2 & N2 & _)].
  { rewrite (proj2 (Z.ltb_lt _ _) H1), (proj2 (Z.ltb_lt _ _) H2). wp_steps. split_and!; try done.
    intros _. destruct (Hhole r Hr). exists (Start r). split; [lia|done]. }
  rewrite H1, andb_false_r. apply wp_bind. apply wp_mono with (fun r i' => r = rr1 /\ i' = i).
  { destruct (knownSize i <? End_ lst); [by eapply wp_liftO|]. injection E1 as ->. by wp_steps. }
  intros _ _ [-> ->]. apply wp_bind. eapply wp_liftO; [done|]. apply wp_bind, wp_on_buffers.
  assert (Hin : Forall (fun r => 0 <= Start r < End_ r /\ End_ r <= limit) rr2).
  { clear -T2 N2 Hlo ok_known0. revert lo Hlo T2. induction N2 as [|r rr2 Hr _ IH]; intros lo Hlo; [constructor|]. intros (? & ? & HT).
    constructor; [lia|]. apply (IH (End_ r)); [lia|done]. }
  wp_use (mark_loading_quiet rr2); [done..|]. intros _ l' He. wp_steps.
  assert (Hok' : ok cur (set_buffers l' i)) by (by apply ok_quiet).
  split_and!; [|unfold loads; cbn; split_and!; done|done]. apply (ok_reads cur (set_buffers l' i)); [done|].
  intros t (r & -> & Hr)%list_elem_of_fmap. rewrite Forall_forall in Hin. specialize (Hin r Hr). pose proof limit_range.
  cbn. unfold in_file. rewrite u64_small by lia. split_and!; try done; lia.
Qed.
(** Only a byte dropped after a flush, or kept on disk only, cannot be read. *)
Lemma not_resident l x : Inv l -> no_disk l -> status_at l x = NotResident ->
  exists b, owner l x = Some b /\ b_state b = BUF_FL_CLEARED.
Proof using HBL.
  intros HI Hd Hs. unfold status_at in Hs. destruct (owner l x) as [b|] eqn:Eo; [|done]. exists b. split; [done|].
  specialize (Hd x b Eo). pose proof Eo as (k & Hk & Hx)%(owner_lookup l x b (inv_shape _ HI)).
  pose proof (inv_place _ HI k b Hk) as [_ Hp]. pose proof (sh_ok _ (inv_shape _ HI) k b Hk) as (? & ? & ? & ?).
  rewrite Hd in Hp. destruct (b_loading b) eqn:Ed; [done|]. unfold buf_byte in Hs.
  destruct (b_zero b) eqn:Ez; [done|]. destruct (b_data b) as [s|] eqn:Es; [|done]. exfalso.
  destruct (Heap_ref _ _ _ k b s (inv_heap _ HI) Hk Es) as (j & P & Ep & HP & _ & J1 & J2 & J3 & _). rewrite Ep, HP in Hs.
  destruct (znth_Some (mem P) (sl_off s + (x - b_offset b))) as [v Ev]; [lia|]. by rewrite Ev in Hs.
Qed.

Lemma GetData_runs l off n rid :
  Inv l -> no_disk l -> no_cleared l off n -> 0 <= off -> 0 < n -> off + n < two64 ->
  exists ds ids err, GetData off n rid l = Ok (ds, ids, err).
Proof using HBL.
  intros HI Hd Hc ? ? ?. pose proof (GetData_spec l off n rid HI ltac:(done) ltac:(done) ltac:(done)) as Hs.
  destruct (GetData off n rid l) as [[[ds ids] err]|p|]; [eauto| |done]. exfalso. destruct Hs as (_ & x & Hx & _ & Hst).
  destruct (not_resident l x HI Hd Hst) as (b & Eo & Es). by apply (Hc x b Eo).
Qed.

(** [seen] is what an error that means a conflict shows. *)
Definition load_post (seen : Prop) offset size (r : load_result) i' : Prop :=
  match r with
  | LoadPending ls => load_ok (buffers i') offset size ls
  | LoadDone _ err => (err = None -> no_cleared (buffers i') offset size) /\ (remote_conflict err = true -> seen)
  end.

Lemma LoadRange_poll_ok offset size o n i :
  Inv (buffers i) -> no_disk (buffers i) -> no_cleared (buffers i) o n -> 0 <= o <= offset -> 0 < size -> offset + size <= o + n -> o + n < two64 ->
  wp (LoadRange_poll offset size) (fun r i' => i' = i /\ load_post (remote_conflict (readError i) = true) o n r i') i.
Proof using HBL.
  intros HI Hd Hc ? ? ? ?. unfold LoadRange_poll. wp_steps.
  destruct (GetData_runs (buffers i) offset size false) as (ds & ids & err & E); try done; try lia.
  { intros x b Eo Hx. apply (Hc x b Eo). unfold within in *. lia. }
  eapply wp_liftO; [done|]. destruct err as [[]|]; wp_steps; (split; [done|]); cbn; try (split_and!; done || lia).
  split; [done|]. by destruct (readError i).
Qed.

Lemma LoadRange_ok cur i offset size ra :
  ok cur i -> 0 <= offset -> (Size i <= offset \/ in_file (limit := limit) offset size) -> 0 <= ra < 4611686018427387904 -> load_guard i ->
  wp (LoadRange flags env offset size ra) (fun r i' => ok cur i' /\ loads i i' /\ load_post (load_conflict i) offset size r i' /\
    (Size i <= offset -> r = LoadDone false None)) i.
Proof using Type*.
  intros Hok Hoff Hin Hra Hg. pose proof HMt as []. pose proof Hok as []. pose proof limit_range.
  assert (Hself : loads i i) by (unfold loads; split_and!; try done; by apply effect_refl).
  assert (Habove : forall n, (forall x b, owner (buffers i) x = Some b -> within offset n x -> x < Size i -> b_state b <> BUF_FL_CLEARED) ->
    no_cleared (buffers i) offset n).
  { intros n Hn x b Eo Hx Es. apply (Hn x b Eo Hx); [|done]. apply (ok_bound0 x b Eo). by rewrite Es. }
  unfold LoadRange. wp_steps. destruct (Z.leb_spec (Size i) offset) as [Hle|Hlt].
  { wp_steps. split_and!; try done. split; [|done]. intros _. apply Habove. intros x b _ [? ?] ?. lia. }
  destruct Hin as [?|(_ & Hs & Hl)]; [lia|]. u64s.
  set (sz := if Size i <=? offset + size then Size i - offset else size).
  assert (Hsz : 0 < sz <= size /\ offset + sz <= Size i /\ (sz < size -> offset + sz = Size i)).
  { unfold sz. destruct (Z.leb_spec (Size i) (offset + size)); lia. }
  set (ra1 := if sz <? ra then ra else sz).
  assert (Hra1 : sz <= ra1 < 4611686018427387904) by (unfold ra1; destruct (Z.ltb_spec sz ra); lia). u64s.
  set (ra2 := if Size i <? offset + ra1 then Size i - offset else ra1).
  assert (Hra2 : sz <= ra2 /\ offset + ra2 <= Size i).
  { unfold ra2. destruct (Z.ltb_spec (Size i) (offset + ra1)); lia. }
  destruct (GetHoles offset ra2 (buffers i)) as [[holes loading] fc] eqn:EH.
  pose proof (GetHoles_spec (buffers i) offset ra2 holes loading fc ok_list0 ltac:(lia) ltac:(lia) ltac:(lia) EH) as [Ho1 Ho2 _ Ho4].
  destruct fc; [wp_steps; split_and!; done || lia|].
  assert (Hnc : no_cleared (buffers i) offset size).
  { apply Habove. intros x b Eo [Hx1 Hx2] Hxs Es. assert (false = true); [apply Ho4|done]. exists x, b.
    split; [|split; [done|by apply is_state_true]]. destruct (decide (sz < size)); lia. }
  apply wp_bind. apply wp_mono with (fun err i1 => ok cur i1 /\ loads i i1 /\ (err <> None -> load_conflict i)).
  { case_bool_decide as Hh; cbn [negb]; [by wp_steps|]. wp_use loadFromServer_ok; [done|done|done|lia|lia|lia| |done|].
    - intros x Hx. by apply Ho2.
    - intros err i1 (? & ? & He). split_and!; try done. intros Hne. right. by apply He. }
  intros err i1 (Hok1 & Hl1 & He). destruct err as [e|]; [wp_steps; split_and!; try (done || lia); cbn [load_post]; split; [done|intros _; by apply He]|]. rewrite mt_disk0. wp_steps.
  pose proof Hl1 as (Hq & Es1 & _ & _ & _ & Ek1 & _ & _ & Er1).
  assert (Hnc1 : no_cleared (buffers i1) offset size) by (eapply effect_cleared; [exact Hq|by intros x _ []|exact Hnc]).
  pose proof Hok1 as []. unfold LoadRange_wait. destruct (_ || loading); wp_steps; [|split_and!; try (done || lia); cbn [load_post]; by split].
  wp_use (LoadRange_poll_ok offset sz offset size); [done|done|done|lia..|]. intros r i2 [-> Hp]. split_and!; try (done || lia). destruct r as [miss err|]; [|done]. destruct Hp as [Hp1 Hp2]. split; [done|]. intros Hc. left.
  rewrite <- Er1. by apply Hp2.
Qed.
(** ** The goroutine that reads from the server *)

(** The goroutines in the middle of a section, after it: [t] is the next stage, if there is one. *)
Definition resumed (t : option task) (cur : list task) : list task := match t with Some t => t :: cur | None => cur end.

Lemma ok_head cur i t : ok (t :: cur) i -> task_ok (limit := limit) flags i t.
Proof using HBL. intros []. apply ok_tasks0. constructor. Qed.

(** A goroutine releases its lock and ends. *)
Lemma ok_unlock cur i t o s f :
  ok (t :: cur) i -> task_locks t = [Locks.mkRR o s f] ->
  ok cur (set_readRanges (Locks.UnlockRange o s f (readRanges i)) (set_IsFlushing (IsFlushing i - weight flags t) (set_pauseWriters (pauseWriters i - pauses t) i))).
Proof using Type*.
  intros Hok El. pose proof HMt as []. eapply ok_pop; [done|exact Hok|done|done| |done].
  rewrite El. cbn. apply Locks.UnlockRange_perm. eapply task_lock_held; [exact Hok|by left|]. rewrite El. constructor.
Qed.

Lemma retryRead_finish_ok cur i key o s st allocated err :
  ok (TRead key o s st :: cur) i -> st <> ReadStart ->
  wp (retryRead_finish flags o s allocated err) (fun r i' => r = None /\ ok cur i') i.
Proof using Type*.
  intros Hok Hst. pose proof HMt as []. pose proof Hok as []. pose proof limit_range.
  destruct (ok_head _ _ _ Hok) as [(? & ? & ?) _].
  unfold retryRead_finish, Use, UnlockRange. apply wp_bind, wp_modS, wp_bind, wp_on_buffers.
  wp_use (RemoveLoading_effect (buffers i) o s); [done|done|lia..|]. intros _ l' He. wp_steps. split; [done|].
  assert (Hok' : ok (TRead key o s st :: cur) (set_buffers l' i)) by (by apply ok_quiet).
  assert (Hl : task_locks (TRead key o s st) = [Locks.mkRR o s false]) by (by destruct st).
  pose proof (ok_unlock cur _ _ _ _ _ Hok' Hl) as Hok2. eapply ok_same; [exact Hok2| |done]. unfold core. cbn. do 2 f_equal; [f_equal|]; lia.
Qed.

Lemma retryRead_start_ok cur i key o s enomem :
  ok (TRead key o s ReadStart :: cur) i ->
  wp (retryRead_start flags o s enomem) (fun r i' => ok (resumed (TRead key o s <$> r) cur) i') i.
Proof using Type*.
  intros Hok. pose proof HMt as []. pose proof Hok as []. pose proof limit_range.
  destruct (ok_head _ _ _ Hok) as [(? & ? & ?) _].
  assert (Hpop : ok cur i) by (eapply ok_pop; [done|exact Hok|done|cbn; lia|done|cbn; lia]).
  unfold retryRead_start. destruct (UseEnomem flags && enomem).
  - apply wp_bind, wp_modS, wp_bind, wp_on_buffers. wp_use (RemoveLoading_effect (buffers i) o s); [done|done|lia..|].
    intros _ l' He. wp_steps. eapply ok_quiet; [same_core Hpop|done].
  - assert (Hgo : forall j, core j = core i -> tasks j = tasks i ->
      wp (LockRange o s false ;;; ret (Some (ReadRequest o s 0 1))) (fun r i' => ok (resumed (TRead key o s <$> r) cur) i') j).
    { intros j Ec Et. unfold LockRange, Locks.LockRange. wp_steps. injection Ec as E1 E2 E3 E4 E5 E6 E7 E8.
      eapply (ok_push _ cur i); [done|..]; unfold core in *; cbn; rewrite ?E1, ?E2, ?E3, ?E4, ?E5, ?E6, ?E7, ?E8, ?Et; try done; try lia.
      - split; [done|]. split_and!; lia.
      - by rewrite Permutation_app_comm.
      - intros r. cbn. rewrite ?E7, elem_of_app, list_elem_of_singleton. intros [Hr| ->]; [by apply ok_ranges0|cbn; lia]. }
    destruct (UseEnomem flags); [apply wp_bind, wp_modS|apply wp_bind, wp_ret]; by apply Hgo.
Qed.

Lemma retryRead_failed_ok cur i key o s st curOffset curSize allocated attempt e :
  ok (TRead key o s st :: cur) i -> st <> ReadStart -> read_ok o s (ReadRequest curOffset curSize allocated attempt) ->
  wp (retryRead_failed flags o s curOffset curSize allocated attempt e) (fun r i' => ok (resumed (TRead key o s <$> r) cur) i') i.
Proof using Type*.
  intros Hok Hst Hr. unfold retryRead_failed. destruct (_ && _).
  - wp_steps. destruct (ok_head _ _ _ Hok) as [? _].
    eapply ok_swap; [exact Hok|done|by destruct st|done|by split].
  - wp_use retryRead_finish_ok; [done|done|]. by intros r i' [-> ?].
Qed.

Lemma sendRead_response_ok cur i key o s curOffset curSize allocated attempt err :
  ok (TRead key o s (ReadRequest curOffset curSize allocated attempt) :: cur) i ->
  wp (sendRead_response flags o s curOffset curSize allocated attempt err) (fun r i' => ok (resumed (TRead key o s <$> r) cur) i') i.
Proof using Type*.
  intros Hok. destruct (ok_head _ _ _ Hok) as [Hf Hr].
  unfold sendRead_response. destruct err as [e|]; [by eapply retryRead_failed_ok|]. destruct (Z.ltb_spec 0 curSize).
  - wp_steps. eapply ok_swap; [exact Hok|done..|]. split; [done|]. cbn in *. lia.
  - wp_use retryRead_finish_ok; [done|done|]. by intros r i' [-> ?].
Qed.

Lemma sendRead_chunk_ok cur i key o s curOffset curSize allocated attempt chunkOffset rest totalDone head chunk :
  ok (TRead key o s (ReadBody curOffset curSize allocated attempt chunkOffset rest totalDone) :: cur) i ->
  (forall buf, chunk = inl buf -> zlen buf = chunk_size rest) ->
  wp (sendRead_chunk flags env o s curOffset curSize allocated attempt chunkOffset rest totalDone head chunk)
    (fun r i' => ok (resumed (TRead key o s <$> r) cur) i') i.
Proof using Type*.
  intros Hok Hc. pose proof HMt as []. pose proof Hok as []. pose proof limit_range.
  destruct (ok_head _ _ _ Hok) as [(? & ? & ?) (? & ? & ? & ? & ? & ?)].
  unfold sendRead_chunk. destruct chunk as [buf|e].
  2: { eapply retryRead_failed_ok; [done|done|]. cbn. u64s. lia. }
  specialize (Hc buf eq_refl). assert (Hlen : 0 < zlen buf <= rest).
  { rewrite Hc. unfold chunk_size, READ_BUF_SIZE. destruct (Z.ltb_spec (128 * 1024) rest); lia. }
  unfold mod_attrs. apply wp_bind, wp_modS, wp_bind, wp_on_buffers. wp_use (Add_clean_effect (buffers i) chunkOffset buf []); [done|done|lia..|].
  intros n l' He.
  match goal with |- wp _ _ ?j => assert (Hok' : ok (TRead key o s (ReadBody curOffset curSize allocated attempt chunkOffset rest totalDone) :: cur) j) end.
  { eapply ok_quiet; [same_core Hok|done]. }
  u64s. destruct (Z.ltb_spec 0 (rest - zlen buf)).
  - apply wp_ret. eapply ok_swap; [exact Hok'|done..|]. cbn. unfold in_file. u64s. lia.
  - wp_use retryRead_finish_ok; [exact Hok'|done|]. by intros r i' [-> ?].
Qed.
(** ** Reading *)

(** A goroutine goes on to a stage that pauses writers, or no longer does. *)
Lemma ok_restage cur i i' t t' :
  ok (t :: cur) i -> weight flags t' = weight flags t -> task_locks t' = task_locks t -> task_ok (limit := limit) flags i t' ->
  (buffers i', Size i', knownSize i', lastWriteEnd i', mpu i', IsFlushing i', readRanges i', tasks i') =
  (buffers i, Size i, knownSize i, lastWriteEnd i, mpu i, IsFlushing i, readRanges i, tasks i) ->
  pauseWriters i' = pauseWriters i + pauses t' - pauses t -> ok (t' :: cur) i'.
Proof using HBL.
  intros [] Ew El Ht [= E1 E2 E3 E4 E5 E6 E7 E8] Ep. unfold goroutines in *. cbn in *.
  split; unfold goroutines; cbn; rewrite ?E1, ?E2, ?E3, ?E4, ?E5, ?E6, ?E7, ?E8, ?Ew, ?El; try done; try lia.
  - unfold locks_ok. by rewrite E7.
  - intros u [->|Hu]%elem_of_cons; (eapply task_ok_same; [done..|]); [done|]. apply ok_tasks0. by constructor.
Qed.

(** A call of [ReadFile] in the middle of a section: it holds its lock. *)
Definition reading (o s : Z) : task := TRead (0, []) o s (ReadRequest o s 0 0).
Lemma reading_ok i o s : in_file (limit := limit) o s -> task_ok (limit := limit) flags i (reading o s).
Proof using Type*. intros (? & ? & ?). cbn. unfold in_file. lia. Qed.

Definition check_post (seen : Prop) (cur : list task) (o s ra : Z) (r : check_result) i' : Prop :=
  match r with
  | CheckPending st => ok (TReadFile o s ra st :: cur) i'
  | CheckDone _ err => ok (reading o s :: cur) i' /\ (err = None -> no_cleared (buffers i') o s) /\ (remote_conflict err = true -> seen)
  end.

Lemma check_first_ok seen cur i o s ra r :
  ok (reading o s :: cur) i -> 0 <= ra < 4611686018427387904 -> load_post seen o s r i ->
  wp (check_first r) (check_post seen cur o s ra) i.
Proof using Type*.
  intros Hok Hra Hp. destruct (ok_head _ _ _ Hok) as [Hf _]. unfold check_first. destruct r as [miss err|ls].
  - case_bool_decide; wp_steps; [|done]. eapply ok_restage; [exact Hok|done|done|done|done|cbn; lia].
  - wp_steps. eapply ok_swap; [exact Hok|done..|]. done.
Qed.

Lemma check_again_ok (seen : Prop) cur i o s ra st err :
  ok (TReadFile o s ra st :: cur) i -> pauses (TReadFile o s ra st) = 1 -> (err = None -> no_cleared (buffers i) o s) -> (remote_conflict err = true -> seen) ->
  wp (check_again err) (check_post seen cur o s ra) i.
Proof using Type*.
  intros Hok Hp Hc Hs. destruct (ok_head _ _ _ Hok) as (Hf & Hra & _). unfold check_again. case_bool_decide; wp_steps.
  - eapply ok_swap; [exact Hok|done|done|by rewrite Hp|done].
  - split; [|done]. eapply ok_restage; [exact Hok|done|done|by apply reading_ok|done|]. rewrite Hp. cbn. lia.
Qed.

Lemma check_reload_ok (seen : Prop) cur i o s ra st r :
  ok (TReadFile o s ra st :: cur) i -> pauses (TReadFile o s ra st) = 1 -> load_post seen o s r i ->
  wp (check_reload r) (check_post seen cur o s ra) i.
Proof using Type*.
  intros Hok Hp Hr. destruct (ok_head _ _ _ Hok) as (Hf & Hra & _). unfold check_reload. destruct r as [miss err|ls].
  - destruct Hr. by eapply check_again_ok.
  - wp_steps. eapply ok_swap; [exact Hok|done|done|by rewrite Hp|done].
Qed.

Lemma LoadRange_resume_ok o s ls i :
  Inv (buffers i) -> no_disk (buffers i) -> load_ok (buffers i) o s ls -> 0 <= o -> o + s < two64 ->
  wp (LoadRange_resume ls) (fun r i' => i' = i /\ load_post (load_conflict i) o s r i) i.
Proof using HBL.
  intros HI Hd Hl ? ?. destruct ls as [|offset size]; [done|]. destruct Hl as (? & ? & ? & ?). cbn [LoadRange_resume].
  wp_use (LoadRange_poll_ok offset size o s); [done..|lia|lia|lia|lia|]. intros r i' [-> Hp]. split; [done|]. destruct r; [|done]. destruct Hp. split; [done|by left; auto].
Qed.

Lemma CheckLoadRange_resume_ok cur i o s ra st syncErr :
  ok (TReadFile o s ra st :: cur) i -> load_guard i ->
  wp (CheckLoadRange_resume flags env o s ra st syncErr) (check_post (remote_conflict syncErr = true \/ load_conflict i) cur o s ra) i.
Proof using Type*.
  intros Hok Hg. pose proof HMt as []. pose proof limit_range. destruct (ok_head _ _ _ Hok) as (Hf & Hra & Hst). pose proof Hf as (? & ? & ?).
  pose proof Hok as []. unfold CheckLoadRange_resume. destruct st as [ls| |ls].
  - apply wp_bind. wp_use (LoadRange_resume_ok o s); [done|done|done|lia|lia|]. intros r i' [-> Hp]. apply check_first_ok; [|done|].
    2: { destruct r; [|done]. destruct Hp. split; auto. }
    eapply ok_swap; [exact Hok|done|done|done|by apply reading_ok].
  - destruct syncErr as [e|]; [eapply check_again_ok; [done..|by left]|]. apply wp_bind. wp_use LoadRange_ok; [exact Hok|lia|by right|lia|done|].
    intros r i' (Hok' & _ & Hp & _). eapply check_reload_ok; [done..|]. destruct r; [|done]. destruct Hp. split; auto.
  - apply wp_bind. wp_use (LoadRange_resume_ok o s); [done|done|done|lia|lia|]. intros r i' [-> Hp]. eapply check_reload_ok; [done..|]. destruct r; [|done]. destruct Hp. split; auto.
Qed.

Lemma ReadFile_loaded_ok (seen : Prop) cur i o s ra r :
  check_post seen cur o s ra r i -> (seen -> resets) -> in_file (limit := limit) o s ->
  wp (ReadFile_loaded flags env o s ra r) (fun r i' => ok (resumed (read_next r) cur) i') i.
Proof using Type*.
  intros Hp HR Hf. pose proof Hf as (? & ? & ?). pose proof HMt as []. pose proof limit_range. unfold ReadFile_loaded, UnlockRange.
  assert (Hun : forall j, ok (reading o s :: cur) j -> ok cur (set_readRanges (Locks.UnlockRange o s false (readRanges j)) j)).
  { intros j Hj. pose proof (ok_unlock cur j (reading o s) o s false Hj eq_refl) as Hj2. eapply ok_same; [exact Hj2| |done].
    unfold core. cbn. repeat f_equal; lia. }
  destruct r as [miss [e|]|st]; [| |by wp_steps].
  - destruct Hp as (Hok & _ & Hc). apply wp_bind. apply wp_mono with (fun _ i' => ok (reading o s :: cur) i').
    { destruct (remote_conflict _); [|by wp_steps]. assert (HM : May resets) by (by apply HR, Hc). wp_use resetCache_ok; [done|]. by intros _ i' (? & _). }
    intros _ i' Hok'. wp_steps. by apply Hun.
  - destruct Hp as (Hok & Hc & _). pose proof Hok as []. wp_steps.
    destruct (GetData_runs (buffers i) o s false) as (ds & ids & err & E); [done|done|by apply Hc|lia..|].
    eapply wp_liftO; [done|]. wp_steps. destruct err; wp_steps; by apply Hun.
Qed.

Lemma ReadFile_resume_ok cur i o s ra st syncErr :
  ok (TReadFile o s ra st :: cur) i -> load_guard i -> (remote_conflict syncErr = true \/ load_conflict i -> resets) ->
  wp (ReadFile_resume flags env o s ra st syncErr) (fun r i' => ok (resumed (read_next r) cur) i') i.
Proof using Type*.
  intros Hok Hg HR. destruct (ok_head _ _ _ Hok) as (Hf & _ & _). unfold ReadFile_resume. apply wp_bind.
  wp_use CheckLoadRange_resume_ok; [done|done|]. intros r i' Hp. by eapply ReadFile_loaded_ok.
Qed.

Lemma ReadFile_ok cur i fh off len :
  ok cur i -> load_guard i -> (load_conflict i -> resets) -> 0 <= off < 9223372036854775808 -> 0 < len < 9223372036854775808 ->
  wp (ReadFile flags env fh off len) (fun r i' => ok (resumed (read_next r.1) cur) i') i.
Proof using Type*.
  intros Hok Hg HR ? ?. pose proof HMt as []. pose proof limit_range. pose proof Hok as []. unfold ReadFile. wp_steps. u64s.
  destruct (Z.leb_spec (Size i) off) as [|Hlt]; wp_steps; [done|]. u64s. unfold LockRange, Locks.LockRange. wp_steps.
  set (s := if Size i <? off + len then Size i - off else len). set (ra := ReadAhead.getReadAhead (read_flags flags) fh).
  assert (Hf : in_file (limit := limit) off s) by (unfold in_file, s; destruct (Z.ltb_spec (Size i) (off + len)); lia).
  match goal with |- wp _ _ ?j => assert (Hok' : ok (reading off s :: cur) j) end.
  { eapply (ok_push _ cur i); [done|by apply reading_ok|done|cbn; lia|cbn; lia|cbn; symmetry; apply Permutation_cons_append| |cbn; lia].
    intros r. cbn. rewrite elem_of_app, list_elem_of_singleton. destruct Hf as (? & ? & ?). intros [Hr| ->]; [by apply ok_ranges0|cbn; lia]. }
  unfold CheckLoadRange. wp_steps. wp_use LoadRange_ok; [exact Hok'|lia|by right|by apply mt_ahead0|done|].
  intros r i1 (Hok1 & _ & Hp & _). wp_use (check_first_ok _ cur i1 off s ra); [exact Hok1|by apply mt_ahead0|exact Hp|].
  intros c i2 Hp2. apply wp_bind. wp_use ReadFile_loaded_ok; [exact Hp2|exact HR|done|]. intros res i3 Hok3. by wp_steps.
Qed.
(** ** Resizing, writing, evicting *)

Definition resize_post (cur : list task) (n : Z) (r : resize_result) i' : Prop :=
  r <> ResizeBlocked /\ ok (resumed (resize_next n r) cur) i'.

(** The size is set after the buffers past it were removed. *)
Lemma ok_cut cur i n l' :
  ok cur i -> 0 <= n < Size i -> IsRangeLocked n (Size i - n) true i = false ->
  effect (limit := limit) nowhere nowhere nowhere (within n (Size i - n)) (buffers i) l' -> (forall x, within n (Size i - n) x -> owner l' x = None) ->
  (forall x, n <= x < Size i -> lost x) -> ok cur (set_Size n (set_buffers l' i)).
Proof using Type*.
  intros Hok Hn El He Hno HL. pose proof Hok as []. pose proof limit_range. eapply ok_buffers; try done; [lia|by intros r x _ _ []|by intros _ x []| | |].
  - intros x b' Eo Hc. destruct (quiet_origin _ _ _ _ (ef_own _ _ _ _ _ _ He x b' Eo)) as [(b & Eb & Es & _)|[Es _]]; [|done].
    assert (x < Size i) by (apply (ok_bound0 x b Eb); congruence). destruct (decide (n <= x)); [|lia].
    rewrite Hno in Eo; [done|]. unfold within. lia.
  - intros part o s p st Hin Hm Ho. destruct (decide (n <= o)); [|lia]. exfalso. rewrite <- not_true_iff_false in El. apply El.
    destruct (ok_tasks0 _ Hin) as (_ & (? & ? & ?) & _). apply IsRangeLocked_iff; [done|lia..|].
    exists (Locks.mkRR o s true), o. split; [eapply task_lock_held; [exact Hok|exact Hin|constructor]|]. cbn. split_and!; try done; lia.
  - intros x [[]|[[]|[? ?]]]. apply HL. lia.
Qed.
(** When the file has become shorter than the new size during the wait, the
    range to remove is empty and ends before it starts; then no buffer may
    reach from before its end to behind its start. *)
Definition resize_guard i (n : Z) : Prop := n < Size i \/ forall b, owner (buffers i) n = Some b -> Size i <= b_offset b.

Lemma Resize_loop_ok cur i n :
  ok cur i -> 0 <= n <= limit -> resize_guard i n -> (forall x, n <= x < Size i -> lost x) ->
  wp (Resize_loop n) (fun r i' => resize_post cur n r i' /\ tasks i' = tasks i) i.
Proof using Type*.
  intros Hok Hn Hg HL. pose proof Hok as []. pose proof limit_range. unfold Resize_loop, Use, resize_post. wp_steps.
  destruct (IsRangeLocked n (Size i -u n) true i || AnyFlushed n (Size i -u n) (buffers i)) eqn:El; wp_steps.
  { split_and!; try done. eapply (ok_push _ cur i); try done; cbn; lia. }
  apply orb_false_iff in El as [El _]. apply wp_on_buffers. destruct (Z.ltb_spec n (Size i)) as [Hlt|Hge].
  - u64s. wp_use (RemoveRange_effect (buffers i) n (Size i - n)); [done|done|lia..|]. intros a l' [He Hno]. wp_steps.
    split_and!; try done. assert (Hok' : ok cur (set_Size n (set_buffers l' i))) by (eapply ok_cut; [done|lia|done..]). same_core Hok'.
  - pose proof HMt as []. wp_use (RemoveRange_nothing (buffers i) n (Size i -u n) None (Size i)); [done|lia| | |].
    { rewrite u64_add_u64. replace (n + (Size i - n)) with (Size i) by lia. u64s. done. }
    { intros k b Hk Hlo. destruct (decide (b_offset b <= n)); [|lia]. destruct Hg as [?|Hg]; [lia|]. apply Hg, (owner_lookup _ n b (inv_shape _ ok_list0)). by exists k. }
    intros a l' [-> ->]. wp_steps. split_and!; try done. assert (Hok' : ok cur (set_Size n (set_buffers (buffers i) i))).
    { eapply ok_buffers; [done|by apply (effect_refl nowhere nowhere nowhere nowhere)|done|by intros r x _ _ []|by intros _ x []| |intros; lia|by intros x [[]|[[]|[]]]].
      intros x b Eo Hc. assert (x < Size i) by (by eapply ok_bound0). lia. }
    same_core Hok'.
Qed.

Lemma ResizeUnlocked_ok cur i n :
  ok cur i -> 0 <= n <= limit -> (forall x, Z.min n (Size i) <= x < Z.max n (Size i) -> lost x) ->
  wp (ResizeUnlocked n) (fun r i' => ok (resumed (resize_next n r) cur) i' /\
    (pauseWriters i <= 0 -> Size i <= n -> r = ResizeDone /\ Size i' = n) /\ tasks i' = tasks i) i.
Proof using Type*.
  intros Hok Hn HL. pose proof Hok as []. pose proof limit_range. unfold ResizeUnlocked, Use. wp_steps. destruct (Z.ltb_spec 0 (pauseWriters i)); wp_steps; [split_and!; [done|lia|done]|].
  destruct (Z.ltb_spec n (Size i)) as [Hlt|Hge].
  - wp_use Resize_loop_ok; [done|done|by left|intros x ?; apply HL; lia|]. intros r i' ([? ?] & ?). split_and!; [done|lia|done].
  - destruct (Z.ltb_spec (Size i) n); wp_steps.
    + u64s. apply wp_on_buffers. wp_use (ZeroRange_effect (buffers i) (Size i) (n - Size i)); [done|done|lia..|].
      intros [z a] l' He. wp_steps. split_and!; try done.
      assert (Hok' : ok cur (set_Size n (set_buffers l' i))); [|same_core Hok'].
      eapply ok_buffers; try done; [by intros r x _ _ []|by intros _ x []| |intros; lia|intros x [[? ?]|[[]|[]]]; apply HL; lia].
      intros x b' Eo Hc. destruct (ef_own _ _ _ _ _ _ He x b' Eo) as [b E0 Es _ _ _|[? ?] _ _|Es _|b [] _ _ _ _ _|b [] _ _ _ _]; [|lia|done].
      assert (x < Size i) by (apply (ok_bound0 x b E0); congruence). lia.
    + split_and!; try done. cbn. assert (n = Size i) as -> by lia. same_core Hok.
Qed.

Lemma Resize_synced_ok cur i n :
  ok (TResize n :: cur) i -> resize_guard i n -> (forall x, n <= x < Size i -> lost x) ->
  wp (Resize_synced n) (fun r i' => ok (resumed (resize_next n r) cur) i') i.
Proof using Type*.
  intros Hok Hg HL. pose proof HMt as []. pose proof (ok_head _ _ _ Hok) as Hn. cbn in Hn. unfold Resize_synced. wp_steps.
  wp_use Resize_loop_ok; [|done|exact Hg|done|by intros r i' ([_ ?] & _)]. eapply ok_pop; [done|exact Hok|done|cbn; lia|done|done].
Qed.

Lemma WriteFile_body_ok cur i off (data spare : list byte) copyData :
  ok cur i -> 0 <= off -> 0 < zlen data -> off + zlen data <= limit -> (forall x, Z.min off (Size i) <= x < off + zlen data -> lost x) ->
  wp (WriteFile_body flags off data spare copyData) (fun _ i' => ok cur i' /\ tasks i' = tasks i) i.
Proof using Type*.
  intros Hok Hoff Hd Hlim HL. pose proof limit_range. unfold WriteFile_body. wp_steps. u64s.
  destruct (Z.ltb_spec 0 (pauseWriters i)); wp_steps; [done|].
  apply wp_mono with (fun _ i1 => ok cur i1 /\ off + zlen data <= Size i1 /\ tasks i1 = tasks i).
  { destruct (Z.ltb_spec (Size i) (off + zlen data)); [|by wp_steps]. wp_use ResizeUnlocked_ok; [done|lia|intros x ?; apply HL; lia|].
    intros r i1 (Hok1 & Hr & Ht). destruct Hr as [-> Es]; [done|lia|]. split_and!; [done|lia|done]. }
  intros _ i1 (Hok1 & Hs & Ht). pose proof Hok1 as []. wp_steps. apply wp_on_buffers.
  wp_use (Add_dirty_effect (buffers i1) off data spare copyData); [done..|]. intros a l' He.
  assert (Hok2 : ok cur (set_buffers l' i1)).
  { eapply ok_effect; [done|done|intros x [? ?]; lia|by intros _ x []|intros x [[? ?]|[[]|[]]]; apply HL; lia]. }
  wp_steps. unfold WakeupFlusher, mod_attrs, Use.
  match goal with |- wp _ _ ?j => assert (Hok3 : ok cur j) end.
  { pose proof Hok2 as []. split; try done. cbn. lia. }
  apply wp_mono with (fun _ i3 => ok cur i3 /\ tasks i3 = tasks i).
  { case_bool_decide; [|by wp_steps]. wp_use SetCacheState_ok; [exact Hok3|]. intros _ i3 (? & _ & Et). by rewrite Et. }
  intros _ i3 [Hok4 Ht4]. wp_steps. split; [same_core Hok4|done].
Qed.

Lemma WriteFile_ok cur i off (data spare : list byte) copyData enomem :
  ok cur i -> 0 <= off < 9223372036854775808 -> 0 < zlen data < 9223372036854775808 ->
  (forall x, Z.min off (Size i) <= x < off + zlen data -> lost x) ->
  wp (WriteFile flags off data spare copyData enomem) (fun _ i' => ok cur i' /\ tasks i' = tasks i) i.
Proof using Type*.
  intros Hok Hoff Hd HL. pose proof HMt as []. unfold WriteFile, WriteFile_reserve, WriteFile_check, Use. wp_steps. u64s. rewrite <- mt_limit0.
  destruct (Z.ltb_spec limit (off + zlen data)); wp_steps; [done|].
  assert (Hrest : forall j, core j = core i -> tasks j = tasks i ->
    wp (WriteFile_body flags off data spare copyData)
      (fun d => wp (ret (if d : bool then WriteDone else WriteBlocked)) (fun _ i' => ok cur i' /\ tasks i' = tasks i)) j).
  { intros j Ec Et. wp_use WriteFile_body_ok; [|lia|lia|lia| |].
    - eapply ok_same; [exact Hok|done|]. unfold goroutines. by rewrite Et.
    - injection Ec as _ -> _ _ _ _ _ _. done.
    - intros d i' [? Et']. wp_steps. by rewrite Et', Et. }
  destruct (UseEnomem flags); [destruct enomem|]; wp_steps; [done| |]; destruct (in_state _ _); cbn beta iota; wp_steps;
    try (split; [same_core Hok|done]); by apply Hrest.
Qed.

Lemma evict_one_ok cur i k toDisk :
  ok cur i -> toDisk = false -> wp (evict_one k toDisk) (fun _ i' => ok cur i' /\ tasks i' = tasks i) i.
Proof using Type*.
  intros Hok ->. pose proof Hok as []. pose proof limit_range. unfold evict_one, Use. wp_steps. unfold Get. rewrite <- bt_map_lookup. fold (bufs (buffers i)).
  destruct (bufs (buffers i) !! k) as [b|] eqn:Hk; wp_steps; [|done]. apply wp_on_buffers.
  pose proof (sh_ok _ (inv_shape _ ok_list0) k b Hk) as (? & ? & ? & ?).
  destruct (IsRangeLocked (b_offset b) (b_len b) false i) eqn:El.
  - apply wp_mono with (fun _ l' => l' = buffers i); [|intros a l' ->; wp_steps; split; [same_core Hok|done]].
    unfold evictClean, Get. wp_steps. rewrite <- bt_map_lookup. fold (bufs (buffers i)). rewrite Hk, andb_false_r. by wp_steps.
  - wp_use (evict_effect (buffers i) k); [done|done|]. intros a l' He. wp_steps. split; [|done].
    assert (Hok' : ok cur (set_Size (Size i) (set_buffers l' i))); [|same_core Hok'].
    eapply ok_buffers; try done; [| | |by intros x [[]|[[]|[]]]].
    + intros r x Hr Hx (b' & Hb' & Hxb). assert (b' = b) as -> by congruence. rewrite <- not_true_iff_false in El. apply El.
      apply IsRangeLocked_iff; [done|lia..|]. exists r, x. split_and!; try done; unfold within in Hx; lia.
    + by intros _ x [].
    + intros x b' Eo Hc. destruct (ef_own _ _ _ _ _ _ He x b' Eo) as [b0 E0 Es _ _ _|[] _ _|Es _|b0 [] _ _ _ _ _|b0 _ E0 Es _ _]; [|done|].
      * apply (ok_bound0 x b0 E0). congruence.
      * apply (ok_bound0 x b0 E0). by rewrite Es.
Qed.
End steps.
End FileSteps.
