(* ===== verification/FlushSteps.v ===== *)
(** * Flushing keeps the invariant of a file

    Every section of [Upload], run on a file that satisfies [FileInv.ok], ends
    without a panic and leaves a file that satisfies it. *)

From stdpp Require Import strings.
From S2P Require Import Prelude BTree Parts BufferList BufferListInv BufferListView.
From S2P Require Import BufferListRemove BufferListAdd BufferListRead BufferListState BufferListSpec.
From S2P Require Import Locks Errors ReadAhead Attrs Inode FileIO Upload Machine ListEffect FileSpec FileInv FileSteps.

Module FlushSteps.
Import Errors BufferList BufferListInv BufferListView BufferListRemove BufferListAdd BufferListRead BufferListState BufferListSpec.
Import Inode FileIO Upload Machine ListEffect FileSpec FileInv FileSteps.
Section steps.
Context {M : Type -> Type} `{HBT : BTreeMap M} `{HBL : !BTreeMapLaws M} {Q : Type} `{HQ : BufferListHelpers Q}.
Context {limit : Z} `{HLaws : !BufferListHelpersLaws Q limit}.
Context (flags : Flags) (env : Env) (HMt : mount_ok Q limit flags).
Context {base : Z -> option byte} {lost : Z -> Prop} {resets : Prop}.
Abbreviation I := (Inode M Q).
Abbreviation Inv := (@Inv M HBT Q HQ limit HLaws).
Abbreviation Max := (MaxParallelParts flags).
Abbreviation partRange := (partRange (PartSizes flags)).
Abbreviation ok := (FileInv.ok (limit := limit) (base := base) (lost := lost) (resets := resets) flags).
Abbreviation loads := (loads (limit := limit)).
Abbreviation quiet := (effect (limit := limit) nowhere nowhere nowhere nowhere).
Implicit Types (l : bl M Q) (i : I) (x : Z) (t : task).

Ltac same_core H := eapply ok_same; [exact H|reflexivity|reflexivity].

Lemma quiet_loads i l' : quiet (buffers i) l' -> loads i (set_buffers l' i).
Proof using HBL. intros He. unfold loads. by split_and!. Qed.
Lemma quiet_cleared l l' o n : quiet l l' -> no_cleared l o n -> no_cleared l' o n.
Proof using HBL. intros He. eapply effect_cleared; [done|]. by intros x _ []. Qed.

(** ** The data of an upload *)

Lemma GetData_empty l rid : Inv l ->
  exists ds ids err, GetData 0 0 rid l = Ok (ds, ids, err) /\ (err = None -> ds = [] /\ ids = ∅).
Proof using HBL.
  intros HI. unfold GetData. change (0 +u 0) with 0. change (0 +u 1) with (0 + 1).
  destruct (bt_ascend (0 + 1) (l_at l)) as [|[k b] rest] eqn:E; cbn [GetData_loop].
  - cbn. eexists _, _, _. split; [done|auto].
  - destruct (walk_cons l 0 k b rest (inv_shape _ HI) E) as (_ & _ & (? & ? & ? & ?) & _).
    destruct (Z.ltb_spec 0 (b_offset b)); [cbn; eexists _, _, _; by split|].
    rewrite (proj2 (Z.leb_le 0 (b_offset b))) by lia. cbn. eexists _, _, _. split; [done|auto].
Qed.

(** What is sent, and the identifiers to acknowledge, after the buffers were split at the ends of the range. *)
Lemma GetData_sent l off n ds ids key :
  Inv l -> boundary l off -> boundary l (off + n) -> 0 <= off -> 0 < n -> off + n < two64 ->
  GetData off n true l = Ok (ds, ids, None) -> sent_ok l (mkSend key off n ds ids).
Proof using HBL.
  intros HI Hlo Hhi ? ? ? E. destruct (GetData_inv l off n true ds ids HI) as (Hlen & Hr & Hids); try done.
  pose proof (inv_shape _ HI) as HS. split_and!; [|done|]; cbn.
  - intros j (_ & _ & x & b & _ & Eo & <-)%Hids. apply (owner_lookup l x b HS) in Eo as (k & Hk & _).
    by apply (id_range _ _ (inv_ids _ HI) k b Hk).
  - intros x b Eo [Hne (_ & _ & x0 & b0 & Hx0 & Eo0 & Eid)%Hids].
    apply (owner_lookup l x b HS) in Eo as (k & Hk & Hx). apply (owner_lookup l x0 b0 HS) in Eo0 as (k0 & Hk0 & Hxk0).
    assert (k0 = k) as -> by (eapply (id_uniq _ _ (inv_ids _ HI)); [exact Hk0|exact Hk|done|congruence]).
    assert (b0 = b) as -> by congruence. destruct (boundary_inside l off (off + n) k b x0 HI Hlo Hhi Hk Hxk0 Hx0).
    assert (Hin : off <= x < off + n) by lia. split; [done|]. destruct (reads_bytes l off (concat ds) x Hr) as (v & -> & Hst); [lia|].
    unfold status_at in Hst. rewrite (owner_intro l x k b HS Hk Hx) in Hst. destruct (b_loading b); [done|].
    by destruct (buf_byte (l_ptrs l) b x); simplify_eq.
Qed.

Definition whole_range (off n : Z) : Prop := in_file (limit := limit) off n \/ off = 0 /\ n = 0.

Lemma getMultiReader_ok cur i off n :
  ok cur i -> whole_range off n -> no_cleared (buffers i) off n ->
  wp (getMultiReader off n) (fun r i' => ok cur i' /\ loads i i' /\
    match r with None => True | Some rq => rq_offset rq = off /\ rq_size rq = n /\ sent_ok (buffers i') rq end) i.
Proof using Type*.
  intros Hok Hr Hc. pose proof HMt as []. pose proof Hok as []. pose proof limit_range.
  assert (0 <= off /\ 0 <= n /\ off + n <= limit) by (destruct Hr as [(? & ? & ?)|[-> ->]]; lia).
  assert (B0 : boundary (buffers i) (-1)).
  { intros k b Hk. pose proof (sh_ok _ (inv_shape _ ok_list0) k b Hk) as (? & ? & ?). lia. }
  unfold getMultiReader. apply wp_bind, wp_on_buffers.
  wp_use (wp_conj _ _ _ _ (SplitAt_effect (buffers i) off ok_list0 ok_disk0 ltac:(lia) ltac:(lia)) (SplitAt_boundary (buffers i) off (-1) ok_list0 ltac:(lia) ltac:(lia) B0)).
  intros _ l1 [H1 [B1 _]]. u64s. apply wp_bind, wp_on_buffers. cbn [buffers set_buffers].
  wp_use (wp_conj _ _ _ _ (SplitAt_effect l1 (off + n) (ef_inv _ _ _ _ _ _ H1) (ef_disk _ _ _ _ _ _ H1) ltac:(lia) ltac:(lia))
    (SplitAt_boundary l1 (off + n) off (ef_inv _ _ _ _ _ _ H1) ltac:(lia) ltac:(lia) B1)).
  intros _ l2 [H2 [B2 B1']]. wp_steps. pose proof (quiet_trans _ _ _ H1 H2) as He. pose proof (ef_inv _ _ _ _ _ _ He) as HI2.
  assert (Hok' : ok cur (set_buffers l2 (set_buffers l1 i))) by (pose proof (ok_quiet flags cur i l2 Hok He) as Hq; same_core Hq).
  assert (Hld : loads i (set_buffers l2 (set_buffers l1 i))) by (unfold loads; by split_and!).
  cbn [buffers set_buffers].
  assert (Hrun : exists ds ids err, GetData off n true l2 = Ok (ds, ids, err) /\ (n = 0 -> err = None -> ds = [] /\ ids = ∅)).
  { destruct Hr as [(? & ? & ?)|[-> ->]].
    - destruct (GetData_runs l2 off n true) as (ds & ids & err & E); [done|apply He|by eapply quiet_cleared|lia..|]. exists ds, ids, err. split; [done|lia].
    - destruct (GetData_empty l2 true HI2) as (ds & ids & err & E & Hn). eauto. }
  destruct Hrun as (ds & ids & err & E & Hz). eapply wp_liftO; [done|]. destruct err as [e|]; wp_steps; [done|].
  split_and!; try done. cbn. destruct Hr as [(? & ? & ?)|[-> ->]]; [eapply GetData_sent; try done; lia|].
  destruct Hz as [-> ->]; try done. split_and!; [set_solver|done|]. intros x b _ [_ Hin]. set_solver.
Qed.
(** ** Uploading a part *)

(** After a section of [flushPart]: its next stage; when it has returned, the
    goroutine still holds its lock. *)
Definition part_post (cur : list task) (part o s p : Z) (r : option part_stage) i' : Prop :=
  ok (TPart part o s p (default PartStart r) :: cur) i'.

Lemma part_idle cur i part o s p st : ok (TPart part o s p st :: cur) i -> part_post cur part o s p None i.
Proof using Type*.
  intros Hok. destruct (ok_head _ _ _ _ Hok) as (? & ? & ? & ? & _). eapply ok_swap; [exact Hok|done..|]. by split_and!.
Qed.

Lemma flushPart_send_ok cur i part o s p st partSize full :
  ok (TPart part o s p st :: cur) i -> (mpu i = None \/ 0 < partSize <= s) ->
  wp (flushPart_send part partSize o full) (part_post cur part o s p) i.
Proof using Type*.
  intros Hok Hsz. destruct (ok_head _ _ _ _ Hok) as (Hpr & Hf & Hs & Hc & _). unfold flushPart_send. wp_steps.
  destruct (mpu i) as [m|] eqn:Em; wp_steps; [|by eapply part_idle]. destruct Hsz as [?|Hsz]; [done|].
  destruct Hf as (? & ? & ?). wp_use (getMultiReader_ok (TPart part o s p st :: cur) i o partSize); [done| | |].
  { left. unfold in_file. lia. }
  { intros x b Eo Hx. apply (Hc x b Eo). unfold within in *. lia. }
  intros r i' (Hok' & Hl & Hr). destruct r as [rq|]; wp_steps; [|by eapply part_idle].
  destruct Hr as (Eo & En & Hsent). destruct Hl as (Hq & Es & Ec & Em' & _).
  destruct (ok_head _ _ _ _ Hok') as (? & ? & ? & ? & _). eapply ok_swap; [exact Hok'|done..|]. cbn. split_and!; try done; try lia.
  - intros m' Hm'. congruence.
  - intros Hm. congruence.
Qed.

Lemma flushPart_loaded_ok (seen : Prop) cur i part o s p st partSize r :
  ok (TPart part o s p st :: cur) i -> (seen -> resets) ->
  (Size i <= o /\ r = LoadDone false None \/ 0 < partSize <= s /\ load_post seen o s r i) ->
  wp (flushPart_loaded flags env part partSize r) (part_post cur part o s p) i.
Proof using Type*.
  intros Hok HR Hr. destruct (ok_head _ _ _ _ Hok) as (Hpr & Hf & Hs & Hc & _). pose proof Hf as (? & ? & ?). pose proof HMt as [].
  unfold flushPart_loaded. destruct r as [miss err|ls].
  - case_bool_decide; [wp_steps; by eapply part_idle|]. destruct (remote_conflict err) eqn:Ec.
    { assert (HM : May resets) by (destruct Hr as [[_ [= _ ->]]|[_ [_ Hr]]]; [done|by apply HR, Hr]). wp_steps. wp_use (resetCache_ok flags env (resets := resets)); [exact Hok|]. intros _ i' (Hok' & _). wp_steps. by eapply part_idle. }
    destruct err as [e|]; [wp_steps; by eapply part_idle|]. apply wp_bind. eapply wp_liftO; [done|]. cbn beta iota. wp_steps.
    destruct (Z.leb_spec (Size i) o); cbn [orb]; wp_steps; [by eapply part_idle|]. destruct (negb _); wp_steps; [by eapply part_idle|].
    destruct Hr as [[? _]|[Hsz _]]; [lia|]. pose proof limit_range. u64s.
    apply flushPart_send_ok with st; [done|]. right. pose proof (ok_size _ _ _ Hok). destruct (Z.ltb_spec (Size i) (o + partSize)); u64s; lia.
  - wp_steps. destruct Hr as [[_ [=]]|[Hsz Hl]]. destruct ls as [|offset size]; [done|].
    eapply ok_swap; [exact Hok|done..|]. cbn in *. split_and!; try done; try lia.
Qed.

Lemma flushPart_ok cur i part o s p st :
  ok (TPart part o s p st :: cur) i -> load_guard i -> (load_conflict i -> resets) ->
  wp (flushPart flags env part) (part_post cur part o s p) i.
Proof using Type*.
  intros Hok Hg HR. destruct (ok_head _ _ _ _ Hok) as (Hpr & Hf & Hs & Hc & _). pose proof Hf as (? & ? & ?). pose proof HMt as []. pose proof limit_range.
  unfold flushPart. apply wp_bind. eapply wp_liftO; [done|]. cbn beta iota. wp_steps. u64s. pose proof (ok_size _ _ _ Hok).
  set (sz := if Size i <? o + s then Size i -u o else s).
  assert (Hsz : Size i <= o \/ 0 < sz <= s).
  { destruct (decide (Size i <= o)); [by left|right]. unfold sz. destruct (Z.ltb_spec (Size i) (o + s)); u64s; lia. }
  case_bool_decide.
  - apply wp_bind. wp_use LoadRange_ok; [exact HMt|exact Hok|lia| |lia|done|].
    { destruct Hsz; [by left|right]. unfold in_file. lia. }
    intros r i' (Hok' & Hl & Hp & Hd). apply flushPart_loaded_ok with (load_conflict i) st; [done|done|]. pose proof Hl as (_ & Es & _).
    destruct Hsz; [left; split; [lia|by apply Hd]|right; split; [done|]].
    destruct (ok_head _ _ _ _ Hok') as (_ & _ & _ & Hc' & _). destruct r as [miss err|[|offset size]]; cbn in *; [by destruct Hp|done|].
    destruct Hp as (? & ? & ? & _). split_and!; try done; lia.
  - apply flushPart_send_ok with st; [done|]. destruct Hsz; [left|by right]. destruct (mpu i) eqn:Em; [|done].
    exfalso. assert (o < Size i) by (by apply Hs). lia.
Qed.

Lemma flushPart_resume_ok cur i part o s p st :
  ok (TPart part o s p st :: cur) i -> load_guard i -> (load_conflict i -> resets) -> (forall rq full up, st <> PartUploading rq full up) ->
  wp (flushPart_resume flags env part st) (part_post cur part o s p) i.
Proof using Type*.
  intros Hok Hg HR Hst. pose proof HMt as []. pose proof limit_range. destruct (ok_head _ _ _ _ Hok) as (Hpr & Hf & Hs & Hc & Hp). pose proof Hf as (? & ? & ?).
  pose proof Hok as []. destruct st as [|psz ls|rq full up]; cbn [flushPart_resume]; [by eapply flushPart_ok| |by destruct (Hst rq full up)].
  destruct Hp as [Hsz Hl]. apply wp_bind. wp_use (LoadRange_resume_ok o s); [done|done|done|lia|lia|]. intros r i' [-> Hp].
  apply flushPart_loaded_ok with (load_conflict i) (PartLoading psz ls); [done|done|]. by right.
Qed.
(** The upload gets another part, or is told how many there are. *)
Lemma ok_upload cur i m m' : ok cur i -> mpu i = Some m -> upload m' = upload m -> ok cur (set_mpu (Some m') i).
Proof using HBL.
  intros [] Em Eu. split; cbn; try done. intros t Ht. specialize (ok_tasks0 t Ht).
  assert (Hc : forall up, current_upload i up -> current_upload (set_mpu (Some m') i) up).
  { intros up Hc m0 [= <-]. rewrite Eu. by apply Hc. }
  destruct t; cbn in *; rewrite ?Em in *; try done; try naive_solver.
  destruct ok_tasks0 as (? & ? & Hs & ? & Hst). split_and!; try done; [intros _; by apply Hs|]. destruct st; cbn in *; try done.
  destruct Hst as (? & ? & ? & ? & _). split_and!; try done; try lia. by apply Hc.
Qed.

Lemma recordFlushError_ok cur i err : ok cur i -> wp (recordFlushError err) (fun _ i' => ok cur i' /\ buffers i' = buffers i) i.
Proof using HBL. intros Hok. unfold recordFlushError, ScheduleRetryFlush. wp_steps. split; [same_core Hok|done]. Qed.

Lemma flushPart_done_ok cur i part o s p rq full up resp :
  ok (TPart part o s p (PartUploading rq full up) :: cur) i -> (forall e, resp = inr e -> is_errno ENOENT (mapAwsError (Some e)) = true -> resets) ->
  (forall tag x, resp = inl tag -> carries (buffers i) (rq_ids rq) x -> lost x) ->
  wp (flushPart_done flags env part rq full resp) (fun _ i' => part_post cur part o s p None i') i.
Proof using Type*.
  intros Hok HR HL. unfold flushPart_done. wp_steps. case_bool_decide; wp_steps; [by eapply part_idle|].
  wp_use recordFlushError_ok; [exact Hok|]. intros _ i1 [Hok1 Eb]. destruct resp as [tag|e].
  2: { destruct (is_errno _ _) eqn:En; wp_steps; [|by eapply part_idle]. assert (HM : May resets) by (exact (HR e eq_refl En)). wp_use (resetCache_ok flags env (resets := resets)); [exact Hok1|]. intros _ i2 (Hok2 & _). by eapply part_idle. }
  wp_steps. match goal with |- wp _ _ ?j => set (i2 := j) end.
  assert (Hok2 : ok (TPart part o s p (PartUploading rq full up) :: cur) i2).
  { unfold i2. destruct (mpu i1) as [m|] eqn:Em; [|done]. by eapply ok_upload. }
  apply wp_on_buffers. pose proof Hok2 as []. pose proof limit_range. destruct (ok_head _ _ _ _ Hok2) as (_ & (? & ? & ?) & _ & _ & Eo & Hsz & Hsent & Hup & Hno).
  wp_use (SetState_effect (buffers i2) (rq_offset rq) (rq_size rq) (rq_ids rq)); [done|done|lia..|by case_match|by case_match|].
  intros _ l' [He _]. eapply part_idle. eapply ok_effect; [exact Hok2|exact He|by intros x []|done|].
  assert (Eb2 : buffers i2 = buffers i) by (unfold i2; by destruct (mpu i1)). rewrite Eb2 in *. intros x [[]|[?|[]]]. by eapply HL.
Qed.

Lemma part_next_ok cur i part o s p st :
  part_post cur part o s p st i -> wp (part_next part o s p st) (fun r i' => ok (resumed r cur) i') i.
Proof using Type*.
  unfold part_post. intros Hok. destruct st as [st|]; cbn [part_next]; wp_steps; [done|].
  unfold goFlushPart_end, UnlockRange, end_flush, WakeupFlusher. wp_steps.
  pose proof (ok_unlock flags HMt cur i _ o s true Hok eq_refl) as Hok2. eapply ok_same; [exact Hok2| |done]. unfold core. cbn. repeat f_equal; lia.
Qed.
(** ** Choosing the parts to upload *)

(** A goroutine is started. *)
Lemma go_ok cur i t : ok (t :: cur) i -> wp (go t) (fun _ i' => ok cur i' /\ core i' = core i) i.
Proof using HBL.
  intros Hok. unfold go. wp_steps. split; [|done]. eapply ok_same; [exact Hok|done|]. unfold goroutines. cbn.
  by rewrite app_assoc, <- Permutation_cons_append.
Qed.

(** What starting goroutines leaves alone. *)
Definition starts i i' : Prop :=
  buffers i' = buffers i /\ Size i' = Size i /\ mpu i' = mpu i /\ lastWriteEnd i' = lastWriteEnd i.

(** A part that can be uploaded. *)
Definition flushable i (part o s : Z) : Prop :=
  partRange part = Ok (o, s) /\ in_file (limit := limit) o s /\ o < Size i /\ no_cleared (buffers i) o s.

Lemma goFlushPart_ok cur i part o s p :
  ok cur i -> flushable i part o s -> IsFlushing i < Max ->
  wp (goFlushPart part o s p) (fun b i' => b = true /\ ok cur i' /\ starts i i') i.
Proof using Type*.
  intros Hok (Hr & Hf & Ho & Hc) Hfl. pose proof Hf as (? & ? & ?). pose proof HMt as []. pose proof Hok as [].
  unfold goFlushPart, LockRange, Locks.LockRange, begin_flush. apply wp_bind, wp_modS, wp_bind, wp_modS, wp_bind, wp_modS, wp_bind.
  wp_use (go_ok cur).
  { eapply (ok_push _ cur i); [done| |done|done|cbn; lia|cbn; symmetry; apply Permutation_cons_append| |cbn; lia].
    - by split_and!.
    - intros r. cbn. rewrite elem_of_app, list_elem_of_singleton. intros [Hin| ->]; [by apply ok_ranges0|cbn; lia]. }
  intros _ i' [Hok' [= E1 E2 E3 E4 E5 E6 E7 E8]]. wp_steps. split_and!; [done..|]. by split_and!.
Qed.

Lemma dirty_part_range i part : Inv (buffers i) -> part ∈ dirty_parts i ->
  exists o s, partRange part = Ok (o, s) /\ in_file (limit := limit) o s.
Proof using Type*.
  intros HI Hp. pose proof HMt as []. pose proof (trk_parts _ _ (inv_trk _ HI)) as HP. pose proof (inv_shape _ HI) as HS.
  apply list_elem_of_fmap in Hp as ([q p'] & -> & Hin). cbn. apply bt_ascend_elem in Hin as [_ Hq]. rewrite <- bt_map_lookup in Hq.
  apply (pt_queue _ _ HP) in Hq as (d & Ed & _). pose proof (pt_cnt _ _ HP p') as Hc. rewrite Ed in Hc.
  unfold part_refs in Hc. destruct (map_sum_pos_inv (fun _ b => ind (is_state b BUF_DIRTY && in_parts b p')) (bufs (buffers i))) as (k & b & Hk & Hne); [lia|].
  pose proof (sh_ok _ HS k b Hk) as (? & ? & ? & ?). destruct (is_state b BUF_DIRTY); [|done]. unfold in_parts in Hne. cbn [andb] in Hne.
  rewrite !mt_parts0 in Hne.
  destruct (partNum_in_range _ mt_table0 (b_offset b)) as (p1 & o1 & s1 & E1 & Hp1 & _); [lia|].
  destruct (partNum_in_range _ mt_table0 (b_offset b + b_len b - 1)) as (p2 & o2 & s2 & E2 & Hp2 & _); [lia|].
  rewrite E1, E2 in Hne. destruct (Z.leb_spec p1 p'), (Z.leb_spec p' p2); try done.
  destruct (partRange_in_range _ mt_table0 p') as (o & s & E & ? & ? & ? & _); [lia|]. exists o, s. split; [done|]. unfold in_file. lia.
Qed.

Lemma scan_part_spec l o s : Inv l -> 0 <= o -> 0 < s -> o + s < two64 ->
  let p := scan_part o (o + s) l in
  (partDirty p = true -> exists x b, o <= x < o + s /\ owner l x = Some b /\ b_state b = BUF_DIRTY) /\
  (partEvicted p = false -> no_cleared l o s).
Proof using HBL.
  intros HI ? ? ? p. unfold p, scan_part. rewrite u64_small by lia. split.
  - intros Hd. apply (scan_exists l _ partDirty (fun b => is_state b BUF_DIRTY) o (o + s)) in Hd; [|done|lia|].
    + destruct Hd as [?|(x & b & Hx & Eo & Es)]; [done|]. apply is_state_true in Es. eauto.
    + intros a k b. destruct (Z.leb_spec (o + s) (b_offset b)); cbn; auto.
  - intros Hd x b Eo Hx Es. rewrite <- not_true_iff_false in Hd. apply Hd.
    apply (scan_exists l _ partEvicted (fun b => is_state b BUF_FL_CLEARED) o (o + s)); [done|lia| |].
    + intros a k b'. destruct (Z.leb_spec (o + s) (b_offset b')); cbn; auto.
    + right. exists x, b. split_and!; [by destruct Hx..|done|by apply is_state_true].
Qed.
Lemma partNum_runs x : 0 <= x <= limit -> exists p, partNum (PartSizes flags) x = Ok p.
Proof using Type*.
  intros Hx. pose proof HMt as []. pose proof limit_range. destruct (decide (x < limit)).
  { destruct (partNum_in_range _ mt_table0 x) as (p & _ & _ & E & _); [lia|]. eauto. }
  pose proof (table_totals _ mt_table0). pose proof mt_table0 as [Ht ?]. rewrite getMaxFileSize_total in mt_limit0 by done.
  unfold partNum. rewrite (partNum_loop_end _ 0 0 x Ht) by lia. rewrite (proj2 (Z.eqb_eq x _)) by lia. eauto.
Qed.

(** The state of the loops of [sendUploadParts], started at [i0]. *)
Definition picking cur (i0 : I) (init : bool) (zero : list Z) i : Prop :=
  ok cur i /\ starts i0 i /\ (init = false -> IsFlushing i < Max) /\ forall part, part ∈ zero -> exists o s, flushable i0 part o s.

Lemma limits_exceeded i : flushLimitsExceeded flags i = false -> IsFlushing i < Max.
Proof. unfold flushLimitsExceeded. intros [_ ?]%orb_false_iff. lia. Qed.

Lemma picking_start cur i0 init zero i part o s p :
  picking cur i0 init zero i -> IsFlushing i < Max -> flushable i0 part o s ->
  wp (goFlushPart part o s p) (fun b i' => b = true /\ picking cur i0 true zero i') i.
Proof using Type*.
  intros (Hok & (Eb & Es & Em & El) & _ & Hz) Hlt (Hr & Hf & Ho & Hc). wp_use (goFlushPart_ok cur i part o s p); [done| |done|].
  { unfold flushable. by rewrite Eb, Es. }
  intros b i' (-> & Hok' & (Eb' & Es' & Em' & El')). split; [done|]. split_and!; try done. split_and!; congruence.
Qed.

Lemma pick_part_ok cur i0 i prio acc part :
  picking cur i0 (initiated acc) (partlyZero acc) i -> IsFlushing i < Max -> part ∈ dirty_parts i0 ->
  wp (pick_part flags prio acc part) (fun r i' => picking cur i0 (initiated r.1) (partlyZero r.1) i' /\ (r.2 = true -> IsFlushing i' < Max)) i.
Proof using Type*.
  intros Hp Hlt Hin. pose proof Hp as (Hok & Hst & Hi & Hz). pose proof Hst as (Eb & Es & Em & El). pose proof Hok as []. pose proof limit_range.
  destruct (dirty_part_range i0 part) as (o & s & Er & Hf); [by rewrite <- Eb|done|]. pose proof Hf as (? & ? & ?).
  unfold pick_part. apply wp_bind. eapply wp_liftO; [done|]. cbn beta iota. apply wp_bind, wp_getS.
  destruct (IsRangeLocked o s true i); [by wp_steps|]. destruct (partNum_runs (lastWriteEnd i) ok_last0) as [lp Elp].
  apply wp_bind. eapply wp_liftO; [done|]. destruct (_ && _ && _); [by wp_steps|]. u64s.
  destruct (scan_part_spec (buffers i) o s) as [Hd He]; try done; try lia. set (info := scan_part o (o + s) (buffers i)) in *.
  destruct (partDirty info); cbn [negb orb]; [|by wp_steps]. destruct (partEvicted info); [by wp_steps|].
  assert (Hfl : flushable i0 part o s).
  { destruct (Hd eq_refl) as (x & b & Hx & Eo & Eb'). unfold flushable. rewrite <- Eb, <- Es. split_and!; try done; [|by apply He].
    assert (x < Size i) by (apply (ok_bound0 x b Eo); by rewrite Eb'). lia. }
  destruct ((partZero info || (lastBufferEnd info <? o + s)) && negb (flushInode i)).
  - wp_steps. split; [|done]. split_and!; try done. cbn. intros part'. destruct (_ && _ && _); [|apply Hz].
    intros [Hin'| ->%list_elem_of_singleton]%elem_of_app; [by apply Hz|by eexists _, _].
  - apply wp_bind. wp_use (picking_start cur i0); [exact Hp|done|exact Hfl|]. intros _ i' [-> (Hok' & Hst' & _ & Hz')]. wp_steps.
    split; [by split_and!|]. intros Hn%negb_true_iff. by apply limits_exceeded.
Qed.

Lemma pick_parts_ok cur i0 prio parts i acc :
  picking cur i0 (initiated acc) (partlyZero acc) i -> IsFlushing i < Max -> (forall part, part ∈ parts -> part ∈ dirty_parts i0) ->
  wp (iterM (pick_part flags prio) acc parts) (fun r i' => picking cur i0 (initiated r) (partlyZero r) i') i.
Proof using Type*.
  revert i acc. induction parts as [|part parts IH]; intros i acc Hp Hlt Hin; cbn [iterM]; wp_steps; [done|].
  wp_use pick_part_ok; [done|done|apply Hin; by left|]. intros [acc' cont] i' [Hp' Hc]. cbn beta iota in *. destruct cont; wp_steps; [|done].
  apply IH; [done|by apply Hc|]. intros q Hq. apply Hin. by right.
Qed.

Lemma flush_zero_parts_ok cur i0 prio parts i init zero :
  picking cur i0 init zero i -> IsFlushing i < Max -> (forall part, part ∈ parts -> part ∈ zero) ->
  wp (flush_zero_parts flags prio init parts) (fun init' i' => picking cur i0 init' zero i') i.
Proof using Type*.
  revert i init. induction parts as [|part parts IH]; intros i init Hp Hlt Hin; cbn [flush_zero_parts]; wp_steps; [done|].
  pose proof Hp as (Hok & Hst & _ & Hz). destruct (Hz part) as (o & s & Hfl); [apply Hin; by left|].
  eapply wp_liftO; [apply Hfl|]. cbn beta iota. apply wp_bind.
  apply wp_mono with (fun init' i' => init' = true /\ picking cur i0 init' zero i').
  { destruct init; [by wp_steps|]. wp_use (picking_start cur i0); [exact Hp|done|exact Hfl|]. by intros b i' [-> ?]. }
  intros init' i' [-> Hp']. wp_steps. destruct (flushLimitsExceeded flags i') eqn:El; wp_steps; [done|].
  apply IH; [done|by apply limits_exceeded|]. intros q Hq. apply Hin. by right.
Qed.

Lemma sendUploadParts_ok cur i prio :
  ok cur i -> IsFlushing i < Max ->
  wp (sendUploadParts flags prio) (fun r i' => ok cur i' /\ starts i i' /\ (r.1 = false -> IsFlushing i' < Max)) i.
Proof using Type*.
  intros Hok Hlt. unfold sendUploadParts. wp_steps. wp_use (pick_parts_ok cur i prio (dirty_parts i) i); [|done|done|].
  { cbn. split_and!; [done|by split_and!|done|]. by intros part ?%elem_of_nil. }
  intros p i1 Hp. apply wp_bind. apply wp_mono with (fun init i2 => picking cur i init (partlyZero p) i2).
  { destruct (initiated p) ; [by wp_steps|]. apply flush_zero_parts_ok; [done|by apply Hp|done]. }
  intros init i2 Hp2. apply wp_bind. apply wp_mono with (fun init' i3 => picking cur i init' (partlyZero p) i3).
  { destruct init; cbn [negb andb]; [by wp_steps|]. destruct (_ && _); [|by wp_steps]. apply flush_zero_parts_ok; [done|by apply Hp2|done]. }
  intros init' i3 (Hok3 & Hst3 & Hi3 & _). wp_steps. by split_and!.
Qed.
End steps.
End FlushSteps.
