(* ===== verification/RequestSteps.v ===== *)
(** * Requests for the whole file keep its invariant

    The sections of [Upload] that belong to a goroutine which has the file for
    itself (storing a small file, starting and completing a multipart upload,
    renaming, deleting, updating the metadata), those of the flusher that start
    them, and the changes made by the directory. *)

From stdpp Require Import strings.
From S2P Require Import Prelude BTree Parts BufferList BufferListInv BufferListView.
From S2P Require Import BufferListRemove BufferListAdd BufferListRead BufferListState BufferListSpec.
From S2P Require Import Locks Errors ReadAhead Attrs Inode FileIO Upload Machine ListEffect FileSpec FileInv FileSteps FlushSteps.

Module RequestSteps.
Import Errors BufferList BufferListInv BufferListView BufferListRemove BufferListAdd BufferListRead BufferListState BufferListSpec.
Import Inode FileIO Upload Machine ListEffect FileSpec FileInv FileSteps FlushSteps.

(** ** Sections that touch nothing the invariant depends on *)

Create HintDb idle.

Section idle.
Context {M : Type -> Type} {Q : Type}.
Abbreviation I := (Inode M Q).

Definition idle {A} (m : St I A) : Prop := forall i, wp m (fun _ i' => core i' = core i /\ tasks i' = tasks i) i.

Lemma idle_ret {A} (a : A) : idle (ret a).
Proof. intros i. by wp_steps. Qed.
Lemma idle_getS : idle getS.
Proof. intros i. by wp_steps. Qed.
Lemma idle_gets {A} (g : I -> A) : idle (gets g).
Proof. intros i. by wp_steps. Qed.
Lemma idle_bind {A B} (m : St I A) (k : A -> St I B) : idle m -> (forall a, idle (k a)) -> idle (bind m k).
Proof.
  intros Hm Hk i. apply wp_bind. eapply wp_mono; [apply Hm|]. intros a i1 [E1 E2]. eapply wp_mono; [apply Hk|].
  intros b i2 [E3 E4]. by rewrite E3, E4.
Qed.
Lemma idle_modS (f : I -> I) : (forall i, core (f i) = core i /\ tasks (f i) = tasks i) -> idle (modS f).
Proof. intros Hf i. by wp_steps. Qed.
End idle.
#[export] Hint Resolve idle_ret idle_getS idle_gets : idle.

Ltac idle_step :=
  match goal with
  | |- idle (bind _ _) => apply idle_bind; [|intro]
  | |- idle (modS _) => apply idle_modS; intro; try (by split)
  | |- idle (match ?d with _ => _ end) => destruct d
  | |- idle _ => progress eauto with idle
  end.
Ltac idle := repeat idle_step.

Section idle_sections.
Context {M : Type -> Type} `{HBT : BTreeMap M} {Q : Type} `{HQ : BufferListHelpers Q}.
Context (flags : Flags) (env : Env).
Abbreviation I := (Inode M Q).

Lemma SetCacheState_idle st : idle (SetCacheState (M := M) (Q := Q) st).
Proof. unfold SetCacheState, addModified. idle. Qed.
Lemma SetAttrTime_idle tm : idle (SetAttrTime (M := M) (Q := Q) flags tm).
Proof. unfold SetAttrTime. idle. Qed.
Lemma recordFlushError_idle err : idle (recordFlushError (M := M) (Q := Q) err).
Proof. unfold recordFlushError, ScheduleRetryFlush. idle. Qed.
Lemma addModified_idle p n : idle (addModified (M := M) (Q := Q) p n).
Proof. unfold addModified. idle. Qed.
Lemma mod_attrs_idle f : idle (mod_attrs (M := M) (Q := Q) f).
Proof. unfold mod_attrs. idle. Qed.
#[local] Hint Resolve SetCacheState_idle SetAttrTime_idle recordFlushError_idle addModified_idle mod_attrs_idle : idle.
Lemma set_userMetadataDirty_idle d : idle (set_userMetadataDirty (M := M) (Q := Q) d).
Proof. unfold set_userMetadataDirty. idle. Qed.
Lemma settle_idle : idle (settle (M := M) (Q := Q)).
Proof. unfold settle. idle. Qed.
Lemma uncache_if_clean_idle : idle (uncache_if_clean (M := M) (Q := Q) flags).
Proof. unfold uncache_if_clean. idle. Qed.
Lemma WakeupFlusher_idle : idle (WakeupFlusher (M := M) (Q := Q)).
Proof. unfold WakeupFlusher. idle. Qed.
#[local] Hint Resolve set_userMetadataDirty_idle settle_idle uncache_if_clean_idle WakeupFlusher_idle : idle.

Lemma beginMultipartUpload_idle : idle (beginMultipartUpload (M := M) (Q := Q)).
Proof. unfold beginMultipartUpload. idle. Qed.
Lemma undelete_idle l : idle (modS (undelete (M := M) (Q := Q) l)).
Proof. idle. Qed.
Lemma renameInCache_idle to renamed : idle (renameInCache (M := M) (Q := Q) to renamed).
Proof.
  unfold renameInCache. idle; cbn; repeat case_match; by split.
Qed.
Lemma OpenFile_idle : idle (OpenFile (M := M) (Q := Q) flags).
Proof. unfold OpenFile. idle. Qed.
Lemma SyncFile_check_idle : idle (SyncFile_check (M := M) (Q := Q)).
Proof. unfold SyncFile_check. idle. Qed.
End idle_sections.
#[export] Hint Resolve SetCacheState_idle SetAttrTime_idle recordFlushError_idle addModified_idle mod_attrs_idle : idle.
#[export] Hint Resolve set_userMetadataDirty_idle settle_idle uncache_if_clean_idle WakeupFlusher_idle undelete_idle : idle.
Section steps.
Context {M : Type -> Type} `{HBT : BTreeMap M} `{HBL : !BTreeMapLaws M} {Q : Type} `{HQ : BufferListHelpers Q}.
Context {limit : Z} `{HLaws : !BufferListHelpersLaws Q limit}.
Context (flags : Flags) (env : Env) (HMt : mount_ok Q limit flags).
Context {base : Z -> option byte} {lost : Z -> Prop} {resets : Prop}.
Abbreviation I := (Inode M Q).
Abbreviation Inv := (@Inv M HBT Q HQ limit HLaws).
Abbreviation Max := (MaxParallelParts flags).
Abbreviation partRange := (partRange (PartSizes flags)).
Abbreviation ok := (FileInv.ok (limit := limit) (base := base) (lost := lost) (resets := resets) flags).
Abbreviation task_ok := (FileInv.task_ok (limit := limit) flags).
Implicit Types (l : bl M Q) (i : I) (x : Z) (t : task).

Ltac same_core H := eapply ok_same; [exact H|reflexivity|reflexivity].

Lemma idle_ok {A} cur (m : St I A) i : idle m -> ok cur i -> wp m (fun _ i' => ok cur i' /\ core i' = core i) i.
Proof using HBL.
  intros Hm Hok. eapply wp_mono; [apply Hm|]. intros a i' [Ec Et]. split; [|done]. eapply ok_same; [exact Hok|done|].
  unfold goroutines. by rewrite Et.
Qed.

(** ** Having the file for oneself *)

(** A goroutine that needs the file for itself, whatever it does. *)
Abbreviation alone cur := (ok (TComplete :: cur)).

Lemma to_alone cur i t : ok (t :: cur) i -> exclusive t = true -> alone cur i.
Proof using HBL.
  intros [] He. pose proof (exclusive_weight flags t He) as Hw. assert (Hp : pauses t = 0) by (by destruct t).
  unfold goroutines in *. cbn in *. split; unfold goroutines; cbn; try done; try lia.
  - etrans; [|exact ok_held0]. by apply submseteq_inserts_l.
  - intros u [->|Hu]%elem_of_cons; [done|]. apply ok_tasks0. by right.
Qed.

Lemma begin_alone cur i :
  ok cur i -> IsFlushing i = 0 ->
  wp (begin_flush Max) (fun _ i' => alone cur i' /\ (buffers i', Size i', mpu i', tasks i') = (buffers i, Size i, mpu i, tasks i)) i.
Proof using HBL.
  intros Hok Hz. pose proof Hok as []. unfold begin_flush. wp_steps. split; [|done].
  eapply (ok_push _ cur i); [done|done|done|cbn; lia|cbn; lia|done|done|cbn; lia].
Qed.

Lemma end_alone cur i : alone cur i -> wp (end_flush Max) (fun _ i' => ok cur i') i.
Proof using Type*.
  intros Hok. pose proof HMt as []. unfold end_flush, WakeupFlusher. wp_steps.
  eapply ok_pop; [done|exact Hok|done|done|done|cbn; lia].
Qed.

(** Another goroutine is started with the file to itself. *)
Lemma start_alone cur i t :
  ok cur i -> IsFlushing i = 0 -> exclusive t = true -> task_locks t = [] -> task_ok i t ->
  wp (begin_flush Max ;;; go t) (fun _ i' => ok cur i') i.
Proof using HBL.
  intros Hok Hz He Hl Ht. apply wp_bind. wp_use begin_alone; [exact Hok|done|]. intros _ i' [Hok' [= E1 E2 E3 E4]].
  wp_use (go_ok flags cur).
  { eapply ok_swap; [exact Hok'|by rewrite (exclusive_weight flags t He)|done|by destruct t|]. by eapply task_ok_same; [..|exact Ht]. }
  by intros _ i2 [? _].
Qed.

Lemma light_task i t m : 1 <= Max -> weight flags t = 0 -> task_ok i t -> task_ok (set_mpu m i) t.
Proof using HBL.
  intros HM Hw Ht. destruct t; cbn in *; try done; lia.
Qed.

(** A new upload, or none any more. *)
Lemma alone_mpu cur i m :
  alone cur i -> (m = None -> forall x b, owner (buffers i) x = Some b -> is_flushed b = false) -> alone cur (set_mpu m i).
Proof using Type*.
  intros Hok Hm. pose proof HMt as []. pose proof Hok as []. split; try done.
  intros t Ht. unfold goroutines in *. cbn in Ht. apply elem_of_cons in Ht as [->|Ht]; [done|]. apply light_task; [done| |].
  - eapply ok_alone; [done|exact Hok|done|done].
  - apply ok_tasks0. by right.
Qed.

Lemma no_upload_cleared cur i o n : ok cur i -> mpu i = None -> no_cleared (buffers i) o n.
Proof using HBL.
  intros [] Hm x b Eo _ Es. specialize (ok_mpu0 Hm x b Eo). unfold is_flushed, is_state in ok_mpu0. by rewrite Es in ok_mpu0.
Qed.

Lemma ok_knownSize cur i n : ok cur i -> 0 <= n <= limit -> ok cur (set_knownSize n i).
Proof using HBL. intros [] Hn. by split. Qed.

(** The size of a file without data. *)
Lemma ok_empty_size cur i n :
  ok cur i -> (forall x, owner (buffers i) x = None) -> mpu i = None -> 0 <= n <= limit -> ok cur (set_Size n i).
Proof using HBL.
  intros [] Hno Hm Hn. split; try done.
  - intros x b Eo. by rewrite Hno in Eo.
  - intros t Ht. specialize (ok_tasks0 t Ht). destruct t; cbn in *; try done. naive_solver.
Qed.

Lemma updateFromFlush_ok cur i size r :
  ok cur i -> 0 <= size <= limit -> r_ETag r <> None -> wp (updateFromFlush flags size r) (fun _ i' => ok cur i' /\ mpu i' = mpu i) i.
Proof using HBL.
  intros Hok Hs He. unfold updateFromFlush. apply wp_bind. wp_use idle_ok; [apply mod_attrs_idle|exact Hok|]. intros _ i1 [Hok1 [= _ _ _ _ Em1 _]].
  destruct (r_ETag r) as [e|]; [|done]. wp_steps. wp_use (idle_ok cur); [apply SetAttrTime_idle|..].
  - eapply ok_same; [apply (ok_knownSize cur i1 size Hok1 Hs)|done|done].
  - intros _ i2 [Hok2 [= _ _ _ _ Em2 _]]. split; [done|]. by rewrite Em2.
Qed.
(** ** A small file in one request *)

(** The goroutine in the middle of a section, with its lock. *)
Definition holding (sz : Z) : task := TSmallPut (mkSend (0, []) 0 sz [replicate (Z.to_nat sz) 0] ∅) false.

Lemma holding_ok i sz : mpu i = None -> 0 <= sz <= limit -> task_ok i (holding sz).
Proof using HBL.
  intros Hm Hs. cbn. unfold sent_ok. cbn. split_and!; try done; try lia.
  - rewrite app_nil_r. unfold zlen. rewrite length_replicate. lia.
  - by intros x b _ [_ ?%not_elem_of_empty].
Qed.

Lemma holding_end cur i sz :
  ok (holding sz :: cur) i -> wp (end_flush Max) (fun _ i' => ok cur i') (set_readRanges (Locks.UnlockRange 0 sz true (readRanges i)) i).
Proof using Type*.
  intros Hok. unfold end_flush, WakeupFlusher. wp_steps.
  pose proof (ok_unlock flags HMt cur i _ 0 sz true Hok eq_refl) as Hok2. eapply ok_same; [exact Hok2| |done]. unfold core. cbn. repeat f_equal; lia.
Qed.

Lemma flushSmallObject_send_ok cur i sz :
  ok (holding sz :: cur) i -> wp (flushSmallObject_send flags sz) (fun r i' => ok (resumed r cur) i') i.
Proof using Type*.
  intros Hok. destruct (ok_head _ _ _ _ Hok) as (Hm & _ & Hsz & _). cbn in Hsz. unfold flushSmallObject_send, abortMultipart_if. apply wp_bind.
  wp_use (getMultiReader_ok flags HMt (holding sz :: cur) i 0 sz); [done| |by eapply no_upload_cleared|].
  { unfold whole_range, in_file. lia. }
  intros r i1 (Hok1 & Hl & Hr). pose proof Hl as (_ & _ & _ & Em & _). rewrite Hm in Em. destruct r as [rq|].
  - destruct Hr as (Eo & Es & Hsent). apply wp_bind, wp_getS, wp_bind. wp_use (idle_ok (holding sz :: cur)); [|exact Hok1|].
    { destruct (negb _); auto with idle. }
    intros _ i2 [Hok2 [= Eb _ _ _ Em2 _ _ _]]. wp_steps. rewrite Em2, Em, bool_decide_true by done. wp_steps.
    eapply ok_swap; [exact Hok2|done|cbn; by rewrite Es|done|]. cbn. rewrite Em2, Eb. split_and!; done || lia.
  - apply wp_bind, wp_modS, wp_bind. wp_use holding_end; [exact Hok1|]. intros _ i2 Hok2. by wp_steps.
Qed.

Lemma flushSmallObject_loaded_ok (seen : Prop) cur i sz r :
  ok (holding sz :: cur) i -> (seen -> resets) -> load_post seen 0 sz r i -> wp (flushSmallObject_loaded flags env sz r) (fun r i' => ok (resumed r cur) i') i.
Proof using Type*.
  intros Hok HR Hp. destruct (ok_head _ _ _ _ Hok) as (Hm & _ & Hsz & _). unfold flushSmallObject_loaded. destruct r as [miss err|ls].
  - destruct (remote_conflict err) eqn:Ec; [|by apply flushSmallObject_send_ok]. assert (HM : May resets) by (by apply HR, Hp). apply wp_bind. wp_use (resetCache_ok flags env (resets := resets)); [exact Hok|].
    intros _ i1 (Hok1 & _). apply wp_bind. wp_use end_alone; [by eapply to_alone|]. intros _ i2 Hok2. by wp_steps.
  - wp_steps. eapply ok_swap; [exact Hok|done..|]. cbn in *. split_and!; done || lia.
Qed.

Lemma flushSmallObject_ok cur i :
  ok (TSmall :: cur) i -> load_guard i -> (load_conflict i -> resets) -> wp (flushSmallObject flags env) (fun r i' => ok (resumed r cur) i') i.
Proof using Type*.
  intros Hok Hg HR. pose proof Hok as []. pose proof limit_range. pose proof (ok_head _ _ _ _ Hok) as Hm. cbn in Hm. unfold flushSmallObject. apply wp_bind, wp_getS.
  destruct (negb _).
  { apply wp_bind. wp_use end_alone; [by eapply to_alone|]. intros _ i2 Hok2. by wp_steps. }
  unfold LockRange, Locks.LockRange. apply wp_bind, wp_modS.
  match goal with |- wp _ _ ?j => assert (Hok1 : ok (holding (Size i) :: cur) j) end.
  { split; try done; unfold goroutines in *; cbn in *.
    - rewrite (Permutation_app_comm (readRanges i)). by apply submseteq_skip.
    - intros r. cbn. rewrite elem_of_app, list_elem_of_singleton. intros [Hr| ->]; [by apply ok_ranges0|]. cbn. lia.
    - intros t [->|Ht]%elem_of_cons; [by apply (holding_ok (set_readRanges _ i))|]. apply ok_tasks0. by right. }
  case_bool_decide; [|by apply flushSmallObject_send_ok]. apply wp_bind. wp_use (LoadRange_ok flags env HMt); [exact Hok1|lia| |lia|done|].
  { cbn. unfold in_file. lia. }
  intros r i1 (Hok2 & _ & Hp & _). by eapply flushSmallObject_loaded_ok.
Qed.

Lemma flushSmallObject_resume_ok cur i sz ls :
  ok (TSmallLoading sz ls :: cur) i -> (load_conflict i -> resets) ->
  wp (let! res := LoadRange_resume ls in flushSmallObject_loaded flags env sz res) (fun r i' => ok (resumed r cur) i') i.
Proof using Type*.
  intros Hok HR. pose proof Hok as []. destruct (ok_head _ _ _ _ Hok) as (Hm & Hsz & Hl). pose proof limit_range. apply wp_bind.
  wp_use (LoadRange_resume_ok 0 sz); [done|done|done|lia|lia|]. intros r i' [-> Hp]. apply flushSmallObject_loaded_ok with (load_conflict i); [|done|done].
  eapply ok_swap; [exact Hok|done..|by apply holding_ok].
Qed.

Lemma flushSmallObject_done_ok cur i rq metadata resp :
  ok (TSmallPut rq metadata :: cur) i -> (forall r, resp = inl r -> r_ETag r <> None) ->
  (forall r x, resp = inl r -> carries (buffers i) (rq_ids rq) x -> lost x) ->
  wp (flushSmallObject_done flags rq metadata resp) (fun _ i' => ok cur i') i.
Proof using Type*.
  intros Hok He HL. pose proof limit_range. unfold flushSmallObject_done. apply wp_bind. wp_use idle_ok; [apply recordFlushError_idle|exact Hok|].
  intros _ i1 [Hok1 [= Eb _ _ _ _ _ _ _]]. apply wp_bind. apply wp_mono with (fun _ i2 => ok (TSmallPut rq metadata :: cur) i2).
  2: { intros _ i2 Hok2. destruct (ok_head _ _ _ _ Hok2) as (Hm & Eo & Hs & _). apply wp_bind, wp_modS, holding_end.
       eapply ok_swap; [exact Hok2|done..|by apply holding_ok]. }
  destruct (ok_head _ _ _ _ Hok1) as (Hm & Eo & Hs & Hids & Hlen & Hsent). destruct resp as [r|e].
  - apply wp_bind, wp_on_buffers. pose proof Hok1 as [].
    apply wp_mono with (fun _ l' => ok (TSmallPut rq metadata :: cur) (set_buffers l' i1)).
    { destruct (decide (rq_size rq = 0)) as [Ez|].
      - wp_use (SetState_idle (buffers i1)); [|intros _ l' ->; same_core Hok1]. intros k b Hk Hf.
        pose proof (sh_ok _ (inv_shape _ ok_list0) k b Hk) as (? & ? & ? & ?).
        destruct (Hsent (b_offset b) b) as [[? ?] _]; [eapply (owner_intro _ _ k b (inv_shape _ ok_list0) Hk); lia|done|lia].
      - wp_use (SetState_clean_effect (buffers i1)); [done|done|lia..|]. intros _ l' Hef.
        eapply ok_effect; [exact Hok1|exact Hef|by intros x []|by intros _ x []|].
        rewrite Eb. intros x [[]|[[]|?]]. by eapply HL. }
    intros _ l' Hok2. apply wp_bind. wp_use updateFromFlush_ok; [exact Hok2|done|by apply He|]. intros _ i3 [Hok3 _].
    wp_use idle_ok; [apply settle_idle|exact Hok3|]. by intros _ i4 [? _].
  - wp_use (idle_ok (TSmallPut rq metadata :: cur)); [|exact Hok1|by intros _ i4 [? _]]. destruct metadata; auto with idle.
Qed.
(** ** Completing a multipart upload *)

Lemma numParts_runs size : 0 <= size <= limit -> exists n, numParts (PartSizes flags) size = Ok n /\ n <= maxParts (PartSizes flags).
Proof using Type*.
  intros Hs. pose proof HMt as []. pose proof (table_maxParts _ mt_table0) as Emax. pose proof (table_totals _ mt_table0).
  unfold numParts. destruct (decide (size < limit)).
  - destruct (partNum_in_range _ mt_table0 size) as (p & o & s & -> & Hp & Er & Ho); [lia|]. cbn [bindO].
    destruct (Z.eqb_spec p (maxParts (PartSizes flags))); [eexists; split; [done|lia]|]. rewrite Er. cbn [bindO fst].
    destruct (Z.ltb_spec o size); eexists; (split; [done|]); [rewrite u64_small|]; lia.
  - pose proof mt_table0 as [Ht ?]. rewrite getMaxFileSize_total in mt_limit0 by done. pose proof limit_range.
    unfold partNum. rewrite (partNum_loop_end _ 0 0 size Ht) by lia. rewrite (proj2 (Z.eqb_eq size _)) by lia. cbn [bindO].
    rewrite Emax, (proj2 (Z.eqb_eq (0 + total_count _) _)) by lia. eexists. split; [done|lia].
Qed.

Lemma copy_parts_runs uploaded size maxMerge nums s :
  (forall j, j ∈ nums -> 0 <= j < maxParts (PartSizes flags)) -> exists s', copy_parts flags uploaded size maxMerge s nums = Ok s'.
Proof using Type*.
  pose proof HMt as []. revert s. induction nums as [|j nums IH]; intros s Hn; cbn [copy_parts]; [eauto|].
  assert (exists s', copy_part flags uploaded size maxMerge s j = Ok s') as [s' ->].
  { unfold copy_part. destruct (partRange_in_range _ mt_table0 j) as (o & sz & -> & _); [apply Hn; by left|]. cbn [bindO]. repeat case_match; eauto. }
  cbn [bindO]. apply IH. intros k Hk. apply Hn. by right.
Qed.

Lemma copy_ranges_run uploaded size n :
  n <= maxParts (PartSizes flags) -> exists ranges, copyUnmodifiedParts_ranges flags uploaded size n = Ok ranges.
Proof using Type*.
  intros Hn. unfold copyUnmodifiedParts_ranges.
  destruct (copy_parts_runs uploaded size (MaxMergeCopyMB flags *u 1024 *u 1024) (seqZ 0 n) (mkCopy [] 0 0 0 0)) as [s ->].
  { intros j [? ?]%elem_of_seqZ. lia. }
  cbn [bindO]. eauto.
Qed.

(** After a section of [completeMultipart]. *)
Definition complete_post (cur : list task) (r : option task) i : Prop := ok (default TComplete r :: cur) i.

Lemma complete_next_ok cur i r : complete_post cur r i -> wp (complete_next flags r) (fun r i' => ok (resumed r cur) i') i.
Proof using Type*.
  intros Hok. destruct r; cbn [complete_next]; wp_steps; [done|]. wp_use end_alone; [exact Hok|]. intros _ i' Hok'. by wp_steps.
Qed.

Lemma completeMultipart_copied_ok cur i finalSize n err :
  alone cur i -> 0 <= finalSize <= limit -> (remote_conflict err = true -> resets) -> wp (completeMultipart_copied flags env finalSize n err) (complete_post cur) i.
Proof using Type*.
  intros Hok Hs HR. unfold completeMultipart_copied, commitMultipartUpload. apply wp_bind, wp_getS. destruct (negb _); [by wp_steps|].
  destruct (remote_conflict err).
  { assert (HM : May resets) by (by apply HR). apply wp_bind. wp_use (resetCache_ok flags env (resets := resets)); [exact Hok|]. intros _ i1 (? & _). by wp_steps. }
  apply wp_bind. wp_use idle_ok; [apply recordFlushError_idle|exact Hok|]. intros _ i1 [Hok1 [= _ _ _ _ Em _ _ _]].
  case_bool_decide; cbn [orb]; [by wp_steps|]. case_bool_decide as Hm; wp_steps; [done|].
  destruct (mpu i1) as [m|] eqn:Em1; [|by rewrite <- Em in Hm]. wp_steps.
  eapply ok_swap; [eapply ok_upload; [exact Hok1|done|done]|done..|]. cbn. split; [done|]. by intros m' [= <-].
Qed.

Lemma completeMultipart_ok cur i : alone cur i -> wp (completeMultipart flags env) (complete_post cur) i.
Proof using Type*.
  intros Hok. pose proof Hok as []. unfold completeMultipart. apply wp_bind, wp_getS. destruct (mpu i) as [m|] eqn:Em; [|by wp_steps].
  destruct (numParts_runs (Size i)) as (n & En & Hn); [done|]. destruct (copy_ranges_run (Parts m) (Size i) n Hn) as [ranges Er].
  apply wp_bind. eapply wp_liftO; [done|]. apply wp_bind. eapply wp_liftO; [done|]. case_bool_decide.
  - by apply completeMultipart_copied_ok.
  - wp_steps. eapply ok_swap; [exact Hok|done..|]. cbn. split; [done|]. intros m' Hm'. congruence.
Qed.

Lemma copy_next_ok cur i key finalSize n up todo running err :
  ok (TCopying key finalSize n up todo running err :: cur) i -> (remote_conflict err = true -> resets) ->
  wp (copy_next flags env key finalSize n up todo running err) (fun r i' => ok (resumed r cur) i') i.
Proof using Type*.
  intros Hok HR. destruct (ok_head _ _ _ _ Hok) as [Hs Hu].
  assert (Hgo : forall todo' running' err', ok (TCopying key finalSize n up todo' running' err' :: cur) i).
  { intros. eapply ok_swap; [exact Hok|done..|by split]. }
  assert (Hend : wp (if bool_decide (running = []) then let! t := completeMultipart_copied flags env finalSize n err in complete_next flags t
    else ret (Some (TCopying key finalSize n up todo running err))) (fun r i' => ok (resumed r cur) i') i).
  { case_bool_decide; [|by wp_steps]. apply wp_bind. wp_use completeMultipart_copied_ok; [by eapply to_alone|done|done|].
    intros r i1 Hp. by apply complete_next_ok. }
  unfold copy_next, copy_start. destruct err, todo; try exact Hend. wp_steps. destruct (mpu i); wp_steps; apply Hgo.
Qed.

Lemma copy_done_ok cur i key finalSize n up part todo running todo' running' err resp :
  ok (TCopying key finalSize n up todo running err :: cur) i ->
  wp (copy_done key finalSize n up part todo' running' err resp) (fun r i' => ok (resumed r cur) i') i.
Proof using HBL.
  intros Hok. destruct (ok_head _ _ _ _ Hok) as [Hs Hu].
  assert (Hgo : forall j err', ok (TCopying key finalSize n up todo running err :: cur) j -> ok (TCopying key finalSize n up todo' running' err' :: cur) j).
  { intros j err' Hj. destruct (ok_head _ _ _ _ Hj). eapply ok_swap; [exact Hj|done..|by split]. }
  unfold copy_done. destruct resp as [tag|e]; wp_steps; [|by apply Hgo]. apply Hgo. destruct (mpu i) as [m|] eqn:Em; [|done].
  destruct (upload m =? up); [|done]. by eapply ok_upload.
Qed.

Lemma commitMultipartUpload_done_ok cur i finalSize up resp :
  ok (TCommit finalSize up :: cur) i -> (forall r, resp = inl r -> r_ETag r <> None) ->
  wp (commitMultipartUpload_done flags finalSize up resp) (fun _ i' => alone cur i') i.
Proof using Type*.
  intros Hok He. destruct (ok_head _ _ _ _ Hok) as [Hs Hu]. assert (Hal : alone cur i) by (by eapply to_alone).
  unfold commitMultipartUpload_done. apply wp_bind, wp_getS. destruct (mpu i) as [m|] eqn:Em; [|by wp_steps]. destruct (_ && _); [|by wp_steps].
  apply wp_bind. wp_use idle_ok; [apply recordFlushError_idle|exact Hal|]. intros _ i1 [Hok1 _]. destruct resp as [r|e].
  2: { wp_use (idle_ok (TComplete :: cur)); [|exact Hok1|by intros _ i2 [? _]]. destruct (with_Metadata m); auto with idle. }
  apply wp_bind. wp_use (idle_ok (TComplete :: cur)); [|exact Hok1|]. { destruct (_ =? _); auto with idle. }
  intros _ i2 [Hok2 _]. pose proof Hok2 as []. apply wp_bind, wp_modS, wp_bind, wp_on_buffers. cbn [buffers set_mpu].
  wp_use (SetFlushedClean_effect (buffers i2)); [done|done|]. intros _ l' [Hef Hcl].
  assert (Hok3 : alone cur (set_mpu None (set_buffers l' i2))).
  { apply alone_mpu; [by eapply ok_quiet|]. intros _ x b Eo. unfold is_flushed, is_state. by destruct (Hcl x b Eo) as [-> | ->]. }
  apply wp_bind. wp_use (updateFromFlush_ok (TComplete :: cur)); [same_core Hok3|done|by apply He|]. intros _ i4 [Hok4 _].
  wp_use idle_ok; [apply settle_idle|exact Hok4|]. by intros _ i5 [? _].
Qed.
(** ** Starting an upload, metadata *)

Lemma beginMultipartUpload_done_ok cur i key metadata err :
  alone cur i -> wp (beginMultipartUpload_done key metadata err) (fun _ i' => alone cur i') i.
Proof using Type*.
  intros Hok. unfold beginMultipartUpload_done. apply wp_bind. wp_use idle_ok; [apply recordFlushError_idle|exact Hok|]. intros _ i1 [Hok1 _].
  destruct err; wp_steps; [done|]. pose proof (alone_mpu cur i1 (Some (mkMPU (nextUpload i1) key ∅ 0 metadata)) Hok1) as Hok2.
  assert (Hok3 : alone cur (set_mpu (Some (mkMPU (nextUpload i1) key ∅ 0 metadata)) i1)) by (by apply Hok2). same_core Hok3.
Qed.

Lemma sendUpdateMeta_ok cur i : ok cur i -> IsFlushing i = 0 -> wp (sendUpdateMeta flags) (fun _ i' => ok cur i') i.
Proof using HBL.
  intros Hok Hz. unfold sendUpdateMeta. apply wp_bind. wp_use idle_ok; [apply set_userMetadataDirty_idle|exact Hok|].
  intros _ i1 [Hok1 [= _ _ _ _ _ Ef _ _]]. apply start_alone; try done. by rewrite Ef.
Qed.

Lemma sendUpdateMeta_done_ok cur i err : alone cur i -> (remote_conflict err = true -> resets) -> wp (sendUpdateMeta_done flags env err) (fun _ i' => ok cur i') i.
Proof using Type*.
  intros Hok HR. unfold sendUpdateMeta_done. apply wp_bind. wp_use idle_ok; [apply recordFlushError_idle|exact Hok|]. intros _ i1 [Hok1 _].
  apply wp_bind. apply wp_mono with (fun _ i2 => alone cur i2); [|intros _ i2 Hok2; by apply end_alone]. destruct err as [e|].
  - apply wp_bind. wp_use idle_ok; [apply set_userMetadataDirty_idle|exact Hok1|]. intros _ i2 [Hok2 _].
    destruct (remote_conflict _); [|by wp_steps]. assert (HM : May resets) by (by apply HR). wp_use (resetCache_ok flags env (resets := resets)); [exact Hok2|]. by intros _ i3 (? & _).
  - wp_use (idle_ok (TComplete :: cur)); [|exact Hok1|by intros _ i2 [? _]]. idle.
Qed.

(** ** Renaming and deleting *)

Lemma sendRename_ok cur i : ok cur i -> IsFlushing i = 0 -> oldLoc i <> None -> wp (sendRename flags) (fun _ i' => ok cur i') i.
Proof using HBL.
  intros Hok Hz Ho. unfold sendRename. apply wp_bind, wp_getS. destruct (oldLoc i) as [old|]; [|done].
  apply wp_bind. wp_use begin_alone; [exact Hok|done|]. intros _ i1 [Hok1 _]. apply wp_bind, wp_modS.
  wp_use (go_ok flags cur); [|by intros _ i2 [? _]]. eapply (ok_swap flags cur _ TComplete); [same_core Hok1|done..].
Qed.

(** The next stage of a goroutine that has the file for itself. *)
Lemma alone_next cur i t : alone cur i -> weight flags t = Max -> task_locks t = [] -> pauses t = 0 -> task_ok i t -> ok (t :: cur) i.
Proof using HBL. intros Hok Hw Hl Hp Ht. eapply (ok_swap flags cur _ TComplete); [exact Hok|done..]. Qed.
Lemma sendRename_copied_ok cur i old new err :
  alone cur i -> (remote_conflict err = true -> resets) -> wp (sendRename_copied flags env old new err) (fun r i' => ok (resumed r cur) i') i.
Proof using Type*.
  intros Hok HR. unfold sendRename_copied. destruct err as [e|].
  - destruct (remote_conflict _).
    + assert (HM : May resets) by (by apply HR). apply wp_bind, wp_getS, wp_bind, wp_modS, wp_bind.
      wp_use (resetCache_ok flags env (resets := resets) (TComplete :: cur)); [same_core Hok|]. intros _ i1 (Hok1 & _). wp_steps. by apply alone_next.
    + apply wp_bind. wp_use idle_ok; [apply recordFlushError_idle|exact Hok|]. intros _ i1 [Hok1 _]. apply wp_bind, wp_getS, wp_bind.
      wp_use (idle_ok (TComplete :: cur)); [idle|exact Hok1|]. intros _ i2 [Hok2 _]. wp_steps. by apply alone_next.
  - apply wp_bind, wp_getS, wp_bind.
    wp_use (idle_ok (TComplete :: cur)); [idle|exact Hok|]. intros del i1 [Hok1 _]. apply wp_bind.
    wp_use idle_ok; [apply uncache_if_clean_idle|exact Hok1|]. intros _ i2 [Hok2 _]. wp_steps.
    eapply (ok_swap flags cur _ TComplete); [same_core Hok2|done..].
Qed.
Lemma sendRename_undelete_ok cur i (l : location) : alone cur i -> wp (sendRename_undelete l) (fun r i' => ok (resumed r cur) i') i.
Proof using Type*.
  intros Hok. unfold sendRename_undelete. apply wp_bind, wp_getS, wp_bind. wp_use (idle_ok (TComplete :: cur)); [idle|exact Hok|].
  intros _ i1 [Hok1 _]. wp_steps. by apply alone_next.
Qed.
Lemma sendRename_deleted_ok cur i del err tombId :
  alone cur i -> wp (sendRename_deleted del err tombId) (fun r i' => ok (resumed r cur) i') i.
Proof using Type*.
  intros Hok. unfold sendRename_deleted. apply wp_bind. wp_use (idle_ok (TComplete :: cur)); [|exact Hok|].
  { destruct err; idle. }
  intros _ i1 [Hok1 _]. wp_steps. by apply alone_next.
Qed.

Lemma SendDelete_ok cur i : ok cur i -> IsFlushing i = 0 -> wp (SendDelete flags) (fun _ i' => ok cur i') i.
Proof using HBL.
  intros Hok Hz. unfold SendDelete. apply wp_bind, wp_getS, wp_bind, wp_modS. apply start_alone; try done. same_core Hok.
Qed.

(** A goroutine that holds nothing any more. *)
Definition idler t : Prop := weight flags t = 0 /\ task_locks t = [] /\ pauses t = 0 /\ forall i, task_ok i t.
Lemma ok_idler cur i t : ok cur i -> idler t -> ok (t :: cur) i.
Proof using Type*. intros Hok (Hw & Hl & Hp & Ht). pose proof Hok as []. eapply (ok_push _ cur i); [done|done|done|lia..|by rewrite Hl|done|lia]. Qed.
Lemma ok_idler_end cur i t : ok (t :: cur) i -> idler t -> ok cur i.
Proof using Type*. intros Hok (Hw & Hl & Hp & _). pose proof HMt as []. eapply ok_pop; [done|exact Hok|done|lia|by rewrite Hl|lia]. Qed.
Lemma SendDelete_done_ok cur i old err unreferenced :
  alone cur i -> (CacheState i = ST_DELETED -> resets) -> wp (SendDelete_done flags env old err unreferenced) (fun r i' => ok (resumed r cur) i') i.
Proof using Type*.
  intros Hok HR. unfold SendDelete_done. apply wp_bind, wp_modS. pose proof HMt as []. cbv zeta. set (err' := if is_errno _ _ then _ else _).
  match goal with |- wp _ _ ?j => assert (Hok0 : ok cur j) by (eapply ok_pop; [done|exact Hok|done|done|done|cbn; lia]) end.
  unfold recordFlushError, ScheduleRetryFlush. apply wp_bind, wp_bind, wp_modS, wp_modS. match goal with |- wp _ _ ?j => assert (Hok1 : ok cur j) by same_core Hok0 end. destruct err'.
  { apply wp_bind. wp_use idle_ok; [apply WakeupFlusher_idle|exact Hok1|]. intros _ i2 [? _]. by wp_steps. }
  apply wp_bind, wp_gets, wp_bind. apply wp_mono with (fun _ i2 => ok cur i2).
  { case_bool_decide as Hst; [|by wp_steps]. assert (HM : May resets) by (by apply HR). apply wp_bind. wp_use (resetCache_ok flags env (resets := resets)); [exact Hok1|]. intros _ i2 (Hok2 & _).
    wp_use idle_ok; [apply SetCacheState_idle|exact Hok2|]. by intros _ i3 [? _]. }
  intros _ i2 Hok2. wp_steps. destruct old; cbn [resumed]; by apply ok_idler.
Qed.
Lemma SendDelete_old_ok cur i (l : location) forget : ok cur i -> wp (SendDelete_old l forget) (fun r i' => ok (resumed r cur) i') i.
Proof using Type*.
  intros Hok. unfold SendDelete_old. apply wp_bind. wp_use (idle_ok cur); [idle|exact Hok|]. intros _ i1 [Hok1 _]. apply wp_bind. wp_use (idle_ok cur); [idle|exact Hok1|]. intros _ i2 [Hok2 _]. wp_steps. by apply ok_idler.
Qed.
Lemma SendDelete_entry_ok cur i forget : ok cur i -> wp (SendDelete_entry forget) (fun r i' => ok (resumed r cur) i') i.
Proof using Type*.
  intros Hok. unfold SendDelete_entry. apply wp_bind. wp_use (idle_ok cur); [idle|exact Hok|]. intros _ i1 [Hok1 _]. destruct forget; [wp_steps; by apply ok_idler|].
  apply wp_bind. wp_use (idle_ok cur); [idle|exact Hok1|]. intros _ i2 [? _]. by wp_steps.
Qed.

Lemma SendMkDir_ok cur i : ok cur i -> IsFlushing i = 0 -> wp (SendMkDir flags) (fun _ i' => ok cur i') i.
Proof using HBL HMt. intros Hok Hz. unfold SendMkDir. by apply start_alone. Qed.
Lemma SendMkDir_done_ok cur i err : alone cur i -> wp (SendMkDir_done flags err) (fun _ i' => ok cur i') i.
Proof using HBL HMt.
  intros Hok. unfold SendMkDir_done. apply wp_bind, wp_modS. pose proof HMt as []. wp_use (idle_ok cur); [|eapply ok_pop; [done|exact Hok|done|done|done|cbn; lia]|by intros _ i3 [? _]].
  idle.
Qed.

(** The cached data is dropped, the file gets a state and a size. *)
Lemma reset_size `{HM : !May resets} cur i {A} (m : St I A) n :
  idle m -> 0 <= n <= limit -> ok cur i -> wp (resetCache flags env ;;; m) (fun _ i' => ok cur (set_Size n i')) i.
Proof using HBL.
  intros Hm Hn Hok. apply wp_bind. wp_use (resetCache_ok flags env (resets := resets)); [exact Hok|]. intros _ i1 (Hok1 & Em & _ & Hno).
  wp_use (idle_ok cur); [exact Hm|exact Hok1|]. intros a i2 [Hok2 [= Eb _ _ _ Em2 _ _ _]]. apply ok_empty_size; try done.
  - intros x. by rewrite Eb.
  - by rewrite Em2.
Qed.

Lemma doUnlink_ok `{HM : !May resets} cur i : ok cur i -> wp (doUnlink flags env) (fun _ i' => ok cur i') i.
Proof using HBL.
  intros Hok. pose proof limit_range. unfold doUnlink. apply wp_bind, wp_getS, wp_bind. apply wp_mono with (fun _ i1 => ok cur (set_Size 0 i1)).
  - destruct (_ && _); [|destruct (_ || _)]; (apply reset_size; [idle|lia|done]).
  - intros _ i1 Hok1. by wp_steps.
Qed.

Lemma SetFromBlobItem_ok cur i item rootCtime :
  ok cur i -> 0 <= it_Size item <= limit -> (it_Size item <> knownSize i \/ (exists tag, it_ETag item = Some tag /\ tag <> knownETag i) -> resets) -> wp (SetFromBlobItem flags env item rootCtime) (fun _ i' => ok cur i') i.
Proof using HBL.
  intros Hok Hs HR. unfold SetFromBlobItem. apply wp_bind, wp_getS, wp_bind. apply wp_mono with (fun _ i1 => ok cur i1).
  - destruct (_ && _ && _) eqn:Ed; [|by wp_steps]. assert (HM : May resets).
    { apply HR. apply andb_true_iff in Ed as [[[Ed|Ed%negb_true_iff]%orb_true_iff _]%andb_true_iff _]; [right|left; lia]. destruct (it_ETag item) as [tag|]; [|done].
      exists tag. split; [done|]. apply negb_true_iff, bool_decide_eq_false in Ed. congruence. }
    apply wp_bind. wp_use (resetCache_ok flags env (resets := resets)); [exact Hok|]. intros _ i1 (Hok1 & Em & _ & Hno).
    apply wp_bind, wp_modS. wp_use (idle_ok cur); [idle| |by intros _ i2 [? _]].
    pose proof (ok_knownSize cur _ (it_Size item) (ok_empty_size cur i1 (it_Size item) Hok1 Hno Em Hs) Hs) as Hok2. same_core Hok2.
  - intros _ i1 Hok1. wp_use (idle_ok cur); [|exact Hok1|by intros _ i2 [? _]]. idle. by case_match.
Qed.

Lemma Release_ok cur i : ok cur i -> 0 < fileHandles i -> wp Release (fun _ i' => ok cur i') i.
Proof using HBL.
  intros Hok Hh. unfold Release. apply wp_bind, wp_modS, wp_bind, wp_getS. cbn [fileHandles set_fileHandles].
  rewrite (proj2 (Z.eqb_neq _ _)) by lia. wp_use (idle_ok cur); [idle|same_core Hok|]. by intros _ i1 [? _].
Qed.
(** ** The decisions of the flusher *)

(** When no part is locked for an upload and there is room for another one, nothing is being flushed. *)
Lemma no_flushers cur i :
  ok cur i -> mpu i <> None -> IsFlushing i < Max -> IsRangeLocked 0 (Size i) true i = false -> IsFlushing i = 0.
Proof using Type*.
  intros Hok Hm Hlt Hl. pose proof HMt as []. pose proof Hok as []. pose proof limit_range. rewrite ok_flushing0 in *.
  assert (Hz : forall t, t ∈ goroutines cur i -> weight flags t = 0).
  { intros t Ht. pose proof (total_ge (weight flags) _ t (fun u => weight_nonneg flags u mt_max0) Ht). specialize (ok_tasks0 t Ht).
    destruct t; cbn in *; try done; try lia. exfalso. destruct ok_tasks0 as (_ & (? & ? & ?) & Hs & _). specialize (Hs Hm).
    rewrite <- not_true_iff_false in Hl. apply Hl. apply IsRangeLocked_iff; [done|lia..|].
    exists (Locks.mkRR offset size true), offset. split; [eapply task_lock_held; [exact Hok|exact Ht|constructor]|]. cbn. split_and!; done || lia. }
  clear -Hz. induction (goroutines cur i) as [|t ts IH]; [done|]. cbn. rewrite (Hz t), IH; [done| |by left]. intros u Hu. apply Hz. by right.
Qed.

Lemma flushing_nonneg cur i : ok cur i -> 0 <= IsFlushing i.
Proof using Type*.
  intros []. pose proof HMt as []. rewrite ok_flushing0. clear -mt_max0. induction (goroutines cur i) as [|t ts IH]; cbn; [lia|].
  pose proof (weight_nonneg flags t mt_max0). lia.
Qed.

Lemma sendUpload_ok cur i priority : ok cur i -> wp (sendUpload flags priority) (fun _ i' => ok cur i') i.
Proof using Type*.
  intros Hok. pose proof HMt as []. pose proof (flushing_nonneg cur i Hok).
  assert (Hret : forall i1, ok cur i1 -> wp (ret true) (fun _ i' => ok cur i') i1) by (intros; by wp_steps).
  unfold sendUpload. apply wp_bind, wp_getS.
  destruct (bool_decide (oldLoc i <> None) && (IsFlushing i =? 0) && bool_decide (mpu i = None)) eqn:E1.
  { apply andb_true_iff in E1 as [[E1%bool_decide_eq_true E2]%andb_true_iff _]. apply wp_bind. wp_use sendRename_ok; [exact Hok|lia|done|]. intros _. apply Hret. }
  clear E1. match goal with |- context [if ?c then bind (sendUpdateMeta _) _ else _] => destruct c eqn:E1 end.
  { apply andb_true_iff in E1 as [[_ E2]%andb_true_iff _]. apply wp_bind. wp_use sendUpdateMeta_ok; [exact Hok|lia|]. intros _. apply Hret. }
  clear E1. destruct (Z.leb_spec Max (IsFlushing i)); [by wp_steps|]. unfold canPatch. rewrite mt_patch0. cbn [andb].
  destruct (smallFile flags i && bool_decide (mpu i = None)) eqn:E1.
  { apply andb_true_iff in E1 as [_ Em%bool_decide_eq_true]. destruct ((IsFlushing i =? 0) && wantFlush i) eqn:E2; [|by wp_steps].
    apply andb_true_iff in E2 as [E2 _]. apply wp_bind. wp_use begin_alone; [exact Hok|lia|]. intros _ i1 [Hok1 [= _ _ Em1 _]].
    apply wp_bind. wp_use (go_ok flags cur); [eapply ok_swap; [exact Hok1|done..|cbn; congruence]|]. intros _ i2 [Hok2 _]. by apply Hret. }
  clear E1. case_bool_decide as Em.
  { destruct (Z.ltb_spec 0 (IsFlushing i)); [by wp_steps|]. unfold sendStartMultipart. apply wp_bind, wp_bind.
    wp_use begin_alone; [exact Hok|lia|]. intros _ i1 [Hok1 [= _ _ Em1 _]]. apply wp_bind, wp_gets.
    wp_use (go_ok flags cur); [eapply ok_swap; [exact Hok1|done..|cbn; congruence]|]. intros _ i2 [Hok2 _]. by apply Hret. }
  apply wp_bind. wp_use (sendUploadParts_ok flags HMt cur); [exact Hok|done|]. intros [init complete] i1 (Hok1 & (_ & _ & Em1 & _) & Hlt).
  cbn [fst] in Hlt. destruct init; [by apply Hret|]. apply wp_bind, wp_getS.
  destruct (complete && negb (IsRangeLocked 0 (Size i1) true i1) && wantFlush i1) eqn:E2; [|by wp_steps].
  apply andb_true_iff in E2 as [[_ E2%negb_true_iff]%andb_true_iff _]. apply wp_bind. wp_use begin_alone; [exact Hok1| |].
  { eapply no_flushers; [exact Hok1|congruence|by apply Hlt|done]. }
  intros _ i2 [Hok2 _]. apply wp_bind. wp_use (go_ok flags cur); [exact Hok2|]. intros _ i3 [Hok3 _]. by apply Hret.
Qed.

Lemma TryFlush_ok cur i priority parent overDeleted : ok cur i -> wp (TryFlush flags priority parent overDeleted) (fun _ i' => ok cur i') i.
Proof using Type*.
  intros Hok. unfold TryFlush. apply wp_bind, wp_getS. destruct (negb _); [by wp_steps|]. destruct (_ && _).
  { unfold ScheduleRetryFlush. wp_steps. same_core Hok. }
  destruct (CacheState i); try (by wp_steps).
  - destruct overDeleted; [by wp_steps|by apply sendUpload_ok].
  - destruct overDeleted; [by wp_steps|by apply sendUpload_ok].
  - destruct (Z.eqb_spec (IsFlushing i) 0); [|by wp_steps]. apply wp_bind. wp_use SendDelete_ok; [exact Hok|done|].
    intros _ i1 Hok1. by wp_steps.
Qed.
End steps.
End RequestSteps.
