(* ===== verification/Multipart.v ===== *)
(** * Server-side copies of a multipart upload

    A multipart upload is completed with the parts that were uploaded and,
    for the rest of the file, server-side copies of ranges of the old object
    ([copyUnmodifiedParts] of [core/file.go]). *)

From S2P Require Import Prelude BTree Parts BufferList Locks Errors ReadAhead Attrs Inode FileIO Upload.

Module Multipart.
Import Inode Upload.
Section copy.
Context (flags : Flags).
Abbreviation ps := (PartSizes flags).

(** A range to copy: number of the part it becomes, offset, length. *)
Abbreviation range := (Z * Z * Z)%type.
(** The ranges follow each other from [lo] to [hi], perhaps with gaps, and none is empty. *)
Fixpoint laid (lo : Z) (ranges : list range) (hi : Z) : Prop :=
  match ranges with
  | [] => lo <= hi
  | (_, o, s) :: rest => lo <= o /\ 0 < s /\ laid (o + s) rest hi
  end.
Definition covered (ranges : list range) (x : Z) : Prop := exists r, r ∈ ranges /\ r.1.2 <= x < r.1.2 + r.2.

Lemma laid_app lo p1 mid p2 hi : laid lo p1 mid -> laid mid p2 hi -> laid lo (p1 ++ p2) hi.
Proof.
  revert lo. induction p1 as [|[[n o] s] p1 IH]; intros lo; cbn; [|intros (? & ? & H1) H2; split_and!; [done|done|by apply IH]].
  intros Hle. destruct p2 as [|[[n o] s] p2]; cbn; [lia|]. intros (? & ? & ?). split_and!; [lia|done|done].
Qed.
Lemma laid_mono lo p hi hi' : laid lo p hi -> hi <= hi' -> laid lo p hi'.
Proof. intros Hp Hle. rewrite <- (app_nil_r p). by eapply laid_app. Qed.
Lemma laid_le lo p hi : laid lo p hi -> lo <= hi.
Proof. revert lo. induction p as [|[[n o] s] p IH]; intros lo; cbn; [done|]. intros (? & ? & ?%IH). lia. Qed.
Lemma laid_end lo p hi x : laid lo p hi -> covered p x -> x < hi.
Proof.
  revert lo. induction p as [|[[n o] s] p IH]; intros lo; cbn; [by intros _ (r & ?%elem_of_nil & _)|].
  intros (? & ? & Hl) (r & Hr & Hx). apply elem_of_cons in Hr as [-> |Hr]; [cbn in Hx; apply laid_le in Hl; lia|]. eapply IH; [done|]. by exists r.
Qed.
Lemma covered_app p q x : covered (p ++ q) x <-> covered p x \/ covered q x.
Proof. unfold covered. setoid_rewrite elem_of_app. naive_solver. Qed.
Lemma covered_one (r : range) x : covered [r] x <-> r.1.2 <= x < r.1.2 + r.2.
Proof. unfold covered. setoid_rewrite list_elem_of_singleton. naive_solver. Qed.

Section layout.
Context (uploaded : gmap Z Z) (size n : Z) (bnd : Z -> Z).
Context (Hmax : size < two64) (H0 : bnd 0 = 0) (Hbnd : forall i, 0 <= i < n -> exists sz, Parts.partRange ps i = Ok (bnd i, sz) /\ 0 < sz /\ bnd i + sz < two64 /\
      0 <= bnd i < size /\ bnd (i + 1) = Z.min (bnd i + sz) size).

Lemma bnd_mono i j : 0 <= i <= j -> j <= n -> bnd i <= bnd j.
Proof using Hbnd.
  intros Hi Hj. replace j with (i + Z.of_nat (Z.to_nat (j - i))) in * by lia. revert Hj. generalize (Z.to_nat (j - i)). intros d.
  induction d as [|d IH]; intros Hj; [rewrite Z.add_0_r; lia|].
  destruct (Hbnd (i + Z.of_nat d)) as (sz & _ & ? & _ & ? & E); [lia|]. replace (i + Z.of_nat d + 1) with (i + Z.of_nat (S d)) in E by lia. lia.
Qed.
Lemma bnd_lt i j : 0 <= i < j -> j <= n -> bnd i < bnd j.
Proof using Hbnd.
  intros Hi Hj. destruct (Hbnd i) as (sz & _ & ? & _ & ? & E); [lia|]. pose proof (bnd_mono (i + 1) j ltac:(lia) Hj). lia.
Qed.
Lemma bnd_bound i : 0 <= i <= n -> 0 < n -> 0 <= bnd i <= size.
Proof using Hbnd.
  intros Hi Hn. destruct (decide (i = n)) as [->|]; [|destruct (Hbnd i) as (sz & _ & _ & _ & ? & _); lia].
  destruct (Hbnd (n - 1)) as (sz & _ & ? & _ & ? & E); [lia|]. replace (n - 1 + 1) with n in E by lia. lia.
Qed.

(** The copies for the parts below [k] that were not uploaded. *)
Record settled (k : Z) (ranges : list range) : Prop := {
  st_laid : laid 0 ranges (bnd k);
  st_starts : Forall (fun r : range => 0 <= r.1.1 < k /\ uploaded !! r.1.1 = None /\ r.1.2 = bnd r.1.1) ranges;
  st_covers : forall j x, 0 <= j < k -> bnd j <= x < bnd (j + 1) -> covered ranges x <-> uploaded !! j = None;
}.

Lemma starts_mono k k' ranges : k <= k' -> Forall (fun r : range => 0 <= r.1.1 < k /\ uploaded !! r.1.1 = None /\ r.1.2 = bnd r.1.1) ranges ->
  Forall (fun r : range => 0 <= r.1.1 < k' /\ uploaded !! r.1.1 = None /\ r.1.2 = bnd r.1.1) ranges.
Proof. intros Hk Hr. eapply Forall_impl; [done|]. intros r (? & ? & ?). split_and!; [lia..|done|done]. Qed.

(** An uploaded part is not copied. *)
Lemma settled_uploaded k ranges tag : 0 <= k < n -> settled k ranges -> uploaded !! k = Some tag -> settled (k + 1) ranges.
Proof using Hbnd.
  intros Hk [Hl Hs Hc] Hu. pose proof (bnd_lt k (k + 1) ltac:(lia) ltac:(lia)). split; [eapply laid_mono; [done|lia]|by eapply starts_mono, Hs; lia|].
  intros j x Hj Hx. destruct (decide (j = k)) as [-> |]; [|apply Hc; lia]. rewrite Hu. split; [|done].
  intros Hcov%(laid_end _ _ _ _ Hl). lia.
Qed.
(** The run of parts from [j] to [k] becomes one copy. *)
Lemma close_run ranges j k : 0 <= j < k -> k <= n -> settled j ranges -> (forall i, j <= i < k -> uploaded !! i = None) ->
  settled k (ranges ++ [(j, bnd j, bnd k - bnd j)]).
Proof using Hbnd.
  intros Hj Hk [Hl Hs Hc] Hu. pose proof (bnd_lt j k ltac:(lia) Hk). split.
  - eapply laid_app; [done|]. cbn. lia.
  - apply Forall_app. split; [by eapply starts_mono, Hs; lia|]. constructor; [|done]. cbn. split_and!; [lia..|apply Hu; lia|done].
  - intros i x Hi Hx. pose proof (bnd_mono (i + 1) k ltac:(lia) Hk). rewrite covered_app, covered_one. cbn. destruct (decide (i < j)) as [Hij|Hij].
    + pose proof (bnd_mono (i + 1) j ltac:(lia) ltac:(lia)). rewrite (Hc i x) by lia. intuition lia.
    + pose proof (bnd_mono j i ltac:(lia) ltac:(lia)). rewrite Hu by lia. split; [done|]. intros _. right. lia.
Qed.

(** After part [i - 1]: everything before the open run, if there is one, is settled. *)
Record copied (i : Z) (s : copy_state) : Prop := {
  cpd_settled : settled (if endPart s =? 0 then i else startPart s) (cp_ranges s);
  cpd_open : endPart s <> 0 -> endPart s = i /\ 0 <= startPart s < i /\ startOffset s = bnd (startPart s) /\ endOffset s = bnd i /\
    forall k, startPart s <= k < i -> uploaded !! k = None;
}.

Lemma copied_close i s : 0 <= i <= n -> copied i s -> endPart s <> 0 ->
  settled i (cp_ranges s ++ [(startPart s, startOffset s, endOffset s -u startOffset s)]).
Proof using Hbnd Hmax.
  intros Hi [Hs Ho] Hopen. rewrite (proj2 (Z.eqb_neq _ _)) in Hs by done. destruct (Ho Hopen) as (_ & Hp & -> & -> & Hu).
  pose proof (bnd_lt (startPart s) i ltac:(lia) ltac:(lia)). pose proof (bnd_bound i ltac:(lia) ltac:(lia)).
  pose proof (bnd_bound (startPart s) ltac:(lia) ltac:(lia)). u64s. by apply close_run; try lia.
Qed.

Lemma copy_part_spec maxMerge i s :
  0 <= i < n -> copied i s -> exists s', copy_part flags uploaded size maxMerge s i = Ok s' /\ copied (i + 1) s'.
Proof using Hbnd Hmax.
  intros Hi HC. destruct (Hbnd i Hi) as (sz & Er & Hsz & Hb1 & Hb & Hn). unfold copy_part. rewrite Er. cbn [bindO].
  rewrite (u64_small (bnd i + sz)) by lia.
  assert (Epe : (if size <? bnd i + sz then size else bnd i + sz) = bnd (i + 1)) by (destruct (Z.ltb_spec size (bnd i + sz)); lia).
  rewrite Epe. clear Epe. destruct (uploaded !! i) as [tag|] eqn:Eu.
  - (* an uploaded part ends a run *)
    destruct (Z.eqb_spec (endPart s) 0) as [E0|E0]; eexists; (split; [done|]).
    + destruct HC as [Hs _]. rewrite E0 in Hs. split; rewrite E0; [|done]. by eapply settled_uploaded.
    + pose proof (copied_close i s ltac:(lia) HC E0). split; cbn; [|done]. by eapply settled_uploaded.
  - set (sp := if endPart s =? 0 then i else startPart s).
    assert (Hrun : (if endPart s =? 0 then (i, bnd i) else (startPart s, startOffset s)) = (sp, bnd sp) /\ 0 <= sp <= i /\
      (forall k, sp <= k < i + 1 -> uploaded !! k = None) /\ settled sp (cp_ranges s)).
    { destruct HC as [Hs Ho]. unfold sp. destruct (Z.eqb_spec (endPart s) 0) as [E0|E0].
      - split_and!; try done; try lia. intros k Hk. by replace k with i by lia.
      - destruct (Ho E0) as (_ & ? & -> & _ & Hu). split_and!; try done; try lia. intros k Hk. destruct (decide (k = i)) as [->|]; [done|]. apply Hu. lia. }
    destruct Hrun as (-> & Hsp & Hu & Hs). pose proof (bnd_lt sp (i + 1) ltac:(lia) ltac:(lia)).
    pose proof (bnd_bound (i + 1) ltac:(lia) ltac:(lia)). pose proof (bnd_bound sp ltac:(lia) ltac:(lia)). u64s.
    destruct (maxMerge <=? bnd (i + 1) - bnd sp); eexists; (split; [done|]).
    + split; cbn; [|done]. by apply close_run; try lia.
    + assert (Hne : (i + 1 =? 0) = false) by lia. split; cbn; rewrite ?Hne; [done|]. intros _. split_and!; try done; lia.
Qed.

Lemma copy_parts_spec maxMerge s d :
  forall i, 0 <= i -> i + Z.of_nat d <= n -> copied i s ->
  exists s', copy_parts flags uploaded size maxMerge s (seqZ i (Z.of_nat d)) = Ok s' /\ copied (i + Z.of_nat d) s'.
Proof using Hbnd Hmax.
  revert s. induction d as [|d IH]; intros s i Hi Hd HC; [exists s; cbn; by rewrite Z.add_0_r|].
  rewrite (seqZ_cons i) by lia. cbn [copy_parts]. destruct (copy_part_spec maxMerge i s ltac:(lia) HC) as (s' & -> & HC'). cbn [bindO].
  destruct (IH s' (i + 1) ltac:(lia) ltac:(lia) HC') as (s'' & E & HC''). exists s''.
  replace (Z.pred (Z.of_nat (S d))) with (Z.of_nat d) by lia. replace (Z.succ i) with (i + 1) by lia. split; [done|].
  by replace (i + Z.of_nat (S d)) with (i + 1 + Z.of_nat d) by lia.
Qed.

Lemma copy_ranges_settled : 0 <= n -> exists ranges, copyUnmodifiedParts_ranges flags uploaded size n = Ok ranges /\ settled n ranges.
Proof using Type*.
  intros Hn. assert (HC0 : copied 0 (mkCopy [] 0 0 0 0)) by (split; cbn; [split; cbn; [lia|constructor|lia]|done]).
  destruct (copy_parts_spec (MaxMergeCopyMB flags *u 1024 *u 1024) _ (Z.to_nat n) 0 ltac:(lia) ltac:(lia) HC0) as (s & Es & HC).
  rewrite Z2Nat.id, Z.add_0_l in * by lia. unfold copyUnmodifiedParts_ranges. rewrite Es. cbn [bindO]. eexists. split; [done|].
  destruct (Z.eqb_spec (endPart s) 0) as [E0|E0]; [|by apply copied_close]. destruct HC as [Hs _]. by rewrite E0 in Hs.
Qed.
End layout.

(** C38: The ranges that complete a multipart upload by server-side copies are
    chosen without a panic, whatever parts were uploaded: they follow each
    other within the file without overlapping, none is empty, each starts where
    the part with its number starts, a part that was not uploaded, and the
    bytes they cover are exactly those of the parts that were not uploaded. *)
Theorem copy_ranges_exact uploaded size n :
  table_ok ps -> 0 < size <= getMaxFileSize ps -> Parts.numParts ps size = Ok n ->
  exists ranges, copyUnmodifiedParts_ranges flags uploaded size n = Ok ranges /\ laid 0 ranges size /\
    (forall k o s, (k, o, s) ∈ ranges -> 0 <= k < n /\ uploaded !! k = None /\ exists sz, Parts.partRange ps k = Ok (o, sz)) /\
    forall k o sz x, 0 <= k < n -> Parts.partRange ps k = Ok (o, sz) -> o <= x < Z.min (o + sz) size -> covered ranges x <-> uploaded !! k = None.
Proof.
  intros Hps Hsize En. destruct (part_layout ps Hps size n Hsize En) as [Hn (bnd & H0 & Hend & Hb)].
  pose proof (PartNum_limit (PartNumbering := table_PartNumbering ps Hps)).
  assert (Hbnd : forall i, 0 <= i < n -> exists sz, Parts.partRange ps i = Ok (bnd i, sz) /\ 0 < sz /\ bnd i + sz < two64 /\
      0 <= bnd i < size /\ bnd (i + 1) = Z.min (bnd i + sz) size).
  { intros i Hi. destruct (Hb i Hi) as (sz & Er & ? & ? & ? & ?). exists sz. split_and!; try done; try lia.
    destruct (partRange_in_range ps Hps i) as (o & sz' & Er' & _ & ? & _); [lia|]. rewrite Er in Er'. injection Er' as -> ->. done. }
  destruct (copy_ranges_settled uploaded size n bnd ltac:(lia) H0 Hbnd ltac:(lia)) as (ranges & E & [Hl Hs Hc]). rewrite Hend in Hl.
  exists ranges. split_and!; [done|done|..].
  - intros k o s Hin. rewrite Forall_forall in Hs. destruct (Hs _ Hin) as (Hk & Hu & Eo). cbn in *. subst o.
    split_and!; [lia..|done|]. destruct (Hbnd k Hk) as (sz & Er & _). by exists sz.
  - intros k o sz x Hk Er Hx. destruct (Hbnd k Hk) as (sz' & Er' & _ & _ & _ & En'). rewrite Er in Er'. injection Er' as -> ->. apply Hc; [done|lia].
Qed.
End copy.

Definition ex_flags : Flags :=
  mkFlags defaultPartSizes 8 16 16 5 128 false false false 512 20480 30 false false
    (Attrs.mkAttrFlags false false false [] [] [] [] [] [] 0 0 420 493) 30 60 (ReadAhead.mkReadFlags 5120 20480 102400 128 128 4).
Lemma copy_ranges_exact_witness :
  exists ranges, copyUnmodifiedParts_ranges ex_flags {[1 := 7; 40 := 9]} 300000000 58 = Ok ranges /\ laid 0 ranges 300000000 /\
    covered ranges 10485760 /\ ~ covered ranges 5242880.
Proof.
  destruct (copy_ranges_exact ex_flags {[1 := 7; 40 := 9]} 300000000 58) as (ranges & E & Hl & _ & Hc).
  - apply default_table_ok.
  - vm_compute. split; [reflexivity|discriminate].
  - vm_compute. reflexivity.
  - exists ranges. split; [exact E|]. split; [exact Hl|]. split.
    + apply (Hc 2 10485760 5242880 10485760); [lia|vm_compute; reflexivity|lia|reflexivity].
    + intros Hcov. apply (Hc 1 5242880 5242880 5242880) in Hcov; [discriminate|lia|vm_compute; reflexivity|lia].
Defined.

(** The ranges of the example: the copies are cut at 128 MB. *)
Example copy_ranges_merged :
  copyUnmodifiedParts_ranges ex_flags {[1 := 7; 40 := 9]} 300000000 58 =
  Ok [(0, 0, 5242880); (2, 10485760, 136314880); (28, 146800640, 62914560); (41, 214958080, 85041920)].
Proof. vm_compute. reflexivity. Qed.
End Multipart.
