(* ===== verification/FileExamples.v ===== *)
(** * A small file to evaluate

    A mount with parts of 8 and 16 bytes and a file in it, which the
    developments about files use to evaluate their definitions: the bounds of
    the part table, the flags and the answers of the environment are those of
    no real mount, but they are small enough to follow by hand. *)

From stdpp Require Import strings.
From S2P Require Import Prelude BTree Parts BufferList BufferListInv Queues Errors ReadAhead Attrs Inode FileIO.

Module FileExamples.
Import Errors BufferList Inode FileIO.

Definition small_parts : list PartSizeConfig := [mkPartSize 8 4; mkPartSize 16 4].
Lemma small_parts_ok : table_ok small_parts.
Proof. split; [repeat constructor|]; vm_compute; congruence. Qed.
Abbreviation small_limit := (getMaxFileSize small_parts).

(** [perms] and [specials] enable the attributes, [cached] the disk cache. *)
Definition small_flags (perms usePatch cached : bool) : Flags :=
  mkFlags small_parts 2 4 16 0 1 usePatch false false 0 64 2 false cached
    (Attrs.mkAttrFlags true perms perms (txt "mtime") (txt "uid") (txt "gid") (txt "mode") (txt "rdev") (txt "--symlink-target") 0 0 420 493)
    30 60 (ReadAhead.mkReadFlags 0 0 0 128 128 4).
Definition small_env : Env :=
  mkEnv (fmap Encoding.lower_byte) id id (fun _ => true) (fun _ => None) (fun _ _ n => inl (replicate (Z.to_nat n) 0)).

#[export] Instance small_helpers : BufferListHelpers (BufferQueue.t (gmap Z)) := inode_helpers small_parts 1.
#[export] Instance small_laws : BufferListHelpersLaws (BufferQueue.t (gmap Z)) small_limit :=
  inode_helpers_laws small_parts 1 small_parts_ok.
Abbreviation SmallInode := (Inode (gmap Z) (BufferQueue.t (gmap Z))).

(** A file of [size] bytes in state [st], with nothing of it in memory and its metadata [meta]. *)
Definition small_file (size : Z) (st : cache_state) (meta : option (gmap text text)) : SmallInode :=
  mkInode (empty_list BufferQueue.empty) size (Attrs.mk 0 0 0 0 420 0 meta 0 ∅) size (txt "etag") st None 0 [] 0 0 false 0
    None 0 None 7 (1, txt "f") None false 0 0 false false 0 ∅ 0 false false false 0 ∅ ∅ false 100 1 [].

Lemma small_queue_ok : queue_ok (BufferQueue.empty (M := gmap Z)).
Proof. by split; [apply BufferQueue.empty_ok|]. Qed.
Lemma small_file_Inv size st meta : BufferListInv.Inv (limit := small_limit) (buffers (small_file size st meta)).
Proof. apply BufferListInv.empty_list_Inv; [apply small_queue_ok|apply BufferQueue.empty_view]. Qed.

(** The state after a computation that returns. *)
Definition after {S A} (m : St S A) (s : S) : S := match m s with Ok (_, s') => s' | _ => s end.
Lemma after_wp {S A} (m : St S A) (P : S -> Prop) s : wp m (fun _ => P) s -> P (after m s).
Proof. unfold wp, after. by destruct (m s) as [[]| |]. Qed.
End FileExamples.
