(* ===== verification/MachineSpec.v ===== *)
(** * What every run of a file keeps

    Runs of the machine of [Machine]: the states a file can reach from an
    opened or newly created one, by calls of the kernel, decisions of the
    flusher, eviction, changes by the directory and turns of its goroutines, in
    any order and with any answers of the server.  The theorems hold in each of
    them. *)

From stdpp Require Import strings.
From S2P Require Import Prelude BTree Parts BufferList BufferListInv BufferListView.
From S2P Require Import BufferListRemove BufferListAdd BufferListRead BufferListState BufferListSpec.
From S2P Require Import Locks Errors ReadAhead Attrs Inode FileIO Upload Machine ListEffect FileSpec FileInv FileSteps FlushSteps RequestSteps FileExamples.

Module MachineSpec.
Import Errors BufferList BufferListInv BufferListView BufferListRemove BufferListAdd BufferListRead BufferListState BufferListSpec.
Import Inode FileIO Upload Machine ListEffect FileSpec FileInv FileSteps FlushSteps RequestSteps.

Section runs.
Context {M : Type -> Type} `{HBT : BTreeMap M} `{HBL : !BTreeMapLaws M} {Q : Type} `{HQ : BufferListHelpers Q}.
Context {limit : Z} `{HLaws : !BufferListHelpersLaws Q limit}.
Context (flags : Flags) (env : Env).
Abbreviation I := (Inode M Q).
Implicit Types (l : bl M Q) (i : I) (x : Z) (t : task).

(** ** Actions that can occur *)

(** Answers: a chunk is complete and a stored object has a tag.  Two states in
    which the code goes wrong ([Defects]) are left out: a load when the byte at
    the known end of the object is missing from a longer file ([load_guard]),
    and the end of a truncation that waited while the file became shorter than
    the new size, with a buffer around both ends ([resize_guard]). *)
Definition answer_ok i t (r : response) : Prop :=
  match t, r with
  | TRead _ _ _ (ReadBody _ _ _ _ _ rest _), GotChunk _ (inl buf) => zlen buf = chunk_size rest
  | (TPart _ _ _ _ _ | TSmall), Continue _ | TReadFile _ _ _ _, Synced _ => load_guard i
  | (TSmallPut _ _ | TCommit _ _), GotStored s => r_ETag s <> None
  | TResize newSize, Synced _ => resize_guard i newSize
  | _, _ => True
  end.
Definition action_ok i (a : action) : Prop :=
  match a with
  | AWrite offset data _ _ _ => 0 <= offset < 9223372036854775808 /\ 0 < zlen data < 9223372036854775808
  | AWriteAgain offset data _ _ => 0 <= offset /\ 0 < zlen data /\ offset + zlen data <= limit   (* checked before it waited *)
  | AResize newSize => 0 <= newSize <= limit
  | ARead _ offset len => load_guard i /\ 0 <= offset < 9223372036854775808 /\ 0 < len < 9223372036854775808
  | ARelease => 0 < fileHandles i
  | AEvict _ toDisk => toDisk = false
  | ABlobItem item _ => 0 <= it_Size item <= limit
  | ATask n r => forall t, tasks i !! n = Some t -> answer_ok i t r
  | _ => True
  end.

(** A file that was looked up or created. *)
Definition opened i : Prop :=
  (exists q, buffers i = empty_list q /\ queue_ok (limit := limit) q /\ queue_view (limit := limit) q = ∅) /\
  0 <= Size i <= limit /\ 0 <= knownSize i <= limit /\ 0 <= lastWriteEnd i <= limit /\
  mpu i = None /\ IsFlushing i = 0 /\ readRanges i = [] /\ pauseWriters i = 0 /\ tasks i = [].

Inductive reachable : I -> Prop :=
| reach_open i : opened i -> reachable i
| reach_step i a i' : reachable i -> action_ok i a -> run_action flags env a i = Ok (tt, i') -> reachable i'.

(** ** Pending bytes an action may take away *)

(** The request brought the pending byte to the server. *)
Definition delivered (rq : send_request) i x : Prop :=
  carries (buffers i) (rq_ids rq) x /\ within (rq_offset rq) (rq_size rq) x /\
  pending (buffers i) x = znth (concat (rq_data rq)) (x - rq_offset rq).
Definition between (a b x : Z) : Prop := Z.min a b <= x < Z.max a b.
Definition task_takes i t (r : response) x : Prop :=
  match t, r with
  | TPart _ _ _ _ (PartUploading rq _ _), GotTag _ | TSmallPut rq _, GotStored _ => delivered rq i x
  | TResize newSize, Synced _ => newSize <= x < Size i
  | _, _ => False
  end.
Definition takes i (a : action) x : Prop :=
  match a with
  | AWrite offset data _ _ _ | AWriteAgain offset data _ _ => Z.min offset (Size i) <= x < offset + zlen data
  | AResize newSize => between newSize (Size i) x
  | ATask n r => exists t, tasks i !! n = Some t /\ task_takes i t r x
  | _ => False
  end.
(** ** When the cached data is dropped as a whole

    The server reports that the object is gone or has another size: to the
    request of this goroutine, to a read whose error is recorded, to a copy
    within the upload, or to a listing; or the file is being deleted. *)

Definition task_drops i t (r : response) : Prop :=
  match t, r with
  | (TPart _ _ _ _ (PartStart | PartLoading _ _) | TSmall | TSmallLoading _ _), Continue _ => load_conflict i
  | TPart _ _ _ _ (PartUploading _ _ _), Failed e => is_errno ENOENT (mapAwsError (Some e)) = true
  | TCopying _ _ _ _ _ _ err, Continue _ => remote_conflict err = true
  | (TUpdateMeta | TRename _ _), Failed e => remote_conflict (Some e) = true
  | TDelete _, DeleteDone _ _ => CacheState i = ST_DELETED
  | TReadFile _ _ _ _, Synced err => remote_conflict err = true \/ load_conflict i
  | _, _ => False
  end.
Definition drops i (a : action) : Prop :=
  match a with
  | ARead _ _ _ => load_conflict i
  | AUnlink => True
  | ABlobItem item _ => it_Size item <> knownSize i \/ exists tag, it_ETag item = Some tag /\ tag <> knownETag i
  | ATask n r => exists t, tasks i !! n = Some t /\ task_drops i t r
  | _ => False
  end.
(** ** Every section keeps the invariant *)

Lemma sent_delivered i rq x : BufferListInv.Inv (limit := limit) (buffers i) -> sent_ok (buffers i) rq -> carries (buffers i) (rq_ids rq) x -> delivered rq i x.
Proof using HBL.
  intros HI (_ & _ & Hs) Hc. pose proof Hc as (b & Eo & Hf). destruct (Hs x b Eo Hf) as [Hx Eb]. split_and!; try done; [apply Hx..|].
  unfold pending. rewrite Eo, <- Eb. apply (owner_lookup _ x b (inv_shape _ HI)) in Eo as (k & Hk & _). destruct Hf as [Hne _].
  apply (id_dirty _ _ (inv_ids _ HI) k b Hk) in Hne. by rewrite (proj2 (is_state_true b _)).
Qed.

Context (HMt : mount_ok Q limit flags).
Section step.
Context {base : Z -> option byte} {lost : Z -> Prop} {resets : Prop}.
Abbreviation ok := (FileInv.ok (limit := limit) (base := base) (lost := lost) (resets := resets) flags).

Lemma resumed_map cur i (f : read_stage -> task) (r : option read_stage) :
  ok (resumed (f <$> r) cur) i -> wp (ret (f <$> r)) (fun r i' => ok (resumed r cur) i') i.
Proof. intros ?. by wp_steps. Qed.

Lemma part_task_ok cur i part o s p st r :
  ok (TPart part o s p st :: cur) i -> answer_ok i (TPart part o s p st) r -> (task_drops i (TPart part o s p st) r -> resets) ->
  (forall x, task_takes i (TPart part o s p st) r x -> lost x) ->
  wp (run_task flags env (TPart part o s p st) r) (fun r i' => ok (resumed r cur) i') i.
Proof using Type*.
  intros Hok Ha HR HL. pose proof (ok_head _ _ _ _ Hok) as Ht. destruct st as [|psz ls|rq full up]; cbn [run_task].
  1,2: destruct r; try (by wp_steps); apply wp_bind;
    (wp_use (flushPart_resume_ok flags env HMt (resets := resets)); [exact Hok|exact Ha|exact HR|done|]; intros st' i' Hp; by apply part_next_ok).
  assert (Hd : forall tag, tagged r = Some (inl tag) -> forall x, carries (buffers i) (rq_ids rq) x -> lost x).
  { intros tag Er x Hc. apply HL. destruct Ht as (_ & _ & _ & _ & _ & _ & Hsent & _). destruct r; try done; cbn.
    all: apply sent_delivered; [apply Hok|done|done]. }
  destruct (tagged r) as [resp|] eqn:Er; [|by wp_steps]. apply wp_bind.
  wp_use (flushPart_done_ok flags env HMt cur i part o s p rq full up resp Hok).
  - intros e -> En. apply HR. by destruct r; simplify_eq/=.
  - intros tag x -> Hc. by eapply Hd.
  - intros _ i' Hp. by apply part_next_ok.
Qed.

Lemma run_task_ok cur i t r :
  ok (t :: cur) i -> answer_ok i t r -> (task_drops i t r -> resets) -> (forall x, task_takes i t r x -> lost x) ->
  wp (run_task flags env t r) (fun r i' => ok (resumed r cur) i') i.
Proof using Type*.
  intros Hok Ha HR HL. assert (Hstay : wp (ret (Some t)) (fun r i' => ok (resumed r cur) i') i) by (by wp_steps).
  assert (Hend : forall m : St I unit, wp m (fun _ i' => ok cur i') i -> wp (m ;;; ret None) (fun r i' => ok (resumed r cur) i') i).
  { intros m Hm. apply wp_bind. eapply wp_mono; [exact Hm|cbn beta]. intros _ i' Hok'. by wp_steps. }
  pose proof (ok_head _ _ _ _ Hok) as Ht.
  destruct t as [key o s [|co cs al at_|co cs al at_ off rest td]|part o s p st| |sz ls|rq md| |key fs n up todo running err|fs up| |key|key md| | | | | |old new|place old|old|del| |old|old fg|fg| | |o s ra st|n];
    try done; cbn [run_task].
  - destruct r; try exact Hstay. apply wp_bind. wp_use (retryRead_start_ok flags HMt); [exact Hok|]. intros st i' Hok'. by apply resumed_map.
  - destruct (answered r); [|exact Hstay]. apply wp_bind. wp_use (sendRead_response_ok flags HMt); [exact Hok|]. intros st i' Hok'. by apply resumed_map.
  - destruct r; try exact Hstay. apply wp_bind. wp_use (sendRead_chunk_ok flags env HMt); [exact Hok| |intros st i' Hok'; by apply resumed_map].
    intros buf ->. exact Ha.
  - by apply part_task_ok.
  - destruct r; try exact Hstay. by apply (flushSmallObject_ok flags env HMt (resets := resets)).
  - destruct r; try exact Hstay. by apply (flushSmallObject_resume_ok flags env HMt (resets := resets)).
  - destruct (stored r) as [resp|] eqn:Er; [|exact Hstay]. apply Hend. apply (flushSmallObject_done_ok flags HMt); [exact Hok|..].
    + intros s ->. by destruct r; cbn in *; simplify_eq.
    + intros s x -> Hc. apply HL. destruct r; cbn in Er; simplify_eq. apply sent_delivered; [apply Hok|by destruct Ht as (_ & _ & _ & ?)|done].
  - destruct r; try exact Hstay. apply wp_bind.
    wp_use (completeMultipart_ok flags env HMt (resets := resets)); [exact Hok|]. intros t' i' Hp. by apply complete_next_ok.
  - destruct r; try exact Hstay.
    + by apply (copy_next_ok flags env HMt (resets := resets)).
    + destruct (running !! idx) as [[[part ?] ?]|]; [|exact Hstay]. by eapply copy_done_ok.
  - destruct (stored r) as [resp|] eqn:Er; [|exact Hstay]. apply wp_bind. wp_use (commitMultipartUpload_done_ok flags HMt); [exact Hok| |].
    + intros s ->. by destruct r; cbn in *; simplify_eq.
    + intros _ i' Hok'. by apply complete_next_ok.
  - destruct (answered r) as [err|] eqn:Er; [|exact Hstay]. apply Hend. apply (sendUpdateMeta_done_ok flags env HMt (resets := resets)); [by eapply to_alone|].
    intros Hc. apply HR. by destruct r; simplify_eq/=.
  - destruct r; try exact Hstay. apply wp_bind. wp_use (idle_ok flags (TBegin key :: cur)); [apply beginMultipartUpload_idle|exact Hok|].
    intros md i' [Hok' _]. wp_steps. pose proof (ok_head _ _ _ _ Hok') as Ht'. eapply ok_swap; [exact Hok'|done..].
  - destruct (answered r) as [err|]; [|exact Hstay]. apply wp_bind. wp_use (beginMultipartUpload_done_ok flags HMt); [by eapply to_alone|].
    intros _ i1 Hok1. apply wp_bind. wp_use (end_alone flags HMt); [exact Hok1|]. intros _ i2 Hok2. by wp_steps.
  - destruct (answered r) as [err|] eqn:Er; [|exact Hstay]. apply (sendRename_copied_ok flags env HMt (resets := resets)); [by eapply to_alone|].
    intros Hc. apply HR. by destruct r; simplify_eq/=.
  - destruct r; try exact Hstay. unfold sendRename_removed. wp_steps. destruct old; (eapply ok_swap; [exact Hok|done..]).
  - destruct r; try exact Hstay. apply (sendRename_undelete_ok flags HMt). by eapply to_alone.
  - destruct r; try exact Hstay. apply (sendRename_deleted_ok flags HMt). by eapply to_alone.
  - destruct r; try exact Hstay. apply Hend. apply (end_alone flags HMt). by eapply to_alone.
  - destruct r; try exact Hstay. apply (SendDelete_done_ok flags env HMt (resets := resets)); [by eapply to_alone|done].
  - destruct r; try exact Hstay. apply (SendDelete_old_ok flags HMt). by eapply (ok_idler_end flags HMt).
  - destruct r; try exact Hstay. apply (SendDelete_entry_ok flags HMt). by eapply (ok_idler_end flags HMt).
  - destruct r; try exact Hstay. wp_steps. by eapply (ok_idler_end flags HMt).
  - destruct (answered r) as [err|]; [|exact Hstay]. apply Hend. apply (SendMkDir_done_ok flags HMt). by eapply to_alone.
  - destruct r; try exact Hstay. apply wp_bind.
    wp_use (ReadFile_resume_ok flags env HMt (resets := resets)); [exact Hok|exact Ha|exact HR|]. intros res i' Hok'. by wp_steps.
  - destruct r; try exact Hstay. apply wp_bind. wp_use (Resize_synced_ok flags HMt); [exact Hok|exact Ha|exact HL|]. intros res i' Hok'. by wp_steps.
Qed.

(** A goroutine takes the lock, and ends its section. *)
Lemma ok_take cur i n t : ok cur i -> tasks i !! n = Some t -> ok (t :: cur) (set_tasks (delete n (tasks i)) i).
Proof using HBL.
  intros Hok Hn. eapply ok_same; [exact Hok|done|]. unfold goroutines. cbn.
  rewrite (delete_Permutation (tasks i) n t Hn) at 2. by rewrite Permutation_middle.
Qed.
Lemma start_if_ok cur i (r : option task) : ok (resumed r cur) i -> wp (start_if r) (fun _ i' => ok cur i') i.
Proof using HBL.
  destruct r as [t|]; cbn [start_if resumed]; intros Hok; [|by wp_steps]. wp_use (go_ok flags cur); [exact Hok|]. by intros _ i' [? _].
Qed.

Lemma run_action_ok i a :
  ok [] i -> action_ok i a -> (drops i a -> resets) -> (forall x, takes i a x -> lost x) ->
  wp (run_action flags env a) (fun _ i' => ok [] i') i.
Proof using Type*.
  intros Hok Ha HR HL.
  assert (Hend : forall A (m : St I A), wp m (fun _ i' => ok [] i') i -> wp (m ;;; ret tt) (fun _ i' => ok [] i') i).
  { intros A m Hm. apply wp_bind. eapply wp_mono; [exact Hm|cbn beta]. intros _ i' Hok'. by wp_steps. }
  destruct a as [off data spare cp em|off data spare cp|n|fh off len| | |prio parent od| |k d| |to rn|item ct|now act want|n r]; cbn [run_action].
  - apply Hend. destruct Ha. wp_use (WriteFile_ok flags HMt); [exact Hok|done|done|exact HL|]. by intros r i' [? _].
  - apply Hend. destruct Ha as (? & ? & ?). wp_use (WriteFile_body_ok flags HMt); [exact Hok|done|done|done|exact HL|]. by intros r i' [? _].
  - apply wp_bind. wp_use (ResizeUnlocked_ok flags HMt); [exact Hok|exact Ha|exact HL|]. intros r i' (? & _). by apply start_if_ok.
  - destruct Ha as (? & ? & ?). apply wp_bind.
    wp_use (ReadFile_ok flags env HMt (resets := resets)); [exact Hok|done|exact HR|done|done|]. intros [r fh'] i' Hok'. by apply start_if_ok.
  - apply Hend. wp_use (idle_ok flags []); [apply OpenFile_idle|exact Hok|]. by intros r i' [? _].
  - by apply (Release_ok flags).
  - apply Hend. by apply (TryFlush_ok flags HMt).
  - apply Hend. wp_use (idle_ok flags []); [apply SyncFile_check_idle|exact Hok|]. by intros r i' [? _].
  - wp_use (evict_one_ok flags HMt); [exact Hok|exact Ha|]. by intros r i' [? _].
  - assert (HM : May resets) by (by apply HR). by apply (doUnlink_ok flags env (resets := resets)).
  - wp_use (idle_ok flags []); [apply renameInCache_idle|exact Hok|]. by intros r i' [? _].
  - by apply (SetFromBlobItem_ok flags env (resets := resets)).
  - wp_steps. eapply ok_same; [exact Hok|done|done].
  - apply wp_bind, wp_getS. destruct (tasks i !! n) as [t|] eqn:Et; [|by wp_steps]. apply wp_bind, wp_modS, wp_bind.
    wp_use (run_task_ok [] (set_tasks (delete n (tasks i)) i) t r); [by apply ok_take|by apply Ha|intros Hd; apply HR; by exists t| |intros t' i'; apply start_if_ok].
    intros x Hx. apply HL. by exists t.
Qed.
End step.

Abbreviation ok_since base lost resets := (FileInv.ok (limit := limit) (base := base) (lost := lost) (resets := resets) flags []).

Lemma opened_ok base lost resets i : opened i -> (forall x, base x = None) -> ok_since base lost resets i.
Proof using Type*.
  intros ((q & Eb & Hq & Hv) & ? & ? & ? & Em & Ef & Er & Ep & Et) Hb. pose proof (empty_list_Inv (M := M) q Hq Hv) as HI. rewrite <- Eb in HI.
  assert (Hno : forall x, owner (buffers i) x = None).
  { intros x. apply (owner_None _ x (inv_shape _ HI)). intros k b Hk. rewrite Eb in Hk. unfold bufs in Hk. cbn in Hk.
    by rewrite bt_map_empty in Hk. }
  split; try done; unfold goroutines, locks_ok; rewrite ?Et, ?Er; cbn; try done; try lia; try (by intros ? ?%elem_of_nil).
  - intros x b Eo. by rewrite Hno in Eo.
  - intros x b Eo. by rewrite Hno in Eo.
  - intros _ x b Eo. by rewrite Hno in Eo.
  - pose proof HMt as []. lia.
  - right. intros x. left. by rewrite Hb, pending_none.
Qed.

(** The invariant holds in every reachable state, counted from that state on. *)
Lemma reachable_ok i lost resets : reachable i -> ok_since (pending (buffers i)) lost resets i.
Proof using Type*.
  intros Hr. revert lost resets. induction Hr as [i Ho|i a i' _ IH Ha Hrun]; intros lost resets.
  - pose proof (opened_ok (fun _ => None) lost resets i Ho ltac:(done)) as Hok. by eapply ok_rebase.
  - pose proof (run_action_ok i a (IH (fun _ => True) True) Ha ltac:(done) ltac:(done)) as Hw.
    apply wp_run in Hw as (u & i2 & E & Hok). rewrite Hrun in E. injection E as _ <-. by eapply ok_rebase.
Qed.

(** ** The theorems *)


(** C2: Durability, for the mounts and actions of the previous theorem. An
    action takes a pending byte away only by overwriting or cutting it off, by
    receiving the answer to a request that carried this very byte to the server,
    or by dropping the cached data as a whole, which happens only in the cases
    of [drops]: the file is unlinked or its deletion is done; the answer to this
    request, the recorded error of a read or the error of a copy of the upload
    (also of one that found the upload canceled) says that the object is gone or
    shorter; a read or a flush is about to load while a byte behind the known
    end is missing; or a listing shows another size or tag. All other pending
    bytes keep their value. *)
Theorem pending_bytes_survive i a i' :
  reachable i -> action_ok i a -> run_action flags env a i = Ok (tt, i') ->
  drops i a /\ (forall x, pending (buffers i') x = None \/ takes i a x) \/
  forall x, pending (buffers i') x = pending (buffers i) x \/ takes i a x.
Proof using HBL HMt.
  intros Hr Ha Hrun. pose proof (run_action_ok i a (reachable_ok i (takes i a) (drops i a) Hr) Ha ltac:(done) ltac:(done)) as Hw.
  apply wp_run in Hw as ([] & i2 & E & Hok). rewrite Hrun in E. injection E as <-. apply Hok.
Qed.

Definition uploads_part t : bool := match t with TPart _ _ _ _ _ => true | _ => false end.

(** C5: Mutual exclusion.  While a goroutine that needs the file for itself is
    running (storing a small file, starting, completing or committing a
    multipart upload, updating metadata, renaming, deleting), no other goroutine
    is flushing the file, and the flusher cannot start one; the parts being
    uploaded are never more than [MaxParallelParts]. *)
Theorem flushers_exclude i :
  reachable i ->
  (forall ts1 t ts2, tasks i = ts1 ++ t :: ts2 -> exclusive t = true -> IsFlushing i = MaxParallelParts flags /\
    forall t', t' ∈ ts1 ++ ts2 -> match t' with TRead _ _ _ _ | TReadFile _ _ _ _ | TResize _ | TDeleteOld _ _ | TDeleteEntry _ | TDeleteForget => True | _ => False end) /\
  zlen (filter (fun t => uploads_part t = true) (tasks i)) <= MaxParallelParts flags.
Proof using HBL HMt.
  intros Hr. pose proof HMt as []. pose proof (reachable_ok i (fun _ => True) True Hr) as Hok. split.
  - intros ts1 t ts2 Et He.
    assert (Hok' : FileInv.ok (limit := limit) (base := pending (buffers i)) (lost := fun _ => True) (resets := True) flags [t] (set_tasks (ts1 ++ ts2) i)).
    { eapply ok_same; [exact Hok|done|]. unfold goroutines. cbn. rewrite Et. by rewrite Permutation_middle. }
    assert (Hw : forall t', t' ∈ ts1 ++ ts2 -> weight flags t' = 0).
    { intros t' Ht'. eapply (ok_alone flags [] _ t); [done|exact Hok'|done|done]. }
    split.
    + pose proof (ok_flushing _ _ _ Hok') as Ef. unfold goroutines in Ef. cbn in Ef. rewrite (exclusive_weight flags t He) in Ef.
      assert (total (weight flags) (ts1 ++ ts2) = 0); [|lia]. clear -Hw. induction (ts1 ++ ts2) as [|u us IH]; [done|]. cbn.
      rewrite (Hw u), IH; [done| |by left]. intros v Hv. apply Hw. by right.
    + intros t' Ht'. specialize (Hw t' Ht'). destruct t'; cbn in Hw; try done; try lia. unfold patch_weight in Hw. case_match; lia.
  - pose proof (ok_max _ _ _ Hok) as Hm. rewrite (ok_flushing _ _ _ Hok) in Hm. unfold goroutines in Hm. cbn in Hm.
    etrans; [|exact Hm]. clear -mt_max0. induction (tasks i) as [|t ts IH]; cbn [total]; [done|]. pose proof (weight_nonneg flags t mt_max0).
    rewrite filter_cons. case_decide as Hd; [unfold zlen in *; cbn [length]; destruct t; try done; cbn; lia|lia].
Qed.

(** C12: Nothing counts as uploaded without an upload, on mounts without PATCH
    and disk cache. A byte that is neither clean nor dirty has been stored in a
    part of the multipart upload in progress: in every reachable state without
    one, every byte in memory is either the same as on the server or still to be
    flushed, none has been dropped from memory, and [GetData] can be asked for
    any range. *)
Theorem flushed_has_upload i x b off n rid :
  reachable i -> mpu i = None -> owner (buffers i) x = Some b -> 0 <= off -> 0 < n -> off + n < two64 ->
  (b_state b = BUF_CLEAN \/ b_state b = BUF_DIRTY) /\ exists r, GetData off n rid (buffers i) = Ok r.
Proof using HBL HMt.
  intros Hr Hm Eo ? ? ?. pose proof (reachable_ok i (fun _ => True) True Hr) as Hok. split.
  - pose proof (ok_mpu _ _ _ Hok Hm x b Eo) as Hs. unfold is_flushed, is_state in Hs. destruct (b_state b); auto; done.
  - destruct (GetData_runs (buffers i) off n rid) as (ds & ids & err & ->); try done; [apply Hok|apply Hok|by eapply no_upload_cleared|eauto].
Qed.

(** The state after an action. *)
Lemma reach_after i a : reachable i -> action_ok i a -> reachable (FileExamples.after (run_action flags env a) i).
Proof using HBL HMt.
  intros Hr Ha. pose proof (run_action_ok i a (reachable_ok i (fun _ => True) True Hr) Ha ltac:(done) ltac:(done)) as Hw.
  apply wp_run in Hw as ([] & i' & E & _). unfold FileExamples.after. rewrite E. by eapply reach_step.
Qed.
End runs.
End MachineSpec.
