(* ===== verification/TreeInv.v ===== *)
(** * The invariant of the tree

    What holds of the inodes and directories between any two operations of
    [Tree]: every inode keeps the invariant of [FileInv]; the children of a
    directory are in order, have it as their parent, and no name is there
    twice; the parent of a directory is older than the directory, so that going
    up ends; and a directory that counts as deleted is empty, is not among the
    children of its parent, and is in the place where it was deleted.

    [same] and [extends] say how an operation may change the tree. *)

From stdpp Require Import strings.
From S2P Require Import Prelude BTree Parts BufferList BufferListInv BufferListView BufferListSpec.
From S2P Require Import Locks Errors ReadAhead Attrs Names Listing Children Inode FileIO Upload Machine Tree Frame.
From S2P Require Import FileSpec FileInv FileSteps RequestSteps MachineSpec.

Module TreeInv.
Import Errors Names Listing Children BufferList BufferListInv Inode FileIO Upload Machine Frame FileInv FileSteps RequestSteps Tree.

(** The mounts the invariant is about: those of [FileInv], with room for the
    size of a directory, and new inodes that have no clean buffers. *)
Class Mounted {Q : Type} `{HQ : BufferListHelpers Q} (limit : Z) `{HLaws : !BufferListHelpersLaws Q limit} (flags : Flags) (q0 : Q) : Prop := {
  mo_queue : queue_ok (limit := limit) q0 /\ queue_view (limit := limit) q0 = ∅;
  mo_mount : mount_ok Q limit flags;
  mo_room : 4096 <= limit;
}.

Section inv.
Context {M : Type -> Type} `{HBT : BTreeMap M} `{HBL : !BTreeMapLaws M} {Q : Type} `{HQ : BufferListHelpers Q}.
Context {limit : Z} `{HLaws : !BufferListHelpersLaws Q limit}.
Context (flags : Flags).
Abbreviation I := (Inode M Q).
Abbreviation FS := (FS M Q).
Abbreviation Node := (Node M Q).
(** The invariant of one inode, with nothing said about the history of its data. *)
Abbreviation ok := (FileInv.ok (limit := limit) (base := fun _ => None) (lost := fun _ => True) (resets := True) flags []).
Implicit Types (p d c h : Z) (fs : FS) (name : text) (nd : Node) (cs : list Z) (X : Z -> Prop).

(** ** The tree *)

Definition has fs p : Prop := is_Some (nodes fs !! p).
Definition kids fs d : option (list Z) := at_node fs d (fun nd => Children <$> dir nd) None.
Definition dels fs : gmap location Z := w_DeletedChildren (world fs).
Definition is_dir fs d : Prop := is_Some (kids fs d).
(** A directory the kernel can use: it is not deleted. *)
Definition alive fs d : Prop := is_dir fs d /\ forall l, dels fs !! l <> Some d.

(** Where an inode can be: in a directory. *)
Definition place fs (l : location) : Prop := is_dir fs l.1.

Record node_ok (next p : Z) nd : Prop := {
  no_ptr : 0 < p < next;
  no_self : self (inode nd) = p;
  no_ok : ok (inode nd);
  no_gaps : forall di, dir nd = Some di -> Gaps.len (gaps di) = 0;
  no_root : (loc (inode nd)).1 = 0 -> Id nd = 1;
}.
Record heap_ok fs : Prop := {
  hp_nodes : forall p nd, nodes fs !! p = Some nd -> node_ok (nextPtr fs) p nd;
  hp_numbers : forall id p, inodes fs !! id = Some p -> has fs p;
  hp_places : forall p nd, nodes fs !! p = Some nd -> placed (place fs) (inode nd);
}.
Record links_ok fs : Prop := {
  lk_parent : forall p, has fs p -> parent_of fs p = 0 \/ is_dir fs (parent_of fs p);
  lk_order : forall d, is_dir fs d -> 0 <= parent_of fs d < d;
  lk_sorted : forall d cs, kids fs d = Some cs -> sorted (name_of fs <$> cs) /\ [] ∉ name_of fs <$> cs;
  lk_child : forall d cs c, kids fs d = Some cs -> c ∈ cs -> has fs c /\ parent_of fs c = d;
  lk_root : forall p, has fs p -> parent_of fs p = 0 -> p = root;
}.
(** Deleted names; the directories in [X] are in the middle of being moved. *)
Definition tombs_ok X fs : Prop :=
  forall d name p, dels fs !! (d, name) = Some p -> has fs p /\
    forall cs, kids fs p = Some cs ->
      parent_of fs p = d /\ name_of fs p = name /\ (X p \/ cs = [] /\ forall ds, kids fs d = Some ds -> p ∉ ds).
Record wf X fs : Prop := {
  wf_heap : heap_ok fs;
  wf_links : links_ok fs;
  wf_tombs : tombs_ok X fs;
  wf_handles : forall h dh, dirHandles fs !! h = Some dh -> is_dir fs (dh_inode dh);
  wf_root : alive fs root /\ parent_of fs root = 0;
}.

Lemma wf_nodes X fs : wf X fs -> forall p nd, nodes fs !! p = Some nd -> node_ok (nextPtr fs) p nd.
Proof. intros Hw. apply Hw. Qed.

(** ** Changes *)

(** The tree stays as it is; some names may not count as deleted any more. *)
Record same fs fs' : Prop := {
  sm_has : forall p, has fs' p <-> has fs p;
  sm_name : forall p, name_of fs' p = name_of fs p;
  sm_parent : forall p, parent_of fs' p = parent_of fs p;
  sm_kids : forall d, kids fs' d = kids fs d;
  sm_dels : forall l p, dels fs' !! l = Some p -> dels fs !! l = Some p;
  sm_next : nextPtr fs' = nextPtr fs;
  sm_handles : dirHandles fs' = dirHandles fs;
}.
(** A handle that is at the first child, and how a listing may change a handle. *)
Definition at_start (dh : DirHandle) : Prop := lastExternalOffset dh = 2 /\ lastInternalOffset dh = 2 /\ lastName dh = txt "..".
Definition follows (dh dh' : DirHandle) : Prop := dh_inode dh' = dh_inode dh /\ noSlurp dh' = noSlurp dh /\ (at_start dh -> at_start dh').
Lemma follows_trans dh dh' dh'' : follows dh dh' -> follows dh' dh'' -> follows dh dh''.
Proof. intros (E & En & H) (E' & En' & H'). split_and!; [congruence..|auto]. Qed.
(** Inodes and handles may be new, children may come and go; no directory is deleted. *)
Record extends fs fs' : Prop := {
  ex_has : forall p, has fs p -> has fs' p;
  ex_dir : forall d, is_dir fs d -> is_dir fs' d /\ parent_of fs' d = parent_of fs d /\ name_of fs' d = name_of fs d;
  ex_dels : forall l d, dels fs' !! l = Some d -> is_dir fs d -> dels fs !! l = Some d;
  ex_next : nextPtr fs <= nextPtr fs';
  ex_handles : forall h dh, dirHandles fs !! h = Some dh -> exists dh', dirHandles fs' !! h = Some dh' /\ follows dh dh';
}.

Lemma same_refl fs : same fs fs.
Proof. by split. Qed.
Lemma same_trans fs fs' fs'' : same fs fs' -> same fs' fs'' -> same fs fs''.
Proof.
  intros [] []. split; intros; try congruence.
  - by rewrite sm_has1.
  - auto.
Qed.
Lemma extends_trans fs fs' fs'' : extends fs fs' -> extends fs' fs'' -> extends fs fs''.
Proof.
  intros [Hh1 Hd1 Ht1 Hn1 Hl1] [Hh2 Hd2 Ht2 Hn2 Hl2]. split; try lia; auto.
  - intros d Hd. destruct (Hd1 d Hd) as (Hd' & <- & <-). by apply Hd2.
  - intros l d Hl Hd. apply Ht1; [|done]. apply Ht2; [done|by apply Hd1].
  - intros h dh Hh. destruct (Hl1 h dh Hh) as (dh1 & Hh1' & F1). destruct (Hl2 h dh1 Hh1') as (dh2 & ? & F2). exists dh2. split; [done|]. by eapply follows_trans.
Qed.
Lemma same_extends fs fs' : same fs fs' -> extends fs fs'.
Proof.
  intros []. split; unfold is_dir in *; try lia.
  - intros p. by rewrite sm_has0.
  - intros d. by rewrite sm_kids0, sm_parent0, sm_name0.
  - auto.
  - rewrite sm_handles0. intros h dh Hh. by exists dh.
Qed.
Lemma extends_refl fs : extends fs fs.
Proof. apply same_extends, same_refl. Qed.
Lemma extends_alive fs fs' d : extends fs fs' -> alive fs d -> alive fs' d.
Proof. intros [] [Hd Hn]. split; [by apply ex_dir0|]. intros l Hl. apply (Hn l). auto. Qed.
Lemma same_alive fs fs' d : same fs fs' -> alive fs d -> alive fs' d.
Proof. intros. by eapply extends_alive; [apply same_extends|]. Qed.

Lemma same_links fs fs' : same fs fs' -> links_ok fs -> links_ok fs'.
Proof.
  intros [] []. split; unfold is_dir in *.
  - intros p. rewrite sm_has0, sm_parent0, sm_kids0. auto.
  - intros d. rewrite sm_kids0, sm_parent0. auto.
  - intros d cs. rewrite sm_kids0, (list_fmap_ext (name_of fs') (name_of fs) cs) by (intros; apply sm_name0). eauto.
  - intros d cs c. rewrite sm_kids0, sm_has0, sm_parent0. eauto.
  - intros p. rewrite sm_has0, sm_parent0. auto.
Qed.
Lemma same_tombs X fs fs' : same fs fs' -> tombs_ok X fs -> tombs_ok X fs'.
Proof.
  intros [] Ht d name p Hp. apply sm_dels0, Ht in Hp as [Hh Hp]. rewrite sm_has0. split; [done|]. intros cs.
  rewrite !sm_kids0, sm_parent0, sm_name0. apply Hp.
Qed.
Lemma same_wf X fs fs' : same fs fs' -> heap_ok fs' -> wf X fs -> wf X fs'.
Proof.
  intros Hs Hh [_ Hl Ht Hd [Ha Hr]]. split; [done|by eapply same_links|by eapply same_tombs| |].
  - intros h dh. rewrite (sm_handles _ _ Hs). unfold is_dir. rewrite (sm_kids _ _ Hs). apply Hd.
  - split; [by eapply same_alive|]. by rewrite (sm_parent _ _ Hs).
Qed.
(** ** Access to nodes *)

Definition put p nd fs : FS := set_nodes (<[p := nd]> (nodes fs)) fs.

Lemma wp_node p nd (R : Node -> FS -> Prop) fs : nodes fs !! p = Some nd -> R nd fs -> wp (node p) R fs.
Proof. intros E HR. unfold node. apply wp_bind, wp_getS. by rewrite E. Qed.
Lemma wp_mod_node p nd f (R : unit -> FS -> Prop) fs : nodes fs !! p = Some nd -> R tt (put p (f nd) fs) -> wp (mod_node p f) R fs.
Proof. intros E HR. unfold mod_node. apply wp_bind. eapply wp_node; [done|]. by apply wp_modS. Qed.
Lemma wp_dir_at d nd di (R : Dir -> FS -> Prop) fs : nodes fs !! d = Some nd -> dir nd = Some di -> R di fs -> wp (dir_at d) R fs.
Proof. intros E Ed HR. unfold dir_at. apply wp_bind. eapply wp_node; [done|]. by rewrite Ed. Qed.
Lemma wp_mod_dir d nd di f (R : unit -> FS -> Prop) fs :
  nodes fs !! d = Some nd -> dir nd = Some di -> R tt (put d (with_dir (Some (f di)) nd) fs) -> wp (mod_dir d f) R fs.
Proof. intros E Ed HR. unfold mod_dir. apply wp_bind. eapply wp_dir_at; [done..|]. by eapply wp_mod_node. Qed.

(** The directory at a pointer. *)
Lemma is_dir_node fs d : is_dir fs d <-> exists nd di, nodes fs !! d = Some nd /\ dir nd = Some di /\ kids fs d = Some (Children di).
Proof.
  unfold is_dir, kids, at_node. destruct (nodes fs !! d) as [nd|]; [|split; [by intros [? ?]|by intros (? & ? & ? & ?)]].
  split.
  - destruct (dir nd) as [di|] eqn:Ed; [intros _; exists nd, di; by rewrite Ed|by intros [? ?]].
  - intros (? & ? & [= <-] & _ & ->). eauto.
Qed.
Lemma is_dir_has fs d : is_dir fs d -> has fs d.
Proof. intros (nd & _ & E & _)%is_dir_node. by exists nd. Qed.
Lemma isDir_true fs d : isDir fs d = true <-> is_dir fs d.
Proof.
  rewrite is_dir_node. unfold isDir, at_node. destruct (nodes fs !! d) as [nd|] eqn:E; [|split; [done|by intros (? & ? & ? & _)]].
  rewrite bool_decide_eq_true. unfold kids, at_node. rewrite E. split.
  - intros Hd. destruct (dir nd) as [di|] eqn:Ed; [|done]. exists nd, di. by rewrite Ed.
  - intros (? & ? & [= <-] & Ed & _). by rewrite Ed.
Qed.
Lemma isDir_false fs d : isDir fs d = false -> kids fs d = None.
Proof. intros E. destruct (kids fs d) eqn:Ek; [|done]. assert (isDir fs d = true) by (apply isDir_true; by exists l). congruence. Qed.

(** A changed node. *)
Lemma put_at {A} fs p nd q (f : Node -> A) (none : A) :
  at_node (put p nd fs) q f none = if decide (q = p) then f nd else at_node fs q f none.
Proof. unfold at_node, put. cbn. case_decide as E; [subst; by rewrite lookup_insert_eq|by rewrite lookup_insert_ne]. Qed.
Lemma same_put fs p nd nd' :
  nodes fs !! p = Some nd -> loc (inode nd') = loc (inode nd) -> Children <$> dir nd' = Children <$> dir nd -> same fs (put p nd' fs).
Proof.
  intros E El Ek. split; try done; unfold name_of, parent_of, kids; intros q; rewrite ?put_at.
  - unfold has, put. cbn. destruct (decide (q = p)) as [-> |]; [rewrite lookup_insert_eq; split; eauto|by rewrite lookup_insert_ne].
  - case_decide; [subst|done]. unfold at_node. by rewrite E, El.
  - case_decide; [subst|done]. unfold at_node. by rewrite E, El.
  - case_decide; [subst|done]. unfold at_node. by rewrite E, Ek.
Qed.
Lemma put_is_dir fs p nd nd' e : nodes fs !! p = Some nd -> (is_Some (dir nd) -> is_Some (dir nd')) -> is_dir fs e -> is_dir (put p nd' fs) e.
Proof.
  intros E Hd. unfold is_dir, kids. rewrite put_at. case_decide as Ee; [subst e|done]. unfold at_node. rewrite E, !fmap_is_Some. done.
Qed.
Lemma heap_put fs p nd nd' : heap_ok fs -> nodes fs !! p = Some nd -> node_ok (nextPtr fs) p nd' -> (is_Some (dir nd) -> is_Some (dir nd')) ->
  (placed (place fs) (inode nd) -> placed (place fs) (inode nd')) -> heap_ok (put p nd' fs).
Proof.
  intros [Hh Hn Hp] E Hnd Hd Hpl. split.
  - unfold put. cbn. intros q nd0 [[<- <-]|[_ ?]]%lookup_insert_Some; [done|by apply Hh].
  - unfold put, has. cbn. intros id q Hq. destruct (decide (q = p)) as [-> |]; [rewrite lookup_insert_eq; eauto|rewrite lookup_insert_ne by done; by eapply Hn].
  - intros q nd0 Hq. assert (Hq' : placed (place fs) (inode nd0)).
    { unfold put in Hq. cbn in Hq. apply lookup_insert_Some in Hq as [[<- <-]|[_ ?]]; [eauto|by eapply Hp]. }
    eapply placed_mono; [|exact Hq']. intros l. by apply (put_is_dir fs p nd).
Qed.
Lemma same_world fs w : (forall l p, w_DeletedChildren w !! l = Some p -> dels fs !! l = Some p) -> same fs (set_world w fs).
Proof. by split. Qed.
Lemma heap_world fs w : heap_ok fs -> heap_ok (set_world w fs).
Proof. by intros [Hh Hn Hp]. Qed.

(** ** Operations that leave the tree alone *)

Definition quiet {A} fs (m : St FS A) : Prop := wp m (fun _ fs' => heap_ok fs' /\ same fs fs') fs.

Lemma wf_node X fs p : wf X fs -> has fs p -> exists nd, nodes fs !! p = Some nd /\ node_ok (nextPtr fs) p nd.
Proof. intros Hw [nd E]. exists nd. split; [done|by eapply wf_nodes]. Qed.
Lemma ok_load w (i : I) : ok i -> ok (load_world w i).
Proof. intros Hok. by eapply ok_same. Qed.

(** Operations of an inode. *)
Lemma on_inode_wp {A} p (m : St I A) (R : A -> I -> Prop) (T : Z -> Prop) fs nd :
  nodes fs !! p = Some nd -> (forall a i', m (load_world (world fs) (inode nd)) = Ok (a, i') -> stays T (load_world (world fs) (inode nd)) i') ->
  wp m (fun a i => ok i /\ R a i) (load_world (world fs) (inode nd)) ->
  wp (on_inode p m) (fun a fs' => exists i, R a i /\ fs' = set_world (save_world i) (put p (with_inode i nd) fs) /\ ok i /\ loc i = loc (inode nd) /\
    (forall P, placed P (inode nd) -> placed P i) /\ (forall l q, DeletedChildren i !! l = Some q -> dels fs !! l = Some q \/ T q)) fs.
Proof.
  intros E Hk Hm. unfold on_inode. apply wp_bind. eapply wp_node; [done|]. apply wp_bind, wp_gets.
  apply wp_run in Hm as (a & i & Em & Hok & HR). rewrite Em. destruct (Hk _ _ Em) as (_ & El & Ed & Hpl).
  apply wp_bind. eapply wp_mod_node; [done|]. apply wp_bind, wp_modS, wp_ret. exists i. split_and!; try done.
Qed.
Lemma on_inode_at {A} p (m : St I A) (T : Z -> Prop) fs nd :
  heap_ok fs -> nodes fs !! p = Some nd -> (forall a i', m (load_world (world fs) (inode nd)) = Ok (a, i') -> stays T (load_world (world fs) (inode nd)) i') ->
  wp m (fun _ i => ok i) (load_world (world fs) (inode nd)) ->
  wp (on_inode p m) (fun _ fs' => heap_ok fs' /\ exists fs1 w, same fs fs1 /\ dels fs1 = dels fs /\ fs' = set_world w fs1 /\
    (forall l q, w_DeletedChildren w !! l = Some q -> dels fs !! l = Some q \/ T q)) fs.
Proof.
  intros Hh E Hk Hm. pose proof (hp_nodes _ Hh p nd E) as Hn.
  assert (Hself : wp m (fun _ i => ok i /\ self i = p) (load_world (world fs) (inode nd))).
  { apply wp_run in Hm as (a & i & Em & Hok). eapply wp_of_run; [exact Em|]. split; [done|]. destruct (Hk _ _ Em) as (-> & _). apply Hn. }
  eapply wp_mono; [apply (on_inode_wp p m (fun _ i => self i = p) T fs nd E Hk Hself)|]. intros a fs' (i & Es & -> & Hok & El & Hpl & Ed). split.
  - apply heap_world. apply (heap_put fs p nd); [done|done| |done|apply Hpl]. split; cbn; try done; try apply Hn. rewrite El. apply Hn.
  - exists (put p (with_inode i nd) fs), (save_world i). split_and!; try done. by apply (same_put fs p nd (with_inode i nd)).
Qed.
Lemma on_inode_calm {A} p (m : St I A) fs nd :
  heap_ok fs -> nodes fs !! p = Some nd -> (forall a i', m (load_world (world fs) (inode nd)) = Ok (a, i') -> stays (fun _ => False) (load_world (world fs) (inode nd)) i') ->
  wp m (fun _ i => ok i) (load_world (world fs) (inode nd)) -> quiet fs (on_inode p m).
Proof.
  intros Hh E Hk Hm. eapply wp_mono; [by apply (on_inode_at p m (fun _ => False) fs nd)|]. intros a fs' [Hh' (fs1 & w & Hs & Ed & -> & Hd)]. split; [done|].
  eapply same_trans; [exact Hs|]. apply same_world. intros l q Hq. rewrite Ed. by destruct (Hd l q Hq).
Qed.
Lemma on_inode_quiet {A} p (m : St I A) fs nd :
  heap_ok fs -> nodes fs !! p = Some nd -> keeps (fun _ => False) m ->
  wp m (fun _ i => ok i) (load_world (world fs) (inode nd)) -> quiet fs (on_inode p m).
Proof. intros Hh E Hk Hm. eapply on_inode_calm; [done|exact E|intros a i'; apply Hk|done]. Qed.
Lemma wp_quiet {A B} X (m : St FS A) (k : A -> St FS B) (R : B -> FS -> Prop) fs :
  wf X fs -> quiet fs m -> (forall a fs', wf X fs' -> same fs fs' -> wp (k a) R fs') -> wp (bind m k) R fs.
Proof.
  intros Hw Hq Hk. apply wp_bind. eapply wp_mono; [exact Hq|]. intros a fs' [Hh Hs]. apply Hk; [by eapply same_wf|done].
Qed.
Lemma quiet_wf {A} X (m : St FS A) fs : wf X fs -> quiet fs m -> wp m (fun _ fs' => wf X fs' /\ same fs fs') fs.
Proof. intros Hw Hq. eapply wp_mono; [exact Hq|]. intros a fs' [Hh Hs]. split; [by eapply same_wf|done]. Qed.
Lemma quiet_bind {A B} X (m : St FS A) (k : A -> St FS B) fs :
  wf X fs -> quiet fs m -> (forall a fs', wf X fs' -> same fs fs' -> quiet fs' (k a)) -> quiet fs (bind m k).
Proof.
  intros Hw Hm Hk. eapply wp_quiet; [done..|]. intros a fs' Hw' Hs. eapply wp_mono; [by apply Hk|].
  intros b fs'' [Hh Hs']. split; [done|by eapply same_trans].
Qed.
Lemma quiet_ret {A} X (a : A) fs : wf X fs -> quiet fs (ret a).
Proof. intros Hw. apply wp_ret. split; [apply Hw|apply same_refl]. Qed.
Lemma quiet_gets {A} X (f : FS -> A) fs : wf X fs -> quiet fs (gets f).
Proof. intros Hw. apply wp_gets. split; [apply Hw|apply same_refl]. Qed.
Lemma quiet_getS X fs : wf X fs -> quiet fs getS.
Proof. intros Hw. apply wp_getS. split; [apply Hw|apply same_refl]. Qed.
Lemma quiet_node X p fs : wf X fs -> has fs p -> quiet fs (node p).
Proof. intros Hw [nd E]. eapply wp_node; [done|]. split; [apply Hw|apply same_refl]. Qed.
Lemma quiet_dir_at X d fs : wf X fs -> is_dir fs d -> quiet fs (dir_at d).
Proof. intros Hw (nd & di & E & Ed & _)%is_dir_node. eapply wp_dir_at; [done..|]. split; [apply Hw|apply same_refl]. Qed.
Lemma quiet_world X f fs : wf X fs -> (forall l p, w_DeletedChildren (f (world fs)) !! l = Some p -> dels fs !! l = Some p) -> quiet fs (mod_world f).
Proof. intros Hw Hd. apply wp_modS. split; [apply heap_world, Hw|by apply same_world]. Qed.
Lemma quiet_mod_node X p f fs : wf X fs -> has fs p ->
  (forall nd, inode (f nd) = inode nd /\ dir (f nd) = dir nd /\ (Id (f nd) = Id nd \/ parent_of fs p <> 0)) -> quiet fs (mod_node p f).
Proof.
  intros Hw Hp Hf. destruct (wf_node _ _ _ Hw Hp) as (nd & E & Hn). destruct (Hf nd) as (Ei & Ed & Hid). eapply wp_mod_node; [done|]. split.
  - apply (heap_put fs p nd); [apply Hw|done| |by rewrite Ed|by rewrite Ei]. destruct Hn. split; rewrite ?Ei, ?Ed; try done. intros Hr. destruct Hid as [-> |Hid]; [auto|].
    destruct Hid. unfold parent_of, at_node. by rewrite E.
  - apply (same_put fs p nd (f nd)); [done|by rewrite Ei|by rewrite Ed].
Qed.
Lemma quiet_mod_dir X d f fs : wf X fs -> is_dir fs d ->
  (forall di, Children (f di) = Children di /\ (Gaps.len (gaps di) = 0 -> Gaps.len (gaps (f di)) = 0)) -> quiet fs (mod_dir d f).
Proof.
  intros Hw (nd & di & E & Ed & _)%is_dir_node Hf. destruct (Hf di) as [Ec Hg]. pose proof (wf_nodes _ _ Hw d nd E) as Hn. eapply wp_mod_dir; [done..|]. split.
  - apply (heap_put fs d nd); [apply Hw|done| |by eauto|done]. destruct Hn. split; cbn; try done. intros di' [= <-]. apply Hg. by eapply no_gaps0.
  - apply (same_put fs d nd); [done..|]. cbn [dir with_dir]. rewrite Ed. cbn. by rewrite Ec.
Qed.
Lemma quiet_inode {A} X p (m : St I A) fs : wf X fs -> has fs p -> keeps (fun _ => False) m -> (forall i, ok i -> wp m (fun _ i' => ok i') i) -> quiet fs (on_inode p m).
Proof.
  intros Hw Hp Hk Hm. destruct (wf_node _ _ _ Hw Hp) as (nd & E & Hn). eapply on_inode_quiet; [apply Hw|exact E|done|]. apply Hm, ok_load, Hn.
Qed.
Lemma quiet_idle {A} X p (m : St I A) fs : wf X fs -> has fs p -> keeps (fun _ => False) m -> idle m -> quiet fs (on_inode p m).
Proof using HBL.
  intros Hw Hp Hk Hi. eapply quiet_inode; [done..|]. intros i Hok. wp_use (idle_ok flags []); [exact Hi|exact Hok|]. by intros a i' [? _].
Qed.
(** *** The children of one directory change *)

Record relinked d cs fs fs' : Prop := {
  rl_has : forall p, has fs' p <-> has fs p;
  rl_name : forall p, name_of fs' p = name_of fs p;
  rl_parent : forall p, parent_of fs' p = parent_of fs p;
  rl_kids : forall e, kids fs' e = if decide (e = d) then Some cs else kids fs e;
  rl_dels : forall l p, dels fs' !! l = Some p -> dels fs !! l = Some p;
  rl_next : nextPtr fs' = nextPtr fs;
  rl_handles : dirHandles fs' = dirHandles fs;
}.
Lemma put_relinked d cs fs nd nd' :
  nodes fs !! d = Some nd -> loc (inode nd') = loc (inode nd) -> Children <$> dir nd' = Some cs -> relinked d cs fs (put d nd' fs).
Proof.
  intros E El Ek. split; try done; unfold name_of, parent_of, kids; intros q; rewrite ?put_at; [|case_decide; [subst; unfold at_node; by rewrite E, El|done]..|by rewrite Ek].
  unfold has, put. cbn. destruct (decide (q = d)) as [-> |]; [rewrite lookup_insert_eq; split; eauto|by rewrite lookup_insert_ne].
Qed.
Lemma relinked_dir d cs fs fs' e : relinked d cs fs fs' -> is_dir fs d -> is_dir fs' e <-> is_dir fs e.
Proof. intros [] Hd. unfold is_dir in *. rewrite rl_kids0. case_decide; [subst; split; eauto|done]. Qed.
Lemma relinked_extends d cs fs fs' : relinked d cs fs fs' -> is_dir fs d -> extends fs fs'.
Proof.
  intros Hr Hd. pose proof Hr as []. split; try lia.
  - intros p. by rewrite rl_has0.
  - intros e He. by rewrite (relinked_dir d cs fs fs'), rl_parent0, rl_name0.
  - auto.
  - rewrite rl_handles0. intros h dh Hh. by exists dh.
Qed.
Lemma same_relinked d cs fs fs' fs'' : same fs fs' -> relinked d cs fs' fs'' -> relinked d cs fs fs''.
Proof.
  intros [] []. split; intros; try congruence; auto.
  - by rewrite rl_has0.
  - rewrite rl_kids0. case_decide; [done|apply sm_kids0].
Qed.
Lemma relinked_same d cs fs fs' fs'' : relinked d cs fs fs' -> same fs' fs'' -> relinked d cs fs fs''.
Proof.
  intros [] []. split; intros; try congruence; auto.
  - by rewrite sm_has0.
  - by rewrite sm_kids0, rl_kids0.
Qed.
Lemma wf_relinked X d cs fs fs' :
  wf X fs -> heap_ok fs' -> relinked d cs fs fs' -> is_dir fs d ->
  sorted (name_of fs <$> cs) -> [] ∉ name_of fs <$> cs ->
  (forall c, c ∈ cs -> has fs c /\ parent_of fs c = d) ->
  (forall c, c ∈ cs -> (exists ds, kids fs d = Some ds /\ c ∈ ds) \/ kids fs c = None \/ forall l, dels fs !! l = Some c -> X c) ->
  cs = [] \/ (forall l, dels fs !! l = Some d -> X d) ->
  wf X fs'.
Proof.
  intros [_ [Hp Ho Hs Hc Hz] Ht Hh [Hra Hr]] Hheap Hre Hd Hsort Hne Hcs Hnew Hdead. pose proof Hre as [Eh En Ep Ek Ed _ El].
  assert (Hdir : forall e, is_dir fs' e <-> is_dir fs e) by (intros; by eapply relinked_dir). split; [done|split| | |].
  - intros p. rewrite Eh, Ep, Hdir. apply Hp.
  - intros e. rewrite Hdir, Ep. apply Ho.
  - intros e cs'. rewrite Ek, (list_fmap_ext (name_of fs') (name_of fs) cs') by (intros; apply En). case_decide; [intros [= <-]; done|apply Hs].
  - intros e cs' c. rewrite Ek, Eh, Ep. case_decide as E; [subst e; intros [= <-]; apply Hcs|apply Hc].
  - intros p. rewrite Eh, Ep. apply Hz.
  - intros e name p Hl%Ed. destruct (Ht e name p Hl) as [Hhas Hp']. rewrite Eh. split; [done|]. intros cs'. rewrite Ep, En, !Ek.
    intros Hk. assert (Hold : exists cs0, kids fs p = Some cs0) by (case_decide; [subst p; destruct Hd; eauto|eauto]). destruct Hold as [cs0 Hk0].
    destruct (Hp' cs0 Hk0) as (-> & -> & HX). split_and!; try done. destruct HX as [?|[-> Hnot]]; [by left|].
    destruct (decide (p = d)) as [-> |Hpd].
    + injection Hk as <-. destruct Hdead as [-> |Hdead]; [|left; by eapply Hdead]. right. split; [done|].
      intros ds. case_decide as E; [intros [= <-]; apply not_elem_of_nil|apply Hnot].
    + rewrite Hk0 in Hk. injection Hk as <-. destruct (decide (e = d)) as [-> |]; [|by right].
      destruct (decide (p ∈ cs)) as [Hin|]; [|right; split; [done|by intros ds [= <-]]].
      destruct (Hnew p Hin) as [(ds & Hds & Hin')|[?|Hno]]; [by destruct (Hnot ds)|congruence|left; by eapply Hno].
  - intros h dh. rewrite El, Hdir. apply Hh.
  - split; [|by rewrite Ep]. eapply extends_alive; [by eapply relinked_extends|done].
Qed.
End inv.

(** ** The operations of [Tree] that leave the tree alone *)

Section quiet_ops.
Context {M : Type -> Type} `{HBT : BTreeMap M} `{HBL : !BTreeMapLaws M} {Q : Type} `{HQ : BufferListHelpers Q}.
Context {limit : Z} `{HLaws : !BufferListHelpersLaws Q limit}.
Context (flags : Flags) (tflags : TreeFlags) (env : Env).
Abbreviation I := (Inode M Q).
Abbreviation FS := (FS M Q).
Abbreviation wf := (wf (limit := limit) flags).
Abbreviation quiet := (quiet (limit := limit) flags).
Implicit Types (p d c h : Z) (fs : FS) (name : text) (cs : list Z) (X : Z -> Prop).

#[local] Instance May_True : May True.
Proof. done. Qed.

Lemma WakeupFlusher_quiet X fs : wf X fs -> quiet fs Tree.WakeupFlusher.
Proof. intros Hw. by eapply quiet_world. Qed.
Lemma addModified_quiet X d n fs : wf X fs -> quiet fs (Tree.addModified d n).
Proof. intros Hw. by eapply quiet_world. Qed.
Lemma undelete_quiet X d name fs : wf X fs -> quiet fs (Tree.undelete d name).
Proof. intros Hw. eapply quiet_world; [done|]. cbn. by intros l p [_ ?]%lookup_delete_Some. Qed.
Lemma touch_quiet X p fs : wf X fs -> has fs p -> quiet fs (touch p).
Proof using HBL. intros Hw Hp. eapply quiet_idle; [done..|keeps|]. idle. Qed.
Lemma raise_times_quiet X p t fs : wf X fs -> has fs p -> quiet fs (raise_times p t).
Proof using HBL. intros Hw Hp. eapply quiet_idle; [done..|keeps|]. apply mod_attrs_idle. Qed.
Lemma set_userMetadata_quiet X p m n fs : wf X fs -> has fs p -> quiet fs (set_userMetadata p m n).
Proof using HBL. intros Hw Hp. eapply quiet_idle; [done..|keeps|]. apply mod_attrs_idle. Qed.
Lemma set_state_quiet X p st fs : wf X fs -> has fs p -> quiet fs (set_state p st).
Proof using HBL. intros Hw Hp. eapply quiet_idle; [done..|keeps|]. apply SetCacheState_idle. Qed.
Lemma SetAttrTime_quiet X p t fs : wf X fs -> has fs p -> quiet fs (on_inode p (SetAttrTime flags t)).
Proof using HBL. intros Hw Hp. eapply quiet_idle; [done..|keeps|]. apply SetAttrTime_idle. Qed.
Lemma refresh_AttrTime_quiet X p fs : wf X fs -> has fs p -> quiet fs (refresh_AttrTime flags p).
Proof using HBL. intros Hw Hp. eapply quiet_idle; [done..|keeps|]. idle; apply SetAttrTime_idle. Qed.
Lemma modS_quiet X p (f : I -> I) fs : wf X fs -> has fs p ->
  (forall i, self (f i) = self i /\ loc (f i) = loc i /\ DeletedChildren (f i) = DeletedChildren i /\ oldLoc (f i) = oldLoc i /\ core (f i) = core i /\ tasks (f i) = tasks i) ->
  quiet fs (on_inode p (modS f)).
Proof using HBL.
  intros Hw Hp Hf. eapply quiet_idle; [done..| |].
  - apply keeps_modS. intros i. destruct (Hf i) as (? & ? & ? & ? & _ & ?). by apply stays_same.
  - apply idle_modS. intros i. by destruct (Hf i) as (_ & _ & _ & _ & ? & ?).
Qed.
Lemma reset_quiet X p fs : wf X fs -> has fs p -> quiet fs (reset flags env p).
Proof using HBL.
  intros Hw Hp. eapply quiet_inode; [done..|apply resetCache_keeps|]. intros i Hok. wp_use (resetCache_ok flags env (resets := True)); [exact Hok|].
  by intros _ i' (? & _).
Qed.
Lemma setFromBlobItem_quiet X p item fs : wf X fs -> has fs p -> 0 <= it_Size item <= limit -> quiet fs (setFromBlobItem flags tflags env p item).
Proof using HBL.
  intros Hw Hp Hs. eapply quiet_inode; [done..|apply SetFromBlobItem_keeps|]. intros i Hok.
  by apply (SetFromBlobItem_ok flags env (resets := True)).
Qed.
Lemma Ref_quiet X p fs : wf X fs -> has fs p -> quiet fs (Ref p).
Proof. intros Hw Hp. eapply quiet_mod_node; [done..|]. intros nd. by split_and!; [..|left]. Qed.
Lemma forget_quiet X p fs : wf X fs -> has fs p -> quiet fs (forget p).
Proof using HBL.
  intros Hw Hp. unfold forget. eapply quiet_bind; [done|by eapply modS_quiet|]. intros _ fs1 Hw1 Hs1.
  eapply quiet_bind; [done|eapply quiet_node; [done|by apply Hs1]|]. intros nd fs2 Hw2 _. apply wp_modS.
  destruct (wf_heap _ _ _ Hw2) as [Hh Hn Hpl]. split; [split; [done| |done]|by split]. cbn. intros id q [_ ?]%lookup_delete_Some. by eapply Hn.
Qed.
Lemma DeRef_quiet X p n fs : wf X fs -> has fs p -> quiet fs (DeRef flags env p n).
Proof using HBL.
  intros Hw Hp. unfold DeRef. eapply quiet_bind; [done|by eapply quiet_node|]. intros nd fs1 Hw1 Hs1. assert (Hp1 : has fs1 p) by (by apply Hs1).
  eapply quiet_bind; [done|eapply quiet_mod_node; [done..|]; intros nd'; by split_and!; [..|left]|]. intros _ fs2 Hw2 Hs2.
  assert (Hp2 : has fs2 p) by (by apply Hs2). eapply quiet_bind; [done| |intros _ fs3 Hw3 _; by eapply quiet_ret].
  case_match; [|by eapply quiet_ret]. eapply quiet_bind; [done|by eapply reset_quiet|]. intros _ fs3 Hw3 Hs3. eapply forget_quiet; [done|by apply Hs3].
Qed.
Lemma allocateInodeId_quiet X fs : wf X fs -> quiet fs allocateInodeId.
Proof. intros Hw. unfold allocateInodeId. apply wp_bind, wp_gets, wp_bind, wp_modS, wp_ret. destruct (wf_heap _ _ _ Hw) as [Hh Hn Hpl]. by split. Qed.
Lemma number_quiet X p id fs : wf X fs -> has fs p -> quiet fs (number p id).
Proof.
  intros Hw Hp. apply wp_modS. destruct (wf_heap _ _ _ Hw) as [Hh Hn Hpl]. split; [split; [done| |done]|by split]. cbn. intros id' q [[<- <-]|[_ ?]]%lookup_insert_Some; [done|by eapply Hn].
Qed.
Lemma saw_quiet X d name fs : wf X fs -> is_dir fs d -> quiet fs (saw d name).
Proof. intros Hw Hd. eapply quiet_mod_dir; [done..|]. intros di. repeat case_match; by split. Qed.
(** ** Finding, inserting and removing children *)

(** What a search for a name finds. *)
Definition found fs d name (r : option Z) : Prop :=
  exists cs, kids fs d = Some cs /\ match r with Some c => c ∈ cs /\ name_of fs c = name | None => name ∉ name_of fs <$> cs end.

Lemma dir_children X fs d nd di : wf X fs -> nodes fs !! d = Some nd -> dir nd = Some di ->
  kids fs d = Some (Children di) /\ children_ok (name_of fs) di.
Proof.
  intros Hw E Ed. assert (Hk : kids fs d = Some (Children di)) by (unfold kids, at_node; by rewrite E, Ed). split; [done|].
  by apply (lk_sorted _ (wf_links _ _ _ Hw) d).
Qed.
Lemma findChildUnlocked_wp X d name fs (R : option Z -> FS -> Prop) :
  wf X fs -> is_dir fs d -> name <> [] -> (forall r, found fs d name r -> R r fs) -> wp (Tree.findChildUnlocked d name) R fs.
Proof.
  intros Hw (nd & di & E & Ed & Hk)%is_dir_node Hne HR. unfold Tree.findChildUnlocked. apply wp_bind. eapply wp_dir_at; [done..|].
  apply wp_bind, wp_getS, wp_ret, HR. exists (Children di). split; [done|]. destruct (dir_children X fs d nd di Hw E Ed) as [_ Hok].
  by apply findChildUnlocked_spec.
Qed.
Lemma found_child X fs d name c : wf X fs -> found fs d name (Some c) -> has fs c /\ parent_of fs c = d /\ name_of fs c = name.
Proof. intros Hw (cs & Hk & Hc & Hn). destruct (lk_child _ (wf_links _ _ _ Hw) d cs c Hk Hc). done. Qed.
Lemma found_same fs fs' d name r : same fs fs' -> found fs d name r -> found fs' d name r.
Proof.
  intros Hs (cs & Hk & Hr). exists cs. rewrite (sm_kids _ _ Hs). split; [done|]. destruct r as [c|]; [by rewrite (sm_name _ _ Hs)|].
  by rewrite (list_fmap_ext (name_of fs') (name_of fs) cs) by (intros; apply (sm_name _ _ Hs)).
Qed.

(** The list of children with one more, in its place. *)
Lemma insertChildUnlocked_wp X d p fs (R : unit -> FS -> Prop) :
  wf X fs -> has fs p -> parent_of fs p = d -> name_of fs p <> [] -> found fs d (name_of fs p) None ->
  (forall l, dels fs !! l = Some d -> X d) -> kids fs p = None \/ (forall l, dels fs !! l = Some p -> X p) ->
  (forall l1 l2 fs', kids fs d = Some (l1 ++ l2) -> wf X fs' -> relinked d (l1 ++ p :: l2) fs fs' -> R tt fs') ->
  wp (Tree.insertChildUnlocked d p) R fs.
Proof using HBL.
  intros Hw Hp Hpar Hne Hf Hd Hx HR. assert (Hdir : is_dir fs d) by (destruct Hf as (cs & Hk & _); by exists cs).
  unfold Tree.insertChildUnlocked. eapply wp_quiet; [exact Hw|by eapply Ref_quiet|]. intros _ fs1 Hw1 Hs1.
  pose proof (found_same _ _ _ _ _ Hs1 Hf) as (cs & Hk1 & Hnew). rewrite <- (sm_name _ _ Hs1) in Hnew, Hne.
  assert (Hdir1 : is_dir fs1 d) by (by exists cs). apply is_dir_node in Hdir1 as (nd & di & E & Ed & Hk). destruct (dir_children X fs1 d nd di Hw1 E Ed) as [_ Hok].
  assert (cs = Children di) as -> by congruence.
  apply wp_bind. eapply wp_dir_at; [done..|]. apply wp_bind, wp_getS.
  destruct (insertChildUnlocked_spec (name_of fs1) p di Hok Hne Hnew) as (l1 & l2 & idx & gen & Ec & Ei & Hok' & _).
  apply wp_bind. eapply wp_liftO; [exact Ei|]. eapply wp_mod_dir; [done..|].
  match goal with |- R tt ?f => assert (Hr1 : relinked d (l1 ++ p :: l2) fs1 f) by (by eapply put_relinked) end.
  apply (HR l1 l2); [by rewrite <- (sm_kids _ _ Hs1), Hk, Ec| |by eapply same_relinked].
  eapply (wf_relinked _ X d); [exact Hw1| |exact Hr1|by exists (Children di)|apply Hok'|apply Hok'|..].
  - apply (heap_put _ fs1 d nd); [apply Hw1|done| |by eauto|done]. destruct (wf_nodes _ _ _ Hw1 d nd E). split; cbn; try done. intros di' [= <-]. cbn. by eapply no_gaps0.
  - intros c Hc. rewrite elem_of_app, elem_of_cons in Hc. destruct (decide (c = p)) as [-> |]; [by rewrite (sm_has _ _ Hs1), (sm_parent _ _ Hs1)|].
    apply (lk_child _ (wf_links _ _ _ Hw1) d (Children di)); [done|]. rewrite Ec, elem_of_app. tauto.
  - intros c Hc. destruct (decide (c = p)) as [-> |].
    + right. rewrite (sm_kids _ _ Hs1). destruct Hx as [?|Hx]; [by left|right]. intros l Hl. apply (Hx l). by apply Hs1.
    + left. exists (Children di). split; [done|]. rewrite Ec. rewrite elem_of_app, elem_of_cons in Hc. rewrite elem_of_app. tauto.
  - right. intros l Hl. apply (Hd l). by apply Hs1.
Qed.
Lemma removeChildUnlocked_wp X d p cs fs (R : unit -> FS -> Prop) :
  wf X fs -> kids fs d = Some cs -> p ∈ cs ->
  (forall l1 l2 fs', cs = l1 ++ p :: l2 -> name_of fs p ∉ name_of fs <$> (l1 ++ l2) -> wf X fs' -> relinked d (l1 ++ l2) fs fs' -> R tt fs') ->
  wp (Tree.removeChildUnlocked flags env d p) R fs.
Proof using HBL.
  intros Hw Hk Hp HR. assert (Hdir : is_dir fs d) by (by exists cs). pose proof Hdir as (nd & di & E & Ed & Hk')%is_dir_node. assert (cs = Children di) as -> by congruence.
  destruct (dir_children X fs d nd di Hw E Ed) as [_ Hok]. unfold Tree.removeChildUnlocked. apply wp_bind. eapply wp_dir_at; [done..|]. apply wp_bind, wp_getS.
  destruct (removeChildUnlocked_spec (name_of fs) p di Hok Hp) as (l1 & l2 & idx & Ec & Ei & Hok' & Hn).
  apply wp_bind. eapply wp_liftO; [exact Ei|]. cbn beta iota. apply wp_bind. eapply wp_mod_dir; [done..|].
  match goal with |- wp _ _ ?f => assert (Hr : relinked d (l1 ++ l2) fs f) by (by eapply put_relinked); assert (Hw' : wf X f) end.
  { assert (Hin : forall c, c ∈ l1 ++ l2 -> c ∈ Children di) by (intros c; rewrite Ec, !elem_of_app, elem_of_cons; tauto).
    eapply (wf_relinked _ X d); [exact Hw| |exact Hr|done|apply Hok'|apply Hok'|..].
    - apply (heap_put _ fs d nd); [apply Hw|done| |by eauto|done]. destruct (wf_nodes _ _ _ Hw d nd E). split; cbn; try done. intros di' [= <-]. cbn. by eapply no_gaps0.
    - intros c Hc. apply (lk_child _ (wf_links _ _ _ Hw) d (Children di)); auto.
    - intros c Hc. left. eauto.
    - right. intros [e name] Hl. destruct (wf_tombs _ _ _ Hw e name d Hl) as [_ Ht]. destruct (Ht _ Hk') as (_ & _ & [?|[E0 _]]); [done|].
      rewrite E0 in Hp. by apply elem_of_nil in Hp. }
  eapply wp_quiet; [exact Hw'|eapply DeRef_quiet; [exact Hw'|]|].
  - rewrite (rl_has _ _ _ _ Hr). by apply (lk_child _ (wf_links _ _ _ Hw) d (Children di)).
  - intros _ fs2 Hw2 Hs2. apply wp_ret. apply (HR l1 l2); try done. by eapply relinked_same.
Qed.
(** ** New inodes *)

Context (q0 : Q) `{Hmo : !Mounted limit flags q0}.

(** One more inode, which is not in a directory yet; [k] are its children. *)
Record born p d name (k : option (list Z)) fs fs' : Prop := {
  bn_new : p = nextPtr fs /\ ~ has fs p;
  bn_has : forall q, has fs' q <-> has fs q \/ q = p;
  bn_name : forall q, name_of fs' q = if decide (q = p) then name else name_of fs q;
  bn_parent : forall q, parent_of fs' q = if decide (q = p) then d else parent_of fs q;
  bn_kids : forall q, kids fs' q = if decide (q = p) then k else kids fs q;
  bn_dels : forall l q, dels fs' !! l = Some q -> dels fs !! l = Some q;
  bn_next : nextPtr fs' = nextPtr fs + 1;
  bn_handles : dirHandles fs' = dirHandles fs;
}.
Lemma no_kids fs p : ~ has fs p -> kids fs p = None.
Proof. unfold has, kids, at_node. intros Hn. destruct (nodes fs !! p) eqn:E; [|done]. by destruct Hn. Qed.
Lemma born_extends p d name k fs fs' : born p d name k fs fs' -> extends fs fs'.
Proof.
  intros [[_ Hp] Hh Hn Hpar Hk Hd Hnx Hl]. split; try lia.
  - intros q ?. rewrite Hh. by left.
  - intros e He. unfold is_dir. rewrite Hk, Hpar, Hn. assert (e <> p) by (intros ->; by apply Hp, is_dir_has). by rewrite !decide_False.
  - auto.
  - rewrite Hl. intros h dh Hdh. by exists dh.
Qed.
Lemma born_same p d name k fs fs' fs'' : born p d name k fs fs' -> same fs' fs'' -> born p d name k fs fs''.
Proof.
  intros [] []. split; try done; intros; try congruence; auto.
  - by rewrite sm_has0.
  - by rewrite sm_name0.
  - by rewrite sm_parent0.
  - by rewrite sm_kids0.
Qed.
Lemma born_relinked p d name k k' fs fs' fs'' : born p d name k fs fs' -> relinked p k' fs' fs'' -> born p d name (Some k') fs fs''.
Proof.
  intros [] []. split; try done; intros; try congruence; auto.
  - by rewrite rl_has0.
  - by rewrite rl_name0.
  - by rewrite rl_parent0.
  - rewrite rl_kids0. case_decide; [done|]. rewrite bn_kids0. by rewrite decide_False.
Qed.
Lemma born_untombed X p d name k fs fs' : wf X fs -> born p d name k fs fs' -> forall l, dels fs' !! l <> Some p.
Proof. intros Hw Hb [e n] Hl. apply (bn_dels _ _ _ _ _ _ Hb) in Hl. apply (wf_tombs _ _ _ Hw) in Hl as [Hp _]. by apply (bn_new _ _ _ _ _ _ Hb). Qed.
Lemma born_wf X p d name fs fs' : wf X fs -> heap_ok (limit := limit) flags fs' -> born p d name None fs fs' -> is_dir fs d -> wf X fs'.
Proof.
  intros [_ [Hp Ho Hs Hc Hz] Ht Hh [Hra Hr]] Hheap Hb Hd. pose proof Hb as [[_ Hnew] Eh En Epar Ek Ed _ El].
  assert (Hold : forall q, has fs q -> q <> p) by (intros q Hq ->; done).
  assert (Ek' : forall q, kids fs' q = kids fs q) by (intros q; rewrite Ek; case_decide; [subst; by rewrite no_kids|done]).
  assert (Hdir : forall e, is_dir fs' e <-> is_dir fs e) by (intros; unfold is_dir; by rewrite Ek').
  assert (Hkid : forall e cs c, kids fs e = Some cs -> c ∈ cs -> c <> p) by (intros e cs c H1 H2; apply Hold; by eapply Hc).
  assert (Hnames : forall e cs, kids fs e = Some cs -> name_of fs' <$> cs = name_of fs <$> cs).
  { intros e cs Hcs. apply Forall_fmap_ext_1, Forall_forall. intros c Hin. rewrite En. rewrite decide_False; [done|by eapply Hkid]. }
  split; [done|split| | |].
  - intros q. rewrite Eh, Epar, !Hdir. intros [Hq| ->]; [rewrite decide_False by auto; by apply Hp|rewrite decide_True by done; by right].
  - intros e. rewrite Hdir, Epar. intros He. rewrite decide_False; [by apply Ho|]. by apply Hold, is_dir_has.
  - intros e cs. rewrite Ek'. intros Hcs. rewrite (Hnames e) by done. by eapply Hs.
  - intros e cs c. rewrite Ek', Eh, Epar. intros Hcs Hin. rewrite decide_False by (by eapply Hkid). destruct (Hc e cs c Hcs Hin). auto.
  - intros q. rewrite Eh, Epar. intros [Hq| ->]; [rewrite decide_False by auto; by apply Hz|]. rewrite decide_True by done. intros ->. apply Ho in Hd. lia.
  - intros e n q Hl%Ed. destruct (Ht e n q Hl) as [Hq Hq']. rewrite Eh, Epar, En, !Ek', !decide_False by auto. split; [by left|done].
  - intros h dh. rewrite El, Hdir. apply Hh.
  - split; [eapply extends_alive; [by eapply born_extends|done]|]. rewrite Epar, decide_False; [done|]. apply Hold, is_dir_has, Hra.
Qed.
Definition empty_node fs p : Prop := exists nd, nodes fs !! p = Some nd /\ MachineSpec.opened (limit := limit) (inode nd).
Lemma new_inode_opened p d name w : MachineSpec.opened (limit := limit) (new_inode flags q0 p d name w : I).
Proof using Hmo. pose proof limit_range. unfold MachineSpec.opened. cbn. split_and!; try lia; try done. exists q0. pose proof mo_queue as []. done. Qed.
Lemma sized_opened n a (i : I) : 0 <= n <= limit -> MachineSpec.opened (limit := limit) i -> MachineSpec.opened (limit := limit) (set_Size n (set_attrs a i)).
Proof. intros Hn (? & ? & ? & ? & ? & ? & ? & ? & ?). split_and!; cbn; done || lia. Qed.
Lemma NewInode_wp X d name fs (R : Z -> FS -> Prop) :
  wf X fs -> is_dir fs d -> (forall p fs', wf X fs' -> born p d name None fs fs' -> empty_node fs' p /\ at_node fs' p Id 0 = 0 -> R p fs') -> wp (NewInode flags q0 d name) R fs.
Proof using Type*.
  intros Hw Hd HR. unfold NewInode. apply wp_bind, wp_gets, wp_bind, wp_modS, wp_ret.
  match goal with |- R ?p ?f => assert (Hb : born p d name None fs f) end.
  { assert (Hno : ~ has fs (nextPtr fs)) by (intros [nd E]; pose proof (no_ptr _ _ _ _ (wf_nodes _ _ _ Hw _ _ E)); lia).
    split; try done; unfold has, name_of, parent_of, kids, at_node; cbn; intros q; destruct (decide (q = nextPtr fs)) as [-> |]; rewrite ?lookup_insert_eq, ?lookup_insert_ne by done.
    - split; [by right|eauto].
    - tauto.
    - done.
    - done.
    - done.
    - done.
    - done.
    - done. }
  apply HR; [|done|split; [eexists; split; [apply lookup_insert_eq|apply new_inode_opened]|unfold at_node; cbn; by rewrite lookup_insert_eq]]. eapply born_wf; [done| |done|done]. split.
  2: { intros id q Hq. apply (bn_has _ _ _ _ _ _ Hb). left. by eapply (hp_numbers _ _ (wf_heap _ _ _ Hw)). }
  2: { intros q nd. cbn. intros [[<- <-]|[? E]]%lookup_insert_Some; [by split; [|constructor]|]. eapply placed_mono; [|by eapply (hp_places _ _ (wf_heap _ _ _ Hw))].
    intros l Hl. eapply born_extends; [exact Hb|exact Hl]. }
  intros q nd. cbn. intros [[<- <-]|[? E]]%lookup_insert_Some.
  - assert (0 < nextPtr fs). { destruct (wf_root _ _ _ Hw) as [[Hr%is_dir_has _] _]. destruct Hr as [ndr Er]. pose proof (no_ptr _ _ _ _ (wf_nodes _ _ _ Hw _ _ Er)). lia. }
    split; cbn; try done; try lia; [|].
    + eapply MachineSpec.opened_ok; [apply mo_mount|apply new_inode_opened|done].
    + intros ->. apply (lk_order _ (wf_links _ _ _ Hw)) in Hd. lia.
  - destruct (wf_nodes _ _ _ Hw q nd E). split; try done. lia.
Qed.
(** A file that is nowhere and has no data becomes a directory. *)
Lemma todir_wf X p fs fs' : wf X fs -> heap_ok (limit := limit) flags fs' -> relinked p [] fs fs' -> kids fs p = None ->
  0 <= parent_of fs p < p -> (forall l, dels fs !! l <> Some p) -> wf X fs'.
Proof.
  intros [_ [Hp Ho Hs Hc Hz] Ht Hh [Hra Hr]] Hheap Hre Hk Hpar Hno. pose proof Hre as [Eh En Ep Ek Ed _ El].
  assert (Hdir : forall e, is_dir fs e -> is_dir fs' e) by (intros e He; unfold is_dir; rewrite Ek; case_decide; eauto).
  assert (Hnp : forall e, is_dir fs e -> e <> p) by (intros e [? ?] ->; congruence). split; [done|split| | |].
  - intros q. rewrite Eh, Ep. intros Hq. destruct (Hp q Hq); auto.
  - intros e [cs Hcs]. rewrite Ep. rewrite Ek in Hcs. case_decide; [by subst|apply Ho; by exists cs].
  - intros e cs. rewrite Ek, (list_fmap_ext (name_of fs') (name_of fs) cs) by (intros; apply En). case_decide; [intros [= <-]; split; [constructor|apply not_elem_of_nil]|apply Hs].
  - intros e cs c. rewrite Ek, Eh, Ep. case_decide; [intros [= <-] ?%elem_of_nil; done|apply Hc].
  - intros q. rewrite Eh, Ep. apply Hz.
  - intros e name q Hl%Ed. assert (q <> p) by (intros ->; by apply (Hno (e, name))). destruct (Ht e name q Hl) as [Hq Hq']. rewrite Eh. split; [done|].
    intros cs. rewrite Ep, En, !Ek, decide_False by done. intros Hcs. destruct (Hq' cs Hcs) as (? & ? & [?|[-> Hnot]]); [by split_and!; [..|left]|].
    split_and!; try done. right. split; [done|]. intros ds. case_decide; [intros [= <-]; apply not_elem_of_nil|apply Hnot].
  - intros h dh. rewrite El. intros Hl. by eapply Hdir, Hh.
  - split; [|by rewrite Ep]. destruct Hra as [Hr1 Hr2]. split; [auto|]. intros l Hl. apply (Hr2 l). by apply Ed.
Qed.
Lemma ToDir_wp X p fs (R : unit -> FS -> Prop) :
  wf X fs -> empty_node fs p -> kids fs p = None -> 0 <= parent_of fs p < p -> (forall l, dels fs !! l <> Some p) ->
  (forall fs', wf X fs' -> relinked p [] fs fs' -> R tt fs') -> wp (ToDir flags p) R fs.
Proof using HBL Hmo.
  intros Hw (nd & E & Hop) Hk Ho Hno HR. unfold ToDir. apply wp_bind. eapply wp_node; [done|].
  assert (Ed : dir nd = None) by (unfold kids, at_node in Hk; rewrite E in Hk; by destruct (dir nd)). rewrite Ed.
  eapply wp_quiet; [exact Hw| |].
  { eapply on_inode_quiet; [apply Hw|exact E|apply keeps_modS; intros i; by apply stays_same|]. apply wp_modS. eapply MachineSpec.opened_ok; [apply mo_mount| |done].
    apply sized_opened; [pose proof mo_room; lia|exact Hop]. }
  intros _ fs1 Hw1 Hs1. assert (Hp1 : has fs1 p) by (apply Hs1; by exists nd). destruct (wf_node _ _ _ _ Hw1 Hp1) as (nd1 & E1 & Hn1).
  eapply wp_mod_node; [done|]. assert (Hr : relinked p [] fs1 (put p (with_dir (Some fresh_dir) nd1) fs1)) by (by eapply put_relinked).
  apply HR; [|by eapply same_relinked]. eapply todir_wf; [exact Hw1| |exact Hr|by rewrite (sm_kids _ _ Hs1)|by rewrite (sm_parent _ _ Hs1)|].
  - apply (heap_put _ fs1 p nd1); [apply Hw1|done| |by eauto|done]. destruct Hn1. split; cbn; try done. by intros di [= <-].
  - intros l Hl. apply (Hno l). by apply Hs1.
Qed.
(** A new inode gets its number and its place. *)
Lemma insertInode_wp X d p fs (R : unit -> FS -> Prop) :
  wf X fs -> has fs p -> at_node fs p Id 0 = 0 -> parent_of fs p = d -> name_of fs p <> [] -> found fs d (name_of fs p) None ->
  (forall l, dels fs !! l = Some d -> X d) -> kids fs p = None \/ (forall l, dels fs !! l = Some p -> X p) ->
  (forall l1 l2 fs', kids fs d = Some (l1 ++ l2) -> wf X fs' -> relinked d (l1 ++ p :: l2) fs fs' -> R tt fs') ->
  wp (insertInode d p) R fs.
Proof using HBL.
  intros Hw Hp Hid Hpar Hne Hf Hd Hx HR. destruct (wf_node _ _ _ _ Hw Hp) as (nd & E & Hn). unfold insertInode. apply wp_bind. eapply wp_node; [done|].
  unfold at_node in Hid. rewrite E in Hid. rewrite Hid. cbn [negb Z.eqb].
  assert (Hd0 : d <> 0). { intros ->. assert (is_dir fs 0) as H0 by (destruct Hf as (cs & ? & _); by exists cs). apply (lk_order _ (wf_links _ _ _ Hw)) in H0. lia. }
  eapply wp_quiet; [exact Hw|by eapply allocateInodeId_quiet|]. intros id fs1 Hw1 Hs1.
  eapply wp_quiet; [exact Hw1|eapply quiet_mod_node; [exact Hw1|by apply Hs1|intros nd'; split_and!; [done..|right]]|].
  { by rewrite (sm_parent _ _ Hs1), Hpar. }
  intros _ fs2 Hw2 Hs2. pose proof (same_trans _ _ _ Hs1 Hs2) as Hs. apply wp_bind. eapply insertChildUnlocked_wp; [exact Hw2|by apply Hs|by rewrite (sm_parent _ _ Hs)|by rewrite (sm_name _ _ Hs)| | |rewrite (sm_kids _ _ Hs)|].
  - rewrite (sm_name _ _ Hs). by eapply found_same.
  - intros l Hl. apply (Hd l). by apply Hs.
  - destruct Hx as [?|Hx]; [by left|right]. intros l Hl. apply (Hx l). by apply Hs.
  - intros l1 l2 fs3 Hk Hw3 Hr. rewrite (sm_kids _ _ Hs) in Hk. eapply wp_mono; [apply quiet_wf; [exact Hw3|eapply number_quiet; [exact Hw3|by apply Hr, Hs]]|].
    intros [] fs4 [Hw4 Hs4]. eapply HR; [done|done|]. eapply same_relinked; [done|]. by eapply relinked_same.
Qed.
End quiet_ops.
End TreeInv.
