(* ===== verification/TreeSteps.v ===== *)
(** * The operations of the tree keep its invariant

    Every operation of [Tree] on a tree that satisfies the invariant runs to
    its end, without a panic, and leaves one that satisfies it. *)

From stdpp Require Import strings.
From S2P Require Import Prelude BTree Parts BufferList BufferListInv BufferListView BufferListSpec.
From S2P Require Import Locks Errors ReadAhead Attrs Names Listing Children Inode FileIO Upload Machine Tree Frame.
From S2P Require Import FileSpec FileInv FileSteps RequestSteps MachineSpec TreeInv.

Create HintDb tree.

Module TreeSteps.
Import Errors Names Listing Children BufferList BufferListInv Inode FileIO Upload Machine Frame FileInv FileSteps RequestSteps Tree TreeInv.

Section facts.
Context {M : Type -> Type} `{HBT : BTreeMap M} {Q : Type} `{HQ : BufferListHelpers Q}.
Implicit Types (fs : FS M Q) (p d : Z).

Lemma same_has fs fs' p : same fs fs' -> has fs p -> has fs' p.
Proof. intros Hs. apply Hs. Qed.
Lemma same_is_dir fs fs' d : same fs fs' -> is_dir fs d -> is_dir fs' d.
Proof. intros Hs. unfold is_dir. by rewrite (sm_kids _ _ Hs). Qed.
Lemma extends_has fs fs' p : extends fs fs' -> has fs p -> has fs' p.
Proof. intros He. apply He. Qed.
Lemma extends_is_dir fs fs' d : extends fs fs' -> is_dir fs d -> is_dir fs' d.
Proof. intros He Hd. by apply He. Qed.
Lemma alive_is_dir fs d : alive fs d -> is_dir fs d.
Proof. by intros [? _]. Qed.
Lemma relinked_has fs fs' d cs p : relinked d cs fs fs' -> has fs p -> has fs' p.
Proof. intros Hr. apply Hr. Qed.
Lemma born_has fs fs' p d name k q : born p d name k fs fs' -> has fs q -> has fs' q.
Proof. intros Hb ?. apply (bn_has _ _ _ _ _ _ Hb). by left. Qed.
Lemma born_has_new fs fs' p d name k : born p d name k fs fs' -> has fs' p.
Proof. intros Hb. apply (bn_has _ _ _ _ _ _ Hb). by right. Qed.
End facts.
#[export] Hint Resolve same_has same_is_dir extends_has extends_is_dir alive_is_dir is_dir_has relinked_has born_has born_has_new
  extends_alive same_alive same_extends born_extends : tree.
#[export] Hint Immediate extends_trans same_trans : tree.

(** Run the leading operation, which leaves the tree alone. *)
Tactic Notation "quietly" uconstr(L) "as" ident(fs') ident(Hw) ident(Hs) :=
  eapply wp_quiet; [eassumption|eapply L; eauto with tree|]; intros ? fs' Hw Hs.

Section steps.
Context {M : Type -> Type} `{HBT : BTreeMap M} `{HBL : !BTreeMapLaws M} {Q : Type} `{HQ : BufferListHelpers Q}.
Context {limit : Z} `{HLaws : !BufferListHelpersLaws Q limit}.
Context (flags : Flags) (tflags : TreeFlags) (env : Env) (q0 : Q) `{Hmo : !Mounted limit flags q0}.
Abbreviation I := (Inode M Q).
Abbreviation FS := (FS M Q).
Abbreviation wf := (wf (limit := limit) flags).
Abbreviation quiet := (quiet (limit := limit) flags).
Implicit Types (p d c h : Z) (fs : FS) (name : text) (cs : list Z) (X : Z -> Prop).

(** ** New entries *)

(** An entry [p] is put in place as [name] of [d]. *)
Record added p d name fs fs' : Prop := {
  ad_extends : extends fs fs';
  ad_old : forall q, has fs q -> name_of fs' q = name_of fs q /\ parent_of fs' q = parent_of fs q;
  ad_place : has fs' p /\ parent_of fs' p = d /\ name_of fs' p = name;
  ad_kids : exists l1 l2, kids fs d = Some (l1 ++ l2) /\ kids fs' d = Some (l1 ++ p :: l2);
  ad_other : forall e, has fs e -> e <> d -> e <> p -> kids fs' e = kids fs e;
  ad_dels : forall l q, dels fs' !! l = Some q -> dels fs !! l = Some q;
  ad_free : forall l, dels fs' !! l <> Some p;
}.
Lemma added_same p d name fs fs' fs'' : added p d name fs fs' -> same fs' fs'' -> added p d name fs fs''.
Proof.
  intros [He Ho Hp Hk Hot Hd Hf] Hs. split.
  - eapply extends_trans; eauto with tree.
  - intros q Hq. rewrite (sm_name _ _ Hs), (sm_parent _ _ Hs). auto.
  - rewrite (sm_has _ _ Hs), (sm_name _ _ Hs), (sm_parent _ _ Hs). auto.
  - by setoid_rewrite (sm_kids _ _ Hs).
  - intros e. rewrite (sm_kids _ _ Hs). auto.
  - intros l q Hq. apply Hd. by apply Hs.
  - intros l Hl. apply (Hf l). by apply Hs.
Qed.
Lemma born_added X p d name k l1 l2 fs fs1 fs2 :
  wf X fs -> born p d name k fs fs1 -> kids fs1 d = Some (l1 ++ l2) -> is_dir fs d -> relinked d (l1 ++ p :: l2) fs1 fs2 -> added p d name fs fs2.
Proof.
  intros Hw Hb Hk Hd Hr. pose proof Hb as [[_ Hnew] Hh Hn Hp Hkd Hdl _ _]. pose proof Hr as [Rh Rn Rp Rk Rd _ _].
  assert (Hdp : d <> p) by (intros ->; by apply Hnew, is_dir_has).
  assert (Hq : forall q, has fs q -> q <> p) by (intros q ? ->; done). split.
  - eapply extends_trans; [by eapply born_extends|]. apply (relinked_extends d (l1 ++ p :: l2)); [done|by exists (l1 ++ l2)].
  - intros q ?. by rewrite Rn, Rp, Hn, Hp, !decide_False by auto.
  - rewrite Rh, Rn, Rp, Hn, Hp, Hh, !decide_True by done. auto.
  - exists l1, l2. rewrite Rk, decide_True by done. split; [|done]. rewrite Hkd, decide_False in Hk by done. done.
  - intros e ? ? ?. by rewrite Rk, Hkd, !decide_False by done.
  - auto.
  - intros l Hl. eapply (born_untombed _ _ _ _ _ _ _ _ Hw Hb). by apply Rd.
Qed.
Lemma found_born X p d name k name' r fs fs' : wf X fs -> born p d name k fs fs' -> is_dir fs d -> found fs d name' r -> found fs' d name' r.
Proof.
  intros Hw Hb Hd (cs & Hk & Hr). assert (Hnp : forall q, has fs q -> q <> p) by (intros q ? ->; by apply (bn_new _ _ _ _ _ _ Hb)).
  assert (Hc : forall c, c ∈ cs -> name_of fs' c = name_of fs c).
  { intros c Hc. rewrite (bn_name _ _ _ _ _ _ Hb), decide_False; [done|]. apply Hnp. by apply (lk_child _ (wf_links _ _ _ Hw) d cs). }
  exists cs. rewrite (bn_kids _ _ _ _ _ _ Hb), decide_False by (by apply Hnp, is_dir_has). split; [done|]. destruct r as [c|].
  - destruct Hr. split; [done|]. by rewrite Hc.
  - by rewrite (Forall_fmap_ext_1 (name_of fs') (name_of fs) cs) by (apply Forall_forall; auto).
Qed.

(** A new inode gets its place. *)
Lemma insert_born X p d name k fs fs1 (R : unit -> FS -> Prop) :
  wf X fs -> wf X fs1 -> born p d name k fs fs1 -> at_node fs1 p Id 0 = 0 -> name <> [] -> found fs d name None -> (forall l, dels fs !! l = Some d -> X d) ->
  (forall fs2, wf X fs2 -> kids fs2 p = k -> added p d name fs fs2 -> R tt fs2) -> wp (insertInode d p) R fs1.
Proof using HBL.
  intros Hw Hw1 Hb Hid Hne Hf Hd HR. assert (Hdir : is_dir fs d) by (destruct Hf as (cs & ? & _); by exists cs). pose proof Hb as [[_ Hnew] Hh Hn Hp Hkd Hdl _ _].
  assert (Hname : name_of fs1 p = name) by (by rewrite Hn, decide_True).
  eapply insertInode_wp; [exact Hw1|eauto with tree|exact Hid|by rewrite Hp, decide_True|by rewrite Hname|rewrite Hname; by eapply (found_born X p d name k name None fs)| | |].
  - intros l Hl. apply (Hd l). auto.
  - right. intros l Hl. by destruct (born_untombed _ _ _ _ _ _ _ _ Hw Hb l).
  - intros l1 l2 fs2 Hk Hw2 Hr. apply HR; [done| |by eapply born_added]. rewrite (rl_kids _ _ _ _ Hr), decide_False; [by rewrite Hkd, decide_True|].
    intros ->. by apply Hnew, is_dir_has.
Qed.
Lemma new_file_wp X d name fs (R : Z -> FS -> Prop) :
  wf X fs -> name <> [] -> found fs d name None -> (forall l, dels fs !! l = Some d -> X d) ->
  (forall p fs', wf X fs' -> ~ has fs p -> added p d name fs fs' -> kids fs' p = None -> R p fs') -> wp (new_file flags q0 d name) R fs.
Proof using HBL Hmo.
  intros Hw Hne Hf Hd HR. assert (Hdir : is_dir fs d) by (destruct Hf as (cs & ? & _); by exists cs).
  unfold new_file. apply wp_bind. eapply NewInode_wp; [exact Hmo|exact Hw|done|]. intros p fs1 Hw1 Hb [_ Hid].
  apply wp_bind. eapply (insert_born X); [exact Hw|exact Hw1|exact Hb|done..|]. intros fs2 Hw2 Hk2 Ha. apply wp_ret, HR; try done. apply Hb.
Qed.
(** Numbers of inodes; a new inode has none. *)
Definition number_of p fs : Z := at_node fs p Id 0.
Lemma wp_also {S A T} (f : S -> T) (m : St S A) (R : A -> S -> Prop) s : unchanged f m -> wp m R s -> wp m (fun a s' => R a s' /\ f s' = f s) s.
Proof. intros Hu Hm. apply wp_run in Hm as (a & s' & E & HR). eapply wp_of_run; [exact E|]. split; [done|by eapply Hu]. Qed.
Lemma number_mod_node q p (f : Node M Q -> Node M Q) : (forall nd, Id (f nd) = Id nd) -> unchanged (number_of q) (mod_node p f).
Proof.
  intros Hf fs [] fs'. unfold mod_node, node, bind, getS. destruct (nodes fs !! p) as [nd|] eqn:E; [|done]. intros [= <-].
  unfold number_of, at_node. cbn. destruct (decide (q = p)) as [-> |]; [by rewrite lookup_insert_eq, E, Hf|by rewrite lookup_insert_ne].
Qed.
Lemma number_node q p : unchanged (number_of q) (node (M := M) (Q := Q) p).
Proof. intros fs a fs'. unfold node, bind, getS. destruct (nodes fs !! p); [|done]. by intros [= _ <-]. Qed.
Lemma number_on_inode {A} q p (m : St I A) : unchanged (number_of q) (on_inode p m).
Proof.
  unfold on_inode. apply unchanged_bind; [apply number_node|intros nd]. apply unchanged_bind; [by intros fs a fs' [= _ <-]|intros w].
  destruct (m _) as [[a i]| |]; [|done..]. apply unchanged_bind; [by apply number_mod_node|intros _]. apply unchanged_bind; [by intros fs [] fs' [= <-]|intros _ fs b fs'; by intros [= _ <-]].
Qed.
Lemma number_mod_dir q d f : unchanged (number_of q) (mod_dir (M := M) (Q := Q) d f).
Proof.
  unfold mod_dir, dir_at. apply unchanged_bind; [apply unchanged_bind; [apply number_node|]|]; [|intros; by apply number_mod_node].
  intros nd fs di fs'. destruct (dir nd); [by intros [= _ <-]|done].
Qed.
Lemma number_ToDir q p : unchanged (number_of q) (ToDir (M := M) (Q := Q) flags p).
Proof.
  unfold ToDir. apply unchanged_bind; [apply number_node|intros nd]. destruct (dir nd); [intros fs [] fs'; by intros [= <-]|].
  apply unchanged_bind; [apply number_on_inode|intros _; by apply number_mod_node].
Qed.
Lemma wp_quiet_number {A B} X q (m : St FS A) (k : A -> St FS B) (R : B -> FS -> Prop) fs :
  wf X fs -> quiet fs m -> unchanged (number_of q) m ->
  (forall a fs', wf X fs' -> same fs fs' -> number_of q fs' = number_of q fs -> wp (k a) R fs') -> wp (bind m k) R fs.
Proof.
  intros Hw Hq Hu Hk. apply wp_bind. eapply wp_mono; [apply (wp_also (number_of q)); [exact Hu|by apply (quiet_wf flags X)]|]. intros a fs' [[Hw' Hs] E]. by apply Hk.
Qed.

(** A new empty directory, not in its place yet. *)
Lemma born_dir_wp {A} X d name (k : Z -> St FS A) fs (R : A -> FS -> Prop) :
  wf X fs -> is_dir fs d ->
  (forall p fs', wf X fs' -> born p d name (Some []) fs fs' -> number_of p fs' = 0 -> wp (k p) R fs') ->
  wp (let! p := NewInode flags q0 d name in ToDir flags p ;;; k p) R fs.
Proof using HBL Hmo.
  intros Hw Hd Hk. apply wp_bind. eapply NewInode_wp; [exact Hmo|exact Hw|done|]. intros p fs1 Hw1 Hb [He Hid].
  pose proof Hb as [[Ep Hnew] Hh Hn Hp Hkd Hdl _ _]. apply wp_bind.
  apply (wp_mono _ (fun _ fs2 => (wf X fs2 /\ relinked p [] fs1 fs2) /\ number_of p fs2 = number_of p fs1)).
  - apply (wp_also (number_of p)); [apply number_ToDir|]. eapply (ToDir_wp _ q0 X p fs1); [exact Hw1|exact He|by rewrite Hkd, decide_True| |exact (born_untombed _ _ _ _ _ _ _ _ Hw Hb)|].
    + rewrite Hp, decide_True by done. apply is_dir_has in Hd as [nd E]. pose proof (no_ptr _ _ _ _ (wf_nodes _ _ _ Hw d nd E)). lia.
    + done.
  - intros [] fs2 [[Hw2 Hr] E2]. apply Hk; [done|by eapply born_relinked|]. unfold number_of in *. congruence.
Qed.
Lemma new_dir_wp X d name fs (R : Z -> FS -> Prop) :
  wf X fs -> name <> [] -> found fs d name None -> (forall l, dels fs !! l = Some d -> X d) ->
  (forall p fs', wf X fs' -> ~ has fs p -> added p d name fs fs' -> kids fs' p = Some [] -> R p fs') -> wp (Tree.new_dir flags q0 d name) R fs.
Proof using HBL Hmo.
  intros Hw Hne Hf Hd HR. assert (Hdir : is_dir fs d) by (destruct Hf as (cs & ? & _); by exists cs).
  unfold Tree.new_dir. apply (born_dir_wp X); [done..|]. intros p fs1 Hw1 Hb Hid. pose proof Hb as [[_ Hnew] Hh Hn Hp Hkd Hdl _ _].
  apply wp_bind. eapply (insert_born X); [exact Hw|exact Hw1|exact Hb|done..|]. intros fs2 Hw2 Hk2 Ha. by apply wp_ret, HR.
Qed.
(** ** Creation *)

Lemma now_quiet X fs : wf X fs -> quiet fs now.
Proof. intros Hw. by eapply quiet_gets. Qed.
(** The parent may get new children. *)
Definition open_dir X fs d : Prop := is_dir fs d /\ forall l, dels fs !! l = Some d -> X d.
Lemma alive_open X fs d : alive fs d -> open_dir X fs d.
Proof. intros [Hd Hn]. split; [done|]. intros l Hl. by destruct (Hn l). Qed.
Lemma extends_open X fs fs' d : extends fs fs' -> open_dir X fs d -> open_dir X fs' d.
Proof. intros He [Hd Hx]. split; [by apply He|]. intros l Hl. apply (Hx l). by apply He. Qed.
Lemma added_kids p d name fs fs' : added p d name fs fs' -> is_dir fs d -> has fs' p /\ has fs' d /\ is_dir fs' d /\ extends fs fs'.
Proof. intros [He _ [Hp _] _ _ _ _] Hd. split_and!; eauto with tree. Qed.

Lemma create_wp X d name m dirty fs (R : Z -> FS -> Prop) :
  wf X fs -> name <> [] -> found fs d name None -> open_dir X fs d ->
  (forall p fs', wf X fs' -> added p d name fs fs' -> kids fs' p = None -> R p fs') -> wp (create flags q0 d name m dirty) R fs.
Proof using HBL Hmo.
  intros Hw Hne Hf [Hd Hx] HR. unfold create. apply wp_bind, wp_gets, wp_bind. eapply NewInode_wp; [exact Hmo|exact Hw|done|]. intros p fs1 Hw1 Hb [(nd & E & Hop) Hid].
  assert (Hp1 : has fs1 p) by eauto with tree.
  eapply (wp_quiet_number X p); [exact Hw1| |apply number_on_inode|].
  { eapply on_inode_quiet; [apply Hw1|exact E|apply keeps_modS; intros i; by apply stays_same|]. apply wp_modS. eapply MachineSpec.opened_ok; [apply mo_mount| |done].
    apply sized_opened; [pose proof mo_room; lia|exact Hop]. }
  intros _ fs2 Hw2 Hs2 Hn2. eapply (wp_quiet_number X p); [exact Hw2|eapply Ref_quiet; eauto with tree|by apply number_mod_node|]. intros _ fs3 Hw3 Hs3 Hn3.
  pose proof (born_same _ _ _ _ _ _ _ (born_same _ _ _ _ _ _ _ Hb Hs2) Hs3) as Hb3. apply wp_bind.
  eapply (insert_born X); [exact Hw|exact Hw3|exact Hb3|unfold number_of in *; congruence|done..|]. intros fs4 Hw4 Hk4 Ha4. destruct (added_kids _ _ _ _ _ Ha4 Hd) as (Hp4 & _).
  quietly set_state_quiet as fs5 Hw5 Hs5. quietly WakeupFlusher_quiet as fs6 Hw6 Hs6. apply wp_ret, HR; [done| |].
  - by do 2 (eapply added_same; [|done]).
  - by rewrite (sm_kids _ _ Hs6), (sm_kids _ _ Hs5).
Qed.

(** What a call on a directory leaves. *)
Definition goes_on {A} X fs (m : St FS A) : Prop := wp m (fun _ fs' => wf X fs' /\ extends fs fs') fs.
Lemma quiet_goes_on {A} X fs (m : St FS A) : wf X fs -> quiet fs m -> goes_on X fs m.
Proof. intros Hw Hq. eapply wp_mono; [by apply (quiet_wf flags X)|]. intros a fs' [? ?]. split; [done|by apply same_extends]. Qed.
Lemma goes_on_ret {A} X fs (a : A) : wf X fs -> goes_on X fs (ret a).
Proof. intros Hw. apply wp_ret. split; [done|apply extends_refl]. Qed.
Lemma goes_on_bind {A B} X fs (m : St FS A) (k : A -> St FS B) :
  goes_on X fs m -> (forall a fs', wf X fs' -> extends fs fs' -> goes_on X fs' (k a)) -> goes_on X fs (bind m k).
Proof.
  intros Hm Hk. apply wp_bind. eapply wp_mono; [exact Hm|]. intros a fs' [Hw' He]. eapply wp_mono; [by apply Hk|]. intros b fs'' [? ?].
  split; [done|by eapply extends_trans].
Qed.
Lemma goes_on_after {A} X fs fs' (m : St FS A) : extends fs fs' -> goes_on X fs' m -> wp m (fun _ fs'' => wf X fs'' /\ extends fs fs'') fs'.
Proof. intros He Hm. eapply wp_mono; [exact Hm|]. intros a fs'' [? ?]. split; [done|by eapply extends_trans]. Qed.

Lemma CreateOrOpen_ok X d name open fs : wf X fs -> open_dir X fs d -> name <> [] -> goes_on X fs (CreateOrOpen flags q0 d name open).
Proof using HBL Hmo.
  intros Hw Hd Hne. unfold CreateOrOpen. apply wp_bind. eapply findChildUnlocked_wp; [exact Hw|apply Hd|done|]. intros [c|] Hf.
  - destruct open; [|by apply goes_on_ret]. destruct (found_child _ _ _ _ _ _ Hw Hf) as [Hc _].
    apply goes_on_bind; [apply quiet_goes_on; [done|eapply quiet_idle; [done..|keeps|apply OpenFile_idle]]|]. intros ? fs1 Hw1 _. by apply goes_on_ret.
  - apply wp_bind. eapply create_wp; [exact Hw|done..|]. intros p fs1 Hw1 Ha _. destruct (added_kids _ _ _ _ _ Ha (proj1 Hd)) as (Hp & Hd1 & _ & He).
    apply (goes_on_after X fs fs1); [done|]. apply goes_on_bind; [apply quiet_goes_on; [done|by eapply modS_quiet]|]. intros _ fs2 Hw2 He2.
    apply goes_on_bind; [apply quiet_goes_on; [done|by eapply addModified_quiet]|]. intros _ fs3 Hw3 He3.
    apply goes_on_bind; [apply quiet_goes_on; [done|eapply touch_quiet; eauto with tree]|]. intros _ fs4 Hw4 He4. by apply goes_on_ret.
Qed.
Lemma CreateSymlink_ok X d name target fs : wf X fs -> open_dir X fs d -> name <> [] -> goes_on X fs (CreateSymlink flags q0 d name target).
Proof using HBL Hmo.
  intros Hw Hd Hne. unfold CreateSymlink. apply wp_bind. eapply findChildUnlocked_wp; [exact Hw|apply Hd|done|]. intros [c|] Hf; [by apply goes_on_ret|].
  apply wp_bind. eapply create_wp; [exact Hw|done..|]. intros p fs1 Hw1 Ha _. destruct (added_kids _ _ _ _ _ Ha (proj1 Hd)) as (Hp & Hd1 & _ & He).
  apply (goes_on_after X fs fs1); [done|]. apply goes_on_bind; [apply quiet_goes_on; [done|by eapply touch_quiet]|]. intros _ fs2 Hw2 _. by apply goes_on_ret.
Qed.
(** *** Directories *)

(** Where a directory comes from: it is new, or was deleted. *)
Definition made X p d name fs fs' : Prop :=
  added p d name fs fs' /\ (exists k, kids fs' p = Some k /\ (k = [] \/ X p)) /\ (~ has fs p \/ is_dir fs p /\ dels fs !! (d, name) = Some p).

Lemma dir_nonzero X fs d : wf X fs -> is_dir fs d -> d <> 0.
Proof. intros Hw Hd ->. apply (lk_order _ (wf_links _ _ _ Hw)) in Hd. lia. Qed.

(** The numbers are exchanged and the attributes set. *)
Lemma revive_wp {A} X d p old (k : St FS A) (R : A -> FS -> Prop) fs :
  wf X fs -> has fs p -> has fs old -> has fs d -> parent_of fs p <> 0 -> parent_of fs old <> 0 ->
  (forall fs', wf X fs' -> same fs fs' -> wp k R fs') ->
  wp (let! nd := node old in
      mod_node p (fun n => with_refcnt (refcnt nd) (with_Id (Id nd) n)) ;;;
      number p (Id nd) ;;;
      let! id := allocateInodeId in
      mod_node old (with_Id id) ;;;
      number old id ;;;
      set_userMetadata old ∅ 0 ;;;
      touch old ;;;
      mod_node old (with_refcnt 0) ;;;
      Ref old ;;;
      set_state old ST_MODIFIED ;;;
      let! t := now in
      touch old ;;;
      raise_times d t ;;;
      k) R fs.
Proof using HBL.
  intros Hw Hp Ho Hd Hpp Hpo Hk.
  assert (Hpar : forall fs' q, same fs fs' -> parent_of fs q <> 0 -> parent_of fs' q <> 0) by (intros fs' q Hs; by rewrite (sm_parent _ _ Hs)).
  eapply wp_quiet; [done|by eapply quiet_node|]. intros nd fs1 Hw1 Hs1.
  eapply wp_quiet; [done|eapply quiet_mod_node; [done|eauto with tree|intros n; split_and!; [done..|right; eauto]]|]. intros _ fs2 Hw2 Hs2. pose proof (same_trans _ _ _ Hs1 Hs2) as T2.
  quietly number_quiet as fs3 Hw3 Hs3. pose proof (same_trans _ _ _ T2 Hs3) as T3. quietly allocateInodeId_quiet as fs4 Hw4 Hs4. pose proof (same_trans _ _ _ T3 Hs4) as T4.
  eapply wp_quiet; [done|eapply quiet_mod_node; [done|eauto with tree|intros n; split_and!; [done..|right; eauto]]|]. intros _ fs5 Hw5 Hs5. pose proof (same_trans _ _ _ T4 Hs5) as T5.
  clear Hw1 Hs1 Hw2 Hs2 T2 Hw3 Hs3 T3 Hw4 Hs4 T4.
  quietly number_quiet as fs6 Hw6 Hs6. pose proof (same_trans _ _ _ T5 Hs6) as T6. quietly set_userMetadata_quiet as fs7 Hw7 Hs7. pose proof (same_trans _ _ _ T6 Hs7) as T7.
  quietly touch_quiet as fs8 Hw8 Hs8. pose proof (same_trans _ _ _ T7 Hs8) as T8. clear Hw5 Hs5 T5 Hw6 Hs6 T6 Hw7 Hs7 T7.
  eapply wp_quiet; [done|eapply quiet_mod_node; [done|eauto with tree|intros n; split_and!; [done..|by left]]|]. intros _ fs9 Hw9 Hs9. pose proof (same_trans _ _ _ T8 Hs9) as T9.
  quietly Ref_quiet as fs10 Hw10 Hs10. pose proof (same_trans _ _ _ T9 Hs10) as T10. quietly set_state_quiet as fs11 Hw11 Hs11. pose proof (same_trans _ _ _ T10 Hs11) as T11.
  clear Hw8 Hs8 T8 Hw9 Hs9 T9 Hw10 Hs10 T10.
  apply wp_bind, wp_gets. quietly touch_quiet as fs12 Hw12 Hs12. pose proof (same_trans _ _ _ T11 Hs12) as T12. quietly raise_times_quiet as fs13 Hw13 Hs13.
  apply Hk; [done|by eapply same_trans].
Qed.
Lemma resurrect_wp X d name old fs (R : Z -> FS -> Prop) :
  wf X fs -> name <> [] -> found fs d name None -> open_dir X fs d -> dels fs !! (d, name) = Some old -> is_dir fs old ->
  (forall p fs', wf X fs' -> made X p d name fs fs' -> R p fs') -> wp (resurrect flags q0 d name old) R fs.
Proof using HBL Hmo.
  intros Hw Hne Hf [Hd Hx] Hdel Hold HR. destruct (wf_tombs _ _ _ Hw d name old Hdel) as [Ho Ht]. pose proof Hold as [ko Hko].
  destruct (Ht ko Hko) as (Hpar & Hname & HX). pose proof (dir_nonzero _ _ _ Hw Hd) as Hd0. unfold resurrect.
  apply wp_bind, wp_modS. match goal with |- wp _ _ ?f => set (fs1 := f) end.
  assert (Hs1 : same fs fs1).
  { apply same_world. cbn. by intros l q [_ ?]%lookup_delete_Some. }
  assert (Hw1 : wf X fs1) by (eapply same_wf; [exact Hs1|apply heap_world, Hw|exact Hw]).
  assert (Hgone : forall l, dels fs1 !! l <> Some old).
  { intros [e n] Hl. pose proof (sm_dels _ _ Hs1 _ _ Hl) as Hl'. destruct (wf_tombs _ _ _ Hw e n old Hl') as [_ Ht']. destruct (Ht' ko Hko) as (? & ? & _).
    assert ((e, n) = (d, name)) as E by congruence. rewrite E in Hl. unfold fs1, dels in Hl. cbn in Hl. by rewrite lookup_delete_eq in Hl. }
  apply (born_dir_wp X); [done|by eapply same_is_dir|]. intros p fs2 Hw2 Hb _. pose proof Hb as [[_ Hnew] Hh Hn Hp Hkd Hdl _ _].
  assert (Hq : forall q, has fs q -> has fs1 q /\ q <> p) by (intros q Hq; assert (has fs1 q) by eauto with tree; split; [done|by intros ->]).
  assert (Hpar2 : forall q, has fs q -> parent_of fs2 q = parent_of fs q) by (intros q H; rewrite Hp, decide_False by (by apply Hq); apply Hs1).
  assert (Hname2 : forall q, has fs q -> name_of fs2 q = name_of fs q) by (intros q H; rewrite Hn, decide_False by (by apply Hq); apply Hs1).
  assert (Hkids2 : forall q, has fs q -> kids fs2 q = kids fs q) by (intros q H; rewrite Hkd, decide_False by (by apply Hq); apply Hs1).
  apply (revive_wp X d p old); [done|eauto with tree..| | |].
  { by rewrite Hp, decide_True. } { by rewrite Hpar2, Hpar. }
  intros fs3 Hw3 Hs3. assert (Hf3 : found fs3 d name None) by (eapply found_same; [exact Hs3|]; eapply found_born; [exact Hw1|exact Hb|by eapply same_is_dir|by eapply found_same]).
  assert (Hgone3 : forall l, dels fs3 !! l <> Some old) by (intros l Hl; apply (Hgone l), Hdl, (sm_dels _ _ Hs3), Hl).
  assert (Hn3 : name_of fs3 old = name) by (rewrite (sm_name _ _ Hs3), Hname2 by done; exact Hname).
  assert (Hx3 : forall l q, dels fs3 !! l = Some q -> dels fs !! l = Some q) by (intros l q Hl; apply (sm_dels _ _ Hs1), Hdl, (sm_dels _ _ Hs3), Hl).
  apply wp_bind. eapply insertChildUnlocked_wp; [exact Hw3|apply Hs3, Hh; left; by apply Hq|by rewrite (sm_parent _ _ Hs3), Hpar2|by rewrite Hn3|by rewrite Hn3|eauto|right; by intros l ?%Hgone3|].
  intros l1 l2 fs4 Hk Hw4 Hr. pose proof Hr as [Rh Rn Rp Rk Rd Rx Rl]. assert (Hod : old <> d) by (intros ->; apply (lk_order _ (wf_links _ _ _ Hw)) in Hold; lia).
  apply wp_ret, HR; [done|]. split_and!; [|exists ko; split; [|destruct HX as [?|[? _]]; auto]|by right].
  - split; [| | | | | |by intros l ?%Rd%Hgone3].
    + eapply extends_trans; [|eapply relinked_extends; [exact Hr|by exists (l1 ++ l2)]]. eapply extends_trans; [|by eapply same_extends]. eapply extends_trans; [by eapply same_extends|by eapply born_extends].
    + intros q H. by rewrite Rn, Rp, (sm_name _ _ Hs3), (sm_parent _ _ Hs3), Hname2, Hpar2.
    + rewrite Rh, Rn, Rp, Hn3, (sm_parent _ _ Hs3), Hpar2 by done. split_and!; [|done..]. apply Hs3, Hh. left. by apply Hq.
    + exists l1, l2. rewrite Rk, decide_True by done. split; [|done]. rewrite <- Hk, (sm_kids _ _ Hs3), Hkids2; [done|by apply is_dir_has].
    + intros e H ? ?. by rewrite Rk, decide_False, (sm_kids _ _ Hs3), Hkids2.
    + intros l q ?%Rd. auto.
  - by rewrite Rk, decide_False, (sm_kids _ _ Hs3), Hkids2.
Qed.
Lemma doMkDir_wp X d name fs (R : Z -> FS -> Prop) :
  wf X fs -> name <> [] -> found fs d name None -> open_dir X fs d ->
  (forall p fs', wf X fs' -> made X p d name fs fs' -> R p fs') -> wp (doMkDir flags tflags q0 d name) R fs.
Proof using HBL Hmo.
  intros Hw Hne Hf Hod HR. pose proof Hod as [Hd Hx]. unfold doMkDir. apply wp_bind, wp_getS.
  destruct (match deleted fs d name with Some old => if isDir fs old then Some old else None | None => None end) as [old|] eqn:Eold.
  { unfold deleted in Eold. destruct (w_DeletedChildren (world fs) !! (d, name)) as [o|] eqn:Ed; [|done]. destruct (isDir fs o) eqn:Ei; [|done]. injection Eold as ->.
    by eapply resurrect_wp; [..|apply isDir_true|]. }
  clear Eold. apply (born_dir_wp X); [done..|]. intros p fs1 Hw1 Hb Hid. assert (Hp1 : has fs1 p) by eauto with tree. assert (Hd1 : has fs1 d) by eauto with tree.
  assert (Hdp1 : is_dir fs1 p) by (unfold is_dir; rewrite (bn_kids _ _ _ _ _ _ Hb), decide_True; eauto).
  eapply (wp_quiet_number X p); [exact Hw1|eapply set_userMetadata_quiet; eauto with tree|apply number_on_inode|]. intros _ fs2 Hw2 Hs2 N2.
  eapply (wp_quiet_number X p); [exact Hw2|eapply touch_quiet; eauto with tree|apply number_on_inode|]. intros _ fs3 Hw3 Hs3 N3. pose proof (same_trans _ _ _ Hs2 Hs3) as T3.
  apply wp_bind, wp_gets.
  eapply (wp_quiet_number X p); [exact Hw3|eapply quiet_mod_dir; [exact Hw3|eauto with tree|done]|apply number_mod_dir|]. intros _ fs4 Hw4 Hs4 N4. pose proof (same_trans _ _ _ T3 Hs4) as T4.
  eapply (wp_quiet_number X p); [exact Hw4|eapply raise_times_quiet; eauto with tree|apply number_on_inode|]. intros _ fs5 Hw5 Hs5 N5. pose proof (same_trans _ _ _ T4 Hs5) as T5.
  eapply (wp_quiet_number X p); [exact Hw5|eapply Ref_quiet; eauto with tree|by apply number_mod_node|]. intros _ fs6 Hw6 Hs6 N6. pose proof (same_trans _ _ _ T5 Hs6) as T6.
  apply wp_bind. eapply (insert_born X); [exact Hw|exact Hw6|by eapply born_same|unfold number_of in *; congruence|done..|]. intros fs7 Hw7 Hk7 Ha. destruct (added_kids _ _ _ _ _ Ha Hd) as (Hp7 & Hd7 & _ & He).
  eapply (wp_quiet flags X); [exact Hw7| |].
  { destruct (NoDirObject tflags); [eapply quiet_mod_dir; [done|by exists []|done]|by eapply set_state_quiet]. }
  intros _ fs8 Hw8 Hs8. quietly SetAttrTime_quiet as fs9 Hw9 Hs9. apply wp_ret, HR; [done|]. split_and!.
  - by do 2 (eapply added_same; [|done]).
  - exists []. rewrite (sm_kids _ _ Hs9), (sm_kids _ _ Hs8). auto.
  - left. by apply (bn_new _ _ _ _ _ _ Hb).
Qed.
Lemma MkDir_ok X d name fs : wf X fs -> open_dir X fs d -> name <> [] -> goes_on X fs (MkDir flags tflags q0 d name).
Proof using HBL Hmo.
  intros Hw Hd Hne. unfold MkDir. apply wp_bind. eapply findChildUnlocked_wp; [exact Hw|apply Hd|done|]. intros [c|] Hf; [by apply goes_on_ret|].
  apply wp_bind. eapply doMkDir_wp; [exact Hw|done..|]. intros p fs1 Hw1 [Ha _]. apply (goes_on_after X fs fs1); [apply Ha|].
  apply goes_on_bind; [apply quiet_goes_on; [done|by eapply WakeupFlusher_quiet]|]. intros _ fs2 Hw2 _. by apply goes_on_ret.
Qed.
(** ** Removal *)

(** Names may newly count as deleted, those in [T]. *)
Record laid (T : location -> Z -> Prop) fs fs' : Prop := {
  bu_has : forall q, has fs' q <-> has fs q;
  bu_name : forall q, name_of fs' q = name_of fs q;
  bu_parent : forall q, parent_of fs' q = parent_of fs q;
  bu_kids : forall q, kids fs' q = kids fs q;
  bu_dels : forall l q, dels fs' !! l = Some q -> dels fs !! l = Some q \/ T l q;
  bu_next : nextPtr fs' = nextPtr fs;
  bu_handles : dirHandles fs' = dirHandles fs;
}.
(** The place of [p] may count as deleted with it. *)
Abbreviation buried p fs := (laid (fun l q => l = (parent_of fs p, name_of fs p) /\ (q =@{Z} p)%Z) fs).
Abbreviation plus X p := (fun q => X q \/ q = p).
Lemma laid_wf X (X' : Z -> Prop) T fs fs' : wf X fs -> laid T fs fs' -> heap_ok (limit := limit) flags fs' -> (forall q, X q -> X' q) ->
  (forall l q, T l q -> has fs q /\ q <> root /\ forall cs, kids fs q = Some cs -> l = (parent_of fs q, name_of fs q) /\ X' q) -> wf X' fs'.
Proof.
  intros [_ [Hp Ho Hs Hc Hz] Ht Hh [[Hr1 Hr2] Hr]] [Eh En Ep Ek Ed _ El] Hheap HX HT.
  assert (Hdir : forall e, is_dir fs' e <-> is_dir fs e) by (intros; unfold is_dir; by rewrite Ek). split; [done|split| | |].
  - intros q. rewrite Eh, Ep, Hdir. apply Hp.
  - intros e. rewrite Hdir, Ep. apply Ho.
  - intros e cs. rewrite Ek, (list_fmap_ext (name_of fs') (name_of fs) cs) by (intros; apply En). apply Hs.
  - intros e cs c. rewrite Ek, Eh, Ep. apply Hc.
  - intros q. rewrite Eh, Ep. apply Hz.
  - intros e name q Hl. rewrite Eh, Ep, En, !Ek. destruct (Ed _ _ Hl) as [Hl'|Hl'].
    + destruct (Ht e name q Hl') as [? Hq]. split; [done|]. intros cs Hcs. destruct (Hq cs Hcs) as (? & ? & HX0). split_and!; try done. destruct HX0; auto.
    + destruct (HT _ _ Hl') as (Hq & _ & Hdq). split; [done|]. intros cs Hcs. destruct (Hdq cs Hcs) as [[= -> ->] HX0]. auto.
  - intros h dh. rewrite El, Hdir. apply Hh.
  - split; [|by rewrite Ep]. split; [by rewrite Hdir|]. intros l Hl. destruct (Ed l root Hl) as [?|Hl']; [by apply (Hr2 l)|]. by destruct (HT _ _ Hl') as (_ & ? & _).
Qed.
Lemma buried_wf X p fs fs' : wf X fs -> buried p fs fs' -> heap_ok (limit := limit) flags fs' -> has fs p -> parent_of fs p <> 0 -> wf (plus X p) fs'.
Proof.
  intros Hw Hb Hh Hp Hp0. eapply laid_wf; [exact Hw|exact Hb|done|by left|]. intros l q [-> ->]. split_and!; [done| |auto].
  intros ->. by apply Hp0, (wf_root _ _ _ Hw).
Qed.
(** The exception is over. *)
Lemma wf_settle X p fs : wf (plus X p) fs ->
  (forall k, kids fs p = Some k -> X p \/ k = [] /\ forall ds, kids fs (parent_of fs p) = Some ds -> p ∉ ds) -> wf X fs.
Proof.
  intros [Hheap Hl Ht Hh Hr] Hp. split; try done. intros d name q Hq. destruct (Ht d name q Hq) as [? Hq']. split; [done|].
  intros cs Hcs. destruct (Hq' cs Hcs) as (E1 & E2 & [[?|Eq]|?]); split_and!; auto. subst q. rewrite <- E1. by apply Hp.
Qed.
Lemma wf_plus X p fs : wf X fs -> wf (plus X p) fs.
Proof.
  intros [Hheap Hl Ht Hh Hr]. split; try done. intros d name q Hq. destruct (Ht d name q Hq) as [? Hq']. split; [done|].
  intros cs Hcs. destruct (Hq' cs Hcs) as (? & ? & HX). split_and!; try done. destruct HX; auto.
Qed.
(** [p] leaves its directory, and may count as deleted there. *)
Definition unlinked p cs fs fs' : Prop := exists fs1, buried p fs fs1 /\ relinked (parent_of fs p) cs fs1 fs'.

Lemma unlink_inode_wp X p fs (R : unit -> FS -> Prop) :
  wf X fs -> has fs p -> parent_of fs p <> 0 -> (forall fs', wf (plus X p) fs' -> buried p fs fs' -> R tt fs') -> wp (on_inode p (Upload.doUnlink flags env)) R fs.
Proof using HBL.
  intros Hw Hp Hp0 HR. destruct (wf_node _ _ _ _ Hw Hp) as (nd & E & Hn). unfold on_inode. apply wp_bind. eapply wp_node; [done|]. apply wp_bind, wp_gets.
  assert (Hok : wp (Upload.doUnlink flags env) (fun _ i' => FileInv.ok (limit := limit) (base := fun _ => None) (lost := fun _ => True) (resets := True) flags [] i') (load_world (world fs) (inode nd))).
  { assert (HM : May True) by done. apply (doUnlink_ok flags env (resets := True)), ok_load, Hn. }
  apply wp_run in Hok as ([] & i & Em & Hok). rewrite Em. destruct (doUnlink_moves flags env _ _ _ _ (moved_refl _) Em) as (Es & El & Ed & Hpl).
  apply wp_bind. eapply wp_mod_node; [done|]. apply wp_bind, wp_modS, wp_ret.
  assert (Hb : buried p fs (set_world (save_world i) (put p (with_inode i nd) fs))).
  { destruct (same_put fs p nd (with_inode i nd)) as [Sh Sn Sp Sk _ Sx Sl]; [done|done|done|]. split; try done. cbn. intros l q Hq. destruct (Ed l q Hq) as [?|[-> ->]]; [by left|right].
    unfold parent_of, name_of, at_node. rewrite E. split; [by destruct (loc (inode nd)) eqn:El0; cbn; rewrite El0|apply Hn]. }
  apply HR; [|done]. eapply buried_wf; [exact Hw|exact Hb| |done|done]. apply heap_world. apply (heap_put _ fs p nd); [apply Hw|done| |done|].
  - destruct Hn. split; cbn; try done; [by rewrite Es|by rewrite El].
  - intros Hp1. apply Hpl; [done|..]; destruct (lk_parent _ (wf_links _ _ _ Hw) p Hp) as [?|Hd]; try done; unfold parent_of, at_node in Hd; by rewrite E in Hd.
Qed.
Lemma doUnlink_wp X p cs fs (R : unit -> FS -> Prop) :
  wf X fs -> kids fs (parent_of fs p) = Some cs -> p ∈ cs -> kids fs p = None \/ kids fs p = Some [] \/ X p ->
  (forall l1 l2 fs', cs = l1 ++ p :: l2 -> name_of fs p ∉ name_of fs <$> (l1 ++ l2) -> wf X fs' -> unlinked p (l1 ++ l2) fs fs' -> R tt fs') ->
  wp (Tree.doUnlink flags env p) R fs.
Proof using HBL.
  intros Hw Hk Hin Hempty HR. unfold Tree.doUnlink. apply wp_bind, wp_getS. assert (Hd : is_dir fs (parent_of fs p)) by (by exists cs).
  destruct (lk_child _ (wf_links _ _ _ Hw) _ _ p Hk Hin) as [Hp _].
  apply wp_bind. eapply unlink_inode_wp; [exact Hw|done|by eapply dir_nonzero|]. intros fs1 Hw1 Hb.
  eapply removeChildUnlocked_wp; [exact Hw1|by rewrite (bu_kids _ _ _ Hb)|done|]. intros l1 l2 fs2 -> Hno Hw2 Hr.
  rewrite (bu_name _ _ _ Hb), (list_fmap_ext (name_of fs1) (name_of fs) (l1 ++ l2)) in Hno by (intros; apply (bu_name _ _ _ Hb)). apply (HR l1 l2); [done|done| |by exists fs1].
  eapply wf_settle; [exact Hw2|]. intros k. rewrite (rl_parent _ _ _ _ Hr), (bu_parent _ _ _ Hb), !(rl_kids _ _ _ _ Hr), !(bu_kids _ _ _ Hb).
  destruct (decide (p = parent_of fs p)) as [E|Hne].
  { exfalso. rewrite <- E in Hd. apply (lk_order _ (wf_links _ _ _ Hw)) in Hd. lia. }
  intros Ek. destruct Hempty as [?|[Ek'|?]]; [congruence| |by left]. right. split; [congruence|]. rewrite decide_True by done. intros ds [= <-] Hin'.
  apply Hno. apply list_elem_of_fmap. by exists p.
Qed.
(** A name is removed whose inode is a file or an empty directory. *)
Lemma unlink_found_wp X d name c fs (R : unit -> FS -> Prop) :
  wf X fs -> found fs d name (Some c) -> kids fs c = None \/ kids fs c = Some [] -> (forall fs', wf X fs' -> R tt fs') ->
  wp (Tree.doUnlink flags env c ;;; Tree.WakeupFlusher) R fs.
Proof using HBL.
  intros Hw Hf Hc HR. destruct (found_child _ _ _ _ _ _ Hw Hf) as (_ & Hp & _). destruct Hf as (cs & Hk & Hin & _). apply wp_bind.
  eapply doUnlink_wp; [exact Hw|by rewrite Hp|done|tauto|]. intros l1 l2 fs1 _ _ Hw1 _.
  eapply wp_mono; [apply (quiet_wf flags X); [exact Hw1|by eapply WakeupFlusher_quiet]|]. intros [] fs2 [? _]. by apply HR.
Qed.
Lemma Unlink_ok X d name fs : wf X fs -> is_dir fs d -> name <> [] -> (forall c, found fs d name (Some c) -> kids fs c = None) ->
  wp (Unlink flags env d name) (fun _ fs' => wf X fs') fs.
Proof using HBL.
  intros Hw Hd Hne Hc. unfold Unlink. apply wp_bind. eapply findChildUnlocked_wp; [exact Hw|done..|]. intros [c|] Hf; [|by apply wp_ret].
  eapply unlink_found_wp; [exact Hw|exact Hf|left; by apply Hc|done].
Qed.
Lemma RmDir_unlink_ok X d name fs : wf X fs -> is_dir fs d -> name <> [] -> ~ found fs d name None -> (forall c, found fs d name (Some c) -> kids fs c = Some []) ->
  wp (RmDir_unlink flags env d name) (fun _ fs' => wf X fs') fs.
Proof using HBL.
  intros Hw Hd Hne Hno Hc. unfold RmDir_unlink. apply wp_bind. eapply findChildUnlocked_wp; [exact Hw|done..|]. intros [c|] Hf; [|done].
  eapply unlink_found_wp; [exact Hw|exact Hf|right; by apply Hc|done].
Qed.
End steps.
End TreeSteps.
