(* ===== verification/TreeListing.v ===== *)
(** * Listings keep the invariant of the tree

    What a listing brings is put in place, and what is stale is dropped: in a
    tree that satisfies the invariant, every page of the server is handled
    without a panic.  A listing changes nothing but the children of the
    directories it is about. *)

From stdpp Require Import strings.
From S2P Require Import Prelude BTree Parts BufferList BufferListInv BufferListView BufferListSpec.
From S2P Require Import Locks Errors ReadAhead Attrs Names Listing Children Inode FileIO Upload Machine Tree Frame.
From S2P Require Import FileSpec FileInv FileSteps RequestSteps MachineSpec TreeInv TreeSteps.

Module TreeListing.
Import Errors Names Listing Children BufferList BufferListInv Inode FileIO Upload Machine Frame FileInv FileSteps RequestSteps Tree TreeInv TreeSteps.

(** ** Paths *)

(** Names separated by single slashes; the last may be followed by one. *)
Inductive clean : text -> Prop :=
| clean_name n : n <> [] -> slash ∉ n -> clean n
| clean_dir n : n <> [] -> slash ∉ n -> clean (n ++ [slash])
| clean_sub n path : n <> [] -> slash ∉ n -> clean path -> clean (n ++ slash :: path).

Lemma clean_nonempty path : clean path -> path <> [].
Proof. intros [n|n|n]; [done|by destruct n..]. Qed.
Lemma split_clean (s : text) : s <> [] -> head s <> Some slash -> (forall p s', s <> p ++ [slash; slash] ++ s') -> clean s.
Proof.
  remember (length s) as n eqn:E. revert s E. induction (lt_wf n) as [n _ IH]. intros s -> Hne Hhd Hno.
  destruct (decide (slash ∈ s)) as [Hin|]; [|by constructor]. apply list_elem_of_split_l in Hin as (a & b & -> & Ha).
  assert (a <> []) by (intros ->; done). destruct b as [|x b]; [by apply clean_dir|]. apply clean_sub; [done..|]. eapply IH; [|done|done| |].
  - rewrite length_app. cbn. lia.
  - intros [= ->]. by apply (Hno a b).
  - intros p s' E. apply (Hno (a ++ slash :: p) s'). rewrite E. by rewrite <- app_assoc.
Qed.
Lemma Index_none s sub : (Index s sub < 0 -> forall p s', s <> p ++ sub ++ s').
Proof.
  intros Hlt. pose proof (Index_from_spec sub s 0 ltac:(lia)) as Hs. unfold Index in Hlt. destruct (Z.eq_dec _ _); [done|].
  destruct Hs as (p & s' & _ & E & _). pose proof (zlen_nonneg p). lia.
Qed.
Lemma valid_clean name : isInvalidName name = false -> clean name.
Proof.
  unfold isInvalidName. rewrite !orb_false_iff. intros (((((Hhd & _) & _) & Hno) & _) & _). apply split_clean.
  - by intros ->.
  - destruct name; [done|]. intros [= ->]. done.
  - apply Index_none. by apply Z.leb_gt in Hno.
Qed.
(** The first name of a path. *)
Lemma Index_slash_none n : slash ∉ n -> Index n [slash] = -1.
Proof.
  intros Hn. pose proof (Index_from_spec [slash] n 0 ltac:(lia)) as Hs. unfold Index. destruct (Z.eq_dec _ _); [done|].
  destruct Hs as (p & s' & -> & _). destruct Hn. set_solver.
Qed.
Lemma Index_slash n path : slash ∉ n -> Index (n ++ slash :: path) [slash] = zlen n.
Proof.
  intros Hn. pose proof (Index_from_spec [slash] (n ++ slash :: path) 0 ltac:(lia)) as Hs. unfold Index. destruct (Z.eq_dec _ _) as [_|_].
  - by destruct (Hs n path).
  - destruct Hs as (p & s' & E & -> & Hmin). specialize (Hmin n path eq_refl). cbn in E.
    destruct (decide (length p < length n)%nat) as [Hlt|].
    + exfalso. apply Hn. assert (El : (n ++ slash :: path) !! length p = Some slash) by (rewrite E; by apply list_lookup_middle).
      rewrite lookup_app_l in El by done. by eapply list_elem_of_lookup_2.
    + unfold zlen in *. lia.
Qed.

Lemma locate_after inp n : 0 <= n -> 0 <= locateLtSlash inp n -> n < locateLtSlash inp n.
Proof.
  intros Hn. unfold locateLtSlash. assert (Hp : forall s i, i <= (skip_slashes s i).2).
  { induction s as [|c s IH]; intros i; cbn [skip_slashes]; [done|]. case_match; [|done]. specialize (IH (i + 1)). lia. }
  specialize (Hp (drop (Z.to_nat n) inp) n). destruct (skip_slashes _ _) as [s i]. cbn in *.
  pose proof (find_lt_slash_spec (tail s) (i + 1) ltac:(lia)) as Hf. destruct (Z.eq_dec _ _); [lia|]. destruct Hf as (p & _ & _ & _ & -> & _). pose proof (zlen_nonneg p). lia.
Qed.

(** ** Pages *)

Section pages.
Context {A : Type}.
Implicit Types resp : ListBlobsOutput (A := A).

(** A page the server may return: its entries are in order and are not empty. *)
Definition sorted_page resp : Prop :=
  sorted (keys resp) /\ sorted (Prefixes resp) /\ (forall k, k ∈ keys resp -> k ∉ Prefixes resp) /\ (forall e, e ∈ entries resp -> e <> []).

(** The page is cut to a part of it, with at most one more directory. *)
Lemma cut_total resp probe pre : sorted_page resp ->
  exists r, intelligentListCut resp probe pre = Ok r /\
    match r with
    | inl (resp', _) => (forall x, x ∈ Items resp' -> x ∈ Items resp) /\ (forall p, p ∈ Prefixes resp' -> p ∈ Prefixes resp \/ zlen pre < zlen p)
    | inr _ => True
    end.
Proof.
  intros (Hk & Hpre & Hd & Hne). unfold intelligentListCut. destruct (IsTruncated resp) eqn:Et; cbn [negb]; [|eexists; split; [done|]; cbn; by auto].
  set (ip := zlen (Items resp)). set (pp := zlen (Prefixes resp)). assert (Hin : in_page resp ip pp) by (unfold in_page, ip, pp, zlen; lia).
  destruct (maxName_spec resp ip pp Hk Hpre Hd Hin) as (last & isP & -> & Hbig). cbn [bindO fst snd]. pose proof (zlen_nonneg pre).
  destruct (Z.ltb_spec (locateLtSlash last (zlen pre)) 0) as [Hneg|Hge]; [eexists; split; [done|]; cbn; by auto|].
  destruct Hbig as [(_ & El & _)|Hbig]; [rewrite El in Hge; unfold locateLtSlash in Hge; rewrite drop_nil in Hge; cbn in Hge; lia|].
  destruct (cut_loop_spec (Z.to_nat (ip + pp) + 1) resp (zlen pre) ((ip + pp) / 2) ip pp isP last) as (r & -> & Hr); try done; try lia.
  { apply Z.div_pos; unfold in_page in Hin; lia. } { assert (0 <= (ip + pp) / 2) by (apply Z.div_pos; unfold in_page in Hin; lia). unfold in_page in Hin. lia. } { intros e He. left. by apply kept_all. }
  cbn [bindO]. destruct r as [[[ip' pp'] prev]|].
  { eexists. split; [done|]. cbn. split; [intros x; apply elem_of_take_all|intros p ?; left; by eapply elem_of_take_all]. }
  destruct (probe _) as [[|checked ks]|err]; [eexists; split; [done|]; cbn; by auto| |by eexists].
  destruct (_ && _) eqn:E; [|eexists; split; [done|]; cbn; by auto]. eexists. split; [done|]. cbn. split; [done|]. intros p [?|Hp]%elem_of_app; [by left|right].
  apply list_elem_of_singleton in Hp as ->. apply andb_true_iff in E as [E _]. apply Z.leb_le in E.
  assert (zlen pre < locateLtSlash last (zlen pre) + 1); [|unfold zlen in *; rewrite length_take; lia].
  pose proof (locate_after last (zlen pre) ltac:(lia) Hge). lia.
Qed.
End pages.

(** ** Changes of a listing *)

Section listing.
Context {M : Type -> Type} `{HBT : BTreeMap M} `{HBL : !BTreeMapLaws M} {Q : Type} `{HQ : BufferListHelpers Q}.
Context {limit : Z} `{HLaws : !BufferListHelpersLaws Q limit}.
Context (flags : Flags) (tflags : TreeFlags) (env : Env) (q0 : Q) `{Hmo : !Mounted limit flags q0}.
Abbreviation I := (Inode M Q).
Abbreviation FS := (FS M Q).
Abbreviation none := (fun _ : Z => False).
Abbreviation wf := (wf (limit := limit) flags none).
Abbreviation quiet := (quiet (limit := limit) flags).
Implicit Types (p d c h : Z) (fs : FS) (name : text) (cs : list Z).

(** Inodes stay where they are, none is deleted, and only the children of directories in [K] change. *)
Record grows (K : Z -> Prop) fs fs' : Prop := {
  gr_extends : extends fs fs';
  gr_place : forall q, has fs q -> name_of fs' q = name_of fs q /\ parent_of fs' q = parent_of fs q;
  gr_kids : forall e, is_dir fs e -> ~ K e -> kids fs' e = kids fs e;
  gr_dels : forall l q, dels fs' !! l = Some q -> dels fs !! l = Some q;
  gr_file : forall q, has fs q -> is_dir fs' q -> is_dir fs q;
}.
Lemma same_grows K fs fs' : same fs fs' -> grows K fs fs'.
Proof. intros Hs. split; [by apply same_extends|intros q _; split; apply Hs|intros; apply Hs|apply Hs|]. intros q _. unfold is_dir. by rewrite (sm_kids _ _ Hs). Qed.
Lemma grows_trans K fs fs' fs'' : grows K fs fs' -> grows K fs' fs'' -> grows K fs fs''.
Proof.
  intros [He Hp Hk Hd Hf] [He' Hp' Hk' Hd' Hf']. split; [by eapply extends_trans| | |by auto|].
  - intros q Hq. destruct (Hp q Hq) as [<- <-]. apply Hp'. by apply He.
  - intros e Hdir Hne. rewrite <- Hk by done. apply Hk'; [by apply He|done].
  - intros q Hq Hdir. apply Hf; [done|]. apply Hf'; [by apply He|done].
Qed.
Lemma relinked_grows (K : Z -> Prop) d cs fs fs' : K d -> is_dir fs d -> relinked d cs fs fs' -> grows K fs fs'.
Proof.
  intros HK Hd Hr. split; [by eapply relinked_extends|intros q _; split; apply Hr| |apply Hr|].
  - intros e _ Hne. rewrite (rl_kids _ _ _ _ Hr), decide_False; [done|]. by intros ->.
  - intros q _. by rewrite (relinked_dir _ _ _ _ _ Hr).
Qed.
Lemma added_grows (K : Z -> Prop) p d name fs fs' : K d -> ~ has fs p -> added p d name fs fs' -> grows K fs fs'.
Proof.
  intros HK Hp [He Ho _ (l1 & l2 & Hk & _) Hot Hd _]. split; [done|done| |done|].
  - intros e Hdir Hne. apply Hot; [by apply is_dir_has|by intros ->|]. intros ->. by apply Hp, is_dir_has.
  - intros q Hq Hdir. destruct (decide (q = d)) as [-> |]; [by exists (l1 ++ l2)|]. unfold is_dir. rewrite <- (Hot q) by (done || by intros ->). done.
Qed.
Lemma child_alive fs d name c : wf fs -> found fs d name (Some c) -> is_dir fs c -> alive fs c.
Proof.
  intros Hw Hf Hc. split; [done|]. destruct (found_child _ _ _ _ _ _ Hw Hf) as (_ & Hp & _). intros [e n] Hl. destruct Hc as [k Hk].
  destruct (wf_tombs _ _ _ Hw e n c Hl) as [_ Ht]. destruct (Ht k Hk) as (<- & _ & [?|[_ Hno]]); [done|]. destruct Hf as (cs & Hcs & Hin & _). rewrite Hp in Hno. by apply (Hno cs).
Qed.

(** The directories a listing is about, and the tree it started with; what is below one of them is one of them. *)
Context (K : Z -> Prop) (fs0 : FS).
Hypothesis HK : forall fs c, wf fs -> extends fs0 fs -> is_dir fs c -> K (parent_of fs c) -> K c.

Definition good fs : Prop := wf fs /\ extends fs0 fs.
Definition lists {A} fs (m : St FS A) (R : A -> FS -> Prop) : Prop := wp m (fun a fs' => good fs' /\ grows K fs fs' /\ R a fs') fs.
Abbreviation any := (fun _ _ => True).
Lemma good_grows fs fs' : good fs -> wf fs' -> grows K fs fs' -> good fs'.
Proof. intros [_ He] Hw Hg. split; [done|]. eapply extends_trans; [exact He|apply Hg]. Qed.
Lemma lists_ret {A} fs (a : A) (R : A -> FS -> Prop) : good fs -> R a fs -> lists fs (ret a) R.
Proof. intros Hg HR. apply wp_ret. split_and!; [done|apply same_grows, same_refl|done]. Qed.
Lemma lists_after {A} fs fs' (m : St FS A) R : grows K fs fs' -> lists fs' m R -> wp m (fun a fs'' => good fs'' /\ grows K fs fs'' /\ R a fs'') fs'.
Proof. intros Hg Hm. eapply wp_mono; [exact Hm|]. intros a fs'' (? & ? & ?). split_and!; [done|by eapply grows_trans|done]. Qed.
Lemma lists_bind {A B} fs (m : St FS A) (k : A -> St FS B) R R' :
  lists fs m R -> (forall a fs', good fs' -> grows K fs fs' -> R a fs' -> lists fs' (k a) R') -> lists fs (bind m k) R'.
Proof. intros Hm Hk. apply wp_bind. eapply wp_mono; [exact Hm|]. intros a fs' (? & ? & ?). apply lists_after; [done|by apply Hk]. Qed.
Lemma lists_quiet {A} fs (m : St FS A) : good fs -> quiet fs m -> lists fs m any.
Proof.
  intros [Hw He] Hq. eapply wp_mono; [by apply (quiet_wf flags none)|]. intros a fs' [Hw' Hs]. split_and!; [|by apply same_grows|done].
  eapply good_grows; [split; [exact Hw|done]|done|by apply same_grows].
Qed.
Lemma lists_mono {A} fs (m : St FS A) (R R' : A -> FS -> Prop) : lists fs m R -> (forall a fs', R a fs' -> R' a fs') -> lists fs m R'.
Proof. intros Hm HR. eapply wp_mono; [exact Hm|]. intros a fs' (? & ? & ?). auto. Qed.
Lemma lists_getS {A} fs (k : FS -> St FS A) R : lists fs (k fs) R -> lists fs (bind getS k) R.
Proof. intros Hk. by apply wp_bind, wp_getS. Qed.
Lemma lists_now {A} fs (k : Z -> St FS A) R : (forall t, lists fs (k t) R) -> lists fs (bind now k) R.
Proof. intros Hk. apply wp_bind, wp_gets, Hk. Qed.
Lemma lists_find {A} fs d name (k : option Z -> St FS A) R : good fs -> is_dir fs d -> name <> [] -> (forall r, found fs d name r -> lists fs (k r) R) -> lists fs (bind (Tree.findChildUnlocked d name) k) R.
Proof. intros [Hw _] Hd Hne Hk. apply wp_bind. by eapply findChildUnlocked_wp. Qed.
Lemma lists_dir {A} fs d (k : Dir -> St FS A) R : is_dir fs d -> (forall nd di, nodes fs !! d = Some nd -> dir nd = Some di -> lists fs (k di) R) -> lists fs (bind (dir_at d) k) R.
Proof. intros (nd & di & E & Ed & _)%is_dir_node Hk. apply wp_bind. eapply wp_dir_at; [done..|]. by eapply Hk. Qed.
Lemma lists_node {A} fs p (k : Node M Q -> St FS A) R : has fs p -> (forall nd, nodes fs !! p = Some nd -> lists fs (k nd) R) -> lists fs (bind (node p) k) R.
Proof. intros [nd E] Hk. apply wp_bind. eapply wp_node; [done|]. by apply Hk. Qed.

(** A directory the listing puts entries into. *)
Definition target fs d : Prop := alive fs d /\ K d.
Lemma target_grows fs fs' d : grows K fs fs' -> target fs d -> target fs' d.
Proof. intros Hg [Ha HKd]. split; [|done]. eapply extends_alive; [apply Hg|done]. Qed.
Lemma child_target fs d name c : good fs -> target fs d -> found fs d name (Some c) -> is_dir fs c -> target fs c.
Proof.
  intros [Hw He] [_ HKd] Hf Hc. split; [by eapply child_alive|]. eapply HK; [done..|]. by destruct (found_child _ _ _ _ _ _ Hw Hf) as (_ & -> & _).
Qed.
Lemma target_dir fs d : target fs d -> is_dir fs d.
Proof. by intros [[? _] _]. Qed.
Lemma new_file_lists fs d name : good fs -> target fs d -> name <> [] -> found fs d name None -> lists fs (new_file flags q0 d name) (fun p fs' => has fs' p).
Proof using Hmo HBL.
  intros Hg Ht Hne Hf. pose proof Hg as [Hw _]. destruct Ht as [[Hd Ha] HKd]. eapply new_file_wp; [exact Hmo|exact Hw|done..|]. intros p fs' Hw' Hnew Had _.
  assert (Hgr : grows K fs fs') by (by eapply added_grows). split_and!; [by eapply good_grows|done|apply (ad_place _ _ _ _ _ Had)].
Qed.
Lemma new_dir_lists fs d name : good fs -> target fs d -> name <> [] -> found fs d name None -> lists fs (Tree.new_dir flags q0 d name) (fun p fs' => target fs' p).
Proof using Hmo HBL HK.
  intros Hg Ht Hne Hf. pose proof Hg as [Hw _]. destruct Ht as [[Hd Ha] HKd]. eapply new_dir_wp; [exact Hmo|exact Hw|done..|]. intros p fs' Hw' Hnew Had Hk.
  assert (Hgr : grows K fs fs') by (by eapply added_grows). assert (Hg' : good fs') by (by eapply good_grows). split_and!; [done..|]. split; [split; [by exists []|apply Had]|].
  eapply HK; [exact Hw'|apply Hg'|by exists []|]. destruct (ad_place _ _ _ _ _ Had) as (_ & -> & _). done.
Qed.
(** *** What the server returned *)

Lemma slice_from_ok s n : 0 <= n <= zlen s -> slice_from s n = Ok (drop (Z.to_nat n) s).
Proof. intros [H1 H2]. unfold slice_from. by rewrite (proj2 (Z.leb_le _ _) H1), (proj2 (Z.leb_le _ _) H2). Qed.
Lemma saw_lists fs d name : good fs -> target fs d -> lists fs (saw d name) any.
Proof. intros Hg Ht. apply lists_quiet; [done|]. eapply saw_quiet; [apply Hg|by apply target_dir]. Qed.
Lemma handle_prefix_lists fs d n skip prefix : good fs -> target fs d -> 0 <= n < zlen prefix -> lists fs (handle_prefix flags q0 d n skip prefix) any.
Proof using Hmo HBL HK.
  intros Hg Ht Hn. unfold handle_prefix. destruct (skipped skip prefix); [by apply lists_ret|]. rewrite (proj2 (Z.ltb_ge _ _)) by lia.
  unfold lists. apply wp_bind. eapply wp_liftO; [apply slice_from_ok; unfold zlen in *; rewrite length_take; lia|]. cbn beta. set (name := drop _ _).
  destruct (isInvalidName name) eqn:Ei; [by apply lists_ret|]. apply valid_clean, clean_nonempty in Ei.
  eapply lists_find; [done|by apply target_dir|done|]. intros [c|] Hf.
  - eapply lists_bind; [apply lists_quiet; [done|eapply refresh_AttrTime_quiet; [apply Hg|by eapply found_child; [apply Hg|]]]|].
    intros _ fs1 Hg1 Hgr _. apply saw_lists; [done|by eapply target_grows].
  - apply (lists_bind _ _ _ any); [|intros _ fs1 Hg1 Hgr _; apply saw_lists; [done|by eapply target_grows]]. apply lists_getS.
    destruct (bool_decide _); [|by apply lists_ret]. eapply lists_bind; [by apply new_dir_lists|]. intros p fs1 Hg1 _ _. by apply lists_ret.
Qed.
Lemma setFromBlobItem_lists fs p item : good fs -> has fs p -> 0 <= it_Size item <= limit -> lists fs (setFromBlobItem flags tflags env p item) any.
Proof using HBL. intros Hg Hp Hs. apply lists_quiet; [done|]. eapply setFromBlobItem_quiet; [apply Hg|done..]. Qed.
(** A file is there afterwards unless it was deleted here. *)
Lemma file_lists fs d name item r : good fs -> target fs d -> name <> [] -> 0 <= it_Size item <= limit -> found fs d name r ->
  lists fs (match r with
            | Some c => setFromBlobItem flags tflags env c item
            | None => let! fs := getS in
                      if bool_decide (deleted fs d name = None) then let! p := new_file flags q0 d name in setFromBlobItem flags tflags env p item else ret tt
            end) any.
Proof using Hmo HBL.
  intros Hg Ht Hne Hs Hf. destruct r as [c|].
  - apply setFromBlobItem_lists; [done|by eapply found_child; [apply Hg|]|done].
  - apply lists_getS. destruct (bool_decide _); [|by apply lists_ret]. eapply lists_bind; [by apply new_file_lists|]. intros p fs1 Hg1 _ Hp. by apply setFromBlobItem_lists.
Qed.
Lemma handle_item_lists fs d n skip obj : good fs -> target fs d -> 0 <= n <= zlen obj.1 -> 0 <= it_Size obj.2 <= limit -> lists fs (handle_item flags tflags env q0 d n skip obj) any.
Proof using Hmo HBL.
  intros Hg Ht Hn Hs. destruct obj as [key item]. cbn in Hn, Hs. unfold handle_item. destruct (skipped skip key); [by apply lists_ret|].
  unfold lists. apply wp_bind. eapply wp_liftO; [by apply slice_from_ok|]. cbn beta zeta. set (name := drop _ _).
  destruct (isInvalidName name) eqn:Ei; [by apply lists_ret|]. apply valid_clean, clean_nonempty in Ei.
  destruct (_ =? _); [|by apply saw_lists]. eapply lists_find; [done|by apply target_dir|done|]. intros r Hf.
  eapply lists_bind; [by apply file_lists|]. intros _ fs1 Hg1 Hgr _. apply saw_lists; [done|by eapply target_grows].
Qed.
Lemma each_lists {A} (f : A -> St FS unit) (P : FS -> Prop) l fs :
  (forall fs fs', grows K fs fs' -> P fs -> P fs') -> (forall x fs, x ∈ l -> good fs -> P fs -> lists fs (f x) any) -> good fs -> P fs -> lists fs (each f l) any.
Proof.
  intros Hmono. revert fs. induction l as [|x l IH]; intros fs Hf Hg HP; [by apply lists_ret|]. cbn [each].
  eapply lists_bind; [apply Hf; [by left|done..]|]. intros _ fs1 Hg1 Hgr _. apply IH; [|done|by eapply Hmono]. intros y fs' Hy. apply Hf. by right.
Qed.
(** The entries of a page are at least as long as the prefix that was asked for. *)
Definition page_fits (n : Z) (resp : ListBlobsOutput (A := BlobItem)) : Prop :=
  (forall x, x ∈ Items resp -> n <= zlen x.1 /\ 0 <= it_Size x.2 <= limit) /\ (forall prefix, prefix ∈ Prefixes resp -> n < zlen prefix).
Lemma handleListResult_lists fs d resp prefix skip : good fs -> target fs d -> page_fits (zlen prefix) resp -> lists fs (handleListResult flags tflags env q0 d resp prefix skip) any.
Proof using Hmo HBL HK.
  intros Hg Ht [Hi Hp]. pose proof (zlen_nonneg prefix). unfold handleListResult. eapply lists_bind.
  - apply (each_lists _ (fun fs => target fs d)); [intros; by eapply target_grows| |done|done]. intros x fs1 Hx Hg1 Ht1. apply handle_prefix_lists; [done..|]. specialize (Hp x Hx). lia.
  - intros _ fs1 Hg1 Hgr _. apply (each_lists _ (fun fs => target fs d)); [intros; by eapply target_grows| |done|by eapply target_grows].
    intros x fs2 Hx Hg2 Ht2. destruct (Hi x Hx). apply handle_item_lists; [done..|lia|done].
Qed.
(** *** Paths from the server *)

Lemma removeChild_lists fs d c name : good fs -> target fs d -> found fs d name (Some c) ->
  lists fs (Tree.removeChildUnlocked flags env d c) (fun _ fs' => found fs' d name None).
Proof using HBL.
  intros Hg Ht (cs & Hk & Hin & Hn). pose proof Hg as [Hw _]. eapply removeChildUnlocked_wp; [exact Hw|exact Hk|done|]. intros l1 l2 fs' _ Hno Hw' Hr.
  assert (Hgr : grows K fs fs') by (eapply relinked_grows; [apply Ht|by exists cs|exact Hr]). split_and!; [by eapply good_grows|done|].
  exists (l1 ++ l2). rewrite (rl_kids _ _ _ _ Hr), decide_True by done. split; [done|]. rewrite <- Hn.
  by rewrite (list_fmap_ext (name_of fs') (name_of fs) (l1 ++ l2)) by (intros; apply (rl_name _ _ _ _ Hr)).
Qed.
(** The directory for the rest of a path: it is there, is made, or takes the place of a file. *)
Lemma subdir_lists fs d name r : good fs -> target fs d -> name <> [] -> found fs d name r ->
  lists fs (match r with
            | None => if bool_decide (deleted fs d name = None) then let! p := Tree.new_dir flags q0 d name in ret (Some p) else ret None
            | Some c =>
              if isDir fs c then ret (Some c)
              else
                let! nd := node c in
                if settled (CacheState (inode nd)) then
                  reset flags env c ;;;
                  set_state c ST_DEAD ;;;
                  Tree.removeChildUnlocked flags env d c ;;;
                  let! p := Tree.new_dir flags q0 d name in ret (Some p)
                else ret None
            end) (fun sub fs' => match sub with Some s => target fs' s | None => True end).
Proof using Hmo HBL HK.
  intros Hg Ht Hne Hf.
  assert (Hnew : forall fs, good fs -> target fs d -> found fs d name None ->
    lists fs (let! p := Tree.new_dir flags q0 d name in ret (Some p)) (fun sub fs' => match sub with Some s => target fs' s | None => True end)).
  { intros fs1 Hg1 Ht1 Hf1. eapply lists_bind; [by apply new_dir_lists|]. intros p fs2 Hg2 _ Hp. by apply lists_ret. }
  destruct r as [c|]; [|destruct (bool_decide _); [by apply Hnew|by apply lists_ret]].
  destruct (found_child _ _ _ _ _ _ (proj1 Hg) Hf) as [Hc _].
  destruct (isDir fs c) eqn:Ed; [apply lists_ret; [done|]; by eapply child_target, isDir_true|]. apply lists_node; [done|]. intros nd E.
  destruct (settled _); [|by apply lists_ret].
  eapply wp_quiet; [apply Hg|eapply reset_quiet; [apply Hg|done]|]. intros _ fs1 Hw1 Hs1.
  eapply wp_quiet; [exact Hw1|eapply set_state_quiet; [exact Hw1|by apply Hs1]|]. intros _ fs2 Hw2 Hs2. pose proof (same_trans _ _ _ Hs1 Hs2) as Hs.
  apply (lists_after fs); [by apply same_grows|]. assert (Hg2 : good fs2) by (eapply good_grows; [exact Hg|done|by apply same_grows]).
  assert (Ht2 : target fs2 d) by (eapply target_grows; [by apply same_grows|exact Ht]).
  eapply lists_bind; [eapply removeChild_lists; [done..|by eapply found_same]|]. intros [] fs3 Hg3 Hgr3 Hf3. apply Hnew; [done|by eapply target_grows|done].
Qed.

Definition all_dirs (dirs : gmap Z bool) fs : Prop := forall e, is_Some (dirs !! e) -> target fs e.
Lemma all_dirs_grows dirs fs fs' : grows K fs fs' -> all_dirs dirs fs -> all_dirs dirs fs'.
Proof. intros Hg Hd e He. eapply target_grows; [exact Hg|by apply Hd]. Qed.
Lemma all_dirs_insert dirs d b fs : target fs d -> all_dirs dirs fs -> all_dirs (<[d := b]> dirs) fs.
Proof. intros Hd Ha e [v Hv]. apply lookup_insert_Some in Hv as [[<- _]|[_ Hv]]; [done|]. apply Ha. eauto. Qed.
Lemma sealPastDirs_dirs fs fs' dirs d : target fs' d -> all_dirs dirs fs' -> all_dirs (sealPastDirs fs dirs d) fs'.
Proof. intros Hd Ha. apply all_dirs_insert; [done|]. intros e. rewrite map_lookup_imap. destruct (dirs !! e) eqn:E; [intros _; apply Ha; eauto|by intros [? ?]]. Qed.

Lemma first_name n rest : slash ∉ n ->
  (Index (n ++ slash :: rest) [slash] =? -1) = false /\ take (Z.to_nat (Index (n ++ slash :: rest) [slash])) (n ++ slash :: rest) = n /\
  drop (Z.to_nat (Index (n ++ slash :: rest) [slash] + 1)) (n ++ slash :: rest) = rest.
Proof.
  intros Hn. rewrite Index_slash by done. pose proof (zlen_nonneg n). split_and!; [apply Z.eqb_neq; lia|..]; unfold zlen.
  - by rewrite Nat2Z.id, take_app_length.
  - replace (Z.to_nat (Z.of_nat (length n) + 1)) with (length n + 1)%nat by lia. by rewrite <- drop_drop, drop_app_length.
Qed.
Lemma insertSubTree_lists path : clean path -> forall fuel fs d item dirs,
  good fs -> target fs d -> (length path <= fuel)%nat -> 0 <= it_Size item <= limit -> all_dirs dirs fs ->
  lists fs (insertSubTree flags tflags env q0 fuel d path item dirs) all_dirs.
Proof using Hmo HBL HK.
  assert (Hstep : forall n rest fuel fs d item dirs, n <> [] -> slash ∉ n ->
    good fs -> target fs d -> (length rest < fuel)%nat -> 0 <= it_Size item <= limit -> all_dirs dirs fs ->
    (rest <> [] -> forall fuel fs d dirs, good fs -> target fs d -> (length rest <= fuel)%nat -> all_dirs dirs fs -> lists fs (insertSubTree flags tflags env q0 fuel d rest item dirs) all_dirs) ->
    lists fs (insertSubTree flags tflags env q0 fuel d (n ++ slash :: rest) item dirs) all_dirs).
  { intros n rest fuel fs d item dirs Hne Hsl Hg Ht Hfuel Hs Hall Hrest. destruct fuel as [|fuel]; [lia|]. cbn [insertSubTree].
    destruct (first_name n rest Hsl) as (-> & -> & ->). eapply lists_find; [done|by apply target_dir|done|]. intros r Hf. apply lists_getS.
    eapply lists_bind; [by apply subdir_lists|]. intros [sub|] fs1 Hg1 Hgr1 Hsub; [|apply lists_ret; [done|by eapply all_dirs_grows]].
    pose proof (all_dirs_grows _ _ _ Hgr1 Hall) as Hall1. pose proof (target_dir _ _ Hsub) as Hd1. case_bool_decide as Er.
    - eapply lists_bind; [apply setFromBlobItem_lists; [done|by apply is_dir_has|done]|]. intros _ fs2 Hg2 Hgr2 _. apply lists_getS, lists_ret; [done|].
      assert (target fs2 sub) by (by eapply target_grows). apply all_dirs_insert; [done|]. apply sealPastDirs_dirs; [done|by eapply all_dirs_grows].
    - eapply lists_bind; [apply lists_quiet; [done|eapply refresh_AttrTime_quiet; [apply Hg1|by apply is_dir_has]]|]. intros _ fs2 Hg2 Hgr2 _.
      apply Hrest; [done|done|by eapply target_grows|lia|]. apply all_dirs_insert; [by eapply target_grows|by eapply all_dirs_grows]. }
  induction 1 as [n Hne Hsl|n Hne Hsl|n rest Hne Hsl Hclean IH]; intros fuel fs d item dirs Hg Ht Hfuel Hs Hall.
  - assert (insertSubTree flags tflags env q0 fuel d n item dirs = insertSubTree flags tflags env q0 0 d n item dirs) as -> by (destruct fuel; cbn [insertSubTree]; by rewrite (Index_slash_none n Hsl)).
    cbn [insertSubTree]. rewrite (Index_slash_none n Hsl). cbn [Z.eqb]. change (Pos.eqb 1 1) with true. cbn beta iota. eapply lists_find; [done|by apply target_dir|done|]. intros r Hf.
    apply (lists_bind _ _ _ any); [pose proof (file_lists fs d n item r Hg Ht Hne Hs Hf) as Hl; by destruct r|]. intros _ fs1 Hg1 Hgr1 _. apply lists_getS, lists_ret; [done|].
    apply sealPastDirs_dirs; [by eapply target_grows|by eapply all_dirs_grows].
  - rewrite length_app in Hfuel. cbn in Hfuel. apply Hstep; try done. cbn. lia.
  - rewrite length_app in Hfuel. cbn in Hfuel. apply Hstep; try done; [lia|]. intros _ fuel' fs' d' dirs' ? ? ? ?. by apply IH.
Qed.
(** *** Stale entries *)

Lemma lists_same {A} fs (m : St FS A) : good fs -> quiet fs m -> lists fs m (fun _ fs' => same fs fs').
Proof.
  intros Hg Hq. eapply wp_mono; [apply (quiet_wf flags none); [apply Hg|done]|]. intros a fs' [Hw' Hs].
  split_and!; [eapply good_grows; [exact Hg|done|by apply same_grows]|by apply same_grows|done].
Qed.
(** Nothing outside the part of the tree from [d] on changes. *)
Definition prunes d fs fs' : Prop := nextPtr fs' = nextPtr fs /\ forall e, e < d -> kids fs' e = kids fs e.
Lemma prunes_trans d fs fs' fs'' : prunes d fs fs' -> prunes d fs' fs'' -> prunes d fs fs''.
Proof. intros [E H] [E' H']. split; [congruence|]. intros e He. by rewrite H', H. Qed.
Lemma prunes_le d e fs fs' : d <= e -> prunes e fs fs' -> prunes d fs fs'.
Proof. intros Hle [E H]. split; [done|]. intros x ?. apply H. lia. Qed.
Lemma same_prunes d fs fs' : same fs fs' -> prunes d fs fs'.
Proof. intros Hs. split; [apply Hs|intros; apply Hs]. Qed.
Lemma child_newer fs c : good fs -> is_dir fs c -> 0 <= parent_of fs c < c.
Proof. intros [Hw _] Hc. by apply (lk_order _ (wf_links _ _ _ Hw)). Qed.
Lemma dir_bound fs d : good fs -> has fs d -> d < nextPtr fs.
Proof. intros [Hw _] [nd E]. destruct (wf_nodes _ _ _ Hw d nd E). lia. Qed.

Lemma removeAllChildren_lists fuel : forall fs d, good fs -> K d -> is_dir fs d -> nextPtr fs <= d + Z.of_nat fuel ->
  lists fs (removeAllChildren flags env fuel d) (fun _ fs' => prunes d fs fs').
Proof using HBL HK.
  induction fuel as [|fuel IH]; intros fs d Hg HKd Hd Hfuel; [pose proof (dir_bound fs d Hg (is_dir_has _ _ Hd)); lia|].
  cbn [removeAllChildren]. apply lists_dir; [done|]. intros nd di E Ed. set (children := fix children cs := _).
  assert (Hch : forall cs fs1, good fs1 -> nextPtr fs1 <= d + Z.of_nat (S fuel) -> (forall c, c ∈ cs -> has fs1 c /\ parent_of fs1 c = d) -> lists fs1 (children cs) (fun _ fs' => prunes (d + 1) fs1 fs')).
  { induction cs as [|c cs IHc]; intros fs1 Hg1 Hf1 Hcs; [apply lists_ret; [done|by apply same_prunes, same_refl]|]. cbn [children]. apply lists_getS.
    destruct (Hcs c ltac:(by left)) as [Hc Hpc]. eapply (lists_bind _ _ _ (fun _ fs' => prunes (d + 1) fs1 fs')).
    { destruct (isDir fs1 c) eqn:Ec; [|apply lists_ret; [done|by apply same_prunes, same_refl]]. apply isDir_true in Ec. pose proof (child_newer _ _ Hg1 Ec).
      eapply lists_mono; [apply IH; [done| |done|lia]|intros [] fs2 Hp; eapply prunes_le; [|exact Hp]; lia]. eapply HK; [apply Hg1|apply Hg1|done|by rewrite Hpc]. }
    intros [] fs2 Hg2 Hgr2 Hp2. eapply lists_bind; [apply lists_same; [done|eapply DeRef_quiet; [apply Hg2|by apply Hgr2]]|].
    intros b fs3 Hg3 Hgr3 Hs3. pose proof (prunes_trans _ _ _ _ Hp2 (same_prunes (d + 1) _ _ Hs3)) as Hp3.
    eapply lists_mono; [apply IHc; [done|destruct Hp3 as [-> _]; lia|]|intros [] fs4 Hp4; by eapply prunes_trans].
    intros c' Hc'. destruct (Hcs c' ltac:(by right)) as [Hh Hpar]. pose proof (grows_trans _ _ _ _ Hgr2 Hgr3) as Hgr. split; [by apply Hgr|]. destruct (gr_place _ _ _ Hgr c' Hh) as [_ ->]. done. }
  destruct (dir_children _ none fs d nd di (proj1 Hg) E Ed) as [Hk _].
  eapply lists_bind; [apply Hch; [done|done|]; intros c Hc; by apply (lk_child _ (wf_links _ _ _ (proj1 Hg)) d (Children di))|].
  intros [] fs1 Hg1 Hgr1 Hp1. assert (Hd1 : is_dir fs1 d) by (eapply extends_is_dir; [apply Hgr1|done]). pose proof Hd1 as (nd1 & di1 & E1 & Ed1 & Hk1)%is_dir_node.
  eapply wp_mod_dir; [done..|]. match goal with |- good ?f /\ _ => assert (Hr : relinked d [] fs1 f) by (by eapply put_relinked); assert (Hw : wf f) end.
  { eapply (wf_relinked _ none d []); [apply Hg1| |exact Hr|done|constructor|apply not_elem_of_nil|by intros c ?%elem_of_nil..|by left].
    apply (heap_put _ fs1 d nd1); [apply Hg1|done| |by eauto|done]. destruct (wf_nodes _ _ _ (proj1 Hg1) d nd1 E1). split; cbn; try done. intros di' [= <-]. cbn. by eapply no_gaps0. }
  assert (Hgr : grows K fs1 (put d (with_dir (Some (set_Children [] (set_generation (generation di1 +u 1) di1))) nd1) fs1)) by (by eapply relinked_grows).
  split_and!; [by eapply good_grows|done|]. destruct Hp1 as [En Hold]. split; [by rewrite (rl_next _ _ _ _ Hr)|]. intros e He.
  rewrite (rl_kids _ _ _ _ Hr), decide_False by lia. apply Hold. lia.
Qed.
Lemma removeExpired_loop_lists fuel : forall fs d i, good fs -> target fs d -> 0 <= i -> (forall cs, kids fs d = Some cs -> zlen cs <= i + Z.of_nat fuel) ->
  lists fs (removeExpired_loop flags env fuel d i) any.
Proof using HBL HK.
  induction fuel as [|fuel IH]; intros fs d i Hg Ht Hi Hfuel; cbn [removeExpired_loop]; (apply lists_dir; [by apply target_dir|]); intros nd di E Ed.
  all: destruct (dir_children _ none fs d nd di (proj1 Hg) E Ed) as [Hk _]; specialize (Hfuel _ Hk).
  all: destruct (znth (Children di) i) as [c|] eqn:Ec; [|by apply lists_ret]; pose proof (znth_bound _ _ _ Ec).
  { lia. }
  apply lists_getS. destruct (match lastFromCloud di with Some l => _ | None => _ end); [by apply lists_ret|].
  assert (Hin : c ∈ Children di) by (unfold znth in Ec; case_decide; [by eapply list_elem_of_lookup_2|done]).
  destruct (lk_child _ (wf_links _ _ _ (proj1 Hg)) d _ c Hk Hin) as [Hc Hpc]. apply lists_node; [done|]. intros ndc Enc.
  destruct (_ && _); [|apply IH; [done..|lia|]; intros cs ?; assert (cs = Children di) as -> by congruence; lia].
  eapply lists_bind; [apply lists_same; [done|eapply reset_quiet; [apply Hg|done]]|]. intros [] fs1 Hg1 Hgr1 Hs1.
  eapply lists_bind; [apply lists_same; [done|eapply set_state_quiet; [apply Hg1|by apply Hs1]]|]. intros [] fs2 Hg2 Hgr2 Hs2. pose proof (same_trans _ _ _ Hs1 Hs2) as Hs.
  eapply (lists_bind _ _ _ (fun _ fs' => kids fs' d = kids fs2 d)).
  { destruct (isDir fs c) eqn:Edc; [|by apply lists_ret]. apply isDir_true in Edc. pose proof (child_newer _ _ Hg Edc). assert (Hdc2 : is_dir fs2 c) by (by eapply same_is_dir).
    unfold removeAllChildrenUnlocked. apply lists_getS. pose proof (dir_bound fs2 c Hg2 (is_dir_has _ _ Hdc2)). pose proof (child_newer _ _ Hg2 Hdc2).
    eapply lists_mono; [apply removeAllChildren_lists; [done| |done|unfold depth; lia]|].
    - eapply HK; [apply Hg2|apply Hg2|done|]. rewrite (sm_parent _ _ Hs), Hpc. apply Ht.
    - intros [] fs' [_ Hp]. apply Hp. lia. }
  intros [] fs3 Hg3 Hgr3 Hk3. assert (Hk3' : kids fs3 d = Some (Children di)) by (rewrite Hk3, (sm_kids _ _ Hs); done).
  pose proof (target_grows _ _ _ (same_grows K _ _ Hs) Ht) as Ht2. pose proof (target_grows _ _ _ Hgr3 Ht2) as Ht3.
  unfold lists. apply wp_bind. eapply removeChildUnlocked_wp; [apply Hg3|exact Hk3'|done|]. intros l1 l2 fs4 El _ Hw4 Hr.
  assert (Hgr4 : grows K fs3 fs4) by (eapply relinked_grows; [apply Ht3|by exists (Children di)|exact Hr]).
  apply lists_after; [done|]. apply IH; [by eapply good_grows|by eapply target_grows|done|]. intros cs. rewrite (rl_kids _ _ _ _ Hr), decide_True by done. intros [= <-].
  rewrite El in Hfuel. unfold zlen in *. rewrite length_app in *. cbn in Hfuel. lia.
Qed.
Lemma removeExpired_lists fs d from : good fs -> target fs d -> lists fs (removeExpired flags env d from) any.
Proof using HBL HK.
  intros Hg Ht. unfold removeExpired. apply lists_dir; [by apply target_dir|]. intros nd di E Ed. apply lists_getS. destruct (dir_children _ none fs d nd di (proj1 Hg) E Ed) as [Hk Hok].
  assert (Hfuel : forall i cs, 0 <= i -> kids fs d = Some cs -> zlen cs <= i + Z.of_nat (length (Children di))) by (intros i cs Hi ?; assert (cs = Children di) as -> by congruence; unfold zlen; lia).
  case_bool_decide as Hf; [|apply removeExpired_loop_lists; [done..|]; intros; by apply Hfuel].
  destruct (search_split (name_of fs) di from (proj1 Hok) (proj1 Hf)) as (l1 & l2 & _ & -> & _). pose proof (zlen_nonneg l1). apply removeExpired_loop_lists; [done..|]. intros. by apply Hfuel.
Qed.
Lemma sealDir_lists fs d : good fs -> target fs d -> lists fs (sealDir flags env d) any.
Proof using HBL HK.
  intros Hg Ht. unfold sealDir. apply lists_now. intros t.
  eapply lists_bind; [apply lists_quiet; [done|eapply quiet_mod_dir; [apply Hg|by apply target_dir|done]]|]. intros [] fs1 Hg1 Hgr1 _. pose proof (target_grows _ _ _ Hgr1 Ht) as Ht1.
  apply (lists_bind _ _ _ any); [unfold findChildMaxTime; apply lists_node; [by apply is_dir_has, target_dir|]; intros nd E; apply lists_dir; [by apply target_dir|]; intros nd' di _ _; by apply lists_getS, lists_ret|].
  intros [m c] fs2 Hg2 Hgr2 _. pose proof (target_grows _ _ _ Hgr2 Ht1) as Ht2.
  eapply lists_bind; [apply lists_quiet; [done|eapply quiet_idle; [apply Hg2|by apply is_dir_has, target_dir|keeps|apply mod_attrs_idle]]|].
  intros [] fs3 Hg3 Hgr3 _. apply removeExpired_lists; [done|by eapply target_grows].
Qed.
(** *** Requests *)

Lemma slurp_items_lists d n skip items : forall fs dirs, good fs -> target fs d -> 0 <= n ->
  (forall x, x ∈ items -> n <= zlen x.1 /\ 0 <= it_Size x.2 <= limit) -> all_dirs dirs fs ->
  lists fs (slurp_items flags tflags env q0 d n skip items dirs) all_dirs.
Proof using Hmo HBL HK.
  induction items as [|[key item] items IH]; intros fs dirs Hg Ht Hn Hi Hall; cbn [slurp_items]; [by apply lists_ret|].
  assert (Hi' : forall x, x ∈ items -> n <= zlen x.1 /\ 0 <= it_Size x.2 <= limit) by (intros x Hx; apply Hi; by right).
  destruct (Hi (key, item) ltac:(by left)) as [Hlen Hs]. cbn in Hlen, Hs. destruct (skipped skip key); [by apply IH|].
  unfold lists. apply wp_bind. eapply wp_liftO; [by apply slice_from_ok|]. cbn beta. destruct (isInvalidName _) eqn:Ei; [by apply IH|].
  eapply lists_bind; [apply insertSubTree_lists; [by apply valid_clean|done..]|]. intros dirs' fs1 Hg1 Hgr1 Hall1. apply IH; [done|by eapply target_grows|done..].
Qed.
Lemma seal_if_lists truncated s dirs p fs : good fs -> all_dirs dirs fs -> lists fs (seal_if flags env truncated s dirs p) any.
Proof using HBL HK.
  intros Hg Hall. unfold seal_if. apply lists_getS. destruct (dirs !! p) eqn:E; [|by apply lists_ret]. destruct (_ && _); [|by apply lists_ret].
  apply sealDir_lists; [done|]. apply Hall. eauto.
Qed.
(** Loaded ranges are forgotten at once. *)
Lemma mark_loaded_lists fs d t from to : good fs -> is_dir fs d ->
  lists fs (let! di := dir_at d in let! g := liftO (Gaps.markGapLoaded 0 t from to (gaps di)) in mod_dir d (set_gaps g) ;;; ret to) any.
Proof.
  intros Hg Hd. apply lists_dir; [done|]. intros nd di E Ed. pose proof (no_gaps _ _ _ _ (wf_nodes _ _ _ (proj1 Hg) d nd E) di Ed) as Hl. destruct (gaps di) as [a l]. cbn in Hl. subst l.
  destruct (Gaps.mark_empty 0 t from to a) as [a' Em]. unfold lists. apply wp_bind. eapply wp_liftO; [exact Em|].
  eapply lists_bind; [apply lists_quiet; [done|eapply quiet_mod_dir; [apply Hg|done|done]]|]. intros _ fs1 Hg1 _ _. by apply lists_ret.
Qed.
Lemma listObjectsSlurp_done_lists fs d s sealEnd prefix startWith skip order resp : good fs -> target fs d -> page_fits (zlen prefix) resp ->
  match s with At p => sealEnd = true -> target fs p | In _ => sealEnd = false end ->
  lists fs (listObjectsSlurp_done flags tflags env q0 d s sealEnd prefix startWith skip order resp) any.
Proof using Hmo HBL HK.
  intros Hg Ht [Hi _] Hs. unfold listObjectsSlurp_done. pose proof (zlen_nonneg prefix).
  eapply lists_bind; [by apply (slurp_items_lists d); [..|intros e [? ?]]|]. intros dirs fs1 Hg1 Hgr1 Hall1. cbn beta.
  eapply lists_bind; [apply (each_lists _ (all_dirs dirs)); [intros; by eapply all_dirs_grows|intros; by apply seal_if_lists|done..]|]. intros _ fs2 Hg2 Hgr2 _.
  pose proof (grows_trans _ _ _ _ Hgr1 Hgr2) as Hgr. eapply (lists_bind _ _ _ any).
  { destruct (sealEnd && _) eqn:Es; [|by apply lists_ret]. apply andb_true_iff in Es as [-> _]. destruct s as [p|q]; [|done].
    eapply lists_bind; [apply sealDir_lists; [done|]; eapply target_grows; [exact Hgr|by apply Hs]|]. intros _ fs3 Hg3 _ _. by apply lists_ret. }
  intros next fs3 Hg3 Hgr3 _. apply lists_now. intros t. apply mark_loaded_lists; [done|]. eapply extends_is_dir; [eapply grows_trans; [exact Hgr|exact Hgr3]|]. by apply target_dir.
Qed.
Lemma listObjectsFlat_request_lists fs d : good fs -> is_dir fs d -> lists fs (listObjectsFlat_request tflags d) any.
Proof.
  intros Hg Hd. unfold listObjectsFlat_request. apply lists_node; [by apply is_dir_has|]. intros nd E. apply lists_dir; [done|]. intros nd' di _ _. by apply lists_getS, lists_ret.
Qed.
Lemma listObjectsFlat_done_lists fs d startAfter prefix skip resp lastName : good fs -> target fs d -> page_fits (zlen prefix) resp ->
  lists fs (listObjectsFlat_done flags tflags env q0 d startAfter prefix skip resp lastName) any.
Proof using Hmo HBL HK.
  intros Hg Ht Hp. unfold listObjectsFlat_done. apply lists_dir; [by apply target_dir|]. intros nd di E Ed. destruct (negb _); [by apply lists_ret|].
  eapply lists_bind; [by apply handleListResult_lists|]. intros _ fs1 Hg1 Hgr1 _. pose proof (target_grows _ _ _ Hgr1 Ht) as Ht1.
  destruct (IsTruncated resp); [|by apply sealDir_lists]. apply lists_quiet; [done|]. eapply quiet_mod_dir; [apply Hg1|by apply target_dir|]. intros di'. by case_match.
Qed.
Lemma listObjectsFlat_answer_lists fs d startAfter prefix skip probe resp : good fs -> target fs d ->
  (forall page, resp = inl page -> sorted_page page /\ page_fits (zlen prefix) page) ->
  lists fs (listObjectsFlat_answer flags tflags env q0 d startAfter prefix skip probe resp) any.
Proof using Hmo HBL HK.
  intros Hg Ht Hr. unfold listObjectsFlat_answer. destruct resp as [resp|e]; [|by apply lists_ret]. destruct (Hr resp eq_refl) as [Hsort [Hi Hp]].
  destruct (cut_total resp probe prefix Hsort) as (cut & Ec & Hcut). unfold lists. apply wp_bind. eapply wp_liftO; [exact Ec|].
  destruct cut as [[resp' lastName]|e]; [|by apply lists_ret]. destruct Hcut as [Hi' Hp'].
  eapply lists_bind; [apply listObjectsFlat_done_lists; [done..|]|intros _ fs1 Hg1 _ _; by apply lists_ret]. split; [auto|]. intros p Hin. destruct (Hp' p Hin); auto.
Qed.

(** *** Loading a directory *)

Lemma loadListing_start_lists fs d noSlurp : good fs -> is_dir fs d -> lists fs (loadListing_start flags d noSlurp) (fun slurp _ => noSlurp = true -> slurp = false).
Proof.
  intros Hg Hd. unfold loadListing_start. apply lists_dir; [done|]. intros nd di E Ed. apply lists_now. intros t. eapply (lists_bind _ _ _ any).
  - destruct (_ && _); [|by apply lists_ret]. apply lists_quiet; [done|]. by eapply quiet_mod_dir; [apply Hg|..].
  - intros _ fs1 Hg1 _ _. apply lists_ret; [done|]. by intros ->.
Qed.
Lemma loadListing_slurped_lists fs d done : good fs -> target fs d -> lists fs (loadListing_slurped flags env d done) any.
Proof using HBL HK.
  intros Hg Ht. unfold loadListing_slurped. apply lists_dir; [by apply target_dir|]. intros nd di E Ed. destruct (_ && _); [by apply sealDir_lists|by apply lists_ret].
Qed.
Lemma loadListing_more_lists fs d : good fs -> is_dir fs d -> lists fs (loadListing_more d) any.
Proof. intros Hg Hd. unfold loadListing_more. apply lists_dir; [done|]. intros nd di E Ed. by apply lists_ret. Qed.
Lemma loadListing_end_lists fs d loaded : good fs -> target fs d -> lists fs (loadListing_end flags env d loaded) any.
Proof using HBL HK.
  intros Hg Ht. unfold loadListing_end. apply lists_dir; [by apply target_dir|]. intros nd di E Ed. destruct (_ || _); [by apply removeExpired_lists|by apply lists_ret].
Qed.
(** ** Reading a directory *)

Lemma check_spec nm di dh : follows dh (checkDirPosition nm di dh) /\ 0 <= lastInternalOffset (checkDirPosition nm di dh).
Proof.
  destruct dh as [ino ns ext int gen last]. unfold checkDirPosition, follows, at_start. assert (Hsr : 0 <= Children.search nm di last).
  { unfold Children.search, search_name. apply Search_spec. unfold zlen. lia. }
  destruct (gen =? generation di); cbn.
  - split; [by split_and!; [..|intros (-> & -> & ->)]|]. destruct (Z.ltb_spec int 0); [|done]. repeat case_match; lia.
  - split; [by split_and!; [..|intros (-> & -> & ->)]|]. repeat case_match; lia.
Qed.
Lemma handle_lists {A} fs h dh (k : DirHandle -> St FS A) R : dirHandles fs !! h = Some dh -> lists fs (k dh) R -> lists fs (bind (handle h) k) R.
Proof. intros E Hk. unfold handle. apply wp_bind, wp_bind, wp_getS. rewrite E. by apply wp_ret. Qed.
(** A handle moves within its directory. *)
Lemma put_handle_lists fs h dh dh' : good fs -> dirHandles fs !! h = Some dh -> follows dh dh' ->
  lists fs (put_handle h dh') (fun _ fs' => dirHandles fs' !! h = Some dh').
Proof.
  intros [Hw He] Eh Hfo. apply wp_modS.
  assert (Hgr : grows K fs (set_dirHandles (<[h := dh']> (dirHandles fs)) fs)).
  { split; [|done..]. split; [done| | | |]; try done; try (cbn; lia). intros h' dh0 H0. cbn. destruct (decide (h' = h)) as [-> |]; [rewrite lookup_insert_eq|rewrite lookup_insert_ne by done; by exists dh0].
    exists dh'. split; [done|]. assert (dh0 = dh) as -> by congruence. done. }
  split_and!; [split; [|eapply extends_trans; [exact He|apply Hgr]]|done|cbn; by rewrite lookup_insert_eq].
  destruct Hw as [[] [] H3 H4 H5]. split; [by split|by split|done| |done]. cbn. intros h' dh0 [[<- <-]|[_ ?]]%lookup_insert_Some; [rewrite (proj1 Hfo)|]; by eapply H4.
Qed.
Lemma grows_handle fs fs' h dh : grows K fs fs' -> dirHandles fs !! h = Some dh -> exists dh', dirHandles fs' !! h = Some dh' /\ follows dh dh'.
Proof. intros Hg. apply Hg. Qed.
Lemma check_position_lists fs h dh : good fs -> dirHandles fs !! h = Some dh ->
  lists fs (check_position h) (fun pos fs' => 0 <= pos /\ exists dh', dirHandles fs' !! h = Some dh' /\ follows dh dh' /\ lastInternalOffset dh' = pos).
Proof.
  intros Hg Eh. unfold check_position. eapply handle_lists; [done|]. apply lists_dir; [by eapply (wf_handles _ _ _ (proj1 Hg))|]. intros nd di E Ed. apply lists_getS.
  destruct (check_spec (name_of fs) di dh) as [Hfo Hpos]. eapply lists_bind; [by apply (put_handle_lists fs h dh)|]. intros [] fs1 Hg1 _ Eh1. apply lists_ret; [done|]. eauto 10.
Qed.
Lemma mod_dir_quiet fs d nd di di' : wf fs -> nodes fs !! d = Some nd -> dir nd = Some di -> Children di' = Children di -> Gaps.len (gaps di') = 0 -> quiet fs (mod_dir d (fun _ => di')).
Proof.
  intros Hw E Ed Ec Hl. eapply wp_mod_dir; [done..|]. split.
  - apply (heap_put _ fs d nd); [apply Hw|done| |by eauto|done]. destruct (wf_nodes _ _ _ Hw d nd E). split; cbn; try done. by intros ? [= <-].
  - apply (same_put fs d nd); [done..|]. cbn [dir with_dir]. rewrite Ed. cbn. by rewrite Ec.
Qed.
(** What is served: at the first child, the end is only reached if there is none. *)
Definition served_ok (dh : DirHandle) fs (st : readdir_stage) : Prop := at_start dh -> st = RServed End -> kids fs (dh_inode dh) = Some [].
Lemma serve_at_lists fs h dh : good fs -> dirHandles fs !! h = Some dh -> 2 <= lastInternalOffset dh ->
  lists fs (serve_at h) (fun st fs' => served_ok dh fs' st /\ exists e, st = RServed e).
Proof.
  intros Hg Eh Hpos. unfold serve_at. eapply handle_lists; [done|]. apply lists_dir; [by eapply (wf_handles _ _ _ (proj1 Hg))|]. intros nd di E Ed. apply lists_getS.
  pose proof (no_gaps _ _ _ _ (wf_nodes _ _ _ (proj1 Hg) _ nd E) di Ed) as Hl. destruct (dir_children _ none fs _ nd di (proj1 Hg) E Ed) as [Hk _].
  assert (exists e di', serve (name_of fs) di dh = Ok (e, di') /\ Children di' = Children di /\ Gaps.len (gaps di') = 0 /\ (e = End -> zlen (Children di) <= lastInternalOffset dh - 2)) as (e & di' & Es & Ec & Hl' & He).
  { unfold serve. destruct (Z.leb_spec (zlen (Children di)) (lastInternalOffset dh - 2)) as [Hle|Hlt].
    - do 2 eexists. split; [done|]. cbn. by destruct (forgetDuringList di).
    - destruct (znth_Some (Children di) (lastInternalOffset dh - 2) ltac:(lia)) as [c ->]. do 2 eexists. split; [done|]. by destruct (bool_decide _). }
  unfold lists. apply wp_bind. eapply wp_liftO; [exact Es|]. eapply lists_bind; [apply lists_same; [done|by eapply mod_dir_quiet; [apply Hg|..]]|].
  intros [] fs1 Hg1 _ Hs1. apply lists_ret; [done|]. split; [|eauto]. intros (_ & Hint & _) [= ->]. rewrite (sm_kids _ _ Hs1), Hk. f_equal. apply zlen_0. specialize (He eq_refl). pose proof (zlen_nonneg (Children di)). lia.
Qed.
(** The pages of the server fit what was asked for. *)
Definition answer_ok (a : list_answer) : Prop :=
  match a with
  | Lock => True
  | SlurpPage _ _ resp => forall prefix start page, resp prefix start = inl page -> page_fits (zlen prefix) page
  | FlatPage _ _ resp => forall prefix start page, resp prefix start = inl page -> sorted_page page /\ page_fits (zlen prefix) page
  end.
(** A slurp is about the whole tree. *)
Definition stage_ok (dh : DirHandle) fs (st : readdir_stage) : Prop := match st with RSlurp _ _ => K root | _ => True end /\ served_ok dh fs st.
Lemma served_follows dh dh' fs st : follows dh dh' -> served_ok dh' fs st -> served_ok dh fs st.
Proof. intros (E & _ & Hst) Hs Ha. rewrite <- E. apply Hs. auto. Qed.
Lemma waiting_ok dh fs st : match st with RServed End => False | RSlurp _ _ => K root | _ => True end -> stage_ok dh fs st.
Proof. intros Hst. split; [destruct st; done|]. intros _ ->. done. Qed.
Lemma ReadDir_start_lists fs h dh : good fs -> dirHandles fs !! h = Some dh -> target fs (dh_inode dh) -> noSlurp dh = true \/ K root ->
  lists fs (ReadDir_start flags tflags h) (fun st fs' => stage_ok dh fs' st).
Proof.
  intros Hg Eh Ht Hns. unfold ReadDir_start. eapply lists_bind; [by apply check_position_lists|]. intros pos fs1 Hg1 Hgr1 (Hpos & dh1 & Eh1 & Hfo & Ep).
  pose proof Hfo as (Ei & Ens & _). pose proof (target_grows _ _ _ Hgr1 Ht) as Ht1. eapply handle_lists; [done|]. rewrite Ei.
  destruct (Z.eqb_spec pos 0); [apply lists_ret; [done|by apply waiting_ok]|]. destruct (Z.eqb_spec pos 1); [apply lists_ret; [done|by apply waiting_ok]|].
  apply lists_dir; [by apply target_dir|]. intros nd di E Ed. apply lists_now. intros t. destruct (expired _ _ _).
  - eapply lists_bind; [apply loadListing_start_lists; [done|by apply target_dir]|]. intros slurp fs2 Hg2 Hgr2 Hsl. apply lists_getS. destruct slurp; [|apply lists_ret; [done|by apply waiting_ok]].
    destruct (listObjectsSlurp_request _ _ _ _ _) as [prefix startWith]. apply lists_ret; [done|]. apply waiting_ok. destruct Hns as [Hns|?]; [|done]. rewrite Ens in Hsl. by specialize (Hsl Hns).
  - eapply lists_mono; [apply (serve_at_lists fs1 h dh1); [done..|lia]|]. intros st fs2 [Hs [e ->]]. split; [done|by eapply served_follows].
Qed.
Lemma ReadDir_finish_lists fs h dh : good fs -> dirHandles fs !! h = Some dh -> lists fs (ReadDir_finish h) (fun st fs' => served_ok dh fs' st /\ exists e, st = RServed e).
Proof.
  intros Hg Eh. unfold ReadDir_finish. eapply lists_bind; [by apply check_position_lists|]. intros pos fs1 Hg1 Hgr1 (Hpos & dh1 & Eh1 & Hfo & Ep).
  destruct (Z.ltb_spec pos 2); [apply lists_ret; [done|]; split; [by destruct (pos =? 1)|eauto]|].
  eapply lists_mono; [apply (serve_at_lists fs1 h dh1); [done..|lia]|]. intros st fs2 [Hs Hr]. split; [by eapply served_follows|done].
Qed.
Lemma newDirHandle_lists fs d ns : good fs -> is_dir fs d -> lists fs (newDirHandle d ns) (fun h fs' => dirHandles fs' !! h = Some (mkHandle d ns 0 0 0 [])).
Proof.
  intros [Hw He] Hd. unfold newDirHandle. apply wp_bind, wp_gets, wp_bind, wp_modS, wp_ret. set (h := fresh _). set (dh := mkHandle _ _ _ _ _ _).
  assert (Hh : dirHandles fs !! h = None) by (apply not_elem_of_dom, is_fresh).
  assert (Hgr : grows K fs (set_dirHandles (<[h := dh]> (dirHandles fs)) fs)).
  { split; [|done..]. split; try done; try (cbn; lia). intros h' dh0 H0. exists dh0. split; [|done]. cbn. rewrite lookup_insert_ne; [done|]. intros <-. congruence. }
  split_and!; [split; [|eapply extends_trans; [exact He|apply Hgr]]|done|cbn; by rewrite lookup_insert_eq].
  destruct Hw as [[] [] H3 H4 H5]. split; [by split|by split|done| |done]. cbn. intros h' dh0 [[<- <-]|[_ ?]]%lookup_insert_Some; [done|]. by eapply H4.
Qed.
(** A handle may be moved anywhere. *)
Lemma handle_wf {A} fs h dh (k : DirHandle -> St FS A) (R : A -> FS -> Prop) : dirHandles fs !! h = Some dh -> wp (k dh) R fs -> wp (bind (handle h) k) R fs.
Proof. intros E Hk. unfold handle. apply wp_bind, wp_bind, wp_getS. rewrite E. by apply wp_ret. Qed.
Lemma put_handle_wf fs h dh dh' : wf fs -> dirHandles fs !! h = Some dh -> dh_inode dh' = dh_inode dh -> wp (put_handle h dh') (fun _ fs' => wf fs') fs.
Proof.
  intros [[] [] H3 H4 H5] Eh Ei. apply wp_modS. split; [by split|by split|done| |done]. cbn. intros h' dh0 [[<- <-]|[_ ?]]%lookup_insert_Some; [rewrite Ei|]; by eapply H4.
Qed.
Lemma advance_wf fs h dh name : wf fs -> dirHandles fs !! h = Some dh -> wp (advance h name) (fun _ fs' => wf fs') fs.
Proof. intros Hw Eh. unfold advance. eapply handle_wf; [done|]. apply (put_handle_wf fs h dh); [done..|]. by destruct dh. Qed.
Lemma Seek_total nm newOffset di dh : 0 <= newOffset ->
  exists dh', Children.Seek nm newOffset di dh = Ok dh' /\ dh_inode dh' = dh_inode dh /\ noSlurp dh' = noSlurp dh /\ (newOffset = 2 -> lastExternalOffset dh = 0 -> at_start dh').
Proof.
  intros Ho. destruct dh as [ino ns ext int gen last]. unfold Children.Seek. cbn in *. pose proof (zlen_nonneg (Children di)).
  destruct (Z.eqb_spec newOffset 0) as [-> |]; cbn [negb andb]; [eexists; by split_and!|].
  destruct (Z.eqb_spec newOffset ext) as [-> |]; cbn [negb andb]; [eexists; split_and!; [done..|]; cbn; lia|].
  set (int' := if 2 + zlen (Children di) <? newOffset then _ else _). assert (Hint : 0 < int' <= 2 + zlen (Children di) /\ (newOffset = 2 -> int' = 2)).
  { unfold int'. destruct (Z.ltb_spec (2 + zlen (Children di)) newOffset); lia. }
  destruct (Z.eqb_spec int' 1); [eexists; split_and!; [done..|]; lia|]. destruct (Z.eqb_spec int' 2) as [E2|]; [eexists; split_and!; [done..|]; intros -> _; by rewrite E2|].
  destruct (znth_Some (Children di) (int' - 3) ltac:(lia)) as [c ->]. eexists. split_and!; [done..|]. lia.
Qed.
Lemma Seek_ok fs h dh newOffset : wf fs -> dirHandles fs !! h = Some dh -> 0 <= newOffset -> wp (Tree.Seek h newOffset) (fun _ fs' => wf fs') fs.
Proof.
  intros Hw Eh Ho. unfold Tree.Seek. eapply handle_wf; [done|]. pose proof (wf_handles _ _ _ Hw h dh Eh) as (nd & di & E & Ed & _)%is_dir_node. apply wp_bind. eapply wp_dir_at; [done..|].
  apply wp_bind, wp_getS. destruct (Seek_total (name_of fs) newOffset di dh Ho) as (dh' & Es & Ei & _). apply wp_bind. eapply wp_liftO; [exact Es|]. by apply (put_handle_wf fs h dh).
Qed.
(** A new handle is moved to the first child. *)
Lemma Seek_lists fs h dh : good fs -> dirHandles fs !! h = Some dh -> lastExternalOffset dh = 0 ->
  lists fs (Tree.Seek h 2) (fun _ fs' => exists dh', dirHandles fs' !! h = Some dh' /\ dh_inode dh' = dh_inode dh /\ noSlurp dh' = noSlurp dh /\ at_start dh').
Proof.
  intros Hg Eh H0. unfold Tree.Seek. eapply handle_lists; [done|]. apply lists_dir; [by eapply (wf_handles _ _ _ (proj1 Hg))|]. intros nd di E Ed. apply lists_getS.
  destruct (Seek_total (name_of fs) 2 di dh ltac:(lia)) as (dh' & Es & Ei & Ens & H2). unfold lists. apply wp_bind. eapply wp_liftO; [exact Es|].
  eapply lists_mono; [apply (put_handle_lists fs h dh); [done..|]; split_and!; [done..|]; unfold at_start; lia|]. intros [] fs1 Eh1. exists dh'. auto.
Qed.
Lemma ReadDir_next_lists fs h dh dh1 st a : good fs -> dirHandles fs !! h = Some dh1 -> follows dh dh1 -> target fs (dh_inode dh) -> stage_ok dh fs st -> answer_ok a ->
  lists fs (ReadDir_next flags tflags env q0 h st a) (fun r fs' => forall st', r = inl st' -> stage_ok dh fs' st').
Proof using Hmo HBL HK.
  intros Hg Eh Hf1 Ht [Hst Hse] Ha. unfold ReadDir_next. eapply handle_lists; [done|]. rewrite (proj1 Hf1). pose proof (target_dir _ _ Ht) as Hd.
  assert (Hstay : lists fs (ret (inl st)) (fun (r : readdir_stage + error) fs' => forall st', r = inl st' -> stage_ok dh fs' st')) by (apply lists_ret; [done|]; by intros ? [= <-]).
  assert (Hwait : forall fs1 st1, good fs1 -> match st1 with RServed End => False | RSlurp _ _ => K root | _ => True end ->
    lists fs1 (ret (inl st1)) (fun (r : readdir_stage + error) fs' => forall st', r = inl st' -> stage_ok dh fs' st')) by (intros; apply lists_ret; [done|]; intros ? [= <-]; by apply waiting_ok).
  destruct st as [e|prefix startWith|done_|loaded|loaded|loaded start startAfter prefix]; destruct a as [|skip order resp|skip probe resp]; try exact Hstay.
  - destruct (resp prefix startWith) as [page|e] eqn:Er; [|by apply lists_ret]. eapply lists_bind; [apply listObjectsSlurp_done_lists; [done| |by eapply Ha|done]|intros; by apply Hwait].
    split; [apply (wf_root _ _ _ (proj1 Hg))|done].
  - eapply lists_bind; [by apply loadListing_slurped_lists|]. intros; by apply Hwait.
  - eapply lists_bind; [by apply loadListing_more_lists|]. intros more fs1 Hg1 Hgr1 _. destruct more; [by apply Hwait|].
    eapply lists_bind; [apply loadListing_end_lists; [done|by eapply target_grows]|]. intros _ fs2 Hg2 Hgr2 _. pose proof (grows_trans _ _ _ _ Hgr1 Hgr2) as Hgr.
    destruct (grows_handle _ _ _ _ Hgr Eh) as (dh2 & Eh2 & Hfo). eapply lists_bind; [by apply (ReadDir_finish_lists fs2 h dh2)|]. intros st3 fs3 Hg3 _ [Hs3 [e ->]].
    apply lists_ret; [done|]. intros ? [= <-]. split; [done|]. eapply served_follows; [by eapply follows_trans|done].
  - eapply lists_bind; [by apply listObjectsFlat_request_lists|]. intros [[start startAfter] prefix] fs1 Hg1 _ _. by apply Hwait.
  - eapply lists_bind; [apply listObjectsFlat_answer_lists; [done..|]; intros page Ep; by eapply Ha|]. intros [e|] fs1 Hg1 _ _; [by apply lists_ret|by apply Hwait].
Qed.
Lemma ReadDir_run_lists h dh answers : forall fs dh1 st, good fs -> dirHandles fs !! h = Some dh1 -> follows dh dh1 -> target fs (dh_inode dh) -> stage_ok dh fs st -> Forall answer_ok answers ->
  lists fs (ReadDir_run flags tflags env q0 h st answers) (fun r fs' => r = Some (inl End) -> at_start dh -> kids fs' (dh_inode dh) = Some []).
Proof using Hmo HBL HK.
  induction answers as [|a answers IH]; intros fs dh1 st Hg Eh Hf Ht Hst Ha; cbn [ReadDir_run].
  { destruct st; apply lists_ret; try done. intros [= ->] ?. by apply Hst. }
  assert (Hgo : lists fs (let! r := ReadDir_next flags tflags env q0 h st a in match r with inl st' => ReadDir_run flags tflags env q0 h st' answers | inr e => ret (Some (inr e)) end)
    (fun r fs' => r = Some (inl End) -> at_start dh -> kids fs' (dh_inode dh) = Some [])).
  { apply Forall_cons in Ha as [Ha Has]. eapply lists_bind; [by apply (ReadDir_next_lists fs h dh dh1)|]. intros [st'|e] fs1 Hg1 Hgr1 Hst'; [|by apply lists_ret].
    destruct (grows_handle _ _ _ _ Hgr1 Eh) as (dh2 & Eh2 & Hf2). apply (IH fs1 dh2 st'); [done..|by eapply follows_trans|by eapply target_grows|by apply Hst'|done]. }
  destruct st; [|exact Hgo..]. apply lists_ret; [done|]. intros [= ->] ?. by apply Hst.
Qed.
Lemma follows_refl dh : follows dh dh.
Proof. done. Qed.
Lemma isEmptyDir_lists fs d answers : good fs -> target fs d -> Forall answer_ok answers ->
  lists fs (isEmptyDir flags tflags env q0 d answers) (fun r fs' => r = Some (inl true) -> kids fs' d = Some []).
Proof using Hmo HBL HK.
  intros Hg Ht Ha. unfold isEmptyDir. eapply lists_bind; [apply newDirHandle_lists; [done|by apply target_dir]|]. intros h fs1 Hg1 Hgr1 Eh1.
  eapply lists_bind; [by apply (Seek_lists fs1 h (mkHandle d true 0 0 0 []))|]. intros [] fs2 Hg2 Hgr2 (dh & Eh2 & Ei & Ens & Hst). cbn in Ei, Ens.
  assert (Ht2 : target fs2 (dh_inode dh)) by (rewrite Ei; eapply target_grows; [exact Hgr2|by eapply target_grows]).
  eapply lists_bind; [by apply (ReadDir_start_lists fs2 h dh); [..|left]|]. intros st fs3 Hg3 Hgr3 Hs3. destruct (grows_handle _ _ _ _ Hgr3 Eh2) as (dh3 & Eh3 & Hf3).
  eapply lists_bind; [by apply (ReadDir_run_lists h dh answers fs3 dh3); [..|eapply target_grows| |]|]. intros r fs4 Hg4 _ Hr. apply lists_ret; [done|].
  intros Hr'. rewrite <- Ei. apply Hr; [|done]. by destruct r as [[[]|]|].
Qed.
End listing.
End TreeListing.
