(* ===== verification/TreeCalls.v ===== *)
(** * The calls of the kernel and of the background tasks

    Opening and closing directories, lookups, eviction, flushing, the turns of
    the goroutines of an inode and the actions on the data of one file: in a
    tree that satisfies the invariant each runs to its end and leaves such a
    tree. *)

From stdpp Require Import strings.
From S2P Require Import Prelude BTree Parts BufferList BufferListInv BufferListView BufferListSpec.
From S2P Require Import Locks Errors ReadAhead Attrs Names Listing Children Inode FileIO Upload Machine Tree Frame.
From S2P Require Import FileSpec FileInv FileSteps RequestSteps MachineSpec TreeInv TreeSteps TreeListing.

Module TreeCalls.
Import Errors Names Listing Children BufferList BufferListInv Inode FileIO Upload Machine Frame FileInv FileSteps RequestSteps Tree TreeInv TreeSteps TreeListing.

Section calls.
Context {M : Type -> Type} `{HBT : BTreeMap M} `{HBL : !BTreeMapLaws M} {Q : Type} `{HQ : BufferListHelpers Q}.
Context {limit : Z} `{HLaws : !BufferListHelpersLaws Q limit}.
Context (flags : Flags) (tflags : TreeFlags) (env : Env) (q0 : Q) `{Hmo : !Mounted limit flags q0}.
Abbreviation I := (Inode M Q).
Abbreviation FS := (FS M Q).
Abbreviation none := (fun _ : Z => False).
Abbreviation wf := (wf (limit := limit) flags none).
Abbreviation quiet := (quiet (limit := limit) flags).
Implicit Types (p d c h : Z) (fs : FS) (name : text) (cs : list Z).

(** A call that runs to its end. *)
Definition safe {A} fs (m : St FS A) : Prop := wp m (fun _ fs' => wf fs') fs.
Abbreviation everywhere := (fun _ : Z => True).
Abbreviation lists := (lists (limit := limit) flags everywhere).
Abbreviation any := (fun _ _ => True).

Lemma lists_safe {A} fs (m : St FS A) R : lists fs fs m R -> safe fs m.
Proof. intros Hm. eapply wp_mono; [exact Hm|]. by intros a fs' [[? _] _]. Qed.
Lemma start fs : wf fs -> good (limit := limit) flags fs fs.
Proof. intros Hw. split; [done|apply extends_refl]. Qed.
Lemma closed fs0 : forall fs c, wf fs -> extends fs0 fs -> is_dir fs c -> everywhere (parent_of fs c) -> everywhere c.
Proof. done. Qed.
Lemma alive_target fs d : alive fs d -> target everywhere fs d.
Proof. by split. Qed.
Lemma quiet_safe {A} fs (m : St FS A) : wf fs -> quiet fs m -> safe fs m.
Proof. intros Hw Hq. eapply wp_mono; [by apply (quiet_wf flags none)|]. by intros a fs' [? _]. Qed.

(** ** Directory handles *)

Lemma parent_dir fs d : wf fs -> is_dir fs d -> parent_of fs d <> 0 -> is_dir fs (parent_of fs d).
Proof. intros Hw Hd Hp. by destruct (lk_parent _ (wf_links _ _ _ Hw) d (is_dir_has _ _ Hd)). Qed.
Lemma track_open_quiet fs q d : wf fs -> is_dir fs q -> is_dir fs d -> quiet fs (track_open q d).
Proof.
  intros Hw Hq Hd. unfold track_open. eapply quiet_bind; [done|by eapply quiet_dir_at|]. intros di fs1 Hw1 Hs1.
  eapply quiet_bind; [done|by eapply quiet_getS|]. intros s fs2 Hw2 Hs2. pose proof (same_trans _ _ _ Hs1 Hs2) as Hs. cbv zeta.
  assert (Hq2 : is_dir fs2 q) by eauto with tree. assert (Hd2 : is_dir fs2 d) by eauto with tree.
  destruct (_ && _); [by eapply quiet_ret|]. case_match; [|eapply quiet_mod_dir; [done..|]; by intros].
  eapply quiet_bind; [done|eapply quiet_mod_dir; [done..|]; by intros|]. intros _ fs3 Hw3 Hs3. case_match; [|by eapply quiet_ret].
  eapply quiet_mod_dir; [done|by eapply same_is_dir|]. by intros.
Qed.
Lemma OpenDir_ok fs d : wf fs -> is_dir fs d -> safe fs (OpenDir flags tflags d).
Proof using HBL.
  intros Hw Hd. apply (lists_safe fs _ any). pose proof (start fs Hw) as Hg. unfold OpenDir. apply lists_dir; [done|]. intros nd di E Ed. apply lists_getS.
  eapply lists_bind; [apply lists_quiet; [done|]|].
  { destruct (isS3 tflags && negb (parent_of fs d =? 0) && negb (StatCacheTTL flags =? 0)) eqn:Ec; [|by eapply quiet_ret].
    apply track_open_quiet; [done| |done]. apply parent_dir; [done..|]. intros E0. by rewrite E0, andb_false_r in Ec. }
  intros [] fs1 Hg1 Hgr1 _. assert (Hd1 : is_dir fs1 d) by (eapply extends_is_dir; [apply Hgr1|done]).
  eapply lists_bind; [by apply newDirHandle_lists|]. intros h fs2 Hg2 Hgr2 _. assert (Hd2 : is_dir fs2 d) by (eapply extends_is_dir; [apply Hgr2|done]).
  eapply lists_bind; [apply lists_quiet; [done|eapply quiet_mod_dir; [apply Hg2|done|]; by intros]|]. intros [] fs3 Hg3 Hgr3 _. assert (Hd3 : has fs3 d) by (eapply extends_has; [apply Hgr3|by apply is_dir_has]).
  eapply lists_bind; [apply lists_quiet; [done|by eapply modS_quiet; [apply Hg3|..]]|]. intros [] fs4 Hg4 Hgr4 _. assert (Hd4 : has fs4 d) by (eapply extends_has; [apply Hgr4|done]).
  apply lists_node; [done|]. intros nd4 E4. eapply (lists_bind _ _ _ _ _ _ any); [|intros [] fs5 Hg5 _ _; by apply lists_ret].
  destruct (_ =? _); [|by apply lists_ret]. apply lists_quiet; [done|]. eapply addModified_quiet. apply Hg4.
Qed.
Lemma CloseDir_ok fs h dh : wf fs -> dirHandles fs !! h = Some dh -> safe fs (CloseDir h).
Proof using HBL.
  intros Hw Eh. pose proof (wf_handles _ _ _ Hw h dh Eh) as Hd. unfold CloseDir. unfold safe. eapply handle_wf; [done|].
  apply quiet_safe; [done|]. eapply quiet_bind; [done|by eapply quiet_dir_at|]. intros di fs1 Hw1 Hs1. assert (Hd1 : is_dir fs1 (dh_inode dh)) by eauto with tree.
  destruct (list_find _ _) as [[i ?]|]; [|by eapply quiet_ret].
  eapply quiet_bind; [done|eapply quiet_mod_dir; [done..|]; by intros|]. intros _ fs2 Hw2 Hs2. assert (Hd2 : has fs2 (dh_inode dh)) by eauto with tree.
  eapply quiet_bind; [done|by eapply modS_quiet|]. intros _ fs3 Hw3 Hs3. assert (Hd3 : has fs3 (dh_inode dh)) by eauto with tree.
  eapply quiet_bind; [done|by eapply quiet_node|]. intros nd fs4 Hw4 Hs4. eapply quiet_bind; [done|by eapply quiet_getS|]. intros s fs5 Hw5 _.
  destruct (_ =? _); [by eapply addModified_quiet|by eapply quiet_ret].
Qed.
Lemma ReadDir_start_ok fs h dh : wf fs -> dirHandles fs !! h = Some dh -> alive fs (dh_inode dh) -> safe fs (ReadDir_start flags tflags h).
Proof.
  intros Hw Eh Ha. eapply lists_safe, (ReadDir_start_lists _ _ everywhere fs); [by apply start|done|by apply alive_target|by right].
Qed.
Lemma ReadDir_next_ok fs h dh st a : wf fs -> dirHandles fs !! h = Some dh -> alive fs (dh_inode dh) -> (forall e, st <> RServed e) ->
  answer_ok (limit := limit) a -> safe fs (ReadDir_next flags tflags env q0 h st a).
Proof using Hmo HBL.
  intros Hw Eh Ha Hst Hans. eapply lists_safe, (ReadDir_next_lists _ _ _ _ everywhere fs (closed fs) fs h dh dh); [by apply start|done|apply follows_refl|by apply alive_target| |done].
  apply waiting_ok. destruct st; try done. by destruct (Hst e).
Qed.
Lemma RmDir_start_ok fs d name : wf fs -> is_dir fs d -> name <> [] -> safe fs (RmDir_start flags tflags d name).
Proof using HBL.
  intros Hw Hd Hne. pose proof (start fs Hw) as Hg. apply (lists_safe fs _ any). unfold RmDir_start. eapply lists_find; [done..|]. intros [c|] Hf; apply lists_getS; [|by apply lists_ret].
  destruct (isDir fs c) eqn:Ec; cbn [negb]; [|by apply lists_ret]. apply isDir_true in Ec. pose proof (alive_target _ _ (child_alive _ _ _ _ _ Hw Hf Ec)) as Ht.
  eapply lists_bind; [by apply newDirHandle_lists|]. intros h fs1 Hg1 Hgr1 Eh1.
  eapply lists_bind; [by apply (Seek_lists _ everywhere fs fs1 h (mkHandle c false 0 0 0 []))|]. intros [] fs2 Hg2 Hgr2 (dh & Eh2 & Ei & _).
  eapply lists_bind; [apply (ReadDir_start_lists _ _ everywhere fs fs2 h dh); [done..| |by right]|].
  - rewrite Ei. eapply target_grows; [exact Hgr2|by eapply target_grows].
  - intros st fs3 Hg3 _ _. by apply lists_ret.
Qed.

(** ** Lookups *)

Lemma LookUpCached_ok fs d name : wf fs -> is_dir fs d -> name <> [] -> safe fs (LookUpCached flags d name).
Proof.
  intros Hw Hd Hne. pose proof (start fs Hw) as Hg. apply (lists_safe fs _ any). unfold LookUpCached. apply lists_dir; [done|]. intros nd di E Ed.
  eapply lists_find; [done..|]. intros [c|] Hf; apply lists_getS, lists_now; intros t; [|by apply lists_ret].
  apply lists_node; [by eapply found_child|]. intros ndc Ec. by apply lists_ret.
Qed.
Lemma check_gap_quiet fs d key t : wf fs -> is_dir fs d -> quiet fs (check_gap d key t).
Proof.
  intros Hw Hd. pose proof Hd as (nd & di & E & Ed & _)%is_dir_node. pose proof (no_gaps _ _ _ _ (wf_nodes _ _ _ Hw d nd E) di Ed) as Hl. unfold check_gap, quiet.
  apply wp_bind. eapply wp_dir_at; [done..|]. destruct (gaps di) as [a l] eqn:Eg. cbn in Hl. subst l. apply wp_bind. eapply wp_liftO; [done|].
  eapply quiet_bind; [done|by eapply quiet_mod_dir|]. intros _ fs1 Hw1 _. by eapply quiet_ret.
Qed.
Lemma key_loaded_quiet fs key t : wf fs -> quiet fs (key_loaded key t).
Proof.
  intros Hw. assert (Hr : is_dir fs root) by apply (wf_root _ _ _ Hw). unfold key_loaded. eapply quiet_bind; [done|by apply check_gap_quiet|]. intros b fs1 Hw1 Hs1.
  destruct b; [|by eapply quiet_ret]. apply check_gap_quiet; [done|by eapply same_is_dir].
Qed.
Lemma LookUp_start_ok fs d name doSlurp : wf fs -> is_dir fs d -> name <> [] -> safe fs (LookUp_start flags tflags d name doSlurp).
Proof.
  intros Hw Hd Hne. pose proof (start fs Hw) as Hg. apply (lists_safe fs _ any). unfold LookUp_start. apply lists_getS, lists_now. intros t. cbv zeta.
  eapply lists_bind; [apply lists_quiet; [done|by apply key_loaded_quiet]|]. intros loaded fs1 Hg1 Hgr1 _. destruct loaded; [|destruct doSlurp; [|by apply lists_ret]].
  - eapply lists_find; [done|eapply extends_is_dir; [apply Hgr1|done]|done|]. intros r _. by apply lists_ret.
  - destruct (listObjectsSlurp_request _ _ _ _ _). by apply lists_ret.
Qed.
Lemma LookUp_slurped_ok fs d name expire prefix startWith skip order resp : wf fs -> is_dir fs d -> name <> [] -> page_fits (limit := limit) (zlen prefix) resp ->
  safe fs (LookUp_slurped flags tflags env q0 d name expire prefix startWith skip order resp).
Proof using Hmo HBL.
  intros Hw Hd Hne Hp. pose proof (start fs Hw) as Hg. apply (lists_safe fs _ any). unfold LookUp_slurped.
  eapply lists_bind; [apply (listObjectsSlurp_done_lists _ _ _ _ everywhere fs (closed fs)); [done|apply alive_target, (wf_root _ _ _ Hw)|done|done]|].
  intros next fs1 Hg1 Hgr1 _. eapply lists_find; [done|eapply extends_is_dir; [apply Hgr1|done]|done|]. intros r _. apply lists_getS.
  eapply lists_bind; [apply lists_quiet; [done|apply key_loaded_quiet, Hg1]|]. intros loaded fs2 Hg2 _ _. by apply lists_ret.
Qed.
(** The object is below the directory. *)
Definition blob_fits fs d (blob : text * BlobItem) : Prop :=
  let n := zlen (slashed (cloud_path tflags fs d)) in
  n <= zlen blob.1 /\ clean (drop (Z.to_nat n) blob.1) /\ 0 <= it_Size blob.2 <= limit.
Lemma LookUp_insert_ok fs d name skip blob : wf fs -> alive fs d -> name <> [] -> blob_fits fs d blob -> safe fs (LookUp_insert flags tflags env q0 d name skip blob).
Proof using Hmo HBL.
  intros Hw Ha Hne (Hn & Hcl & Hs). pose proof (start fs Hw) as Hg. apply (lists_safe fs _ any). unfold LookUp_insert. apply lists_getS. destruct blob as [key item]. cbn in Hn, Hcl, Hs.
  eapply (lists_bind _ _ _ _ _ _ any).
  - destruct (skipped skip key); [by apply lists_ret|]. unfold lists. apply wp_bind. eapply wp_liftO; [apply slice_from_ok; split; [apply zlen_nonneg|done]|].
    eapply lists_bind; [apply (insertSubTree_lists _ _ _ _ everywhere fs (closed fs)); [done|done|by apply alive_target|done|done|by intros e [? ?]]|].
    intros dirs fs1 Hg1 _ _. by apply lists_ret.
  - intros [] fs1 Hg1 Hgr1 _. unfold lists. eapply findChildUnlocked_wp; [apply Hg1|eapply extends_is_dir; [apply Hgr1|apply Ha]|done|]. intros r _. split_and!; [done|apply same_grows, same_refl|done].
Qed.
Lemma removeChild_ok fs d c : wf fs -> is_dir fs d -> safe fs (removeChild flags env d c).
Proof using HBL.
  intros Hw (nd & di & E & Ed & Hk)%is_dir_node. unfold safe, removeChild. apply wp_bind. eapply wp_dir_at; [done..|].
  apply wp_bind, wp_getS. case_bool_decide as Hc; [|by apply wp_ret]. eapply removeChildUnlocked_wp; [exact Hw|exact Hk| |by intros].
  unfold znth in Hc. case_decide; [by eapply list_elem_of_lookup_2|done].
Qed.
Lemma recheck_failed_ok fs d stale : wf fs -> is_dir fs d -> safe fs (recheck_failed flags env d stale).
Proof using HBL. intros Hw Hd. destruct stale as [c|]; [by apply removeChild_ok|by apply wp_ret]. Qed.

(** ** Refreshing *)

Lemma find_weak fs d name (R : option Z -> FS -> Prop) : is_dir fs d ->
  (forall r, (forall c, r = Some c -> exists cs, kids fs d = Some cs /\ c ∈ cs) -> R r fs) -> wp (Tree.findChildUnlocked d name) R fs.
Proof.
  intros (nd & di & E & Ed & Hk)%is_dir_node HR. unfold Tree.findChildUnlocked. apply wp_bind. eapply wp_dir_at; [done..|]. apply wp_bind, wp_getS, wp_ret, HR. intros c Hc.
  exists (Children di). split; [done|]. unfold Children.findChildUnlocked in Hc. destruct (_ =? _); [done|]. destruct (znth _ _) as [x|] eqn:Ex; [|done].
  destruct (bool_decide _); [|done]. injection Hc as ->. unfold znth in Ex. case_decide; [by eapply list_elem_of_lookup_2|done].
Qed.
Lemma resetDirTime_ok fs p : wf fs -> has fs p -> safe fs (resetDirTime flags p).
Proof using HBL.
  intros Hw Hp. apply quiet_safe; [done|]. unfold resetDirTime. eapply (quiet_bind flags none); [done|by apply (SetAttrTime_quiet flags none)|]. intros _ fs1 Hw1 Hs1. pose proof (proj2 (sm_has _ _ Hs1 p) Hp) as [nd E].
  unfold quiet. apply wp_bind. eapply wp_node; [exact E|]. destruct (dir nd) as [di|] eqn:Ed; [|by apply (quiet_ret flags none)].
  eapply (quiet_bind flags none); [done|apply (quiet_mod_dir flags none); [done| |done]|intros _ fs2 Hw2 _; by apply (quiet_ret flags none)]. apply is_dir_node. exists nd, di. split_and!; [done..|]. unfold kids, at_node. by rewrite E, Ed.
Qed.
Lemma refreshCurrentChild_start_ok fs d p name : wf fs -> is_dir fs d -> safe fs (refreshCurrentChild_start d p name).
Proof. intros Hw Hd. apply wp_bind. eapply find_weak; [done|]. intros r _. by apply wp_bind, wp_getS, wp_ret. Qed.
Lemma found_unique fs d name c c' : wf fs -> found fs d name (Some c) -> found fs d name (Some c') -> c = c'.
Proof.
  intros Hw (cs & Hk & Hin & Hn) (cs' & Hk' & Hin' & Hn'). assert (cs' = cs) as -> by congruence. destruct (lk_sorted _ (wf_links _ _ _ Hw) d cs Hk) as [Hs%sorted_NoDup _].
  apply list_elem_of_lookup in Hin as [i Hi], Hin' as [j Hj]. enough (i = j) by congruence. apply (NoDup_lookup _ i j name Hs); rewrite list_lookup_fmap, ?Hi, ?Hj; cbn; congruence.
Qed.
(** The search finds a child by its name. *)
Lemma child_registered fs d nd di p : wf fs -> nodes fs !! d = Some nd -> dir nd = Some di -> p ∈ Children di -> znth (Children di) (Children.search (name_of fs) di (name_of fs p)) = Some p.
Proof.
  intros Hw E Ed Hp. destruct (dir_children _ _ _ _ _ _ Hw E Ed) as [Hk Hok]. assert (Hne : name_of fs p <> []) by (intros E0; apply Hok; unfold names; rewrite <- E0; by apply list_elem_of_fmap_2).
  pose proof (findChildUnlocked_spec (name_of fs) di (name_of fs p) Hok Hne) as Hf. destruct (Children.findChildUnlocked _ _ _) as [c|] eqn:Ef; [|destruct Hf; by apply list_elem_of_fmap_2].
  destruct Hf as [Hc Hn]. assert (c = p) as -> by (apply (found_unique fs d (name_of fs p)); [done|by exists (Children di)..]).
  unfold Children.findChildUnlocked in Ef. destruct (_ =? _); [done|]. destruct (znth _ _); [|done]. by destruct (bool_decide _).
Qed.
Lemma addModifieds_quiet window fs : wf fs -> quiet fs (addModifieds window).
Proof.
  revert fs. induction window as [|[d n] window IH]; intros fs Hw; [by eapply quiet_ret|].
  eapply quiet_bind; [done|by eapply addModified_quiet|]. intros _ fs1 Hw1 _. by apply IH.
Qed.
(** A clean child is removed, a dirty one stays. *)
Lemma removeChildUnlessDirty_wp fs window d p (R : bool -> FS -> Prop) : wf fs -> is_dir fs d ->
  (forall cs, kids fs d = Some cs -> p ∈ cs -> isDirtyLocked fs p = true -> R true fs) ->
  (forall cs l1 l2 fs1 fs', kids fs d = Some cs -> isDirtyLocked fs p = false -> cs = l1 ++ p :: l2 -> same fs fs1 -> wf fs1 -> wf fs' -> relinked d (l1 ++ l2) fs1 fs' -> R false fs') ->
  ((forall cs, kids fs d = Some cs -> p ∉ cs) -> R false fs) -> wp (removeChildUnlessDirty flags env window d p) R fs.
Proof using HBL.
  intros Hw (nd & di & E & Ed & Hk)%is_dir_node Hdirty Hclean Hnot. apply wp_bind. eapply wp_dir_at; [done..|]. apply wp_bind, wp_getS.
  case_bool_decide as Hc; [|apply wp_ret, Hnot; intros cs Hcs Hin; apply Hc; assert (cs = Children di) as -> by congruence; by apply (child_registered fs d nd)].
  assert (Hin : p ∈ Children di) by (unfold znth in Hc; case_decide; [by eapply list_elem_of_lookup_2|done]). destruct (isDirtyLocked fs p) eqn:Edirty; [by eapply wp_ret, Hdirty|].
  eapply wp_quiet; [exact Hw|by apply addModifieds_quiet|]. intros _ fs1 Hw1 Hs1.
  apply wp_bind. eapply removeChildUnlocked_wp; [exact Hw1|by rewrite (sm_kids _ _ Hs1)|done|]. intros l1 l2 fs' Ecs _ Hw' Hr. by eapply wp_ret, Hclean.
Qed.
Lemma refreshCurrentChild_done_ok fs window d p err : wf fs -> is_dir fs d -> safe fs (refreshCurrentChild_done flags env window d p err).
Proof using HBL.
  intros Hw Hd. unfold refreshCurrentChild_done, safe. destruct (is_errno ENOENT (mapAwsError err)); [|by apply wp_ret]. apply wp_bind. by apply removeChildUnlessDirty_wp; intros; apply wp_ret.
Qed.

(** ** Flushing, eviction and goroutines *)

#[local] Instance May_True : May True.
Proof. done. Qed.
Lemma TryFlush_safe fs p prio parent od : wf fs -> has fs p -> safe fs (Tree.TryFlush flags p prio parent od).
Proof using HBL Hmo.
  intros Hw Hp. destruct (wf_node _ _ _ _ Hw Hp) as (nd & E & Hn). unfold Tree.TryFlush, safe. apply wp_bind. eapply wp_node; [done|]. apply wp_bind, wp_getS, wp_bind, wp_gets. cbv zeta.
  assert (Hflush : forall fs1 (m : St I unit), wf fs1 -> same fs fs1 -> keeps (fun _ => False) m ->
    (forall nd1, nodes fs1 !! p = Some nd1 -> wp m (fun _ i => FileInv.ok (limit := limit) (base := fun _ => None) (lost := fun _ => True) (resets := True) flags [] i) (load_world (world fs1) (inode nd1))) ->
    safe fs1 (on_inode p m ;;; ret true)).
  { intros fs1 m Hw1 Hs1 Hk Hm. destruct (wf_node _ _ _ p Hw1 (same_has _ _ _ Hs1 Hp)) as (nd1 & E1 & _). apply quiet_safe; [done|].
    eapply quiet_bind; [done|eapply on_inode_quiet; [apply Hw1|exact E1|done|by apply Hm]|]. intros _ fs2 Hw2 _. by eapply quiet_ret. }
  destruct (dir nd) as [di|] eqn:Ed.
  - destruct (negb _); [by apply wp_ret|]. destruct (_ && _).
    { apply quiet_safe; [done|]. eapply quiet_bind; [done|eapply quiet_idle; [done..|keeps|idle]|]. intros _ fs1 Hw1 _. by eapply quiet_ret. }
    assert (Hmk : IsFlushing (inode nd) = 0 -> safe fs (mod_dir p (set_ImplicitDir false) ;;; on_inode p (SendMkDir flags) ;;; ret true)).
    { intros E0. apply wp_bind. eapply wp_mod_dir; [done..|]. set (fs1 := put _ _ _). assert (Hs1 : same fs fs1) by (apply (same_put fs p nd); [done..|]; cbn [dir with_dir]; by rewrite Ed).
      assert (Hw1 : wf fs1).
      { eapply same_wf; [exact Hs1| |exact Hw]. apply (heap_put _ fs p nd); [apply Hw|done| |by eauto|done]. pose proof Hn as []. split; cbn; try done. intros di' [= <-]. cbn. by eapply no_gaps0. }
      apply Hflush; [done..|keeps|]. intros nd1 E1. unfold fs1, put in E1. cbn in E1. rewrite lookup_insert_eq in E1. injection E1 as <-. apply SendMkDir_ok; [apply mo_mount|apply ok_load, Hn|done]. }
    destruct (CacheState (inode nd)); try (by apply wp_ret); destruct (Z.eqb_spec (IsFlushing (inode nd)) 0) as [E0|]; cbn [andb]; try (by apply wp_ret).
    all: try (destruct (negb od); [by apply Hmk|by apply wp_ret]).
    destruct (_ =? 0); [|by apply wp_ret]. apply Hflush; [done|apply same_refl|keeps|]. intros nd1 E1. assert (nd1 = nd) as -> by congruence. apply SendDelete_ok; [apply ok_load, Hn|done].
  - apply quiet_safe; [done|]. eapply on_inode_quiet; [apply Hw|exact E|apply TryFlush_keeps|]. apply TryFlush_ok; [apply mo_mount|]. apply ok_load, Hn.
Qed.
(** Whatever the name, what is found is a child. *)
Lemma EvictEntry_ok fs id busy : wf fs -> safe fs (EvictEntry flags env id busy).
Proof using HBL.
  intros Hw. unfold EvictEntry, safe. apply wp_bind, wp_getS. destruct (inodes fs !! id) as [c|] eqn:Ec; [|by apply wp_ret].
  pose proof (hp_numbers _ _ (wf_heap _ _ _ Hw) id c Ec) as Hc. destruct (wf_node _ _ _ _ Hw Hc) as (nd & E & Hn). apply wp_bind. eapply wp_node; [done|]. apply wp_bind, wp_gets.
  destruct (_ || _) eqn:Eg; [by apply wp_ret|]. rewrite !orb_false_iff in Eg. destruct Eg as (((((Hid & _) & _) & _) & _) & _). apply Z.eqb_neq in Hid.
  assert (Hp0 : parent_of fs c <> 0).
  { intros E0. apply Hid, (no_root _ _ _ _ Hn). unfold parent_of, at_node in E0. by rewrite E in E0. }
  assert (Hq : is_dir fs (parent_of fs c)) by (by destruct (lk_parent _ (wf_links _ _ _ Hw) c Hc)). destruct (wf_node _ _ _ _ Hw (is_dir_has _ _ Hq)) as (qd & Eq & _).
  cbv zeta. apply wp_bind. eapply wp_node; [done|]. destruct (0 <? _); [by apply wp_ret|].
  apply wp_bind. eapply find_weak; [done|]. intros r Hf.
  assert (Hend : forall fs1, wf fs1 -> has fs1 c -> safe fs1 (reset flags env c ;;; set_state c ST_DEAD ;;; forget c ;;; ret true)).
  { intros fs1 Hw1 Hc1. apply quiet_safe; [done|]. eapply quiet_bind; [done|by eapply reset_quiet|]. intros _ fs2 Hw2 Hs2. assert (has fs2 c) by eauto with tree.
    eapply quiet_bind; [done|by eapply set_state_quiet|]. intros _ fs3 Hw3 Hs3. assert (has fs3 c) by eauto with tree. eapply quiet_bind; [done|by eapply forget_quiet|]. intros _ fs4 Hw4 _. by eapply quiet_ret. }
  apply wp_bind. case_bool_decide as Er; [|by apply wp_ret, Hend]. subst r. destruct (Hf c eq_refl) as (cs & Hk & Hin).
  apply wp_bind. eapply removeChildUnlocked_wp; [exact Hw|exact Hk|done|]. intros l1 l2 fs1 _ _ Hw1 Hr. assert (Hq1 : is_dir fs1 (parent_of fs c)) by (rewrite (relinked_dir _ _ _ _ _ Hr); done).
  eapply wp_mono; [apply (quiet_wf flags none); [exact Hw1|eapply quiet_mod_dir; [exact Hw1|done|by intros]]|]. intros [] fs2 [Hw2 Hs2]. apply Hend; [done|]. apply Hs2. by apply Hr.
Qed.
(** An action on the data of a file that does not move it. *)
Lemma run_action_wp T fs p nd a : wf fs -> nodes fs !! p = Some nd -> MachineSpec.action_ok (limit := limit) (inode nd) a ->
  (forall u i', run_action flags env a (load_world (world fs) (inode nd)) = Ok (u, i') -> stays T (load_world (world fs) (inode nd)) i') ->
  (forall q, T q -> has fs q /\ kids fs q = None) ->
  wp (on_inode p (run_action flags env a)) (fun _ fs' => wf fs' /\ (forall q, has fs q -> has fs' q) /\ forall d, is_dir fs d -> is_dir fs' d) fs.
Proof using HBL Hmo.
  intros Hw E Ha Hst HT. pose proof (wf_nodes _ _ _ Hw p nd E) as Hn. eapply wp_mono; [apply (on_inode_at flags p _ T fs nd); [apply Hw|done|exact Hst|]|].
  - apply (MachineSpec.run_action_ok flags env mo_mount (resets := True)); [apply ok_load, Hn|by destruct a|done|done].
  - intros [] fs' [Hh (fs1 & w & Hs & Ed & -> & Hd)]. split_and!; [|intros q Hq; by apply Hs|intros d; unfold is_dir; by rewrite <- (sm_kids _ _ Hs)]. eapply (laid_wf _ none none (fun _ q => T q)); [exact Hw| |done|done|].
    + split; try apply Hs. cbn. intros l q Hq. apply (Hd l q Hq).
    + intros l q Hq. destruct (HT q Hq) as [Hhas Hk]. split_and!; [done| |intros cs; by rewrite Hk]. intros ->. destruct (wf_root _ _ _ Hw) as [[[? ?] _] _]. congruence.
Qed.
Lemma file_action_ok fs p nd a : wf fs -> nodes fs !! p = Some nd -> stays_put a -> MachineSpec.action_ok (limit := limit) (inode nd) a -> safe fs (on_inode p (run_action flags env a)).
Proof using HBL Hmo.
  intros Hw E Hp Ha. eapply wp_mono; [apply (run_action_wp none fs p nd a); [done..| |done]|by intros u fs' [? _]]. intros u i'. by apply run_action_keeps.
Qed.
(** A turn of a goroutine whose request did not leave a tombstone behind. *)
Lemma turn_wp T fs p nd n r : wf fs -> nodes fs !! p = Some nd -> MachineSpec.action_ok (limit := limit) (inode nd) (ATask n r) ->
  (forall t, tasks (inode nd) !! n = Some t -> answer_keeps T t r) -> (forall q, T q -> has fs q /\ kids fs q = None) ->
  wp (on_inode p (run_action flags env (ATask n r))) (fun _ fs' => wf fs' /\ (forall q, has fs q -> has fs' q) /\ forall d, is_dir fs d -> is_dir fs' d) fs.
Proof using HBL Hmo.
  intros Hw E Ha Hk HT. apply (run_action_wp T fs p nd); [done..| |done]. intros u i'. by apply task_stays.
Qed.
(** A deleted file in the place of an object that could not be removed. *)
Lemma tombstone_wp {A} fs l e (k : Z -> St FS A) (R : A -> FS -> Prop) : wf fs -> is_dir fs l.1 ->
  (forall tomb fs', wf fs' -> extends fs fs' -> has fs' tomb -> kids fs' tomb = None -> wp (k tomb) R fs') ->
  wp (let! tomb := NewInode flags q0 l.1 l.2 in
      let! id := allocateInodeId in
      mod_node tomb (with_Id id) ;;;
      number tomb id ;;;
      set_userMetadata tomb ∅ 0 ;;;
      on_inode tomb (modS (fun i => set_queued true (set_CacheState ST_DELETED i)) ;;; recordFlushError (Some e)) ;;;
      k tomb) R fs.
Proof using HBL Hmo.
  intros Hw Hd Hk. apply wp_bind. eapply NewInode_wp; [exact Hmo|exact Hw|exact Hd|]. intros tomb fs1 Hw1 Hb _. assert (Ht1 : has fs1 tomb) by eauto with tree.
  quietly allocateInodeId_quiet as fs2 Hw2 Hs2.
  eapply wp_quiet; [exact Hw2|eapply quiet_mod_node; [exact Hw2|eauto with tree|intros nd; split_and!; [done..|right]]|].
  { rewrite (sm_parent _ _ Hs2), (bn_parent _ _ _ _ _ _ Hb), decide_True by done. exact (dir_nonzero _ _ _ _ Hw Hd). }
  intros _ fs3 Hw3 Hs3. quietly number_quiet as fs4 Hw4 Hs4. quietly set_userMetadata_quiet as fs5 Hw5 Hs5. pose proof (same_trans _ _ _ Hs2 Hs3) as T3. pose proof (same_trans _ _ _ Hs4 Hs5) as T5.
  eapply wp_quiet; [exact Hw5|eapply quiet_idle; [exact Hw5|eauto with tree|keeps|idle]|]. intros _ fs6 Hw6 Hs6.
  pose proof (same_trans _ _ _ T3 (same_trans _ _ _ T5 Hs6)) as Hs. apply Hk; [done| |by apply Hs|].
  - eapply extends_trans; [by eapply born_extends|by apply same_extends].
  - by rewrite (sm_kids _ _ Hs), (bn_kids _ _ _ _ _ _ Hb), decide_True.
Qed.
Lemma task_turn_ok fs p nd n r : wf fs -> nodes fs !! p = Some nd -> MachineSpec.action_ok (limit := limit) (inode nd) (ATask n r) -> safe fs (task_turn flags env q0 p n r).
Proof using HBL Hmo.
  intros Hw E Ha. unfold task_turn, safe. apply wp_bind. eapply wp_node; [done|]. cbv zeta.
  assert (Hplain : forall r', MachineSpec.action_ok (limit := limit) (inode nd) (ATask n r') ->
    (forall del e tomb, tasks (inode nd) !! n = Some (TRenameDelete del) -> r' <> DeleteAnswer (Some e) tomb) ->
    wp (on_inode p (run_action flags env (ATask n r'))) (fun _ fs' => wf fs' /\ (forall q, has fs q -> has fs' q) /\ forall d, is_dir fs d -> is_dir fs' d) fs).
  { intros r' Ha' Hno. apply (turn_wp none fs p nd); [done..| |done]. intros t Ht. destruct t; try done. destruct r' as [| | | | | | |[e|] tomb| | |]; try done. by destruct (Hno del e tomb). }
  assert (Hturn : (forall del e tomb, tasks (inode nd) !! n = Some (TRenameDelete del) -> r <> DeleteAnswer (Some e) tomb) ->
    wp (on_inode p (run_action flags env (ATask n r))) (fun _ fs' => wf fs') fs) by (intros Hno; eapply wp_mono; [by apply Hplain|]; by intros u fs' [? _]).
  destruct (tasks (inode nd) !! n) as [t|] eqn:Et; [|by apply Hturn].
  pose proof (Forall_lookup_1 _ _ _ _ (proj2 (hp_places _ _ (wf_heap _ _ _ Hw) p nd E)) Et) as Hd. destruct t; try (by apply Hturn; intros ? ? ? [=]).
  - destruct r; try (by apply Hturn; intros ? ? ? [=]). apply wp_bind. eapply wp_mono; [apply Hplain; [done|by intros ? ? ? [=]]|].
    intros u fs1 (Hw1 & _ & Hdir). apply removeChild_ok; [done|]. by apply Hdir.
  - destruct r as [| | | | | | |[e|] tomb0| | |]; try (by apply Hturn). clear Hplain Hturn. apply (tombstone_wp fs del e); [done..|]. intros tomb fs1 Hw1 He Ht Hk.
    destruct (wf_node _ _ _ p Hw1 (extends_has _ _ _ He ltac:(by exists nd))) as (nd1 & E1 & _).
    eapply wp_mono; [apply (turn_wp (fun q => q = tomb) fs1 p nd1); [done..| | |by intros q ->]|by intros u fs' [? _]].
    + intros t _. destruct t as [? ? ? []| | | | | | | | | | | | | | | | | | | | | | | | | | |]; done.
    + intros t _. by destruct t.
  - destruct r; [by apply Hturn; intros ? ? ? [=]..|]. eapply wp_mono; [apply Hplain; [|by intros ? ? ? [=]]|by intros u fs' [? _]].
    intros t Ht. assert (t = TDelete old) as -> by congruence. done.
  - destruct r; try (by apply Hturn; intros ? ? ? [=]). apply wp_bind. eapply wp_mono; [apply Hplain; [done|by intros ? ? ? [=]]|]. intros u fs1 (Hw1 & Hhas & _).
    apply quiet_safe; [done|]. eapply quiet_bind; [done|eapply DeRef_quiet; [done|apply Hhas; by exists nd]|]. intros b fs2 Hw2 _. by eapply WakeupFlusher_quiet.
Qed.

(** ** Numbers *)

Lemma LookUpInode_found_ok fs p : wf fs -> has fs p -> safe fs (LookUpInode_found flags p).
Proof using HBL.
  intros Hw Hp. apply quiet_safe; [done|]. unfold LookUpInode_found. eapply quiet_bind; [done|by eapply Ref_quiet|]. intros _ fs1 Hw1 Hs1. assert (has fs1 p) by eauto with tree.
  eapply quiet_bind; [done|by eapply quiet_node|]. intros nd fs2 Hw2 Hs2. assert (has fs2 p) by eauto with tree. eapply quiet_bind; [done|by eapply now_quiet|]. intros t fs3 Hw3 Hs3.
  eapply quiet_bind; [done|eapply modS_quiet; [done|by eapply same_has|]|intros _ fs4 Hw4 _; by eapply quiet_ret]. intros i. by destruct (_ <? _).
Qed.
Lemma ForgetInode_ok fs id n : wf fs -> safe fs (ForgetInode flags env id n).
Proof using HBL.
  intros Hw. unfold ForgetInode, safe. apply wp_bind, wp_getS. destruct (inodes fs !! id) as [p|] eqn:E; [|by apply wp_ret]. apply quiet_safe; [done|].
  eapply quiet_bind; [done|eapply DeRef_quiet; [done|by eapply (hp_numbers _ _ (wf_heap _ _ _ Hw))]|]. intros b fs1 Hw1 _. by eapply quiet_ret.
Qed.
End calls.
End TreeCalls.
