(* ===== verification/TreeRename.v ===== *)
(** * Renaming

    A file moves with its inode.  A directory is moved by making a new one and
    moving everything below the old one into it, directory by directory, each of
    which is unlinked before its children have left it.  [moving] says what such
    a step may change: within the part of the tree that moves, children only
    leave; outside of it, only the directory it moves to gets something new. *)

From stdpp Require Import strings.
From S2P Require Import Prelude BTree Parts BufferList BufferListInv BufferListView BufferListSpec.
From S2P Require Import Locks Errors ReadAhead Attrs Names Listing Children Inode FileIO Upload Machine Tree Frame.
From S2P Require Import FileSpec FileInv FileSteps RequestSteps MachineSpec TreeInv TreeSteps TreeListing TreeCalls.

Module TreeRename.
Import Errors Names Listing Children BufferList BufferListInv Inode FileIO Upload Machine Frame FileInv FileSteps RequestSteps Tree TreeInv TreeSteps TreeListing TreeCalls.

Section rename.
Context {M : Type -> Type} `{HBT : BTreeMap M} `{HBL : !BTreeMapLaws M} {Q : Type} `{HQ : BufferListHelpers Q}.
Context {limit : Z} `{HLaws : !BufferListHelpersLaws Q limit}.
Context (flags : Flags) (tflags : TreeFlags) (env : Env) (q0 : Q) `{Hmo : !Mounted limit flags q0}.
Abbreviation I := (Inode M Q).
Abbreviation FS := (FS M Q).
Abbreviation wf := (wf (limit := limit) flags).
Abbreviation quiet := (quiet (limit := limit) flags).
Implicit Types (p d c h t : Z) (fs : FS) (name : text) (cs : list Z) (X : Z -> Prop).

(** ** Files *)

(** The inode [p] is somewhere else. *)
Record relocated p (l : location) fs fs' : Prop := {
  lo_has : forall q, has fs' q <-> has fs q;
  lo_name : forall q, name_of fs' q = if decide (q = p) then l.2 else name_of fs q;
  lo_parent : forall q, parent_of fs' q = if decide (q = p) then l.1 else parent_of fs q;
  lo_kids : forall q, kids fs' q = kids fs q;
  lo_dels : forall l q, dels fs' !! l = Some q -> dels fs !! l = Some q \/ q = p;
  lo_next : nextPtr fs' = nextPtr fs;
  lo_handles : dirHandles fs' = dirHandles fs;
}.
Lemma relocated_wf X p l fs fs' : wf X fs -> heap_ok (limit := limit) flags fs' -> relocated p l fs fs' -> has fs p -> kids fs p = None ->
  (forall d cs, kids fs d = Some cs -> p ∉ cs) -> is_dir fs l.1 -> wf X fs'.
Proof.
  intros [_ [Hp Ho Hs Hc Hz] Ht Hh [[Hr1 Hr2] Hr]] Hheap [Eh En Epar Ek Ed _ El] Hhas Hfile Hout Hd.
  assert (Hdir : forall e, is_dir fs' e <-> is_dir fs e) by (intros; unfold is_dir; by rewrite Ek).
  assert (Hnp : forall e, is_dir fs e -> e <> p) by (intros e [? ?] ->; congruence).
  assert (Hnames : forall e cs, kids fs e = Some cs -> name_of fs' <$> cs = name_of fs <$> cs).
  { intros e cs Hcs. apply Forall_fmap_ext_1, Forall_forall. intros c Hin. rewrite En, decide_False; [done|]. intros ->. by eapply Hout. }
  split; [done|split| | |].
  - intros q. rewrite Eh, Epar, !Hdir. intros Hq. case_decide; [by right|by apply Hp].
  - intros e. rewrite Hdir, Epar. intros He. rewrite decide_False by auto. by apply Ho.
  - intros e cs. rewrite Ek. intros Hcs. rewrite (Hnames e) by done. by eapply Hs.
  - intros e cs c. rewrite Ek, Eh, Epar. intros Hcs Hin. rewrite decide_False; [by eapply Hc|]. intros ->. by eapply Hout.
  - intros q. rewrite Eh, Epar. intros Hq. case_decide; [|by apply Hz]. intros E0. apply Ho in Hd. lia.
  - intros e n q Hl. rewrite Eh, !Ek. destruct (Ed _ _ Hl) as [Hl'| ->]; [|split; [done|]; intros cs; by rewrite Hfile].
    destruct (Ht e n q Hl') as [Hq Hq']. split; [done|]. intros cs Hcs. rewrite En, Epar, !decide_False by (apply Hnp; by exists cs). by apply Hq'.
  - intros h dh. rewrite El, Hdir. apply Hh.
  - assert (root <> p) by auto. rewrite Epar, decide_False by done. split; [|done]. split; [by rewrite Hdir|]. intros l' Hl. destruct (Ed l' root Hl) as [?|?]; [by apply (Hr2 l')|done].
Qed.
Lemma put_relocated fs p nd i : nodes fs !! p = Some nd -> (forall l q, DeletedChildren i !! l = Some q -> dels fs !! l = Some q \/ q = p) ->
  relocated p (loc i) fs (set_world (save_world i) (put p (with_inode i nd) fs)).
Proof.
  intros E Hd. split; try done; intros q.
  - unfold has, put. cbn. destruct (decide (q = p)) as [-> |]; [rewrite lookup_insert_eq; split; eauto|by rewrite lookup_insert_ne].
  - apply (put_at fs p (with_inode i nd) q).
  - apply (put_at fs p (with_inode i nd) q).
  - etrans; [apply (put_at fs p (with_inode i nd) q)|]. case_decide; [subst|done]. unfold kids, at_node. by rewrite E.
Qed.
Lemma rename_inode_wp X p to renamed fs (R : unit -> FS -> Prop) :
  wf X fs -> has fs p -> kids fs p = None -> parent_of fs p <> 0 -> (forall d cs, kids fs d = Some cs -> p ∉ cs) -> is_dir fs to.1 ->
  (forall fs', wf X fs' -> relocated p to fs fs' -> R tt fs') -> wp (on_inode p (Upload.renameInCache to renamed)) R fs.
Proof using HBL.
  intros Hw Hp Hfile Hp0 Hout Hd HR. destruct (wf_node _ _ _ _ Hw Hp) as (nd & E & Hn). unfold on_inode. apply wp_bind. eapply wp_node; [done|]. apply wp_bind, wp_gets.
  assert (Hok : wp (Upload.renameInCache to renamed) (fun _ i' => FileInv.ok (limit := limit) (base := fun _ => None) (lost := fun _ => True) (resets := True) flags [] i') (load_world (world fs) (inode nd))).
  { wp_use (idle_ok flags []); [apply renameInCache_idle|apply ok_load, Hn|]. by intros r i' [? _]. }
  apply wp_run in Hok as ([] & i & Em & Hok). rewrite Em. destruct (renameInCache_moves _ to renamed _ _ _ (moved_refl _) Em) as (Es & <- & Ed & Hpl).
  apply wp_bind. eapply wp_mod_node; [done|]. apply wp_bind, wp_modS, wp_ret.
  assert (Hr : relocated p (loc i) fs (set_world (save_world i) (put p (with_inode i nd) fs))).
  { apply put_relocated; [done|]. intros l q Hq. destruct (Ed l q Hq) as [?|[_ ->]]; [by left|right]. apply Hn. }
  apply HR; [|done]. eapply relocated_wf; [exact Hw| |exact Hr|done..]. apply heap_world. apply (heap_put _ fs p nd); [apply Hw|done| |done|].
  - destruct Hn. split; cbn; try done; [by rewrite Es|]. intros E0. exfalso. apply (lk_order _ (wf_links _ _ _ Hw)) in Hd. lia.
  - intros Hpl0. apply Hpl; [done| |done]. destruct (lk_parent _ (wf_links _ _ _ Hw) p Hp) as [?|Hd']; [done|]. unfold parent_of, at_node in Hd'. by rewrite E in Hd'.
Qed.
(** A file leaves its directory and enters [d]. *)
Definition shifted p s d name fs fs' : Prop :=
  exists l1 l2 m1 m2 fs1 fs2, kids fs s = Some (l1 ++ p :: l2) /\ relinked s (l1 ++ l2) fs fs1 /\ relocated p (d, name) fs1 fs2 /\
    kids fs2 d = Some (m1 ++ m2) /\ relinked d (m1 ++ p :: m2) fs2 fs'.
Lemma child_once X fs s cs p l1 l2 : wf X fs -> kids fs s = Some cs -> cs = l1 ++ p :: l2 -> p ∉ l1 ++ l2.
Proof.
  intros Hw Hk -> Hin. destruct (lk_sorted _ (wf_links _ _ _ Hw) s _ Hk) as [Hs _]. apply sorted_NoDup in Hs. rewrite fmap_app, fmap_cons in Hs.
  apply NoDup_app in Hs as (_ & Hno & [Hno2 _]%NoDup_cons). apply elem_of_app in Hin as [Hin|Hin].
  - apply (Hno (name_of fs p)); [by apply list_elem_of_fmap_2|by left].
  - apply Hno2. by apply list_elem_of_fmap_2.
Qed.
Lemma renameInCache_wp X s p cs d name renamed fs (R : unit -> FS -> Prop) :
  wf X fs -> kids fs s = Some cs -> p ∈ cs -> kids fs p = None -> open_dir X fs d -> name <> [] -> found fs d name None ->
  (forall fs', wf X fs' -> shifted p s d name fs fs' -> R tt fs') -> wp (Tree.renameInCache flags env p d name renamed) R fs.
Proof using HBL.
  intros Hw Hk Hin Hfile Hod Hne Hf HR. pose proof Hod as [Hd Hx]. destruct (lk_child _ (wf_links _ _ _ Hw) s cs p Hk Hin) as [Hp Hs]. assert (Hsd : is_dir fs s) by (by exists cs).
  pose proof (dir_nonzero _ _ _ _ Hw Hsd) as Hs0.
  unfold Tree.renameInCache. apply wp_bind, wp_getS. rewrite Hs. quietly Ref_quiet as fs1 Hw1 Hs1. apply wp_bind.
  eapply removeChildUnlocked_wp; [exact Hw1|by rewrite (sm_kids _ _ Hs1)|done|]. intros l1 l2 fs2 Ecs _ Hw2 Hr2. pose proof (same_relinked _ _ _ _ _ Hs1 Hr2) as Hr. pose proof Hr as [Rh Rn Rp Rk Rd _ _].
  assert (Hpd : p <> s) by (intros ->; congruence).
  assert (Hfile2 : kids fs2 p = None) by (by rewrite Rk, decide_False). assert (Hd2 : is_dir fs2 d) by (by apply (relinked_dir s (l1 ++ l2) fs)).
  apply wp_bind. eapply (rename_inode_wp X p (d, name)); [exact Hw2|by apply Rh|done|by rewrite Rp, Hs| |done|].
  { intros e es. rewrite Rk. case_decide as Ee; [intros [= <-]; exact (child_once X fs s cs p l1 l2 Hw Hk Ecs)|]. intros He Hin'. destruct (lk_child _ (wf_links _ _ _ Hw) e es p He Hin'). congruence. }
  intros fs3 Hw3 Hl. pose proof Hl as [Lh Ln Lp Lk Ld _ _].
  assert (Hdp : d <> p) by (intros ->; destruct Hd; congruence).
  assert (Hname3 : name_of fs3 p = name) by (by rewrite Ln, decide_True).
  assert (Hf3 : found fs3 d name None).
  { destruct Hf as (ds & Hds & Hnot). exists (if decide (d = s) then l1 ++ l2 else ds). rewrite Lk, Rk. case_decide as Eds; (split; [done|]).
    - subst s. assert (ds = cs) as -> by congruence. rewrite Ecs in Hnot. intros (q & Eq & Hq)%list_elem_of_fmap. apply Hnot. apply list_elem_of_fmap. exists q.
      rewrite Ln, decide_False, Rn in Eq by (intros ->; by apply (child_once X fs d cs p l1 l2 Hw Hds Ecs)). split; [done|]. rewrite elem_of_app, elem_of_cons. apply elem_of_app in Hq. tauto.
    - intros (q & Eq & Hq)%list_elem_of_fmap. apply Hnot. apply list_elem_of_fmap. exists q. destruct (lk_child _ (wf_links _ _ _ Hw) d ds q Hds Hq) as [_ Hqd].
      rewrite Ln, decide_False, Rn in Eq by (intros ->; congruence). done. }
  apply wp_bind. eapply insertChildUnlocked_wp; [exact Hw3|by apply Lh, Rh|by rewrite Lp, decide_True|by rewrite Hname3|by rewrite Hname3| |left; by rewrite Lk|].
  { intros l Hl'. destruct (Ld l d Hl') as [?|?]; [|done]. apply (Hx l). by apply Rd. }
  intros m1 m2 fs4 Hm Hw4 Hr4. eapply wp_quiet; [exact Hw4|eapply DeRef_quiet; [exact Hw4|by apply (rl_has _ _ _ _ Hr4), Lh, Rh]|]. intros _ fs5 Hw5 Hs5.
  apply wp_ret, HR; [done|]. exists l1, l2, m1, m2, fs2, fs3. split_and!; [congruence|done..|by eapply relinked_same].
Qed.
(** ** What a move changes *)

Section moving.
(** The directories that move. *)
Context (Y : Z -> Prop).
(** From [s] to [d]; of the directories that move, those before [b] keep their children. *)
Record moving (b d s : Z) fs fs' : Prop := {
  mv_has : forall q, has fs q -> has fs' q;
  mv_dir : forall e, is_dir fs e -> is_dir fs' e /\ parent_of fs' e = parent_of fs e /\ name_of fs' e = name_of fs e;
  mv_file : forall q, has fs q -> is_dir fs' q -> is_dir fs q;
  mv_place : forall q, has fs q -> ~ Y (parent_of fs q) \/ parent_of fs q < b -> name_of fs' q = name_of fs q /\ parent_of fs' q = parent_of fs q;
  mv_kids : forall e, is_dir fs e -> e <> d -> e <> s -> Y e /\ e < b \/ ~ Y e /\ (forall l, dels fs !! l <> Some e) -> kids fs' e = kids fs e;
  mv_sub : forall e ks ks', Y e -> kids fs e = Some ks -> kids fs' e = Some ks' -> forall c, c ∈ ks' -> c ∈ ks;
  mv_dels : forall l e, dels fs' !! l = Some e -> is_dir fs e -> dels fs !! l = Some e \/ Y e;
  mv_next : nextPtr fs <= nextPtr fs';
  mv_handles : forall h dh, dirHandles fs !! h = Some dh -> exists dh', dirHandles fs' !! h = Some dh' /\ follows dh dh';
}.
Lemma same_moving b d s fs fs' : same fs fs' -> moving b d s fs fs'.
Proof.
  intros [Sh Sn Sp Sk Sd Sx Sl]. split; unfold is_dir; try lia.
  - intros q. by rewrite Sh.
  - intros e. by rewrite Sk, Sn, Sp.
  - intros q _. by rewrite Sk.
  - intros q _ _. by rewrite Sn, Sp.
  - intros e _ _ _ _. by rewrite Sk.
  - intros e ks ks' _ E. rewrite Sk, E. by intros [= <-].
  - auto.
  - rewrite Sl. intros h dh Hh. by exists dh.
Qed.
Lemma moving_weaken b b' d s fs fs' : b <= b' -> moving b' d s fs fs' -> moving b d s fs fs'.
Proof.
  intros Hb [H1 H2 H3 H4 H5 H6 H7 H8 H9]. split; try done.
  - intros q Hq [?|?]; apply H4; auto with lia.
  - intros e He ? ? [[? ?]|[? ?]]; apply H5; auto with lia.
Qed.
(** The directories a move from [s] to [d] leaves alone. *)
Definition aside (b d s : Z) fs e : Prop := is_dir fs e /\ e <> d /\ e <> s /\ (Y e /\ e < b \/ ~ Y e /\ forall l, dels fs !! l <> Some e).
(** The next step, from [s'] to [d'], is within what moves. *)
Lemma moving_step b d s b' d' s' fs fs' fs'' :
  moving b d s fs fs' -> moving b' d' s' fs' fs'' -> b <= b' -> (forall e, aside b d s fs e -> e <> d' /\ e <> s') -> moving b d s fs fs''.
Proof.
  intros [H1 H2 H3 H4 H5 H6 H7 H8 H9] [G1 G2 G3 G4 G5 G6 G7 G8 G9] Hb Hside. split; try lia; auto.
  - intros e He. destruct (H2 e He) as (He' & <- & <-). by apply G2.
  - intros q Hq Hc. destruct (H4 q Hq Hc) as [<- Ep]. rewrite <- Ep. apply G4; [auto|]. rewrite Ep. destruct Hc; [by left|right; lia].
  - intros e He Hed Hes Hc. rewrite <- (H5 e He Hed Hes Hc). destruct (Hside e) as [? ?]; [by split_and!|]. apply G5; [by apply H2|done|done|].
    destruct Hc as [[HY Hlt]|[HY Ht]]; [left; split; [done|lia]|right; split; [done|]]. intros l Hl. destruct (H7 l e Hl He) as [?|?]; [by apply (Ht l)|done].
  - intros e ks ks'' HY E E'' c Hc. assert (is_dir fs e) as He by (by exists ks). destruct (H2 e He) as ([ks' E'] & _). eapply H6; [done..|]. by eapply G6.
  - intros l e Hl He. destruct (G7 l e Hl ltac:(by apply H2)) as [Hl'|?]; auto.
  - intros h dh Hh. destruct (H9 h dh Hh) as (dh' & Hh' & F). destruct (G9 h dh' Hh') as (dh'' & ? & F'). exists dh''. split; [done|by eapply follows_trans].
Qed.
Lemma moving_trans b d s fs fs' fs'' : moving b d s fs fs' -> moving b d s fs' fs'' -> moving b d s fs fs''.
Proof. intros H1 H2. eapply moving_step; [exact H1|exact H2|lia|]. by intros e (_ & ? & ? & _). Qed.
Lemma moving_same b d s fs fs' fs'' : moving b d s fs fs' -> same fs' fs'' -> moving b d s fs fs''.
Proof.
  intros [H1 H2 H3 H4 H5 H6 H7 H8 H9] [Sh Sn Sp Sk Sd Sx Sl]. split; unfold is_dir in *; try (setoid_rewrite Sh); try (setoid_rewrite Sk); try (setoid_rewrite Sn); try (setoid_rewrite Sp); try rewrite Sx; try rewrite Sl; eauto.
Qed.
(** A file moves. *)
Lemma shifted_moving X p s d name fs fs' : wf X fs -> kids fs p = None -> Y s -> ~ Y d -> is_dir fs d -> shifted p s d name fs fs' ->
  moving s d s fs fs' /\ (exists l1 l2, kids fs s = Some (l1 ++ p :: l2) /\ kids fs' s = Some (l1 ++ l2)) /\
  (forall n, n <> name -> found fs d n None -> found fs' d n None) /\ (forall q, q <> p -> name_of fs' q = name_of fs q).
Proof.
  intros Hw Hfile HYs HYd Hd (l1 & l2 & m1 & m2 & fs1 & fs2 & Hk & [Rh Rn Rp Rk Rd Rx Rl] & [Lh Ln Lp Lk Ld Lx Ll] & Hm & [Th Tn Tp Tk Td Tx Tl]).
  assert (Hsd : s <> d) by (intros ->; done). destruct (lk_child _ (wf_links _ _ _ Hw) s _ p Hk) as [Hp Hps]; [apply elem_of_app; right; by left|].
  assert (Hkids : forall e, e <> s -> e <> d -> kids fs' e = kids fs e) by (intros e ? ?; by rewrite Tk, decide_False, Lk, Rk, decide_False).
  assert (Hks : kids fs' s = Some (l1 ++ l2)) by (by rewrite Tk, decide_False, Lk, Rk, decide_True).
  assert (Hkd : kids fs' d = Some (m1 ++ p :: m2)) by (by rewrite Tk, decide_True).
  assert (Hmd : kids fs d = Some (m1 ++ m2)) by (by rewrite Lk, Rk, decide_False in Hm).
  assert (Hplace : forall q, q <> p -> name_of fs' q = name_of fs q /\ parent_of fs' q = parent_of fs q) by (intros q ?; by rewrite Tn, Tp, Ln, Lp, Rn, Rp, !decide_False).
  assert (Hdir : forall e, is_dir fs' e <-> is_dir fs e).
  { intros e. destruct (decide (e = s)) as [-> |]; [rewrite Hks, Hk || unfold is_dir; rewrite Hks, Hk; split; eauto|].
    destruct (decide (e = d)) as [-> |]; [unfold is_dir; rewrite Hkd, Hmd; split; eauto|]. unfold is_dir. by rewrite Hkids. }
  split_and!; [split| | |intros q Hq; by apply Hplace].
  - intros q Hq. by apply Th, Lh, Rh.
  - intros e He. assert (e <> p) by (intros ->; destruct He; congruence). rewrite Hdir. destruct (Hplace e ltac:(done)) as [-> ->]. done.
  - intros q _. by rewrite Hdir.
  - intros q Hq Hc. apply Hplace. intros ->. rewrite Hps in Hc. destruct Hc; [done|lia].
  - intros e _ ? ? _. by apply Hkids.
  - intros e ks ks' HY E E' c Hc. destruct (decide (e = s)) as [-> |].
    + rewrite Hk in E. injection E as <-. rewrite Hks in E'. injection E' as <-. rewrite elem_of_app, elem_of_cons. apply elem_of_app in Hc. tauto.
    + rewrite Hkids, E in E' by (done || by intros ->). by injection E' as <-.
  - intros l e Hl%Td He. destruct (Ld l e Hl) as [?| ->]; [left; auto|]. destruct He. congruence.
  - lia.
  - rewrite Tl, Ll, Rl. intros h dh Hh. by exists dh.
  - eauto.
  - intros n Hn (ds & Hds & Hnot). assert (ds = m1 ++ m2) as -> by congruence. exists (m1 ++ p :: m2). split; [done|]. intros (q & Eq & Hq)%list_elem_of_fmap.
    destruct (decide (q = p)) as [-> |]; [rewrite Tn, Ln, decide_True in Eq by done; by cbn in Eq|]. apply Hnot. apply list_elem_of_fmap. exists q. destruct (Hplace q ltac:(done)) as [<- _]. split; [done|].
    rewrite elem_of_app, elem_of_cons in Hq. rewrite elem_of_app. tauto.
Qed.
(** A directory is made. *)
Lemma made_moving X b t d s name fs fs' : wf X fs -> made X t d name fs fs' -> is_dir fs d -> ~ Y d -> ~ Y t -> moving b d s fs fs'.
Proof.
  intros Hw ([[Eh Ed Et Ex El] Ho Hp (l1 & l2 & Hk & Hk') Hot Hdel Hfree] & Hkt & Hnew) Hd HYd HYt.
  assert (Hhas : forall e, is_dir fs e -> has fs e) by eauto with tree.
  split; auto.
  - intros q Hq Hq'. destruct (decide (q = d)) as [-> |]; [done|]. destruct (decide (q = t)) as [-> |]; [by destruct Hnew as [?|[? _]]|].
    unfold is_dir in *. by rewrite Hot in Hq'.
  - intros e He Hed _ Hc. apply Hot; [auto|done|]. intros ->. destruct Hc as [[? _]|[_ Ht]]; [done|]. destruct Hnew as [Hn|[_ Hl]]; [by apply Hn, Hhas|by eapply Ht].
  - intros e ks ks' HY E E'. assert (He : is_dir fs e) by (by exists ks). rewrite Hot, E in E' by (auto || by intros ->). by injection E' as <-.
Qed.
Lemma made_found X t d name fs fs' n : wf X fs -> made X t d name fs fs' -> n <> name -> found fs d n None -> found fs' d n None.
Proof.
  intros Hw ([_ Ho (_ & _ & Hn) (l1 & l2 & Hk & Hk') _ _ _] & _) Hne (ds & Hds & Hnot). assert (ds = l1 ++ l2) as -> by congruence. exists (l1 ++ t :: l2). split; [done|].
  intros (q & Eq & Hq)%list_elem_of_fmap. destruct (decide (q = t)) as [-> |]; [congruence|].
  assert (Hq' : q ∈ l1 ++ l2) by (rewrite elem_of_app, elem_of_cons in Hq; rewrite elem_of_app; tauto).
  apply Hnot, list_elem_of_fmap. exists q. destruct (Ho q) as [E _]; [by eapply lk_child; [apply Hw|..]|]. by rewrite <- E.
Qed.
(** A directory leaves its parent. *)
Lemma unlinked_moving X p d l1 l2 fs fs' : wf X fs -> kids fs (parent_of fs p) = Some (l1 ++ p :: l2) -> Y p -> unlinked p (l1 ++ l2) fs fs' ->
  moving p d (parent_of fs p) fs fs'.
Proof.
  intros Hw Hk HY (fs1 & [Bh Bn Bp Bk Bd Bx Bl] & [Rh Rn Rp Rk Rd Rx Rl]).
  assert (Hkids : forall e, kids fs' e = if decide (e = parent_of fs p) then Some (l1 ++ l2) else kids fs e) by (intros; by rewrite Rk, Bk).
  assert (Hdir : forall e, is_dir fs' e <-> is_dir fs e) by (intros e; unfold is_dir; rewrite Hkids; case_decide; [subst; rewrite Hk; split; eauto|done]).
  split; try lia.
  - intros q. by rewrite Rh, Bh.
  - intros e. by rewrite Hdir, Rp, Rn, Bp, Bn.
  - intros q _. by rewrite Hdir.
  - intros q _ _. by rewrite Rp, Rn, Bp, Bn.
  - intros e _ _ ? _. by rewrite Hkids, decide_False.
  - intros e ks ks' _ E. rewrite Hkids. case_decide; [|rewrite E; by intros [= <-]]. intros [= <-]. subst e. rewrite Hk in E. injection E as <-. intros c. rewrite !elem_of_app, elem_of_cons. tauto.
  - intros l e Hl%Rd _. destruct (Bd _ _ Hl) as [?|[_ ->]]; auto.
  - rewrite Rl, Bl. intros h dh Hh. by exists dh.
Qed.
(** What a directory outside holds is still there. *)
Lemma moving_found X b d s fs fs' e n : wf X fs -> moving b d s fs fs' -> aside b d s fs e -> found fs e n None -> found fs' e n None.
Proof.
  intros Hw Hm (He & Hd & Hs & Hc) (cs & Hk & Hnot). exists cs. split; [by rewrite (mv_kids _ _ _ _ _ Hm)|]. intros (q & Eq & Hq)%list_elem_of_fmap.
  destruct (lk_child _ (wf_links _ _ _ Hw) e cs q Hk Hq) as [Hh Hp]. apply Hnot, list_elem_of_fmap. exists q. split; [|done].
  destruct (mv_place _ _ _ _ _ Hm q Hh) as [<- _]; [|done]. rewrite Hp. destruct Hc as [[? ?]|[? ?]]; [right; lia|by left].
Qed.
Lemma trick_ids_quiet X p t fs : wf X fs -> has fs p -> has fs t -> parent_of fs p <> 0 -> parent_of fs t <> 0 -> quiet fs (trick_ids p t).
Proof using HBL.
  intros Hw Hp Ht Hp0 Ht0. assert (Hpar : forall fs' q, same fs fs' -> parent_of fs q <> 0 -> parent_of fs' q <> 0) by (intros fs' q Hs; by rewrite (sm_parent _ _ Hs)).
  eapply quiet_bind; [done|by eapply quiet_node|]. intros o fs1 Hw1 Hs1. eapply quiet_bind; [done|eapply quiet_node; [done|eauto with tree]|]. intros n fs2 Hw2 Hs2. pose proof (same_trans _ _ _ Hs1 Hs2) as T2.
  eapply quiet_bind; [done|eapply quiet_mod_node; [done|eauto with tree|intros nd; split_and!; [done..|right; eauto]]|]. intros _ fs3 Hw3 Hs3. pose proof (same_trans _ _ _ T2 Hs3) as T3.
  eapply quiet_bind; [done|eapply quiet_mod_node; [done|eauto with tree|intros nd; split_and!; [done..|right; eauto]]|]. intros _ fs4 Hw4 Hs4. pose proof (same_trans _ _ _ T3 Hs4) as T4.
  eapply quiet_bind; [done|eapply number_quiet; eauto with tree|]. intros _ fs5 Hw5 Hs5. eapply number_quiet; eauto with tree.
Qed.
(** ** The recursion *)

(** [R0] moves, with the directories [Y] below it. *)
Context (R0 N : Z) (HR0 : Y R0) (HY : forall e, Y e -> R0 <= e < N).
Record shape fs : Prop := {
  sh_up : forall e, Y e -> is_dir fs e /\ (e = R0 \/ Y (parent_of fs e));
  sh_down : forall e ks c, Y e -> kids fs e = Some ks -> c ∈ ks -> is_dir fs c -> Y c;
  sh_src : alive fs (parent_of fs R0);
}.
Lemma outside X fs : wf X fs -> shape fs -> ~ Y (parent_of fs R0).
Proof using HR0 HY. intros Hw Hs HYp%HY. destruct (sh_up _ Hs R0 HR0) as [Hd _]. apply (lk_order _ (wf_links _ _ _ Hw)) in Hd. lia. Qed.
Lemma moving_shape X b d s fs fs' : wf X fs -> shape fs -> moving b d s fs fs' -> shape fs'.
Proof using HR0 HY.
  intros Hw Hs Hm. pose proof (outside _ _ Hw Hs) as Hout. destruct Hs as [Hup Hdown [Hd Ha]]. pose proof (mv_dir _ _ _ _ _ Hm) as Hdir. split.
  - intros e He. destruct (Hup e He) as [Hde Hor]. destruct (Hdir e Hde) as (? & -> & _). done.
  - intros e ks' c He Hk' Hc Hdc. destruct (Hup e He) as [[ks Hk] _]. pose proof (mv_sub _ _ _ _ _ Hm e ks ks' He Hk Hk' c Hc) as Hc'.
    eapply Hdown; [done..|]. apply (mv_file _ _ _ _ _ Hm); [by eapply lk_child; [apply Hw|..]|done].
  - destruct (Hup R0 HR0) as [HdR _]. destruct (Hdir R0 HdR) as (_ & -> & _). split; [by apply Hdir|]. intros l Hl. destruct (mv_dels _ _ _ _ _ Hm l _ Hl Hd) as [?|?]; [by apply (Ha l)|done].
Qed.
(** [p] can move to [d]. *)
Record ready X p d name fs : Prop := {
  rd_shape : shape fs;
  rd_moves : Y p;
  rd_before : forall x, X x -> Y x /\ x < p;
  rd_linked : exists cs, kids fs (parent_of fs p) = Some cs /\ p ∈ cs;
  rd_target : alive fs d /\ ~ Y d;
  rd_name : name <> [] /\ found fs d name None;
  rd_root : p = R0 \/ parent_of fs R0 <> d;
}.
Definition moves_away p d name fs fs' : Prop :=
  moving p d (parent_of fs p) fs fs' /\
  (parent_of fs p <> d -> (exists l1 l2, kids fs (parent_of fs p) = Some (l1 ++ p :: l2) /\ kids fs' (parent_of fs p) = Some (l1 ++ l2)) /\
    forall n, n <> name -> found fs d n None -> found fs' d n None).
Definition rename_spec (rename : Z -> Z -> text -> St FS unit) (b : Z) : Prop :=
  forall X p d name fs (R : unit -> FS -> Prop), b <= p -> wf X fs -> ready X p d name fs ->
  (forall fs', wf X fs' -> moves_away p d name fs fs' -> R tt fs') -> wp (rename p d name) R fs.
(** The new directory is outside. *)
Lemma made_outside X p d name t fs fs' : wf X fs -> ready X p d name fs -> made X t d name fs fs' ->
  ~ Y t /\ t <> parent_of fs p /\ t <> parent_of fs R0 /\ kids fs' t = Some [] /\ (forall e, is_dir fs e -> (forall l, dels fs !! l <> Some e) -> e <> t).
Proof using HR0 HY.
  intros Hw [Hs HYp HX (cs & Hk & Hin) [Hd HYd] Hname Hroot] (Ha & (k & Hkt & Hempty) & Hnew).
  assert (Hnt : forall e, is_dir fs e -> (forall l, dels fs !! l <> Some e) -> e <> t).
  { intros e He Hl ->. destruct Hnew as [Hn|[_ Ht]]; [apply Hn; eauto with tree|by eapply Hl]. }
  assert (HYt : ~ Y t).
  { intros Ht. destruct Hnew as [Hn|[Hdt Hl]]; [apply Hn; eapply is_dir_has, (sh_up _ Hs t Ht)|]. pose proof Hdt as [kt Hkt0]. destruct (wf_tombs _ _ _ Hw _ _ _ Hl) as [_ Htomb].
    destruct (Htomb kt Hkt0) as (Hpar & _ & HXt). destruct (sh_up _ Hs t Ht) as [_ [-> |HYp']]; [|by rewrite Hpar in HYp']. destruct Hroot as [-> |]; [|done].
    destruct HXt as [HXt|[_ Hno]]; [apply HX in HXt; lia|]. rewrite Hpar in Hk. by eapply Hno. }
  split_and!; [done| | | |done].
  - intros ->. destruct Hnew as [Hn|[Hdt Hl]]; [apply Hn; eapply is_dir_has; by exists cs|]. destruct (wf_tombs _ _ _ Hw _ _ _ Hl) as [_ Htomb].
    destruct (Htomb _ Hk) as (_ & _ & [HXt|[-> _]]); [by apply HX in HXt as [? _]|by apply not_elem_of_nil in Hin].
  - intros ->. by eapply Hnt; [apply (sh_src _ Hs)..|].
  - destruct Hempty as [-> |HXt]; [done|]. by apply HX in HXt as [? _].
Qed.
(** One child has left [p]. *)
Definition child_moved X p t c cs fs fs' : Prop :=
  wf X fs' /\ moving p t p fs fs' /\ kids fs' p = Some cs /\ (forall n, n <> name_of fs c -> found fs t n None -> found fs' t n None) /\
  forall q, q ∈ cs -> name_of fs' q = name_of fs q.
Record leaving X p t cs fs : Prop := {
  lv_wf : wf X fs;
  lv_shape : shape fs;
  lv_moves : Y p;
  lv_before : forall x, X x -> Y x /\ x <= p;
  lv_target : alive fs t /\ ~ Y t /\ parent_of fs R0 <> t;
  lv_kids : kids fs p = Some cs;
  lv_free : forall c, c ∈ cs -> found fs t (name_of fs c) None;
}.
Lemma first_gone c cs l1 l2 : c :: cs = l1 ++ c :: l2 -> c ∉ l1 ++ l2 -> l1 ++ l2 = cs.
Proof. destruct l1 as [|x l1]; cbn; [by intros [= ->]|]. intros [= -> _] []. by left. Qed.
Lemma leaving_next X p t c cs fs fs' : leaving X p t (c :: cs) fs -> child_moved X p t c cs fs fs' -> leaving X p t cs fs'.
Proof using HR0 HY.
  intros [Hw Hs HYp HX ((Hd & Ha) & HYt & Hr) Hk Hf] (Hw' & Hm & Hk' & Hf' & Hn). split; try done.
  - exact (moving_shape _ _ _ _ _ _ Hw Hs Hm).
  - split_and!; [split; [by apply (mv_dir _ _ _ _ _ Hm)|]|done|].
    + intros l Hl. destruct (mv_dels _ _ _ _ _ Hm l t Hl Hd) as [?|?]; [by apply (Ha l)|done].
    + destruct (sh_up _ Hs R0 HR0) as [HdR _]. destruct (mv_dir _ _ _ _ _ Hm R0 HdR) as (_ & -> & _). done.
  - intros q Hq. rewrite Hn by done. apply Hf'; [|apply Hf; by right]. intros E. destruct (lk_sorted _ (wf_links _ _ _ Hw) p _ Hk) as [Hso _]. apply sorted_NoDup in Hso.
    cbn in Hso. apply NoDup_cons in Hso as [Hno _]. apply Hno. rewrite <- E. by apply list_elem_of_fmap_2.
Qed.
Lemma move_file_wp X p t c cs renamed fs (R : unit -> FS -> Prop) : leaving X p t (c :: cs) fs -> kids fs c = None ->
  (forall fs', child_moved X p t c cs fs fs' -> R tt fs') -> wp (Tree.renameInCache flags env c t (name_of fs c) renamed) R fs.
Proof using HBL.
  intros [Hw Hs HYp HX (Ht & HYt & Hr) Hk Hf] Hfile HR. assert (Hin : c ∈ c :: cs) by (by left).
  eapply renameInCache_wp; [exact Hw|exact Hk|done|done|by apply alive_open| |by apply Hf|].
  { intros E. destruct (lk_sorted _ (wf_links _ _ _ Hw) p _ Hk) as [_ Hne]. apply Hne. cbn. rewrite E. by left. }
  intros fs' Hw' Hsh. destruct (shifted_moving X c p t (name_of fs c) fs fs') as (Hm & (l1 & l2 & Hk1 & Hk2) & Hf' & Hn); [done..|apply Ht|done|].
  assert (Ecs : c :: cs = l1 ++ c :: l2) by congruence. pose proof (child_once X fs p _ c l1 l2 Hw Hk Ecs) as Hno. pose proof (first_gone _ _ _ _ Ecs Hno) as E. apply HR. split_and!; try done; [by rewrite <- E|].
  intros q Hq. apply Hn. intros ->. by rewrite E in Hno.
Qed.
Lemma move_dir_wp X p t c cs rename fs (R : unit -> FS -> Prop) : rename_spec rename (p + 1) -> leaving X p t (c :: cs) fs -> is_dir fs c ->
  (forall fs', child_moved X p t c cs fs fs' -> R tt fs') -> wp (rename c t (name_of fs c)) R fs.
Proof using HR0 HY.
  intros Hspec [Hw Hs HYp HX (Ht & HYt & Hr) Hk Hf] Hdc HR. assert (Hin : c ∈ c :: cs) by (by left). destruct (lk_child _ (wf_links _ _ _ Hw) p _ c Hk Hin) as [_ Hp].
  pose proof (lk_order _ (wf_links _ _ _ Hw) c Hdc) as Hlt. rewrite Hp in Hlt. assert (Hpt : p <> t) by (intros ->; done).
  eapply (Hspec X); [lia|exact Hw| |].
  { split; [done|by eapply sh_down| |rewrite Hp; eauto|done| |by right].
    - intros x Hx. destruct (HX x Hx). split; [done|lia].
    - split; [|by apply Hf]. intros E. destruct (lk_sorted _ (wf_links _ _ _ Hw) p _ Hk) as [_ Hne]. apply Hne. cbn. rewrite E. by left. }
  intros fs' Hw' [Hm Haway]. rewrite Hp in Hm, Haway. destruct (Haway Hpt) as [(l1 & l2 & Hk1 & Hk2) Hf'].
  assert (Ecs : c :: cs = l1 ++ c :: l2) by congruence. pose proof (child_once X fs p _ c l1 l2 Hw Hk Ecs) as Hno. pose proof (first_gone _ _ _ _ Ecs Hno) as E.
  apply HR. split_and!; [done|eapply moving_weaken; [|exact Hm]; lia|by rewrite <- E|done|].
  intros q Hq. assert (Hq' : q ∈ c :: cs) by (by right). destruct (lk_child _ (wf_links _ _ _ Hw) p _ q Hk Hq') as [Hhq Hpq]. apply (mv_place _ _ _ _ _ Hm); [done|right; lia].
Qed.
Lemma move_children_wp X p t rename renamed n cs fs (R : unit -> FS -> Prop) : rename_spec rename (p + 1) -> leaving X p t cs fs -> (length cs <= n)%nat ->
  (forall fs', wf X fs' -> kids fs' p = Some [] -> moving p t p fs fs' -> R tt fs') -> wp (move_children flags env n (fun c => rename c t) p t renamed) R fs.
Proof using HBL HR0 HY.
  intros Hspec. revert cs fs R. induction n as [|n IH]; intros cs fs R Hl Hn HR; pose proof Hl as [Hw Hs HYp HX Ht Hk Hf]; cbn [move_children];
    destruct (proj1 (is_dir_node fs p) ltac:(by exists cs)) as (nd & di & E & Ed & Hk'); assert (Children di = cs) as Ec by congruence;
    apply wp_bind; (eapply wp_dir_at; [done..|]); rewrite Ec; destruct cs as [|c cs]; try (apply wp_ret, HR; [done..|apply same_moving, same_refl]); [cbn in Hn; lia|].
  apply wp_bind, wp_getS, wp_bind.
  assert (Hgo : forall fs', child_moved X p t c cs fs fs' -> wp (move_children flags env n (fun c => rename c t) p t renamed) R fs').
  { intros fs' Hc. eapply IH; [by eapply leaving_next|cbn in Hn; lia|]. intros fs'' Hw'' Hk'' Hm''. apply HR; [done..|]. eapply moving_trans; [apply Hc|done]. }
  destruct (isDir fs c) eqn:Ei.
  - apply isDir_true in Ei. by eapply move_dir_wp.
  - eapply move_file_wp; [done|by apply isDir_false|done].
Qed.
(** [p] has left its parent and a directory [t] stands in for it. *)
Record midway X p d name t ks fs fs' : Prop := {
  md_moving : moving p d (parent_of fs p) fs fs';
  md_leaving : leaving (fun q => X q \/ q = p) p t ks fs';
  md_gone : exists l1 l2, kids fs' (parent_of fs p) = Some (l1 ++ l2) /\ (p ∉ l1 ++ l2) /\ (parent_of fs p <> d -> kids fs (parent_of fs p) = Some (l1 ++ p :: l2));
  md_found : parent_of fs p <> d -> forall n, n <> name -> found fs d n None -> found fs' d n None;
  md_new : t <> parent_of fs p /\ forall e, is_dir fs e -> (forall l, dels fs !! l <> Some e) -> e <> t;
}.
Lemma unlinked_kids p cs fs fs' e : unlinked p cs fs fs' -> kids fs' e = if decide (e = parent_of fs p) then Some cs else kids fs e.
Proof. intros (fs1 & [] & [_ _ _ -> _ _ _]). case_decide; auto. Qed.
Lemma ready_facts X p d name fs : wf X fs -> ready X p d name fs -> is_dir fs p /\ is_dir fs (parent_of fs p) /\ parent_of fs p < p /\ p <> d /\ has fs p.
Proof.
  intros Hw [Hs HYp HX (cs & Hk & Hin) [Hd HYd] Hname Hroot]. destruct (sh_up _ Hs p HYp) as [Hp _]. split_and!; [done|by exists cs| | |eauto with tree].
  - by apply (lk_order _ (wf_links _ _ _ Hw)).
  - by intros ->.
Qed.
Lemma midway_intro X p d name t ks l1 l2 fs fs1 fs2 fs3 fs4 : wf X fs -> ready X p d name fs -> made X t d name fs fs1 -> kids fs p = Some ks ->
  same fs1 fs2 -> wf (fun q => X q \/ q = p) fs2 -> kids fs2 (parent_of fs2 p) = Some (l1 ++ p :: l2) -> unlinked p (l1 ++ l2) fs2 fs3 -> same fs3 fs4 -> wf (fun q => X q \/ q = p) fs4 ->
  midway X p d name t ks fs fs4.
Proof using HR0 HY.
  intros Hw Hr Hmk Hks Hs2 Hw2 Hk2 Hu Hs4 Hw4. destruct (made_outside _ _ _ _ _ _ _ Hw Hr Hmk) as (HYt & Hts & HtR & Hkt & Hnt).
  destruct (ready_facts _ _ _ _ _ Hw Hr) as (Hp & Hsd & Hlt & Hpd & Hhp). pose proof Hr as [Hs HYp HX Hlink [[Hd Ha] HYd] Hname Hroot]. pose proof Hmk as [Had _].
  pose proof (moving_same _ _ _ _ _ _ (made_moving _ p t d (parent_of fs p) _ _ _ Hw Hmk Hd HYd HYt) Hs2) as Hm2.
  destruct (mv_dir _ _ _ _ _ Hm2 p Hp) as (_ & Ep2 & _). rewrite Ep2 in Hk2.
  assert (Hu' : forall e, moving p e (parent_of fs p) fs2 fs3) by (intros e; rewrite <- Ep2; eapply unlinked_moving; [exact Hw2|by rewrite Ep2|done|done]).
  pose proof (moving_same _ _ _ _ _ _ (moving_trans _ _ _ _ _ _ Hm2 (Hu' d)) Hs4) as Hm4.
  assert (Hkids : forall e, kids fs4 e = if decide (e = parent_of fs p) then Some (l1 ++ l2) else kids fs1 e).
  { intros e. rewrite (sm_kids _ _ Hs4), (unlinked_kids _ _ _ _ e Hu), Ep2. case_decide; [done|apply (sm_kids _ _ Hs2)]. }
  assert (HYd' : forall l, dels fs2 !! l <> Some d) by (intros l Hl; destruct (mv_dels _ _ _ _ _ Hm2 l d Hl Hd) as [?|?]; [by apply (Ha l)|done]).
  assert (Htd2 : is_dir fs2 t) by (unfold is_dir; rewrite (sm_kids _ _ Hs2), Hkt; eauto).
  split; [done|split| | |done].
  - done.
  - exact (moving_shape _ _ _ _ _ _ Hw Hs Hm4).
  - done.
  - intros x [Hx| ->]; [|done]. destruct (HX x Hx). split; [done|lia].
  - split_and!; [split|done|].
    + unfold is_dir. rewrite Hkids, decide_False by done. eauto.
    + intros l Hl%(sm_dels _ _ Hs4). destruct (mv_dels _ _ _ _ _ (Hu' d) l t Hl Htd2) as [Hl'%(sm_dels _ _ Hs2)|?]; [|done]. by apply (ad_free _ _ _ _ _ Had l).
    + destruct (sh_up _ Hs R0 HR0) as [HdR _]. destruct (mv_dir _ _ _ _ _ Hm4 R0 HdR) as (_ & -> & _). done.
  - rewrite Hkids, decide_False, (ad_other _ _ _ _ _ Had) by (done || lia || by intros ->). done.
  - intros c Hc. exists []. rewrite Hkids, decide_False by done. split; [done|]. apply not_elem_of_nil.
  - exists l1, l2. split_and!; [by rewrite Hkids, decide_True|by apply (child_once _ _ _ _ _ _ _ Hw2 Hk2)|]. intros Hne. rewrite <- Hk2, (sm_kids _ _ Hs2). symmetry. apply (ad_other _ _ _ _ _ Had); [eauto with tree|done|done].
  - intros Hne n Hn Hf. apply (found_same _ _ _ _ _ Hs4). eapply moving_found; [exact Hw2|exact (Hu' p)| |apply (found_same _ _ _ _ _ Hs2); exact (made_found _ _ _ _ _ _ n Hw Hmk Hn Hf)]. split_and!; [by apply (mv_dir _ _ _ _ _ Hm2)|done..|right; done].
Qed.
Lemma midway_end X p d name t ks fs fs4 fs5 : wf X fs -> ready X p d name fs -> midway X p d name t ks fs fs4 ->
  wf (fun q => X q \/ q = p) fs5 -> kids fs5 p = Some [] -> moving p t p fs4 fs5 -> wf X fs5 /\ moves_away p d name fs fs5.
Proof using HR0 HY.
  intros Hw Hr [Hm4 Hl4 (l1 & l2 & Hk4 & Hno & Hk) Hf [Hts Hnt]] Hw5 Hk5 Hm5. destruct (ready_facts _ _ _ _ _ Hw Hr) as (Hp & Hsd & Hlt & Hpd & Hhp).
  pose proof Hr as [Hs HYp HX Hlink [[Hd Ha] HYd] Hname Hroot]. pose proof Hl4 as [Hw4 Hs4 _ _ (Ht & HYt & HtR) _ _].
  destruct (mv_dir _ _ _ _ _ Hm4 p Hp) as (Hp4 & Ep4 & _). destruct (mv_dir _ _ _ _ _ Hm5 p Hp4) as (_ & Ep5 & _). rewrite Ep4 in Ep5.
  assert (Hside : aside p t p fs4 (parent_of fs p)).
  { split_and!; [by exists (l1 ++ l2)|done|lia|]. destruct (sh_up _ Hs p HYp) as [_ [-> |?]]; [right|by left]. pose proof (outside _ _ Hw4 Hs4) as Hout. pose proof (sh_src _ Hs4) as [_ Hsrc]. by rewrite Ep4 in *. }
  assert (Hk5s : kids fs5 (parent_of fs p) = Some (l1 ++ l2)) by (destruct Hside as (? & ? & ? & ?); by rewrite (mv_kids _ _ _ _ _ Hm5)).
  split; [|split].
  - eapply wf_settle; [exact Hw5|]. intros k. rewrite Hk5. intros [= <-]. right. split; [done|]. rewrite Ep5, Hk5s. by intros ds [= <-].
  - eapply moving_step; [exact Hm4|exact Hm5|lia|]. intros e (He & _ & _ & Hc). destruct Hc as [[? ?]|[? ?]]; split; [by intros ->|lia|by apply Hnt|by intros ->].
  - intros Hne. split; [eauto|]. intros n Hn Hfn. eapply moving_found; [exact Hw4|exact Hm5| |by apply Hf]. split_and!; [by apply (mv_dir _ _ _ _ _ Hm4)|by apply Hnt|done|right; split; [done|]].
    intros l Hl. destruct (mv_dels _ _ _ _ _ Hm4 l d Hl Hd) as [?|?]; [by apply (Ha l)|done].
Qed.
Lemma unlinked_at p cs fs fs' q : unlinked p cs fs fs' -> (has fs' q <-> has fs q) /\ parent_of fs' q = parent_of fs q.
Proof. intros (fs1 & [Bh _ Bp _ _ _ _] & [Rh _ Rp _ _ _ _]). by rewrite Rh, Bh, Rp, Bp. Qed.
Lemma recursive_step X p d name renamed fuel fs (R : unit -> FS -> Prop) : wf X fs -> ready X p d name fs ->
  rename_spec (fun c t n => renameRecursive flags tflags env q0 fuel c t n renamed) (p + 1) ->
  (forall fs', wf X fs' -> moves_away p d name fs fs' -> R tt fs') -> wp (renameRecursive flags tflags env q0 (S fuel) p d name renamed) R fs.
Proof using HBL Hmo HR0 HY.
  intros Hw Hr Hspec HR. destruct (ready_facts _ _ _ _ _ Hw Hr) as (Hp & Hsd & Hlt & Hpd & Hhp). pose proof Hr as [_ _ HX (cs & Hk & Hin) [Ha HYd] [Hne Hf] _]. pose proof Hp as [ks Hks].
  pose proof (dir_nonzero _ _ _ _ Hw Hsd) as Hs0. pose proof (dir_nonzero _ _ _ _ Hw (proj1 Ha)) as Hd0.
  cbn [renameRecursive]. apply wp_bind. eapply doMkDir_wp; [done|exact Hw|done|done|by apply alive_open|]. intros t fs1 Hw1 Hmk.
  destruct (made_outside _ _ _ _ _ _ _ Hw Hr Hmk) as (HYt & Hts & _ & Hkt & _). pose proof Hmk as [Had _]. destruct (ad_place _ _ _ _ _ Had) as (Hht & Hpt & _).
  assert (Hhp1 : has fs1 p) by (by apply (ex_has _ _ (ad_extends _ _ _ _ _ Had))). assert (Htd : is_dir fs1 t) by (by exists []).
  assert (Hkp : kids fs1 p = Some ks) by (rewrite (ad_other _ _ _ _ _ Had); [done|done|done|intros ->; by apply HYt, (rd_moves _ _ _ _ _ Hr)]).
  assert (Hks1 : exists cs1, kids fs1 (parent_of fs1 p) = Some cs1 /\ p ∈ cs1).
  { destruct (ad_old _ _ _ _ _ Had p Hhp) as [_ ->]. destruct (decide (parent_of fs p = d)) as [E|E].
    - destruct (ad_kids _ _ _ _ _ Had) as (l1 & l2 & E1 & E2). exists (l1 ++ t :: l2). rewrite E. split; [done|]. assert (cs = l1 ++ l2) by congruence. subst cs.
      rewrite elem_of_app, elem_of_cons. apply elem_of_app in Hin. tauto.
    - exists cs. by rewrite (ad_other _ _ _ _ _ Had) by eauto with tree. }
  eapply wp_quiet; [exact Hw1|by eapply quiet_node|]. intros nd fs2 Hw2 Hs2.
  eapply wp_quiet; [exact Hw2|eapply modS_quiet; [done|by apply Hs2|by intros i]|]. intros _ fs3 Hw3 Hs3. pose proof (same_trans _ _ _ Hs2 Hs3) as T3.
  apply wp_bind. destruct (proj1 (is_dir_node fs3 p)) as (nd3 & di & E & Ed & Hk3); [exists ks; by rewrite (sm_kids _ _ T3)|]. eapply wp_dir_at; [done..|].
  assert (Children di = ks) as -> by (rewrite (sm_kids _ _ T3) in Hk3; congruence).
  eapply wp_quiet; [exact Hw3|eapply quiet_mod_dir; [done|eapply same_is_dir; [exact T3|done]|by intros]|]. intros _ fs4 Hw4 Hs4. pose proof (same_trans _ _ _ T3 Hs4) as T4.
  destruct Hks1 as (cs1 & Hcs1 & Hin1). apply wp_bind. eapply doUnlink_wp; [by eapply (wf_plus _ X p), Hw4|by rewrite (sm_parent _ _ T4), (sm_kids _ _ T4)|done|by right; right; right|].
  intros l1 l2 fs5 Ecs _ Hw5 Hu. eapply wp_quiet; [exact Hw5|eapply trick_ids_quiet; [exact Hw5|..]|].
  1-4: destruct (unlinked_at _ _ _ _ t Hu) as [Ht5 Hp5t], (unlinked_at _ _ _ _ p Hu) as [Hp5 Hp5p]; rewrite ?Hp5p, ?Hp5t, ?(sm_parent _ _ T4), ?Hpt.
  { by apply Hp5, T4. }
  { by apply Ht5, T4. }
  { by destruct (ad_old _ _ _ _ _ Had p Hhp) as [_ ->]. }
  { done. }
  intros _ fs6 Hw6 Hs6.
  assert (Hmid : midway X p d name t ks fs fs6).
  { eapply (midway_intro X p d name t ks l1 l2 fs fs1 fs4 fs5); try done; [by apply wf_plus|]. by rewrite (sm_parent _ _ T4), (sm_kids _ _ T4), Hcs1, Ecs. }
  eapply (move_children_wp _ p t (fun c t n => renameRecursive flags tflags env q0 fuel c t n renamed)); [exact Hspec|apply Hmid|done|].
  intros fs7 Hw7 Hk7 Hm7. destruct (midway_end _ _ _ _ _ _ _ _ _ Hw Hr Hmid Hw7 Hk7 Hm7). by apply HR.
Qed.
Lemma renameRecursive_wp renamed fuel : forall b, N <= b + Z.of_nat fuel -> rename_spec (fun p d name => renameRecursive flags tflags env q0 fuel p d name renamed) b.
Proof using HBL Hmo HR0 HY.
  induction fuel as [|fuel IH]; intros b Hb X p d name fs R Hbp Hw Hr HR; [pose proof (HY p (rd_moves _ _ _ _ _ Hr)); lia|].
  eapply recursive_step; [exact Hw|exact Hr| |exact HR]. apply IH. lia.
Qed.
End moving.
(** ** Rename *)

Abbreviation none := (fun _ : Z => False).
Inductive below fs p : Z -> Prop :=
| below_self : below fs p p
| below_child e : is_dir fs e -> below fs p (parent_of fs e) -> below fs p e.
Lemma below_order fs p e : wf none fs -> below fs p e -> p <= e.
Proof. intros Hw. induction 1 as [|e He _ IH]; [lia|]. apply (lk_order _ (wf_links _ _ _ Hw)) in He. lia. Qed.
Lemma below_zero fs p : wf none fs -> is_dir fs p -> ~ below fs p 0.
Proof. intros Hw Hp Hb. inversion Hb as [E|? He _]; [subst; by apply (dir_nonzero _ _ _ _ Hw Hp)|by apply (dir_nonzero _ _ _ _ Hw He)]. Qed.
Lemma below_back fs fs' p e : wf none fs -> wf none fs' -> (forall e, is_dir fs e -> parent_of fs' e = parent_of fs e) -> below fs' p e -> is_dir fs e \/ e = 0 -> below fs p e.
Proof.
  intros Hw Hw' Hs. induction 1 as [|e He Hb IH]; intros Hd; [constructor|]. destruct Hd as [Hd| ->]; [|by destruct (dir_nonzero _ _ _ _ Hw' He)].
  apply below_child; [done|]. rewrite <- (Hs e Hd). apply IH. rewrite (Hs e Hd). destruct (lk_parent _ (wf_links _ _ _ Hw) e (is_dir_has _ _ Hd)); auto.
Qed.
(** A listing of [p] puts entries into what is below [p] or new. *)
Definition listed fs p e : Prop := below fs p e \/ ~ is_dir fs e /\ e <> 0.
Lemma listed_closed fs0 p : wf none fs0 -> forall fs c, wf none fs -> extends fs0 fs -> is_dir fs c -> listed fs0 p (parent_of fs c) -> listed fs0 p c.
Proof.
  intros Hw0 fs c Hw He Hc HK. destruct (kids fs0 c) as [k|] eqn:Ek.
  - assert (Hd0 : is_dir fs0 c) by (by exists k). destruct (ex_dir _ _ He c Hd0) as (_ & Hp & _). rewrite Hp in HK. left. apply below_child; [done|]. destruct HK as [?|[Hn H0]]; [done|].
    by destruct (lk_parent _ (wf_links _ _ _ Hw0) c (is_dir_has _ _ Hd0)).
  - right. split; [by intros [? ?]; congruence|]. by apply (dir_nonzero _ _ _ _ Hw).
Qed.
Lemma grows_found K fs fs' d n r : wf none fs -> grows K fs fs' -> ~ K d -> found fs d n r -> found fs' d n r.
Proof.
  intros Hw Hg HK (cs & Hk & Hr). exists cs. assert (Hn : forall c, c ∈ cs -> name_of fs' c = name_of fs c).
  { intros c Hc. apply (gr_place _ _ _ Hg). by apply (lk_child _ (wf_links _ _ _ Hw) d cs). }
  split; [by rewrite (gr_kids _ _ _ Hg) by (done || by exists cs)|]. destruct r as [c|]; [destruct Hr; by rewrite Hn|].
  by rewrite (Forall_fmap_ext_1 (name_of fs') (name_of fs) cs) by (by apply Forall_forall).
Qed.
(** [p] is to move and its new place is free. *)
Record staged d from d' to p fs : Prop := {
  sg_wf : wf none fs;
  sg_from : found fs d from (Some p);
  sg_alive : alive fs d';
  sg_to : to <> [] /\ found fs d' to None;
  sg_apart : is_dir fs p -> ~ below fs p d';
}.
Lemma parent_alive fs d name p : wf none fs -> found fs d name (Some p) -> alive fs d.
Proof.
  intros Hw (cs & Hk & Hin & _). split; [by exists cs|]. intros [e n] Hl. destruct (wf_tombs _ _ _ Hw e n d Hl) as [_ Ht]. destruct (Ht cs Hk) as (_ & _ & [?|[-> _]]); [done|].
  by apply not_elem_of_nil in Hin.
Qed.
Lemma found_above fs d name p : wf none fs -> found fs d name (Some p) -> is_dir fs p -> ~ listed fs p d.
Proof.
  intros Hw Hf Hp [Hb%below_order|[Hn _]]; [|done|by apply Hn, (parent_alive _ _ _ _ Hw Hf)]. destruct (found_child _ _ _ _ _ _ Hw Hf) as (_ & Hpar & _).
  apply (lk_order _ (wf_links _ _ _ Hw)) in Hp. lia.
Qed.
Lemma staged_grows d from d' to p fs fs' : staged d from d' to p fs -> is_dir fs p -> wf none fs' -> grows (listed fs p) fs fs' -> staged d from d' to p fs'.
Proof.
  intros [Hw Hf Ha [Hne Ht] Hap] Hp Hw' Hg. specialize (Hap Hp). pose proof (found_above _ _ _ _ Hw Hf Hp) as Hd.
  assert (Hd' : ~ listed fs p d') by (intros [?|[Hn _]]; [done|by apply Hn, Ha]). split; [done|exact (grows_found _ _ _ _ _ _ Hw Hg Hd Hf)|eapply extends_alive; [apply Hg|done]|split; [done|exact (grows_found _ _ _ _ _ _ Hw Hg Hd' Ht)]|].
  intros _ Hb. apply Hap. eapply (below_back fs fs'); [done..| |exact Hb|left; apply Ha]. intros e He. by apply (ex_dir _ _ (gr_extends _ _ _ Hg)).
Qed.
Lemma Rename_list_lists fs0 p pages : wf none fs0 -> forall next fs, good (limit := limit) flags fs0 fs -> target (listed fs0 p) fs p -> Forall (answer_ok (limit := limit)) pages ->
  lists (limit := limit) flags (listed fs0 p) fs0 fs (Rename_list flags tflags env q0 p next pages) (fun _ _ => True).
Proof using HBL Hmo.
  intros Hw0. pose proof (listed_closed fs0 p Hw0) as HK. induction pages as [|a pages IH]; intros next fs Hg Ht Hp; cbn [Rename_list]; (apply lists_dir; [by apply (target_dir (listed fs0 p))|]); intros nd di E Ed;
    (destruct (listDone di); [by apply lists_ret|]); [by apply lists_ret|]. apply Forall_cons in Hp as [Ha Hp]. destruct a as [|skip order resp|]; try by apply lists_ret.
  apply lists_getS. destruct (listObjectsSlurp_request tflags fs p (At p) next) as [prefix startWith]. destruct (resp prefix startWith) as [page|e] eqn:Er; [|by apply lists_ret].
  eapply lists_bind; [apply (listObjectsSlurp_done_lists _ _ _ _ (listed fs0 p) fs0 HK); [done|done|by eapply Ha|done]|]. intros next' fs1 Hg1 Hgr1 _. apply IH; [done|by eapply target_grows|done].
Qed.
Lemma staged_ready d from d' to p fs : staged d from d' to p fs -> is_dir fs p -> ready (fun e => is_dir fs e /\ below fs p e) p none p d' to fs.
Proof.
  intros [Hw Hf Ha Ht Hap] Hp. specialize (Hap Hp). destruct (found_child _ _ _ _ _ _ Hw Hf) as (_ & Hpar & _). split; [split| | | |split; [done|by intros [_ ?]]|done|by left].
  - intros e [He Hb]. split; [done|]. inversion Hb as [|? _ Hb']; [by left|right]. split; [|done].
    destruct (lk_parent _ (wf_links _ _ _ Hw) e (is_dir_has _ _ He)) as [E|?]; [|done]. rewrite E in Hb'. by destruct (below_zero _ _ Hw Hp).
  - intros e ks c [He Hb] Hk Hc Hdc. split; [done|]. apply below_child; [done|]. by destruct (lk_child _ (wf_links _ _ _ Hw) e ks c Hk Hc) as [_ ->].
  - rewrite Hpar. by eapply parent_alive.
  - split; [done|constructor].
  - done.
  - rewrite Hpar. destruct Hf as (cs & Hk & Hin & _). eauto.
Qed.
Lemma wake_safe fs : wf none fs -> wp (Tree.WakeupFlusher ;;; ret (Some (@None error))) (fun _ fs' => wf none fs') fs.
Proof. intros Hw. eapply wp_quiet; [done|by eapply WakeupFlusher_quiet|]. intros _ fs' Hw' _. by apply wp_ret. Qed.
Lemma staged_dir_safe d from d' to p renamed pages fs : staged d from d' to p fs -> is_dir fs p -> Forall (answer_ok (limit := limit)) pages ->
  wp (mod_dir p (set_listDone false) ;;;
      let! r := Rename_list flags tflags env q0 p [] pages in
      match r with
      | Some None => let! fs' := getS in renameRecursive flags tflags env q0 (depth fs') p d' to renamed ;;; Tree.WakeupFlusher ;;; ret (Some None)
      | _ => ret r
      end) (fun _ fs' => wf none fs') fs.
Proof using HBL Hmo.
  intros Hst Hp Hpages. eapply wp_quiet; [apply Hst|eapply quiet_mod_dir; [apply Hst|done|done]|]. intros _ fs1 Hw1 Hs1. pose proof (staged_grows _ _ _ _ _ _ _ Hst Hp Hw1 (same_grows _ _ _ Hs1)) as Hst1.
  assert (Hp1 : is_dir fs1 p) by (eapply extends_is_dir; [by apply same_extends|done]).
  apply wp_bind. eapply wp_mono; [apply (Rename_list_lists fs1 p); [done|by apply start| |done]|].
  { split; [eapply child_alive; [done|apply Hst1|done]|left; constructor]. }
  intros r fs2 ([Hw2 _] & Hg2 & _). pose proof (staged_grows _ _ _ _ _ _ _ Hst1 Hp1 Hw2 Hg2) as Hst2. destruct r as [[e|]|]; [by apply wp_ret| |by apply wp_ret].
  assert (Hp2 : is_dir fs2 p) by (eapply extends_is_dir; [apply Hg2|done]). apply wp_bind, wp_getS, wp_bind.
  assert (HN : forall e, is_dir fs2 e /\ below fs2 p e -> p <= e < nextPtr fs2).
  { intros e [He Hb]. split; [by eapply below_order|]. destruct (wf_node _ _ _ _ Hw2 (is_dir_has _ _ He)) as (nd & _ & Hn). apply Hn. }
  assert (Hself : is_dir fs2 p /\ below fs2 p p) by (split; [done|constructor]).
  eapply (renameRecursive_wp (fun e => is_dir fs2 e /\ below fs2 p e) p (nextPtr fs2) Hself HN renamed (depth fs2) p); [|reflexivity|exact Hw2|by eapply staged_ready|].
  - destruct (wf_node _ _ _ _ Hw2 (is_dir_has _ _ Hp2)) as (nd & _ & Hn). pose proof (no_ptr _ _ _ _ Hn). unfold depth. lia.
  - intros fs3 Hw3 _. by apply wake_safe.
Qed.
Lemma staged_file_safe d from d' to p renamed fs : staged d from d' to p fs -> kids fs p = None ->
  wp (Tree.renameInCache flags env p d' to renamed ;;; Tree.WakeupFlusher ;;; ret (Some (@None error))) (fun _ fs' => wf none fs') fs.
Proof using HBL.
  intros [Hw (cs & Hk & Hin & _) Ha [Hne Ht] _] Hfile. apply wp_bind. eapply (renameInCache_wp none d p cs); [exact Hw|done|done|done|by apply alive_open|done..|].
  intros fs1 Hw1 _. by apply wake_safe.
Qed.
(** What was at the new place leaves it. *)
Lemma detach_wp d to t fs (R : unit -> FS -> Prop) : wf none fs -> found fs d to (Some t) -> kids fs t = None \/ kids fs t = Some [] ->
  (forall l1 l2 fs', kids fs d = Some (l1 ++ t :: l2) -> name_of fs t ∉ name_of fs <$> (l1 ++ l2) -> wf none fs' -> unlinked t (l1 ++ l2) fs fs' -> R tt fs') -> wp (detach_target flags env d t) R fs.
Proof using HBL.
  intros Hw Hf Hkt HR. destruct (found_child _ _ _ _ _ _ Hw Hf) as (Ht & Hpar & _). destruct Hf as (cs & Hk & Hin & _). unfold detach_target. apply wp_bind, wp_getS. destruct (isDir fs t) eqn:Ed.
  - eapply doUnlink_wp; [exact Hw|by rewrite Hpar|done|destruct Hkt; auto|]. intros l1 l2 fs' -> Hno Hw' Hu. by eapply HR.
  - apply wp_bind. eapply removeChildUnlocked_wp; [exact Hw|done..|]. intros l1 l2 fs1 -> Hno Hw1 Hr. eapply wp_quiet; [exact Hw1|eapply reset_quiet; [done|by apply Hr]|]. intros _ fs2 Hw2 Hs2.
    eapply wp_mono; [eapply quiet_wf; [exact Hw2|eapply set_state_quiet; [done|by apply Hs2, Hr]]|]. intros [] fs3 [Hw3 Hs3]. eapply HR; [done..|]. exists fs. rewrite Hpar. split; [|by eapply relinked_same, Hs3; eapply relinked_same].
    split; auto.
Qed.
Lemma Rename_target_wp d from d' to p t answers fs (R : option (option error) -> FS -> Prop) :
  wf none fs -> found fs d from (Some p) -> found fs d' to (Some t) -> (is_dir fs t -> ~ below fs t d) -> Forall (answer_ok (limit := limit)) answers ->
  (forall r fs', wf none fs' -> grows (listed fs t) fs fs' -> found fs' d from (Some p) -> found fs' d' to (Some t) ->
    (r = Some None -> kids fs' t = if isDir fs p then Some [] else None) -> R r fs') ->
  wp (Rename_target flags tflags env q0 (isDir fs p) t answers) R fs.
Proof using HBL Hmo.
  intros Hw Hf Hf' Hap Ha HR. unfold Rename_target. apply wp_bind, wp_getS. pose proof (same_grows (listed fs t) _ _ (same_refl fs)) as Hrefl. destruct (isDir fs p).
  - destruct (isDir fs t) eqn:Et; cbn [negb]; [|by apply wp_ret, HR]. apply isDir_true in Et. specialize (Hap Et).
    assert (Hd : ~ listed fs t d) by (intros [?|[Hn _]]; [done|by apply Hn, (parent_alive _ _ _ _ Hw Hf)]). pose proof (found_above _ _ _ _ Hw Hf' Et) as Hd'.
    apply wp_bind. eapply wp_mono; [apply (isEmptyDir_lists _ _ _ _ (listed fs t) fs (listed_closed fs t Hw)); [by apply start| |done]|].
    { split; [by eapply child_alive|left; constructor]. }
    intros r fs' ([Hw' _] & Hg & He). apply wp_ret, HR; [done|done|exact (grows_found _ _ _ _ _ _ Hw Hg Hd Hf)|exact (grows_found _ _ _ _ _ _ Hw Hg Hd' Hf')|]. destruct r as [[[]|]|]; try done. auto.
  - apply wp_ret, HR; [done..|]. destruct (isDir fs t) eqn:Et; [done|]. intros _. by apply isDir_false.
Qed.
Lemma unlinked_staged d from d' to p t l1 l2 fs fs' : wf none fs -> wf none fs' -> found fs d from (Some p) -> found fs d' to (Some t) -> alive fs d' -> to <> [] -> (d, from) <> (d', to) ->
  (is_dir fs p -> ~ below fs p d') -> kids fs d' = Some (l1 ++ t :: l2) -> name_of fs t ∉ name_of fs <$> (l1 ++ l2) -> unlinked t (l1 ++ l2) fs fs' -> staged d from d' to p fs'.
Proof.
  intros Hw Hw' Hf Hf' [Hd' Ha] Hne Hdiff Hap Hk Hno Hu. destruct (found_child _ _ _ _ _ _ Hw Hf') as (_ & Hpar & Hname).
  assert (Hkids : forall e, kids fs' e = if decide (e = d') then Some (l1 ++ l2) else kids fs e) by (intros e; by rewrite (unlinked_kids _ _ _ _ e Hu), Hpar).
  assert (Hdir : forall e, is_dir fs' e <-> is_dir fs e) by (intros e; unfold is_dir; rewrite Hkids; case_decide; [subst; rewrite Hk; split; eauto|done]).
  destruct Hu as (fs1 & [_ Bn Bp _ Bd _ _] & [_ Rn Rp _ Rd _ _]). assert (Hn : forall q, name_of fs' q = name_of fs q) by (intros; by rewrite Rn, Bn).
  split; [done| | |split; [done|]|].
  - destruct Hf as (cs & Hcs & Hin & Hpn). destruct (decide (d = d')) as [-> |Hdd]; [|exists cs; by rewrite Hkids, decide_False, Hn by done].
    exists (l1 ++ l2). rewrite Hkids, decide_True, Hn by done. split_and!; [done| |done]. assert (cs = l1 ++ t :: l2) as -> by congruence. rewrite elem_of_app, elem_of_cons in Hin. rewrite elem_of_app.
    destruct Hin as [?|[-> |?]]; [by left| |by right]. congruence.
  - split; [by apply Hdir|]. intros l Hl%Rd. destruct (Bd _ _ Hl) as [?|[_ ->]]; [by apply (Ha l)|]. apply (lk_order _ (wf_links _ _ _ Hw)) in Hd'. lia.
  - exists (l1 ++ l2). rewrite Hkids, decide_True by done. split; [done|]. rewrite (list_fmap_ext (name_of fs') (name_of fs)) by (intros; apply Hn). by rewrite <- Hname.
  - intros Hp%Hdir Hb. apply (Hap Hp). eapply (below_back fs fs'); [done..| |exact Hb|by left]. intros e _. by rewrite Rp, Bp.
Qed.
(** When the kernel may ask for a rename: not of a directory into itself, and not onto a directory the other is in. *)
Record rename_ok fs d from d' to : Prop := {
  ro_dirs : is_dir fs d /\ alive fs d';
  ro_names : from <> [] /\ to <> [] /\ (d, from) <> (d', to);
  ro_into : forall p, found fs d from (Some p) -> is_dir fs p -> ~ below fs p d';
  ro_onto : forall t, found fs d' to (Some t) -> is_dir fs t -> ~ below fs t d;
}.
Lemma Rename_ok fs d from d' to renamed answers pages : wf none fs -> rename_ok fs d from d' to -> Forall (answer_ok (limit := limit)) answers -> Forall (answer_ok (limit := limit)) pages ->
  safe (limit := limit) flags fs (Rename flags tflags env q0 d from d' to renamed answers pages).
Proof using HBL Hmo.
  intros Hw [[Hd Ha] (Hne & Hne' & Hdiff) Hinto Honto] Hans Hpages. unfold Rename, safe. apply wp_bind. eapply findChildUnlocked_wp; [exact Hw|done|done|]. intros rp Hf.
  apply wp_bind. eapply findChildUnlocked_wp; [exact Hw|apply Ha|done|]. intros rt Hf'. destruct rp as [p|]; [|by apply wp_ret]. apply wp_bind, wp_getS, wp_bind.
  assert (Hgo : forall fs', staged d from d' to p fs' -> (is_dir fs' p <-> is_dir fs p) -> wp (if isDir fs p then mod_dir p (set_listDone false) ;;;
      let! r := Rename_list flags tflags env q0 p [] pages in
      match r with
      | Some None => let! fs' := getS in renameRecursive flags tflags env q0 (depth fs') p d' to renamed ;;; Tree.WakeupFlusher ;;; ret (Some None)
      | _ => ret r
      end else Tree.renameInCache flags env p d' to (renamed p) ;;; Tree.WakeupFlusher ;;; ret (Some None)) (fun _ fs' => wf none fs') fs').
  { intros fs' Hst Hdp. destruct (isDir fs p) eqn:Ep.
    - eapply staged_dir_safe; [exact Hst|by apply Hdp, isDir_true|done].
    - eapply staged_file_safe; [exact Hst|]. destruct (kids fs' p) eqn:Ek; [|done]. assert (is_dir fs p) as Hp%isDir_true by (apply Hdp; by eexists). congruence. }
  destruct rt as [t|].
  - eapply (Rename_target_wp d from d' to); [exact Hw|done..|by apply Honto|done|]. intros r fs1 Hw1 Hg Hf1 Hf1' Hr. destruct r as [[e|]|]; [by apply wp_ret| |by apply wp_ret]. specialize (Hr eq_refl).
    assert (Hdp : is_dir fs1 p <-> is_dir fs p). { split; [apply (gr_file _ _ _ Hg); by eapply found_child|apply (ex_dir _ _ (gr_extends _ _ _ Hg))]. }
    apply wp_bind. eapply detach_wp; [exact Hw1|exact Hf1'|rewrite Hr; destruct (isDir fs p); auto|]. intros l1 l2 fs2 Hk Hno Hw2 Hu. apply Hgo.
    + eapply (unlinked_staged d from d' to p t l1 l2 fs1 fs2); [done..|eapply extends_alive; [apply Hg|done]|done|done| |done|done|done].
      intros Hp1%Hdp Hb. apply (Hinto p Hf Hp1). eapply (below_back fs fs1); [done..| |exact Hb|left; apply Ha]. intros e He. by apply (ex_dir _ _ (gr_extends _ _ _ Hg)).
    + rewrite <- Hdp. destruct (found_child _ _ _ _ _ _ Hw1 Hf1') as (_ & Hpar & _). unfold is_dir. rewrite (unlinked_kids _ _ _ _ p Hu), Hpar. case_decide; [subst; rewrite Hk; split; eauto|done].
  - apply wp_ret, wp_bind, wp_ret. apply Hgo; [|done]. split; try done. by apply Hinto.
Qed.
End rename.
End TreeRename.
