(* ===== verification/TreeSpec.v ===== *)
(** * Runs of the file system

    The calls of the kernel, the answers of the server, the flusher, eviction
    and the turns of the goroutines of all inodes, in any order: [call] lists
    them, [call_ok] says when one can occur, and [reachable] is what a run from
    a new mount can lead to.  The theorems are about every reachable state. *)

From stdpp Require Import strings.
From S2P Require Import Prelude BTree Parts BufferList BufferListInv BufferListView BufferListSpec.
From S2P Require Import Locks Errors ReadAhead Attrs Names Listing Children Inode FileIO Upload Machine Tree Frame.
From S2P Require Import FileSpec FileInv FileSteps RequestSteps MachineSpec TreeInv TreeSteps TreeListing TreeCalls TreeRename.

Module TreeSpec.
Import Errors Names Listing Children BufferList BufferListInv Inode FileIO Upload Machine Frame FileInv FileSteps RequestSteps Tree TreeInv TreeSteps TreeListing TreeCalls TreeRename.

(** ** Calls *)

Inductive call :=
| CFile (p : Z) (a : action)                                       (* on the data of one file *)
| CTask (p : Z) (n : nat) (r : response)                           (* a goroutine gets its answer *)
| CTryFlush (p priority parent : Z) (overDeleted : bool)
| CCreate (d : Z) (name : text) (open : bool)
| CSymlink (d : Z) (name target : text)
| CMkDir (d : Z) (name : text)
| CUnlink (d : Z) (name : text)
| CRmDirStart (d : Z) (name : text)
| CRmDirEnd (d : Z) (name : text)
| CRename (d : Z) (from : text) (d' : Z) (to : text) (renamed : Z -> bool) (answers pages : list list_answer)
| COpenDir (d : Z)
| CCloseDir (h : Z)
| CSeek (h newOffset : Z)
| CReadDir (h : Z)
| CReadDirNext (h : Z) (st : readdir_stage) (a : list_answer)
| CAdvance (h : Z) (name : text)
| CLookUpCached (d : Z) (name : text)
| CLookUp (d : Z) (name : text) (doSlurp : bool)
| CLookUpSlurped (d : Z) (name : text) (expire : Z) (prefix startWith : text) (skip : option (gset text)) (order : list Z) (resp : ListBlobsOutput (A := BlobItem))
| CLookUpInsert (d : Z) (name : text) (skip : option (gset text)) (blob : text * BlobItem)
| CRecheckFailed (d : Z) (stale : option Z)
| CResetDirTime (p : Z)
| CRefresh (d p : Z) (name : text)
| CRefreshDone (window : list (Z * Z)) (d current : Z) (err : option error)
| CFound (p : Z)
| CForget (id n : Z)
| CEvict (id : Z) (busy : bool)
| COthers (now active want : Z).                                   (* time passes *)

Section runs.
Context {M : Type -> Type} `{HBT : BTreeMap M} `{HBL : !BTreeMapLaws M} {Q : Type} `{HQ : BufferListHelpers Q}.
Context {limit : Z} `{HLaws : !BufferListHelpersLaws Q limit}.
Context (flags : Flags) (tflags : TreeFlags) (env : Env) (q0 : Q) `{Hmo : !Mounted limit flags q0}.
Abbreviation FS := (FS M Q).
Abbreviation wf := (wf (limit := limit) flags (fun _ : Z => False)).
Implicit Types (p d h : Z) (fs : FS) (name : text).

Definition run_call (c : call) : St FS unit :=
  match c with
  | CFile p a => on_inode p (run_action flags env a)
  | CTask p n r => task_turn flags env q0 p n r
  | CTryFlush p priority parent overDeleted => Tree.TryFlush flags p priority parent overDeleted ;;; ret tt
  | CCreate d name open => CreateOrOpen flags q0 d name open ;;; ret tt
  | CSymlink d name target => CreateSymlink flags q0 d name target ;;; ret tt
  | CMkDir d name => MkDir flags tflags q0 d name ;;; ret tt
  | CUnlink d name => Unlink flags env d name
  | CRmDirStart d name => RmDir_start flags tflags d name ;;; ret tt
  | CRmDirEnd d name => RmDir_unlink flags env d name
  | CRename d from d' to renamed answers pages => Rename flags tflags env q0 d from d' to renamed answers pages ;;; ret tt
  | COpenDir d => OpenDir flags tflags d ;;; ret tt
  | CCloseDir h => CloseDir h
  | CSeek h newOffset => Tree.Seek h newOffset
  | CReadDir h => ReadDir_start flags tflags h ;;; ret tt
  | CReadDirNext h st a => ReadDir_next flags tflags env q0 h st a ;;; ret tt
  | CAdvance h name => advance h name
  | CLookUpCached d name => LookUpCached flags d name ;;; ret tt
  | CLookUp d name doSlurp => LookUp_start flags tflags d name doSlurp ;;; ret tt
  | CLookUpSlurped d name expire prefix startWith skip order resp => LookUp_slurped flags tflags env q0 d name expire prefix startWith skip order resp ;;; ret tt
  | CLookUpInsert d name skip blob => LookUp_insert flags tflags env q0 d name skip blob ;;; ret tt
  | CRecheckFailed d stale => recheck_failed flags env d stale
  | CResetDirTime p => resetDirTime flags p ;;; ret tt
  | CRefresh d p name => refreshCurrentChild_start d p name ;;; ret tt
  | CRefreshDone window d current err => refreshCurrentChild_done flags env window d current err ;;; ret tt
  | CFound p => LookUpInode_found flags p ;;; ret tt
  | CForget id n => ForgetInode flags env id n
  | CEvict id busy => EvictEntry flags env id busy ;;; ret tt
  | COthers now active want => mod_world (w_others now active want)
  end.

(** When a call can occur.  The kernel uses directories that are not deleted
    and names that are not empty; it unlinks files, and it removes a directory
    that was found empty; it renames no directory into itself.  Pages have the prefix that was asked for. *)
Definition call_ok fs (c : call) : Prop :=
  match c with
  | CFile p a => stays_put a /\ exists nd, nodes fs !! p = Some nd /\ MachineSpec.action_ok (limit := limit) (inode nd) a
  | CTask p n r => exists nd, nodes fs !! p = Some nd /\ MachineSpec.action_ok (limit := limit) (inode nd) (ATask n r)
  | CTryFlush p _ _ _ | CResetDirTime p | CFound p => has fs p
  | CCreate d name _ | CSymlink d name _ | CMkDir d name => alive fs d /\ name <> []
  | CUnlink d name => is_dir fs d /\ name <> [] /\ forall c, found fs d name (Some c) -> kids fs c = None
  | CRmDirEnd d name => is_dir fs d /\ name <> [] /\ ~ found fs d name None /\ forall c, found fs d name (Some c) -> kids fs c = Some []
  | CRename d from d' to _ answers pages => rename_ok fs d from d' to /\ Forall (answer_ok (limit := limit)) answers /\ Forall (answer_ok (limit := limit)) pages
  | CRmDirStart d name | CLookUpCached d name | CLookUp d name _ => is_dir fs d /\ name <> []
  | COpenDir d | CRecheckFailed d _ | CRefresh d _ _ | CRefreshDone _ d _ _ => is_dir fs d
  | CCloseDir h | CAdvance h _ => is_Some (dirHandles fs !! h)
  | CSeek h newOffset => is_Some (dirHandles fs !! h) /\ 0 <= newOffset
  | CReadDir h => exists dh, dirHandles fs !! h = Some dh /\ alive fs (dh_inode dh)
  | CReadDirNext h st a => (exists dh, dirHandles fs !! h = Some dh /\ alive fs (dh_inode dh)) /\ (forall e, st <> RServed e) /\ answer_ok (limit := limit) a
  | CLookUpSlurped d name _ prefix _ _ _ resp => is_dir fs d /\ name <> [] /\ page_fits (limit := limit) (zlen prefix) resp
  | CLookUpInsert d name _ blob => alive fs d /\ name <> [] /\ blob_fits (limit := limit) tflags fs d blob
  | CForget _ _ | CEvict _ _ | COthers _ _ _ => True
  end.

(** A new mount: the root, with its number, and nothing in it. *)
Definition new_world (now : Z) : World := mkWorld 0 ∅ 0 false false false 0 ∅ ∅ now 0.
Definition root_node (w : World) : Node M Q :=
  let a := Attrs.set_meta (Some ∅) 0 (Attrs.set_times (w_clock w) (w_clock w) (dir_attrs flags (new_attrs (attr_flags flags)))) in
  mkNode (set_Size 4096 (set_attrs a (new_inode flags q0 root 0 [] w))) (Some fresh_dir) 1 1.
Definition mounted (now : Z) : FS := mkFS {[root := root_node (new_world now)]} (root + 1) {[1 := root]} 2 0 (new_world now) ∅.
Inductive reachable : FS -> Prop :=
| reach_mount now : reachable (mounted now)
| reach_call fs c fs' : reachable fs -> call_ok fs c -> run_call c fs = Ok (tt, fs') -> reachable fs'.

(** ** Every call keeps the invariant *)

Lemma end_call {A} fs (m : St FS A) : safe (limit := limit) flags fs m -> wp (m ;;; ret tt) (fun _ fs' => wf fs') fs.
Proof. intros Hm. apply wp_bind. eapply wp_mono; [exact Hm|]. intros a fs' Hw. by apply wp_ret. Qed.
Lemma goes_on_safe {A} fs (m : St FS A) : goes_on (limit := limit) flags (fun _ => False) fs m -> safe (limit := limit) flags fs m.
Proof. intros Hm. eapply wp_mono; [exact Hm|]. by intros a fs' [? _]. Qed.
Lemma run_call_ok fs c : wf fs -> call_ok fs c -> wp (run_call c) (fun _ fs' => wf fs') fs.
Proof using HBL Hmo.
  intros Hw. destruct c; cbn [run_call call_ok]; intros Hc; try apply end_call.
  - destruct Hc as (Hp & nd & E & Ha). by eapply file_action_ok.
  - destruct Hc as (nd & E & Ha). by eapply task_turn_ok.
  - by apply (TryFlush_safe _ q0).
  - destruct Hc. apply goes_on_safe, CreateOrOpen_ok; [done|done|by apply alive_open|done].
  - destruct Hc. apply goes_on_safe, CreateSymlink_ok; [done|done|by apply alive_open|done].
  - destruct Hc. apply goes_on_safe, MkDir_ok; [done|done|by apply alive_open|done].
  - destruct Hc as (? & ? & ?). by apply Unlink_ok.
  - destruct Hc. by apply RmDir_start_ok.
  - destruct Hc as (? & ? & ? & ?). by apply RmDir_unlink_ok.
  - destruct Hc as (? & ? & ?). by apply Rename_ok.
  - by apply OpenDir_ok.
  - destruct Hc as [dh ?]. by eapply CloseDir_ok.
  - destruct Hc as [[dh ?] ?]. by eapply Seek_ok.
  - destruct Hc as (dh & ? & ?). by eapply ReadDir_start_ok.
  - destruct Hc as ((dh & ? & ?) & ? & ?). by eapply ReadDir_next_ok.
  - destruct Hc as [dh ?]. by eapply advance_wf.
  - destruct Hc. by apply LookUpCached_ok.
  - destruct Hc. by apply LookUp_start_ok.
  - destruct Hc as (? & ? & ?). by apply LookUp_slurped_ok.
  - destruct Hc as (? & ? & ?). by apply LookUp_insert_ok.
  - by apply recheck_failed_ok.
  - by apply resetDirTime_ok.
  - by apply refreshCurrentChild_start_ok.
  - by apply refreshCurrentChild_done_ok.
  - by apply LookUpInode_found_ok.
  - by apply ForgetInode_ok.
  - by apply EvictEntry_ok.
  - apply wp_modS. destruct Hw as [[] [] ? ? ?]. split; [by split|by split|done..].
Qed.
Lemma root_node_ok w : node_ok (limit := limit) flags (root + 1) root (root_node w) /\ placed (fun _ => False) (inode (root_node w)).
Proof using HBL Hmo.
  assert (Hop : MachineSpec.opened (limit := limit) (inode (root_node w))).
  { apply sized_opened; [pose proof mo_room; lia|]. exact (new_inode_opened flags q0 root 0 [] w). }
  assert (Hself : self (inode (root_node w)) = root) by reflexivity. assert (Ht : tasks (inode (root_node w)) = []) by reflexivity.
  assert (Ho : oldLoc (inode (root_node w)) = None) by reflexivity. assert (Hd : dir (root_node w) = Some fresh_dir) by reflexivity. assert (Hid : Id (root_node w) = 1) by reflexivity.
  generalize dependent (root_node w). intros nd Hop Hself Ht Ho Hd Hid. split; [|split; [by rewrite Ho|by rewrite Ht]].
  split; [unfold root; lia|done| |rewrite Hd; by intros di [= <-]|done]. eapply MachineSpec.opened_ok; [apply mo_mount|exact Hop|done].
Qed.
Lemma mounted_wf now : wf (mounted now).
Proof using HBL Hmo.
  destruct (root_node_ok (new_world now)) as [Hok Hpl].
  assert (Hd : dir (root_node (new_world now)) = Some fresh_dir) by done. assert (Hp : (loc (inode (root_node (new_world now)))).1 = 0) by done.
  unfold mounted. set (w := new_world now) in *. assert (Hl : w_DeletedChildren w = ∅) by done. clearbody w. set (nd := root_node w) in *. clearbody nd.
  match goal with |- wf ?f => set (fs := f) end.
  assert (Hn : forall p nd', nodes fs !! p = Some nd' -> p = root /\ nd' = nd) by (intros p nd'; cbn; by intros [<- <-]%lookup_singleton_Some).
  assert (Hk : forall d cs, kids fs d = Some cs -> d = root /\ cs = []).
  { intros d cs. unfold kids, at_node. destruct (nodes fs !! d) as [nd'|] eqn:E; [|done]. destruct (Hn d nd' E) as [-> ->]. rewrite Hd. by intros [= <-]. }
  assert (Hroot : nodes fs !! root = Some nd) by apply lookup_singleton_eq. assert (Hdl : forall l, dels fs !! l = None) by (intros l; unfold dels; cbn; by rewrite Hl).
  assert (Hpar : parent_of fs root = 0) by (unfold parent_of, at_node; by rewrite Hroot).
  split; [split| | | |].
  - intros p nd' E. by destruct (Hn p nd' E) as [-> ->].
  - cbn. intros id p [_ <-]%lookup_singleton_Some. by exists nd.
  - intros p nd' E. destruct (Hn p nd' E) as [-> ->]. by eapply placed_mono; [|exact Hpl].
  - split.
    + intros p [nd' E]. destruct (Hn p nd' E) as [-> _]. by left.
    + intros d [cs E]. destruct (Hk d cs E) as [-> _]. by rewrite Hpar.
    + intros d cs E. destruct (Hk d cs E) as [_ ->]. split; [constructor|apply not_elem_of_nil].
    + intros d cs c E. destruct (Hk d cs E) as [_ ->]. by intros ?%elem_of_nil.
    + intros p [nd' E] _. by destruct (Hn p nd' E) as [-> _].
  - intros d name p E. by rewrite Hdl in E.
  - intros h dh E. cbn in E. by rewrite lookup_empty in E.
  - split; [split|done]; [|intros l E; by rewrite Hdl in E]. exists []. unfold kids, at_node. by rewrite Hroot, Hd.
Qed.
Lemma reachable_wf fs : reachable fs -> wf fs.
Proof using HBL Hmo.
  induction 1 as [w|fs c fs' _ IH Hc Hrun]; [apply mounted_wf|]. pose proof (run_call_ok fs c IH Hc) as Hm. apply wp_run in Hm as (u & fs2 & E & Hw). congruence.
Qed.
Lemma below_root fs : wf fs -> forall d, is_dir fs d -> below fs root d.
Proof.
  intros Hw d. induction (Z.lt_wf 0 d) as [d _ IH]. intros Hd. pose proof (lk_order _ (wf_links _ _ _ Hw) d Hd) as Hlt. destruct (lk_parent _ (wf_links _ _ _ Hw) d (is_dir_has _ _ Hd)) as [E|Hp].
  - rewrite (lk_root _ (wf_links _ _ _ Hw) d (is_dir_has _ _ Hd) E). constructor.
  - apply below_child; [done|]. apply IH; [lia|done].
Qed.

(** C3: From the mount on, on mounts without PATCH and disk cache, no sequence
    of kernel calls, server answers, flusher turns, goroutine turns and
    evictions on the whole tree makes the file system panic or loop: in every
    reachable state every call that can occur ([call_ok]) returns. This covers
    creation, removal, lookups, listings of a directory page by page, forgetting
    and eviction, and renaming whole directories. The kernel passes non-empty
    names, directories and handles that exist, unlinks files and renames no
    directory into itself; the directory that is removed is still there, and
    empty, when the removal ends; pages have the prefix that was asked for and
    sizes within the limit; actions on files are those of [action_ok]. *)
Theorem tree_never_panics fs c : reachable fs -> call_ok fs c -> exists fs', run_call c fs = Ok (tt, fs').
Proof using HBL Hmo.
  intros Hr Hc. pose proof (run_call_ok fs c (reachable_wf fs Hr) Hc) as Hm. apply wp_run in Hm as ([] & fs' & E & _). by exists fs'.
Qed.

(** C4: In every reachable state the directories form a tree: each is below the
    root and none below itself; its children are in strictly ascending order of
    their names, none of them empty, and have it as their parent; a directory
    that counts as deleted is empty and no child of its parent; inode numbers
    and directory handles refer to inodes that exist. *)
Theorem tree_shape fs : reachable fs ->
  (forall d, is_dir fs d -> below fs root d /\ ~ below fs d (parent_of fs d)) /\
  (forall d cs, kids fs d = Some cs -> StronglySorted text_lt (name_of fs <$> cs) /\ ([] ∉ name_of fs <$> cs) /\ forall c, c ∈ cs -> has fs c /\ parent_of fs c = d) /\
  (forall d name p, w_DeletedChildren (world fs) !! (d, name) = Some p -> is_dir fs p ->
    parent_of fs p = d /\ name_of fs p = name /\ kids fs p = Some [] /\ forall cs, kids fs d = Some cs -> p ∉ cs) /\
  (forall id p, inodes fs !! id = Some p -> has fs p) /\
  (forall h dh, dirHandles fs !! h = Some dh -> is_dir fs (dh_inode dh)).
Proof using HBL Hmo.
  intros Hw%reachable_wf. split_and!.
  - intros d Hd. split; [by apply below_root|]. intros Hb. apply (below_order flags) in Hb; [|done]. apply (lk_order _ (wf_links _ _ _ Hw)) in Hd. lia.
  - intros d cs Hk. destruct (lk_sorted _ (wf_links _ _ _ Hw) d cs Hk) as [Hs Hno]. split_and!; [done|done|]. intros c. by apply (lk_child _ (wf_links _ _ _ Hw)).
  - intros d name p Hl [cs Hk]. destruct (wf_tombs _ _ _ Hw d name p Hl) as [_ Ht]. by destruct (Ht cs Hk) as (? & ? & [[]|[-> ?]]).
  - apply (hp_numbers _ _ (wf_heap _ _ _ Hw)).
  - apply (wf_handles _ _ _ Hw).
Qed.
End runs.
End TreeSpec.
