(* ===== verification/TreeEntries.v ===== *)
(** * The name space

    Seen from outside, the tree is a relation between a directory, a name and
    an inode.  The calls that change the tree are specified on this relation:
    creating a file, a link or a directory adds one entry, unlinking and
    removing takes one away, renaming a file moves one, and a call that is
    refused changes nothing. *)

From stdpp Require Import strings.
From S2P Require Import Prelude BTree Parts BufferList BufferListInv BufferListView BufferListSpec.
From S2P Require Import Locks Errors ReadAhead Attrs Names Listing Children Inode FileIO Upload Machine Tree Frame.
From S2P Require Import FileSpec FileInv FileSteps RequestSteps MachineSpec TreeInv TreeSteps TreeListing TreeCalls TreeRename TreeSpec.

Module TreeEntries.
Import Errors Names Listing Children BufferList BufferListInv Inode FileIO Upload Machine Frame FileInv FileSteps RequestSteps Tree TreeInv TreeSteps TreeListing TreeCalls TreeRename TreeSpec.

Section entries.
Context {M : Type -> Type} `{HBT : BTreeMap M} `{HBL : !BTreeMapLaws M} {Q : Type} `{HQ : BufferListHelpers Q}.
Context {limit : Z} `{HLaws : !BufferListHelpersLaws Q limit}.
Context (flags : Flags) (tflags : TreeFlags) (env : Env) (q0 : Q) `{Hmo : !Mounted limit flags q0}.
Abbreviation FS := (FS M Q).
Abbreviation wf := (wf (limit := limit) flags (fun _ : Z => False)).
Abbreviation reachable := (reachable (limit := limit) flags tflags env q0).
Implicit Types (p d c e q t : Z) (fs : FS) (name n : text).

(** The directory [d] has the entry [name], the inode [c]. *)
Definition entry fs d name c : Prop := found fs d name (Some c).
(** The entries of the directories of [fs] change in one place. *)
Definition adds d name c fs fs' : Prop := forall e n q, is_dir fs e -> (entry fs' e n q <-> entry fs e n q \/ e = d /\ n = name /\ q = c).
Definition drops d name fs fs' : Prop := forall e n q, entry fs' e n q <-> entry fs e n q /\ (e, n) <> (d, name).

Lemma entry_same fs fs' d name c : same fs fs' -> (entry fs' d name c <-> entry fs d name c).
Proof. intros Hs. unfold entry, found. by rewrite (sm_kids _ _ Hs), (sm_name _ _ Hs). Qed.
Lemma adds_same d name c fs fs' fs'' : adds d name c fs fs' -> same fs' fs'' -> adds d name c fs fs''.
Proof. intros Ha Hs e n q He. rewrite (entry_same _ _ e n q Hs). by apply Ha. Qed.
Lemma same_drops d name fs fs' fs'' : same fs fs' -> drops d name fs' fs'' -> drops d name fs fs''.
Proof. intros Hs Hd e n q. by rewrite (Hd e n q), (entry_same _ _ _ _ _ Hs). Qed.
Lemma drops_same d name fs fs' fs'' : drops d name fs fs' -> same fs' fs'' -> drops d name fs fs''.
Proof. intros Ha Hs e n q. rewrite (entry_same _ _ e n q Hs). apply Ha. Qed.
Lemma entry_unique fs d name c c' : wf fs -> entry fs d name c -> entry fs d name c' -> c = c'.
Proof. apply found_unique. Qed.
Lemma entry_none fs d name c : found fs d name None -> ~ entry fs d name c.
Proof. intros (cs & Hk & Hno) (cs' & Hk' & Hin & <-). assert (cs' = cs) as -> by congruence. by apply Hno, list_elem_of_fmap_2. Qed.
Lemma found_cases fs d name : is_dir fs d -> found fs d name None \/ exists c, entry fs d name c.
Proof.
  intros [cs Hk]. destruct (decide (name ∈ name_of fs <$> cs)) as [(c & -> & Hc)%list_elem_of_fmap|]; [right; by exists c, cs|left; by exists cs].
Qed.
Lemma added_adds p d name fs fs' : wf fs -> added p d name fs fs' -> (forall c n, ~ entry fs p n c) -> (forall c n, ~ entry fs' p n c) -> adds d name p fs fs'.
Proof.
  intros Hw [_ Ho (Hp & Hpar & Hname) (l1 & l2 & Hk & Hk') Hot _ _] Hold Hnew e n q He.
  assert (Hkeep : forall es, kids fs e = Some es -> q ∈ es -> name_of fs' q = name_of fs q) by (intros es Hes Hin; apply Ho; by apply (lk_child _ (wf_links _ _ _ Hw) e es)).
  destruct (decide (e = p)) as [-> |Hep]; [split; [by intros ?%Hnew|intros [?%Hold|(Epd & _)]; [done|]]|].
  { exfalso. apply (Hnew p name). exists (l1 ++ p :: l2). rewrite <- Epd in Hk'. split_and!; [done|rewrite elem_of_app, elem_of_cons; tauto|done]. }
  destruct (decide (e = d)) as [-> |Hed].
  - unfold entry, found. split.
    + intros (cs & Hcs & Hin & Hn). assert (cs = l1 ++ p :: l2) as -> by congruence. rewrite elem_of_app, elem_of_cons in Hin. destruct (decide (q = p)) as [-> |]; [right; by rewrite <- Hn|left].
      assert (Hq : q ∈ l1 ++ l2) by (rewrite elem_of_app; tauto). exists (l1 ++ l2). by rewrite <- (Hkeep _ Hk Hq).
    + intros [(cs & Hcs & Hin & Hn)|(_ & -> & ->)]; exists (l1 ++ p :: l2); (split; [done|]); rewrite elem_of_app, elem_of_cons; [|tauto].
      rewrite (Hkeep cs) by done. assert (cs = l1 ++ l2) as -> by congruence. rewrite elem_of_app in Hin. tauto.
  - unfold entry, found. rewrite Hot by (done || eauto with tree). split; [intros (cs & Hcs & Hin & Hn); left; exists cs; by rewrite <- (Hkeep cs)|].
    intros [(cs & Hcs & Hin & Hn)|(? & _)]; [|done]. exists cs. by rewrite (Hkeep cs).
Qed.
Lemma added_fresh p d name fs fs' : wf fs -> wf fs' -> added p d name fs fs' -> found fs d name None -> forall e n, ~ entry fs e n p.
Proof.
  intros Hw Hw' [_ Ho (Hp & Hpar & Hname) _ _ _ _] Hf e n He. destruct (found_child _ _ _ _ _ _ Hw He) as (Hhp & Hpe & Hn). destruct (Ho p Hhp) as [En Ep].
  apply (entry_none fs d name p Hf). by rewrite <- Hpar, Ep, Hpe, <- Hname, En, Hn.
Qed.
Lemma unlinked_drops p l1 l2 fs fs' : wf fs -> kids fs (parent_of fs p) = Some (l1 ++ p :: l2) -> unlinked p (l1 ++ l2) fs fs' -> drops (parent_of fs p) (name_of fs p) fs fs'.
Proof.
  intros Hw Hk Hu e n q. pose proof (unlinked_kids _ _ _ _ e Hu) as Hkids. destruct Hu as (fs1 & [_ Bn _ _ _ _ _] & [_ Rn _ _ _ _ _]).
  assert (Hp : entry fs (parent_of fs p) (name_of fs p) p) by (exists (l1 ++ p :: l2); split_and!; [done|rewrite elem_of_app, elem_of_cons; tauto|done]).
  unfold entry at 1, found. rewrite Hkids, Rn, Bn. case_decide as Ee; [subst e|].
  - split.
    + intros (cs & [= <-] & Hin & <-). assert (Hq : entry fs (parent_of fs p) (name_of fs q) q).
      { exists (l1 ++ p :: l2). split_and!; [done| |done]. rewrite elem_of_app, elem_of_cons. rewrite elem_of_app in Hin. tauto. }
      split; [done|]. intros [= En]. rewrite En in Hq. rewrite (entry_unique _ _ _ _ _ Hw Hq Hp) in Hin. by apply (child_once _ _ _ _ _ _ _ _ Hw Hk eq_refl).
    + intros [(cs & Hcs & Hin & <-) Hne]. exists (l1 ++ l2). split_and!; [done| |done]. assert (cs = l1 ++ p :: l2) as -> by congruence. rewrite elem_of_app, elem_of_cons in Hin. rewrite elem_of_app.
      destruct Hin as [?|[-> |?]]; [tauto|congruence|tauto].
  - split; [intros (cs & ? & ? & ?); split; [by exists cs|congruence]|]. intros [(cs & ? & ? & ?) _]. by exists cs.
Qed.
(** One entry moves, and replaces what was there. *)
Definition replaces d from d' to p fs fs' : Prop :=
  forall e n q, entry fs' e n q <-> entry fs e n q /\ (e, n) <> (d, from) /\ (e, n) <> (d', to) \/ e = d' /\ n = to /\ q = p.
Lemma shifted_kids p s d name fs fs' e q : wf fs -> shifted p s d name fs fs' ->
  (exists cs, kids fs' e = Some cs /\ q ∈ cs) <-> (q <> p /\ exists cs, kids fs e = Some cs /\ q ∈ cs) \/ q = p /\ e = d.
Proof.
  intros Hw (l1 & l2 & m1 & m2 & fs1 & fs2 & Hk & [_ _ _ Rk _ _ _] & [_ _ _ Lk _ _ _] & Hm & [_ _ _ Tk _ _ _]). pose proof (child_once _ _ _ _ _ _ _ _ Hw Hk eq_refl) as Hno.
  assert (Honly : forall e' cs, kids fs e' = Some cs -> p ∈ cs -> e' = s).
  { intros e' cs Hcs Hin. destruct (lk_child _ (wf_links _ _ _ Hw) e' cs p Hcs Hin) as [_ <-]. apply (lk_child _ (wf_links _ _ _ Hw) s (l1 ++ p :: l2)); [done|]. rewrite elem_of_app, elem_of_cons. tauto. }
  assert (Hmid : (exists cs, kids fs2 e = Some cs /\ q ∈ cs) <-> q <> p /\ exists cs, kids fs e = Some cs /\ q ∈ cs).
  { rewrite Lk, Rk. case_decide as Ee; [subst e; rewrite Hk; split|].
    - intros (cs & [= <-] & Hin). split; [by intros ->|]. eexists. split; [done|]. rewrite elem_of_app, elem_of_cons. rewrite elem_of_app in Hin. tauto.
    - intros [Hq (cs & [= <-] & Hin)]. eexists. split; [done|]. rewrite elem_of_app, elem_of_cons in Hin. rewrite elem_of_app. tauto.
    - split; [intros (cs & Hcs & Hin)|by intros [_ ?]]. split; [|by exists cs]. intros ->. by apply Ee, (Honly e cs). }
  rewrite Tk. case_decide as Ed; [subst e|].
  - rewrite <- Hmid, Hm. split.
    + intros (cs & [= <-] & Hin). rewrite elem_of_app, elem_of_cons in Hin. destruct (decide (q = p)) as [-> |]; [by right|left]. eexists. split; [done|]. rewrite elem_of_app. tauto.
    + intros Hc. eexists. split; [done|]. rewrite elem_of_app, elem_of_cons. destruct Hc as [(cs & [= <-] & Hin)|[-> _]]; [rewrite elem_of_app in Hin; tauto|tauto].
  - rewrite <- Hmid. split; [by left|]. by intros [?|[_ ?]].
Qed.
Lemma shifted_replaces p s d name fs fs' : wf fs -> shifted p s d name fs fs' -> entry fs s (name_of fs p) p -> found fs d name None -> (s, name_of fs p) <> (d, name) ->
  replaces s (name_of fs p) d name p fs fs'.
Proof.
  intros Hw Hsh Hp Hf Hdiff e n q. pose proof (shifted_kids _ _ _ _ _ _ e q Hw Hsh) as Hk.
  assert (Hn : forall q', name_of fs' q' = if decide (q' = p) then name else name_of fs q').
  { intros q'. destruct Hsh as (l1 & l2 & m1 & m2 & fs1 & fs2 & _ & [_ Rn _ _ _ _ _] & [_ Ln _ _ _ _ _] & _ & [_ Tn _ _ _ _ _]). by rewrite Tn, Ln, Rn. }
  assert (Hin : entry fs' e n q <-> (exists cs, kids fs' e = Some cs /\ q ∈ cs) /\ name_of fs' q = n) by (unfold entry, found; naive_solver).
  rewrite Hin, Hk, Hn. destruct (decide (q = p)) as [-> |Hqp].
  - split; [intros [[[? _]|[_ ->]] <-]; [done|by right]|]. intros [(He & Hne & _)|(-> & -> & _)]; [|auto]. exfalso. apply Hne.
    destruct (found_child _ _ _ _ _ _ Hw He) as (_ & <- & <-). destruct (found_child _ _ _ _ _ _ Hw Hp) as (_ & -> & _). done.
  - split.
    + intros [[[_ (cs & Hcs & Hq)]|[? _]] Hnq]; [left|done]. assert (He : entry fs e n q) by (by exists cs). split_and!; [done|intros [= -> ->]; by apply Hqp, (entry_unique fs s (name_of fs p))|].
      intros [= -> ->]. by apply (entry_none fs d name q).
    + intros [((cs & Hcs & Hq & Hnq) & _)|(_ & _ & ?)]; [|done]. split; [left; eauto|done].
Qed.
Lemma replaces_same d from d' to p fs fs' fs'' : replaces d from d' to p fs fs' -> same fs' fs'' -> replaces d from d' to p fs fs''.
Proof. intros Ha Hs e n q. rewrite (entry_same _ _ e n q Hs). apply Ha. Qed.
Lemma rename_file_wp fs d from d' to p renamed answers pages : wf fs -> rename_ok fs d from d' to -> entry fs d from p -> kids fs p = None ->
  (forall t, entry fs d' to t -> kids fs t = None) ->
  wp (Rename flags tflags env q0 d from d' to renamed answers pages) (fun r fs' => r = Some None /\ replaces d from d' to p fs fs') fs.
Proof using HBL.
  intros Hw [[Hd Ha] (Hne & Hne' & Hdiff) Hinto _] Hp Hfile Ht. destruct (found_child _ _ _ _ _ _ Hw Hp) as (_ & Hpar & Hname). assert (Ei : isDir fs p = false).
  { destruct (isDir fs p) eqn:E; [|done]. apply isDir_true in E as [? ?]. congruence. }
  unfold Rename. apply wp_bind. eapply findChildUnlocked_wp; [exact Hw|done|done|]. intros [p'|] Hf; [|by destruct (entry_none _ _ _ _ Hf Hp)].
  rewrite (entry_unique _ _ _ _ _ Hw Hf Hp). apply wp_bind. eapply findChildUnlocked_wp; [exact Hw|apply Ha|done|]. intros rt Hf'. apply wp_bind, wp_getS, wp_bind. rewrite Ei.
  assert (Hgo : forall fs1, staged (limit := limit) flags d from d' to p fs1 -> kids fs1 p = None -> (forall e n q, entry fs1 e n q <-> entry fs e n q /\ (e, n) <> (d', to)) ->
    wp (Tree.renameInCache flags env p d' to (renamed p) ;;; Tree.WakeupFlusher ;;; ret (Some (@None error))) (fun r fs' => r = Some None /\ replaces d from d' to p fs fs') fs1).
  { intros fs1 [Hw1 Hp1 Ha1 [_ Hf1] _] Hk1 He1. destruct (found_child _ _ _ _ _ _ Hw1 Hp1) as (_ & Hpar1 & Hname1). destruct Hp1 as (cs & Hcs & Hin & Hn1).
    apply wp_bind. eapply (renameInCache_wp _ env (fun _ => False) d p cs); [exact Hw1|done|done|done|by apply alive_open|done..|]. intros fs2 Hw2 Hsh.
    eapply wp_quiet; [exact Hw2|by eapply WakeupFlusher_quiet|]. intros _ fs3 _ Hs3. apply wp_ret. split; [done|]. eapply replaces_same; [|exact Hs3]. intros e n q.
    assert (Hrep : replaces d (name_of fs1 p) d' to p fs1 fs2) by (apply shifted_replaces; [done..|by exists cs|done|congruence]). rewrite (Hrep e n q), Hname1, He1. tauto. }
  destruct rt as [t|].
  - pose proof (Ht t Hf') as Hkt. unfold Rename_target. apply wp_bind, wp_getS. assert (isDir fs t = false) as ->.
    { destruct (isDir fs t) eqn:E; [|done]. apply isDir_true in E as [? ?]. congruence. }
    apply wp_ret, wp_bind. eapply detach_wp; [exact Hw|exact Hf'|by left|]. intros l1 l2 fs1 Hk Hno Hw1 Hu. destruct (found_child _ _ _ _ _ _ Hw Hf') as (_ & Hpt & Hnt). apply Hgo.
    + eapply (unlinked_staged _ d from d' to p t l1 l2 fs fs1); try done. by apply Hinto.
    + rewrite (unlinked_kids _ _ _ _ p Hu), decide_False; [done|]. rewrite Hpt. intros ->. destruct Ha as [[? ?] _]. congruence.
    + intros e n q. rewrite <- Hnt, <- Hpt. apply (unlinked_drops t l1 l2 fs fs1 Hw); [by rewrite Hpt|done].
  - apply wp_ret, wp_bind, wp_ret, Hgo; [|done|].
    + split; try done. by apply Hinto.
    + intros e n q. split; [|by intros [? _]]. intros He. split; [done|]. intros [= -> ->]. by apply (entry_none fs d' to q).
Qed.
Lemma MkDir_adds fs d name : wf fs -> alive fs d -> name <> [] -> found fs d name None ->
  wp (MkDir flags tflags q0 d name) (fun r fs' => exists p, r = inl p /\ adds d name p fs fs' /\ kids fs' p = Some [] /\ forall e n, ~ entry fs e n p) fs.
Proof using HBL Hmo.
  intros Hw Ha Hne Hf. unfold MkDir. apply wp_bind. eapply findChildUnlocked_wp; [exact Hw|apply Ha|done|]. intros [c|] Hc; [by destruct (entry_none _ _ _ _ Hf Hc)|]. apply wp_bind.
  eapply doMkDir_wp; [done|exact Hw|done|done|by apply alive_open|]. intros p fs1 Hw1 (Had & (k & Hk & [-> |[]]) & Hnew).
  eapply wp_quiet; [exact Hw1|by eapply WakeupFlusher_quiet|]. intros _ fs2 _ Hs2. apply wp_ret. exists p. split_and!; [done| |by rewrite (sm_kids _ _ Hs2)|by eapply added_fresh].
  eapply adds_same; [|exact Hs2]. apply added_adds; [done..| |].
  - intros c n (cs & Hcs & Hin & _). destruct Hnew as [Hn|[_ Hl]]; [by apply Hn, is_dir_has; exists cs|]. destruct (wf_tombs _ _ _ Hw d name p Hl) as [_ Ht]. destruct (Ht cs Hcs) as (_ & _ & [[]|[-> _]]). by apply not_elem_of_nil in Hin.
  - intros c n (cs & Hcs & Hin & _). assert (cs = []) as -> by congruence. by apply not_elem_of_nil in Hin.
Qed.
Lemma create_adds fs d name p fs1 : wf fs -> wf fs1 -> found fs d name None -> added p d name fs fs1 -> kids fs1 p = None -> adds d name p fs fs1 /\ forall e n, ~ entry fs e n p.
Proof.
  intros Hw Hw1 Hf Had Hk. split; [|by eapply added_fresh]. apply added_adds; [done..| |].
  - intros c n (cs & Hcs & _). destruct (ex_dir _ _ (ad_extends _ _ _ _ _ Had) p) as ([? ?] & _); [by exists cs|]. congruence.
  - intros c n (cs & Hcs & _). congruence.
Qed.
(** What a creation returns: the entry that is added, empty and new. *)
Definition creates {A} d name (k : option (list Z)) (m : St FS (Z + A)) fs : Prop :=
  exists p fs', m fs = Ok (inl p, fs') /\ adds d name p fs fs' /\ kids fs' p = k /\ forall e n, ~ entry fs e n p.
Lemma creates_wp {A} d name k (m : St FS (Z + A)) fs :
  wp m (fun r fs' => exists p, r = inl p /\ adds d name p fs fs' /\ kids fs' p = k /\ forall e n, ~ entry fs e n p) fs -> creates d name k m fs.
Proof. intros Hm. apply wp_run in Hm as (r & fs' & E & p & -> & ?). by exists p, fs'. Qed.
Lemma find_refuses {A} d name c (k : option Z -> St FS A) r fs : wf fs -> name <> [] -> entry fs d name c -> k (Some c) fs = Ok (r, fs) -> bind (Tree.findChildUnlocked d name) k fs = Ok (r, fs).
Proof.
  intros Hw Hne Hc Hk. assert (Hd : is_dir fs d) by (destruct Hc as (cs & ? & _); by exists cs).
  assert (Hm : wp (Tree.findChildUnlocked d name) (fun r fs' => r = Some c /\ fs' = fs) fs).
  { eapply findChildUnlocked_wp; [exact Hw|done|done|]. intros [c'|] Hf; [|by destruct (entry_none _ _ _ _ Hf Hc)]. split; [|done]. f_equal. by apply (entry_unique fs d name). }
  apply wp_run in Hm as (r' & fs' & E & -> & ->). unfold bind. by rewrite E.
Qed.

(** C17: In every reachable state, creating a directory, a symbolic link or a
    file in a directory that is not deleted and has no entry of that name
    succeeds, with an inode that was nowhere before; it adds exactly this
    entry to the name space, and a new directory is empty, also when a deleted
    one of this name comes back.  When there is an entry of that name the calls
    return EEXIST and change nothing. *)
Theorem creation_adds_entry fs d name target : reachable fs -> alive fs d -> name <> [] ->
  (found fs d name None ->
    creates d name (Some []) (MkDir flags tflags q0 d name) fs /\
    creates d name None (CreateSymlink flags q0 d name target) fs /\
    forall open, creates d name None (CreateOrOpen flags q0 d name open) fs) /\
  forall c, entry fs d name c ->
    MkDir flags tflags q0 d name fs = Ok (inr EEXIST, fs) /\
    CreateSymlink flags q0 d name target fs = Ok (inr EEXIST, fs) /\
    CreateOrOpen flags q0 d name false fs = Ok (inr EEXIST, fs).
Proof using HBL Hmo.
  intros Hw%reachable_wf Ha Hne; [|done]. split; [intros Hf; split_and!|].
  - by apply creates_wp, MkDir_adds.
  - apply creates_wp. unfold CreateSymlink. apply wp_bind. eapply findChildUnlocked_wp; [exact Hw|apply Ha|done|]. intros [c|] Hc; [by destruct (entry_none _ _ _ _ Hf Hc)|].
    apply wp_bind. eapply create_wp; [done|exact Hw|done|done|by apply alive_open|]. intros p fs1 Hw1 Had Hk. destruct (create_adds _ _ _ _ _ Hw Hw1 Hf Had Hk) as [Hadd Hnew].
    destruct (added_kids _ _ _ _ _ Had (proj1 Ha)) as (_ & Hd1 & _). eapply wp_quiet; [exact Hw1|by eapply touch_quiet|]. intros _ fs2 _ Hs2. apply wp_ret. exists p.
    split_and!; [done|by eapply adds_same|by rewrite (sm_kids _ _ Hs2)|done].
  - intros open. apply creates_wp. unfold CreateOrOpen. apply wp_bind. eapply findChildUnlocked_wp; [exact Hw|apply Ha|done|]. intros [c|] Hc; [by destruct (entry_none _ _ _ _ Hf Hc)|].
    apply wp_bind. eapply create_wp; [done|exact Hw|done|done|by apply alive_open|]. intros p fs1 Hw1 Had Hk. destruct (create_adds _ _ _ _ _ Hw Hw1 Hf Had Hk) as [Hadd Hnew].
    destruct (added_kids _ _ _ _ _ Had (proj1 Ha)) as (Hp1 & Hd1 & _). eapply wp_quiet; [exact Hw1|by eapply modS_quiet|]. intros _ fs2 Hw2 Hs2.
    eapply wp_quiet; [exact Hw2|by eapply addModified_quiet|]. intros _ fs3 Hw3 Hs3. pose proof (same_trans _ _ _ Hs2 Hs3) as T3.
    eapply wp_quiet; [exact Hw3|eapply touch_quiet; [done|by apply T3]|]. intros _ fs4 _ Hs4. pose proof (same_trans _ _ _ T3 Hs4) as T4. apply wp_ret. exists p.
    split_and!; [done|by eapply adds_same|by rewrite (sm_kids _ _ T4)|done].
  - intros c Hc. split_and!; by eapply find_refuses.
Qed.

Lemma doUnlink_drops fs d name c : wf fs -> entry fs d name c -> kids fs c = None \/ kids fs c = Some [] ->
  wp (Tree.doUnlink flags env c ;;; Tree.WakeupFlusher) (fun _ fs' => drops d name fs fs' /\ has fs' c) fs.
Proof using HBL.
  intros Hw Hc Hk. destruct (found_child _ _ _ _ _ _ Hw Hc) as (Hh & Hp & Hn). pose proof Hc as (cs & Hcs & Hin & _). apply wp_bind.
  eapply doUnlink_wp; [exact Hw|by rewrite Hp|done|destruct Hk; auto|]. intros l1 l2 fs1 Ecs _ Hw1 Hu.
  eapply wp_mono; [eapply quiet_wf; [exact Hw1|by eapply WakeupFlusher_quiet]|]. intros _ fs2 [_ Hs2]. split; [|by apply Hs2, (unlinked_at _ _ _ _ c Hu)].
  eapply drops_same; [|exact Hs2]. rewrite <- Hp, <- Hn. apply (unlinked_drops c l1 l2 fs fs1 Hw); [by rewrite Hp, Hcs, Ecs|done].
Qed.
(** C19: In every reachable state, unlinking a file and removing a directory that
    was found to be empty take exactly this entry out of the name space; the
    inode itself stays for those who have it open. *)
Theorem removal_drops_entry fs d name c : reachable fs -> name <> [] -> entry fs d name c ->
  (kids fs c = None -> exists fs', Unlink flags env d name fs = Ok (tt, fs') /\ drops d name fs fs' /\ has fs' c) /\
  (kids fs c = Some [] -> exists fs', RmDir_unlink flags env d name fs = Ok (tt, fs') /\ drops d name fs fs' /\ has fs' c).
Proof using HBL Hmo.
  intros Hw%reachable_wf Hne Hc; [|done]. assert (Hd : is_dir fs d) by (destruct Hc as (cs & ? & _); by exists cs).
  assert (Hgo : forall k0, kids fs c = None \/ kids fs c = Some [] ->
    wp (let! r := Tree.findChildUnlocked d name in match r with Some c => Tree.doUnlink flags env c ;;; Tree.WakeupFlusher | None => k0 end) (fun _ fs' => drops d name fs fs' /\ has fs' c) fs).
  { intros k0 Hk. apply wp_bind. eapply findChildUnlocked_wp; [exact Hw|done|done|]. intros [c'|] Hf; [|by destruct (entry_none _ _ _ _ Hf Hc)].
    rewrite (entry_unique _ _ _ _ _ Hw Hf Hc). by apply doUnlink_drops. }
  split; intros Hk.
  - destruct (wp_run _ _ _ (Hgo (ret tt) (or_introl Hk))) as ([] & fs' & E & ?). by exists fs'.
  - destruct (wp_run _ _ _ (Hgo (panicS NilDereference) (or_intror Hk))) as ([] & fs' & E & ?). by exists fs'.
Qed.

(** C18: In every reachable state, renaming a file moves exactly its entry, with
    its inode, and replaces a file that had the new name; onto a directory it
    returns EISDIR, without a source ENOENT, and changes nothing. *)
Theorem rename_moves_file fs d from d' to renamed answers pages : reachable fs -> rename_ok fs d from d' to ->
  (forall p, entry fs d from p -> kids fs p = None ->
    ((forall t, entry fs d' to t -> kids fs t = None) ->
      exists fs', Rename flags tflags env q0 d from d' to renamed answers pages fs = Ok (Some None, fs') /\ replaces d from d' to p fs fs') /\
    forall t, entry fs d' to t -> is_dir fs t -> Rename flags tflags env q0 d from d' to renamed answers pages fs = Ok (Some (Some (Errno EISDIR)), fs)) /\
  (found fs d from None -> Rename flags tflags env q0 d from d' to renamed answers pages fs = Ok (Some (Some (Errno ENOENT)), fs)).
Proof using HBL Hmo.
  intros Hw%reachable_wf Hok; [|done]. pose proof Hok as [[Hd Ha] (Hne & Hne' & _) _ _]. split; [intros p Hp Hfile; split|].
  - intros Ht. destruct (wp_run _ _ _ (rename_file_wp fs d from d' to p renamed answers pages Hw Hok Hp Hfile Ht)) as (r & fs' & E & -> & Hr). by exists fs'.
  - intros t Ht Hdt. unfold Rename. eapply find_refuses; [done|done|exact Hp|]. eapply find_refuses; [done|done|exact Ht|]. unfold bind, getS, Rename_target.
    assert (isDir fs p = false) as -> by (destruct (isDir fs p) eqn:E; [apply isDir_true in E as [? ?]; congruence|done]). apply isDir_true in Hdt. unfold bind, getS. by rewrite Hdt.
  - intros Hf. assert (Hm : wp (Rename flags tflags env q0 d from d' to renamed answers pages) (fun r fs' => r = Some (Some (Errno ENOENT)) /\ fs' = fs) fs).
    { unfold Rename. apply wp_bind. eapply findChildUnlocked_wp; [exact Hw|done|done|]. intros [c|] Hc; [by destruct (entry_none _ _ _ _ Hf Hc)|].
      apply wp_bind. eapply findChildUnlocked_wp; [exact Hw|apply Ha|done|]. intros r _. by apply wp_ret. }
    apply wp_run in Hm as (r & fs' & E & -> & ->). done.
Qed.

Lemma relinked_drops d p l1 l2 fs fs' : wf fs -> kids fs d = Some (l1 ++ p :: l2) -> relinked d (l1 ++ l2) fs fs' -> drops d (name_of fs p) fs fs'.
Proof.
  intros Hw Hk Hr. assert (Hp : parent_of fs p = d) by (eapply lk_child; [apply Hw|exact Hk|rewrite elem_of_app, elem_of_cons; tauto]). rewrite <- Hp. rewrite <- Hp in Hk.
  apply (unlinked_drops p l1 l2 fs fs' Hw Hk). exists fs. rewrite Hp. split; [split; auto|done].
Qed.
(** What the server does not have: a change of the inode itself, or of something below the directory. *)
Definition unsaved fs c : Prop :=
  (exists nd, nodes fs !! c = Some nd /\ CacheState (inode nd) <> ST_CACHED) \/ is_dir fs c /\ 0 < modified_below fs c.
Lemma isDirtyLocked_iff fs c : isDirtyLocked fs c = true <-> unsaved fs c.
Proof.
  unfold isDirtyLocked, unsaved, at_node. rewrite orb_true_iff, andb_true_iff, Z.ltb_lt, isDir_true. apply or_iff_compat_r.
  destruct (nodes fs !! c) as [nd|]; [rewrite bool_decide_eq_true|]; naive_solver.
Qed.

(** C21: When the kernel asks to refresh an inode whose name belongs to another
    one by now, that other child is removed only if the lookup says that the
    name is gone and, at the time of the check, the child is cached unchanged
    and, if it is a directory, counts no change below it.  Otherwise the child
    stays and success is reported; it also stays when the lookup failed for any
    other reason, which is returned.  The counters may change between the check
    and the removal. *)
Theorem refresh_keeps_dirty fs window d name c err : reachable fs -> entry fs d name c ->
  exists r fs', refreshCurrentChild_done flags env window d c err fs = Ok (r, fs') /\
    (is_errno ENOENT (mapAwsError err) = false -> r = err /\ fs' = fs) /\
    (is_errno ENOENT (mapAwsError err) = true -> unsaved fs c -> r = None /\ fs' = fs) /\
    (is_errno ENOENT (mapAwsError err) = true -> ~ unsaved fs c -> r = err /\ drops d name fs fs').
Proof using HBL Hmo.
  intros Hw%reachable_wf Hc; [|done]. unfold refreshCurrentChild_done. destruct (is_errno ENOENT (mapAwsError err)); [|by exists err, fs].
  pose proof Hc as (cs & Hk & Hin & Hn). assert (Hd : is_dir fs d) by (by exists cs). pose proof (isDirtyLocked_iff fs c) as Hiff.
  assert (Hm : wp (let! dirty := removeChildUnlessDirty flags env window d c in ret (if dirty then None else err))
    (fun r fs' => (isDirtyLocked fs c = true -> r = None /\ fs' = fs) /\ (isDirtyLocked fs c <> true -> r = err /\ drops d name fs fs')) fs).
  { apply wp_bind. apply removeChildUnlessDirty_wp; [done|done|..].
    - intros cs' _ _ E. apply wp_ret. by rewrite E.
    - intros cs' l1 l2 fs1 fs' Hk' E -> Hs Hw1 Hw' Hr. apply wp_ret. rewrite E. split; [done|]. intros _. split; [done|]. eapply same_drops; [exact Hs|].
      rewrite <- Hn, <- (sm_name _ _ Hs). apply (relinked_drops d c l1 l2); [done|by rewrite (sm_kids _ _ Hs)|done].
    - intros Hno. by destruct (Hno cs Hk). }
  apply wp_run in Hm as (r & fs' & E & Hr1 & Hr2). exists r, fs'. split; [done|]. split; [done|]. split; intros _ Hu; [by apply Hr1, Hiff|]. apply Hr2. by rewrite Hiff.
Qed.
End entries.
End TreeEntries.
