(* ===== verification/TreeLookup.v ===== *)
(** * Asking the server for a name

    [LookUpInodeMaybeDir] of [core/dir.go] asks for the object, for the object
    that stands for the directory and for anything below it, one after the
    other or all at once.  Whatever the order in which the answers arrive, a
    name is reported as absent only if every answer says so. *)

From stdpp Require Import strings.
From S2P Require Import Prelude BTree Parts BufferList BufferListInv.
From S2P Require Import Locks Errors ReadAhead Attrs Names Listing Children Inode FileIO Upload Machine Tree.

Module TreeLookup.
Import Errors Names Listing Children Inode FileIO Upload Machine Tree.

(** The object an answer stands for, and the error it reports. *)
Definition shown (key : text) (a : probe_answer) : option (text * BlobItem) :=
  match a with
  | ObjectAnswer r | DirObjectAnswer r => value r
  | PrefixListAnswer (inl l) =>
    match Items l, Prefixes l with
    | x :: _, _ => Some x
    | [], _ :: _ => Some (key ++ [slash], no_item)
    | [], [] => None
    end
  | PrefixListAnswer (inr _) => None
  end.
Definition error_of (a : probe_answer) : option error :=
  match a with
  | ObjectAnswer r | DirObjectAnswer r => failure r
  | PrefixListAnswer r => failure r
  end.
Definition kind (a : probe_answer) : nat := match a with ObjectAnswer _ => 1 | DirObjectAnswer _ => 2 | PrefixListAnswer _ => 3 end.
(** A listing of what is below [key] returns keys below it. *)
Definition listed_below (key : text) (a : probe_answer) : Prop :=
  match a with PrefixListAnswer (inl l) => forall x, x ∈ Items l -> key ++ [slash] `prefix_of` x.1 | _ => True end.

(** [ps] holds the answers in [seen]. *)
Record holds (seen : list probe_answer) (ps : probes) : Prop := {
  ho_object : forall x, object ps = Some x <-> ObjectAnswer (inl x) ∈ seen;
  ho_objectError : forall e, objectError ps = Some e <-> ObjectAnswer (inr e) ∈ seen;
  ho_dirObject : forall x, dirObject ps = Some x <-> DirObjectAnswer (inl x) ∈ seen;
  ho_dirError : forall e, dirError ps = Some e <-> DirObjectAnswer (inr e) ∈ seen;
  ho_prefixList : forall l, prefixList ps = Some l <-> PrefixListAnswer (inl l) ∈ seen;
  ho_prefixError : forall e, prefixError ps = Some e <-> PrefixListAnswer (inr e) ∈ seen;
}.
Lemma holds_none : holds [] no_probes.
Proof. split; intros x; cbn; by rewrite elem_of_nil. Qed.
Lemma receiveResult_holds seen a ps : holds seen ps -> kind a ∉ kind <$> seen -> holds (seen ++ [a]) (receiveResult a ps).
Proof.
  intros [] Hk. assert (Hno : forall b, kind b = kind a -> b ∉ seen) by (intros b Hb Hin; apply Hk; rewrite <- Hb; by apply list_elem_of_fmap_2).
  split; intros x; rewrite elem_of_app, list_elem_of_singleton; destruct a as [[]|[]|[]]; cbn [receiveResult object dirObject prefixList objectError dirError prefixError value failure];
    first [naive_solver|split; [naive_solver|intros [Hin|[=]]; by destruct (Hno _ eq_refl Hin)]|split; [intros [= ->]; by right|intros [Hin|[=]]; [by destruct (Hno _ eq_refl Hin)|congruence]]].
Qed.
Lemma usable_shown key seen ps : holds seen ps -> Forall (listed_below key) seen ->
  exists u, usable key ps = Ok u /\ (forall x, u = Some x -> exists a, a ∈ seen /\ shown key a = Some x) /\ (u = None -> forall a, a ∈ seen -> shown key a = None).
Proof.
  intros [Ho _ Hd _ Hp _] Hl. unfold usable.
  destruct (object ps) as [o|] eqn:Eo. { exists (Some o). split_and!; [done| |done]. intros x [= <-]. exists (ObjectAnswer (inl o)). split; [by apply Ho|done]. }
  destruct (dirObject ps) as [o|] eqn:Ed. { exists (Some o). split_and!; [done| |done]. intros x [= <-]. exists (DirObjectAnswer (inl o)). split; [by apply Hd|done]. }
  assert (Hnone : forall a, a ∈ seen -> match a with PrefixListAnswer (inl l) => prefixList ps = Some l | _ => shown key a = None end).
  { intros [[x|e]|[x|e]|[l|e]] Ha; try done; [apply Ho in Ha; congruence|apply Hd in Ha; congruence|by apply Hp]. }
  destruct (prefixList ps) as [l|] eqn:El.
  - pose proof (proj1 (Hp l) eq_refl) as Hin. rewrite Forall_forall in Hl. pose proof (Hl _ Hin) as Hbelow. cbn in Hbelow.
    assert (Hshow : exists u, shown key (PrefixListAnswer (inl l)) = u) by eauto. destruct Hshow as [u Hu]. exists u. split_and!.
    + rewrite <- Hu. cbn. destruct (Items l) as [|[k item] items]; [by destruct (Prefixes l)|]. destruct (Hbelow (k, item)) as [rest Ek]; [by left|]. cbn in Ek. case_bool_decide; [done|].
      destruct (Z.ltb_spec (zlen k) (zlen key + 1)) as [Hlt|_]; [exfalso; rewrite Ek in Hlt; unfold zlen in Hlt; rewrite !length_app in Hlt; cbn in Hlt; lia|].
      assert (has_prefix (key ++ [slash]) k = true) as ->; [|done]. apply has_prefix_iff. by exists rest.
    + intros x ->. by exists (PrefixListAnswer (inl l)).
    + intros -> a Ha. specialize (Hnone a Ha). destruct a as [[x|e]|[x|e]|[l'|e]]; try done. by injection Hnone as <-.
  - exists None. split_and!; [done|done|]. intros _ a Ha. specialize (Hnone a Ha). by destruct a as [[x|e]|[x|e]|[l'|e]].
Qed.
Lemma verdict_errors seen ps : holds seen ps ->
  (verdict ps = Errno ENOENT <-> forall a e, a ∈ seen -> error_of a = Some e -> not_found (Some e) = true) /\
  (verdict ps = Errno ENOENT \/ exists a, a ∈ seen /\ error_of a = Some (verdict ps)).
Proof.
  intros [_ Ho _ Hd _ Hp]. unfold verdict.
  assert (Hn : not_found (Some (Errno ENOENT)) = true) by done.
  assert (Hone : forall (a : error -> probe_answer) err, (forall e, error_of (a e) = Some e) -> (forall e, err = Some e <-> a e ∈ seen) ->
    match (if not_found err then None else err) with
    | Some e => a e ∈ seen /\ not_found (Some e) = false
    | None => forall e, a e ∈ seen -> not_found (Some e) = true
    end).
  { intros a err Ha Herr. destruct err as [e|]; [destruct (not_found (Some e)) eqn:En|].
    - intros e' He'. apply Herr in He'. congruence.
    - split; [by apply Herr|done].
    - cbn. intros e' He'. by apply Herr in He'. }
  pose proof (Hone (fun e => ObjectAnswer (inr e)) _ (fun e => eq_refl) Ho) as H1. pose proof (Hone (fun e => DirObjectAnswer (inr e)) _ (fun e => eq_refl) Hd) as H2.
  pose proof (Hone (fun e => PrefixListAnswer (inr e)) _ (fun e => eq_refl) Hp) as H3. clear Hone.
  assert (Hbad : forall a e, a ∈ seen -> error_of a = Some e -> not_found (Some e) = false ->
    (e = Errno ENOENT <-> forall a e, a ∈ seen -> error_of a = Some e -> not_found (Some e) = true) /\ (e = Errno ENOENT \/ exists a, a ∈ seen /\ error_of a = Some e)).
  { intros a e Ha He En. split; [split|right; eauto]; [intros ->; congruence|]. intros Hall. by rewrite (Hall a e Ha He) in En. }
  destruct (if not_found (objectError ps) then _ else _) as [e|]; [destruct H1; by eapply Hbad|].
  destruct (if not_found (dirError ps) then _ else _) as [e|]; [destruct H2; by eapply Hbad|].
  destruct (if not_found (prefixError ps) then _ else _) as [e|]; [destruct H3; by eapply Hbad|].
  split; [split; [|done]|by left]. intros _ a e Ha He. destruct a as [[x|e']|[x|e']|[x|e']]; try done; injection He as <-; auto.
Qed.
(** What a lookup says that has got these answers. *)
Definition concludes (key : text) (answers : list probe_answer) (r : (text * BlobItem) + error) : Prop :=
  match r with
  | inl x => exists a, a ∈ answers /\ shown key a = Some x
  | inr e =>
    (forall a, a ∈ answers -> shown key a = None) /\
    (e = Errno ENOENT <-> forall a e, a ∈ answers -> error_of a = Some e -> not_found (Some e) = true) /\
    (e = Errno ENOENT \/ exists a, a ∈ answers /\ error_of a = Some e)
  end.
Lemma verdict_concludes key seen ps : holds seen ps -> (forall a, a ∈ seen -> shown key a = None) -> concludes key seen (inr (verdict ps)).
Proof. intros Hh Hn. split; [done|by apply verdict_errors]. Qed.
Lemma fold_holds arrived : forall seen ps, holds seen ps -> NoDup (kind <$> (seen ++ arrived)) -> holds (seen ++ arrived) (fold_left (fun ps a => receiveResult a ps) arrived ps).
Proof.
  induction arrived as [|a arrived IH]; intros seen ps Hh Hnd; cbn [fold_left]; [by rewrite app_nil_r|].
  assert (E : seen ++ a :: arrived = (seen ++ [a]) ++ arrived) by (by rewrite <- app_assoc). rewrite E in *. apply IH; [|done]. apply receiveResult_holds; [done|].
  rewrite !fmap_app in Hnd. apply NoDup_app in Hnd as (Hnd & _ & _). apply NoDup_app in Hnd as (_ & Hno & _). intros Hin. apply (Hno _ Hin). by left.
Qed.
Lemma first_usable_concludes key arrived : forall seen ps, holds seen ps -> NoDup (kind <$> (seen ++ arrived)) -> Forall (listed_below key) (seen ++ arrived) ->
  (forall a, a ∈ seen -> shown key a = None) -> exists r, first_usable key arrived ps = Ok r /\ concludes key (seen ++ arrived) r.
Proof.
  induction arrived as [|a arrived IH]; intros seen ps Hh Hnd Hl Hno; cbn [first_usable]; [eexists; split; [done|]; rewrite app_nil_r; by apply verdict_concludes|].
  assert (E : seen ++ a :: arrived = (seen ++ [a]) ++ arrived) by (by rewrite <- app_assoc). rewrite E in *.
  assert (Hh' : holds (seen ++ [a]) (receiveResult a ps)). { apply (fold_holds [a] seen ps Hh). rewrite fmap_app in Hnd. by apply NoDup_app in Hnd as (? & _). }
  destruct (usable_shown key _ _ Hh') as (u & -> & Hs & Hn); [by apply Forall_app in Hl as [? _]|]. cbn. destruct u as [x|].
  - exists (inl x). split; [done|]. destruct (Hs x eq_refl) as (b & Hb & Hx). exists b. split; [apply elem_of_app; by left|done].
  - by apply IH; [..|apply Hn].
Qed.
Lemma asked_kinds tflags o dO l arrived : arrived ≡ₚ asked tflags o dO l -> NoDup (kind <$> arrived).
Proof. intros ->. unfold asked. repeat case_match; cbn; repeat constructor; set_solver. Qed.

(** C20: Whatever the mount options and the order in which the answers of the
    server arrive, a lookup of a name returns without a panic.  What it finds is
    the object or the directory that one of the answers shows.  It finds nothing
    only if no answer shows anything, and it says that there is no such name
    exactly if moreover no request failed for another reason; otherwise it
    returns one of the other errors, so a name is never taken for absent
    because the server could not be asked. *)
Theorem lookup_conclusion tflags key o dO l arrived : arrived ≡ₚ asked tflags o dO l -> listed_below key (PrefixListAnswer l) ->
  exists r, LookUpInodeMaybeDir tflags key arrived = Ok r /\ concludes key arrived r.
Proof.
  intros Hp Hl. pose proof (asked_kinds _ _ _ _ _ Hp) as Hnd.
  assert (Hall : Forall (listed_below key) arrived) by (rewrite Hp; unfold asked; repeat case_match; repeat constructor; done).
  unfold LookUpInodeMaybeDir. destruct (DirBlob tflags || Cheap tflags); [|by apply (first_usable_concludes key arrived [] no_probes holds_none); [..|intros a ?%elem_of_nil]].
  pose proof (fold_holds arrived [] no_probes holds_none Hnd) as Hh. destruct (usable_shown key _ _ Hh Hall) as (u & -> & Hs & Hn). cbn. destruct u as [x|].
  - exists (inl x). split; [done|]. by apply Hs.
  - eexists. split; [done|]. apply verdict_concludes; [done|by apply Hn].
Qed.
End TreeLookup.
