(* ===== verification/TreeExamples.v ===== *)
(** * A small tree

    A mount with a directory and two files, reached by calls, in which the
    theorems about the tree are applied and some calls are evaluated. *)

From stdpp Require Import strings.
From S2P Require Import Prelude BTree Parts BufferList BufferListInv BufferListView BufferListSpec Queues.
From S2P Require Import Locks Errors ReadAhead Attrs Names Listing Children Inode FileIO Upload Machine Tree Frame FileExamples.
From S2P Require Import FileSpec FileInv FileSteps RequestSteps MachineSpec TreeInv TreeSteps TreeListing TreeCalls TreeRename TreeSpec TreeEntries TreeLookup.

Module TreeExamples.
Import Errors Names Listing Children BufferList BufferListInv Inode FileIO Upload Machine Tree TreeInv TreeListing TreeRename TreeSpec TreeEntries TreeLookup FileExamples.

Definition tree_parts : list PartSizeConfig := [mkPartSize 1024 4; mkPartSize 2048 4].
Lemma tree_parts_ok : table_ok tree_parts.
Proof. split; [repeat constructor|]; vm_compute; congruence. Qed.
Abbreviation tree_limit := (getMaxFileSize tree_parts).
#[local] Instance tree_helpers : BufferListHelpers (BufferQueue.t (gmap Z)) := inode_helpers tree_parts 1.
#[local] Instance tree_laws : BufferListHelpersLaws (BufferQueue.t (gmap Z)) tree_limit := inode_helpers_laws tree_parts 1 tree_parts_ok.
Definition flags : Flags :=
  mkFlags tree_parts 2 4 16 0 1 false false false 0 64 2 false false
    (Attrs.mkAttrFlags true true true (txt "mtime") (txt "uid") (txt "gid") (txt "mode") (txt "rdev") (txt "--symlink-target") 0 0 420 493)
    30 60 (ReadAhead.mkReadFlags 0 0 0 128 128 4).
Definition tflags : TreeFlags := mkTreeFlags false false false false true false [] 0.
Definition q0 : BufferQueue.t (gmap Z) := BufferQueue.empty.
#[local] Instance tree_mounted : Mounted tree_limit flags q0.
Proof.
  split; [split; [by split; [apply BufferQueue.empty_ok|]|apply BufferQueue.empty_view]| |vm_compute; congruence].
  split; try done; [apply tree_parts_ok|]. intros fh. unfold ReadAhead.getReadAhead. repeat case_match; (split; [done|]); vm_compute; done.
Qed.
Abbreviation SmallFS := (FS (gmap Z) (BufferQueue.t (gmap Z))).
Abbreviation reachable := (reachable (limit := tree_limit) flags tflags small_env q0).
Definition call (c : call) (fs : SmallFS) : SmallFS := after (run_call flags tflags small_env q0 c) fs.
Lemma reachable_call fs c : reachable fs -> call_ok (limit := tree_limit) tflags fs c -> reachable (call c fs).
Proof.
  intros Hr Hc. pose proof (run_call_ok flags tflags small_env q0 fs c (reachable_wf flags tflags small_env q0 fs Hr) Hc) as Hm. apply wp_run in Hm as ([] & fs' & E & _).
  eapply reach_call; [exact Hr|exact Hc|]. unfold call, after. by rewrite E.
Qed.
Definition empty_fs : SmallFS := mounted flags q0 100.
Definition with_dir_a : SmallFS := call (CMkDir root (txt "a")) empty_fs.
Definition a : Z := 2.
Definition with_file_f : SmallFS := call (CCreate root (txt "f") false) with_dir_a.
Definition tree : SmallFS := call (CCreate a (txt "g") false) with_file_f.
Lemma alive_now (fs : SmallFS) d cs : kids fs d = Some cs -> dels fs = ∅ -> alive fs d.
Proof. intros Hk Hd. split; [by exists cs|]. intros l. by rewrite Hd, lookup_empty. Qed.
Lemma reachable_tree : reachable tree.
Proof.
  apply reachable_call; [apply reachable_call; [apply reachable_call; [apply reach_mount|]|]|]; (split; [|done]).
  - apply (alive_now _ _ []); vm_compute; reflexivity.
  - apply (alive_now _ _ [a]); vm_compute; reflexivity.
  - apply (alive_now _ _ []); vm_compute; reflexivity.
Qed.
(** The server has one more file below the directory that is renamed. *)
Definition one_more : list_answer := SlurpPage None [] (fun prefix _ => inl (mkList [(prefix ++ txt "h", mkItem None 5 None None None)] [] false)).
Lemma one_more_ok : answer_ok (limit := tree_limit) one_more.
Proof.
  intros prefix start page [= <-]. split; cbn; [|set_solver]. intros x ->%list_elem_of_singleton. cbn. unfold zlen. rewrite length_app. cbn. split; [lia|vm_compute; split; congruence].
Qed.
Lemma tree_wf : wf (limit := tree_limit) flags (fun _ => False) tree.
Proof. apply (reachable_wf flags tflags small_env q0 tree reachable_tree). Qed.
Lemma absent (fs : SmallFS) d cs name : kids fs d = Some cs -> bool_decide (name ∈ name_of fs <$> cs) = false -> found fs d name None.
Proof. intros Hk Hn. exists cs. split; [done|]. by apply bool_decide_eq_false in Hn. Qed.
Lemma present (fs : SmallFS) d cs name c : kids fs d = Some cs -> c ∈ cs -> name_of fs c = name -> entry fs d name c.
Proof. intros Hk Hc Hn. by exists cs. Qed.
Lemma no_b : found tree root (txt "b") None.
Proof. apply (absent _ _ [a; 3]); vm_compute; reflexivity. Qed.
(** Anything in the root can be renamed to the name [b]. *)
Lemma rename_to_b from : from <> [] -> from <> txt "b" -> rename_ok tree root from root (txt "b").
Proof.
  intros Hne Hb. assert (Ha : alive tree root) by (apply (alive_now _ _ [a; 3]); vm_compute; reflexivity). split.
  - split; [apply Ha|done].
  - split_and!; [done|done|congruence].
  - intros p Hp Hd Hbelow. apply (found_above flags tree root from p tree_wf Hp Hd). by left.
  - intros t Ht. by destruct (entry_none _ _ _ _ no_b Ht).
Qed.
(** Renaming the directory with the listing of what the server has below it. *)
Lemma tree_never_panics_witness : exists fs', run_call flags tflags small_env q0 (CRename root (txt "a") root (txt "b") (fun _ => false) [] [one_more]) tree = Ok (tt, fs').
Proof.
  apply (tree_never_panics flags tflags small_env q0 tree); [apply reachable_tree|]. split_and!; [by apply rename_to_b|constructor|by apply Forall_singleton, one_more_ok].
Defined.
Lemma tree_shape_witness : is_dir tree a /\ below tree root a /\ ~ below tree a (parent_of tree a).
Proof.
  assert (Hd : is_dir tree a) by (exists [4]; vm_compute; reflexivity). destruct (tree_shape flags tflags small_env q0 tree reachable_tree) as (Hdirs & _). split; [done|by apply Hdirs].
Defined.
Lemma root_alive : alive tree root.
Proof. apply (alive_now _ _ [a; 3]); vm_compute; reflexivity. Qed.
Lemma entry_a : entry tree root (txt "a") a.
Proof. apply (present _ _ [a; 3]); [vm_compute; reflexivity|by left|vm_compute; reflexivity]. Qed.
Lemma entry_f : entry tree root (txt "f") 3.
Proof. apply (present _ _ [a; 3]); [vm_compute; reflexivity|right; by left|vm_compute; reflexivity]. Qed.
Lemma f_file : kids tree 3 = None.
Proof. vm_compute; reflexivity. Qed.
Lemma no_target t : entry tree root (txt "b") t -> kids tree t = None.
Proof. intros Ht. by destruct (entry_none _ _ _ _ no_b Ht). Qed.
Lemma creation_adds_entry_witness : creates root (txt "b") (Some []) (MkDir flags tflags q0 root (txt "b")) tree /\ MkDir flags tflags q0 root (txt "a") tree = Ok (inr EEXIST, tree).
Proof.
  assert (Hb : txt "b" <> []) by done. assert (Ha : txt "a" <> []) by done.
  destruct (creation_adds_entry flags tflags small_env q0 tree root (txt "b") [] reachable_tree root_alive Hb) as [Hnew _].
  destruct (creation_adds_entry flags tflags small_env q0 tree root (txt "a") [] reachable_tree root_alive Ha) as [_ Hold].
  exact (conj (proj1 (Hnew no_b)) (proj1 (Hold a entry_a))).
Defined.
Lemma removal_drops_entry_witness : exists fs', Unlink flags small_env root (txt "f") tree = Ok (tt, fs') /\ drops root (txt "f") tree fs' /\ has fs' 3.
Proof.
  assert (Hf : txt "f" <> []) by done. destruct (removal_drops_entry flags tflags small_env q0 tree root (txt "f") 3 reachable_tree Hf entry_f) as [H _]. exact (H f_file).
Defined.
Lemma rename_moves_file_witness : exists fs', Rename flags tflags small_env q0 root (txt "f") root (txt "b") (fun _ => false) [] [] tree = Ok (Some None, fs') /\ replaces root (txt "f") root (txt "b") 3 tree fs'.
Proof.
  assert (Hok : rename_ok tree root (txt "f") root (txt "b")) by (by apply rename_to_b).
  destruct (rename_moves_file flags tflags small_env q0 tree root (txt "f") root (txt "b") (fun _ => false) [] [] reachable_tree Hok) as [H _].
  destruct (H 3 entry_f f_file) as [Hmove _]. exact (Hmove no_target).
Defined.
Lemma f_dirty : isDirtyLocked tree 3 = true.
Proof. vm_compute; reflexivity. Qed.
Lemma refresh_keeps_dirty_witness : refreshCurrentChild_done flags small_env [(root, 1)] root 3 (Some (Errno ENOENT)) tree = Ok (None, tree).
Proof.
  destruct (refresh_keeps_dirty flags tflags small_env q0 tree [(root, 1)] root (txt "f") 3 (Some (Errno ENOENT)) reachable_tree entry_f) as (r & fs' & E & _ & H & _).
  assert (Hm : is_errno ENOENT (mapAwsError (Some (Errno ENOENT))) = true) by reflexivity.
  destruct (H Hm (proj1 (isDirtyLocked_iff tree 3) f_dirty)) as [-> ->]. exact E.
Defined.
(** The object is not there and the listing of the directory failed. *)
Lemma lookup_conclusion_witness : exists r, LookUpInodeMaybeDir tflags (txt "x") [PrefixListAnswer (inr (Errno EIO)); ObjectAnswer (inr (Errno ENOENT)); DirObjectAnswer (inr (Errno ENOENT))] = Ok r
  /\ concludes (txt "x") [PrefixListAnswer (inr (Errno EIO)); ObjectAnswer (inr (Errno ENOENT)); DirObjectAnswer (inr (Errno ENOENT))] r.
Proof.
  apply (lookup_conclusion tflags (txt "x") (inr (Errno ENOENT)) (inr (Errno ENOENT)) (inr (Errno EIO))); [|done].
  change (asked tflags (inr (Errno ENOENT)) (inr (Errno ENOENT)) (inr (Errno EIO))) with [ObjectAnswer (inr (Errno ENOENT)); DirObjectAnswer (inr (Errno ENOENT)); PrefixListAnswer (inr (Errno EIO))].
  apply (Permutation_cons_append [ObjectAnswer _; DirObjectAnswer _]).
Defined.

(** ** Calls evaluated *)

Definition renamed : SmallFS := call (CRename root (txt "a") root (txt "b") (fun _ => false) [] [one_more]) tree.
Definition child_names (fs : SmallFS) d : option (list text) := option_map (map (name_of fs)) (kids fs d).
Definition references (fs : SmallFS) p : Z := match nodes fs !! p with Some nd => refcnt nd | None => 0 end.
(** The whole directory is renamed, with the file the server knew of, and the new one has the old number. *)
Example rename_directory_example :
  child_names renamed root = Some [txt "b"; txt "f"] /\ inodes renamed !! 2 = Some 6 /\ child_names renamed 6 = Some [txt "g"; txt "h"] /\
  parent_of renamed 4 = 6 /\ kids renamed a = Some [].
Proof. vm_compute. done. Qed.
(** The references are exchanged after the new directory got the one of its parent: before, forgetting what the
    kernel knows leaves that one; after the rename it leaves none, although the directory is linked. *)
Example renamed_directory_loses_reference :
  references (call (CForget 2 1) tree) a = 1 /\ references (call (CForget 2 1) renamed) 6 = 0 /\ child_names (call (CForget 2 1) renamed) root = Some [txt "b"; txt "f"].
Proof. vm_compute. done. Qed.
(** The child of that name disappeared while the directory was read without the lock of its parent. *)
Example rmdir_of_lost_child_panics : RmDir_unlink flags small_env root (txt "x") tree = Panic NilDereference.
Proof. vm_compute. done. Qed.
(** Names that are only dots pass the check of names, so that an object of such a name becomes a child of its directory. *)
Example dot_names_accepted : isInvalidName (txt ".") = false /\ isInvalidName (txt "..") = false /\ isInvalidName (txt "a/..") = true.
Proof. done. Qed.
End TreeExamples.
