(* ===== verification/UploadSpec.v ===== *)
(** * What flushing achieves

    The data a request carries, the end of a multipart upload, and that the
    flusher always finds something to do for a file that has to be flushed. *)

From stdpp Require Import strings.
From S2P Require Import Prelude BTree Parts BufferList BufferListInv BufferListView.
From S2P Require Import BufferListRemove BufferListAdd BufferListRead BufferListState BufferListSpec.
From S2P Require Import Locks Errors ReadAhead Attrs Inode FileIO Upload Machine ListEffect FileSpec FileInv FileSteps FlushSteps RequestSteps.
From S2P Require Import FileExamples MachineSpec.

Module UploadSpec.
Import Errors BufferList BufferListInv BufferListView BufferListRemove BufferListAdd BufferListRead BufferListState BufferListSpec.
Import Inode FileIO Upload Machine ListEffect FileSpec FileInv FileSteps FlushSteps RequestSteps MachineSpec.

Section upload.
Context {M : Type -> Type} `{HBT : BTreeMap M} `{HBL : !BTreeMapLaws M} {Q : Type} `{HQ : BufferListHelpers Q}.
Context {limit : Z} `{HLaws : !BufferListHelpersLaws Q limit}.
Context (flags : Flags) (env : Env).
Abbreviation I := (Inode M Q).
Abbreviation Inv := (@Inv M HBT Q HQ limit HLaws).
Implicit Types (l : bl M Q) (i : I) (x : Z).

(** ** The data of a request *)

Lemma split_status l l' x : cut (limit := limit) (fun _ => false) l 0 l' -> status_at l' x = status_at l x.
Proof using HBL. intros HC. apply status_keepsW, keeps_keepsW. exact (cut_own _ _ _ _ HC x). Qed.

(** A byte of the range is acknowledged exactly when it is pending. *)
Lemma carried_iff l off n ds ids key x :
  Inv l -> boundary l off -> boundary l (off + n) -> 0 <= off -> 0 < n -> off + n < two64 ->
  GetData off n true l = Ok (ds, ids, None) ->
  carries l (rq_ids (mkSend key off n ds ids)) x <-> off <= x < off + n /\ pending l x <> None.
Proof using HBL.
  intros HI Hlo Hhi ? ? ? E. destruct (GetData_sent l off n ds ids key) as (_ & _ & Hs); try done.
  destruct (GetData_inv l off n true ds ids) as (_ & Hr & Hids); try done. cbn in *. pose proof (inv_shape _ HI) as HS. split.
  - intros (b & Eo & Hf). destruct (Hs x b Eo Hf) as [Hx Hb]. split; [exact Hx|]. unfold pending. rewrite Eo, Hb.
    pose proof Eo as (k & Hk & _)%(owner_lookup l x b HS). destruct Hf as [Hne Hin].
    rewrite (proj2 (is_state_true b _)) by (by apply (id_dirty _ _ (inv_ids _ HI) k b Hk)).
    destruct (reads_bytes l off (concat ds) x Hr) as (v & Hv & _); [|congruence].
    destruct (GetData_inv l off n true ds ids) as (Hl & _ & _); try done. unfold within in Hx. lia.
  - intros [Hx Hp]. unfold pending in Hp. destruct (owner l x) as [b|] eqn:Eo; [|done]. destruct (is_state b BUF_DIRTY) eqn:Es; [|done].
    apply is_state_true in Es. exists b. split; [done|]. pose proof Eo as (k & Hk & _)%(owner_lookup l x b HS).
    assert (Hne : b_dirtyID b <> 0) by (by apply (id_dirty _ _ (inv_ids _ HI) k b Hk)). split; [done|]. apply Hids. split; [done|].
    split; [done|]. by exists x, b.
Qed.

(** C9: The contents of a request.  [getMultiReader] changes no byte of the
    file.  It returns the whole range as the file reads at that moment, for the
    place where the object is stored, or nothing exactly when a byte is missing
    or loading; and the identifiers it returns with the data mark exactly the
    bytes of the range that are pending, so that acknowledging the request
    takes back all of these and nothing else. *)
Theorem request_carries_contents off n i :
  Inv (buffers i) -> no_disk (buffers i) -> no_cleared (buffers i) off n -> 0 <= off -> 0 < n -> off + n + 1 < two64 ->
  exists r i', getMultiReader off n i = Ok (r, i') /\ (forall x, reads_as i' x = reads_as i x) /\
    match r with
    | Some rq => rq_key rq = object_key i /\ rq_offset rq = off /\ rq_size rq = n /\ zlen (concat (rq_data rq)) = n /\
        (forall k, 0 <= k < n -> exists v, znth (concat (rq_data rq)) k = Some v /\ reads_as i (off + k) = Byte v) /\
        (forall x, carries (buffers i') (rq_ids rq) x <-> off <= x < off + n /\ pending (buffers i') x <> None)
    | None => exists x, off <= x < off + n /\ (reads_as i x = Hole \/ reads_as i x = Loading)
    end.
Proof using HBL.
  intros HI Hd Hc ? ? ?. pose proof limit_range.
  assert (B0 : boundary (buffers i) (-1)).
  { intros k b Hk. pose proof (sh_ok _ (inv_shape _ HI) k b Hk) as (? & ? & ?). lia. }
  apply wp_run. unfold getMultiReader. apply wp_bind, wp_on_buffers.
  wp_use (wp_conj _ _ _ _ (SplitAt_spec (buffers i) off HI ltac:(lia) ltac:(lia)) (SplitAt_boundary (buffers i) off (-1) HI ltac:(lia) ltac:(lia) B0)).
  intros _ l1 [C1 [B1 _]]. u64s. apply wp_bind, wp_on_buffers. cbn [buffers set_buffers]. pose proof (cut_inv _ _ _ _ C1) as HI1.
  wp_use (wp_conj _ _ _ _ (SplitAt_spec l1 (off + n) HI1 ltac:(lia) ltac:(lia)) (SplitAt_boundary l1 (off + n) off HI1 ltac:(lia) ltac:(lia) B1)).
  intros _ l2 [C2 [B2 B1']]. pose proof (cut_inv _ _ _ _ C2) as HI2.
  assert (Hst : forall x, status_at l2 x = reads_as i x) by (intros x; rewrite (split_status _ _ x C2); apply (split_status _ _ x C1)).
  apply wp_bind, wp_getS. cbn [buffers set_buffers].
  pose proof (GetData_spec l2 off n true HI2 ltac:(done) ltac:(done) ltac:(lia)) as Hs. apply wp_bind.
  destruct (GetData off n true l2) as [[[ds ids] err]|p|] eqn:E; [|exfalso|done].
  2: { destruct Hs as (_ & x & Hx & _ & Hn). rewrite Hst in Hn. destruct (not_resident (buffers i) x HI Hd Hn) as (b & Eo & Es). by apply (Hc x b Eo). }
  eapply wp_liftO; [done|]. destruct err as [e|]; wp_steps.
  - split; [exact Hst|]. destruct e; destruct Hs as (_ & x & Hx & _ & Hn); exists x; rewrite Hst in Hn; (split; [done|]); auto.
  - split; [exact Hst|]. destruct Hs as (Hl & Hb & _). cbn. split_and!; try done.
    + intros k Hk. destruct (Hb k Hk) as (v & Hv & Es). exists v. by rewrite <- Hst.
    + intros x. apply (carried_iff l2 off n ds ids (object_key i) x); done || lia.
Qed.

(** ** The end of an upload *)

(** C10: Completing an upload.  When the server has stored the object, the
    upload is over: no byte counts as flushed any more, every pending byte is
    still pending, the object is known with its new size and tag, and the file
    is clean exactly when nothing was modified in the meantime. *)
Theorem commit_completes i m finalSize r etag :
  Inv (buffers i) -> no_disk (buffers i) -> mpu i = Some m -> in_state (CacheState i) [ST_CREATED; ST_MODIFIED] = true -> r_ETag r = Some etag ->
  exists i', commitMultipartUpload_done flags finalSize (upload m) (inl r) i = Ok (tt, i') /\
    mpu i' = None /\ knownSize i' = finalSize /\ knownETag i' = etag /\ Size i' = Size i /\ flushError i' = None /\
    (forall x b, owner (buffers i') x = Some b -> b_state b = BUF_CLEAN \/ b_state b = BUF_DIRTY) /\
    (forall x, pending (buffers i') x = pending (buffers i) x) /\
    CacheState i' = if isStillDirty i' then ST_MODIFIED else ST_CACHED.
Proof using HBL.
  intros HI Hd Em Hst He. apply wp_run_unit.
  unfold commitMultipartUpload_done, recordFlushError, ScheduleRetryFlush. wp_steps. rewrite Em, Z.eqb_refl, Hst. cbn [andb]. wp_steps.
  apply wp_mono with (fun _ j => core j = core i /\ flushError j = None /\ CacheState j = CacheState i).
  { destruct (userMetadataDirty i =? 1); [unfold set_userMetadataDirty, mod_attrs|]; by wp_steps. }
  intros _ j ([= Eb Es _ _ _ _ _ _] & Ef & Ec). wp_steps. apply wp_on_buffers. cbn [buffers set_mpu]. rewrite Eb.
  wp_use (SetFlushedClean_effect (buffers i)); [done|done|]. intros _ l' [Hef Hcl].
  assert (Hp : forall x, pending l' x = pending (buffers i) x).
  { intros x. by destruct (ef_pending _ _ _ _ _ _ Hef x) as [->|[[]|[[]|[]]]]. }
  unfold updateFromFlush, mod_attrs, SetAttrTime, settle, SetCacheState, addModified. rewrite He. wp_steps.
  match goal with |- wp (if ?c then _ else _) _ _ => destruct c end; wp_steps; cbn [CacheState set_CacheState set_ExpireTime set_AttrTime set_knownETag set_knownSize set_attrs set_buffers set_mpu].
  all: rewrite Ec, Hst; match goal with |- wp (if isStillDirty ?j' then _ else _) _ _ => destruct (isStillDirty j') eqn:Ed end; wp_steps.
  all: match goal with |- wp (if ?c then _ else _) _ _ => destruct c end; wp_steps.
  all: split_and!; [reflexivity|reflexivity|reflexivity|exact Es|exact Ef|exact Hcl|exact Hp|]; match type of Ed with isStillDirty ?j' = _ => match goal with |- _ = if isStillDirty ?j then _ else _ =>
    change (isStillDirty j) with (isStillDirty j'); by rewrite Ed end end.
Qed.

(** ** The flusher makes progress *)

(** No range is locked for a flush. *)
Definition no_flush_locks i : Prop := Forall (fun r => Locks.Flushing r = false) (readRanges i).
Lemma unlocked off n i : no_flush_locks i -> IsRangeLocked off n true i = false.
Proof.
  unfold IsRangeLocked, Locks.IsRangeLocked. induction 1 as [|r rs Hr _ IH]; [done|]. cbn [existsb]. rewrite Hr, IH. cbn. by rewrite andb_false_r.
Qed.

Section progress.
Context (HMt : mount_ok Q limit flags) (i0 : I).
Context (Hlast : 0 <= lastWriteEnd i0 <= limit) (Hlocks : no_flush_locks i0) (Hforce : flushInode i0 = true) (Hidle : IsFlushing i0 = 0).

(** Something was started, or every part so far needs the upload to be completed first. *)
Definition progress (init complete : bool) (zero : list Z) i : Prop :=
  lastWriteEnd i = lastWriteEnd i0 /\ 0 <= IsFlushing i /\ (init = true /\ 0 < IsFlushing i \/ init = false /\ i = i0 /\ complete = true /\ zero = []).

Lemma goFlushPart_progress part o s p init complete zero i :
  progress init complete zero i -> wp (goFlushPart part o s p) (fun b i' => b = true /\ progress true false zero i') i.
Proof using Hidle.
  intros (El & Hf & _). unfold goFlushPart, LockRange, begin_flush, go. wp_steps. split; [done|]. unfold progress. cbn. split_and!; [done|lia|left; split; [done|lia]].
Qed.

Lemma pick_part_progress prio acc part i o s :
  partRange (PartSizes flags) part = Ok (o, s) -> progress (initiated acc) (shouldComplete acc) (partlyZero acc) i ->
  wp (pick_part flags prio acc part) (fun r i' => progress (initiated r.1) (shouldComplete r.1) (partlyZero r.1) i') i.
Proof using Type*.
  intros Er Hp. pose proof Hp as (El & Hf & Hcase). unfold pick_part. apply wp_bind. eapply wp_liftO; [done|]. cbn beta iota. apply wp_bind, wp_getS.
  assert (Hkeep : forall c z, i <> i0 -> progress (initiated acc) c z i).
  { intros c z Hne. destruct Hcase as [?|(_ & ? & _)]; [|done]. split_and!; auto. }
  destruct (IsRangeLocked o s true i) eqn:Elk.
  { wp_steps. apply Hkeep. intros ->. by rewrite unlocked in Elk. }
  destruct (partNum_runs flags HMt (lastWriteEnd i)) as [lp Elp]; [by rewrite El|]. apply wp_bind. eapply wp_liftO; [done|].
  destruct (_ && _ && _) eqn:Elast.
  { wp_steps. apply Hkeep. intros ->. by rewrite Hforce, andb_false_r in Elast. }
  clear Elast. destruct (negb _ || _); [by wp_steps|].
  match goal with |- context [if ?c && negb (flushInode i) then _ else _] => destruct (c && negb (flushInode i)) eqn:Ez end.
  { wp_steps. apply Hkeep. intros ->. by rewrite Hforce, andb_false_r in Ez. }
  apply wp_bind. wp_use goFlushPart_progress; [exact Hp|]. intros _ i' [-> Hp']. wp_steps.
  destruct Hp' as (? & ? & Hc). split_and!; [done|done|]. left. by destruct Hc as [?|[? _]].
Qed.

Lemma sendUploadParts_progress prio :
  (forall part, part ∈ dirty_parts i0 -> exists o s, partRange (PartSizes flags) part = Ok (o, s)) ->
  wp (sendUploadParts flags prio) (fun r i' => r.1 = true /\ 0 < IsFlushing i' \/ i' = i0 /\ r = (false, true)) i0.
Proof using Type*.
  intros Hr. unfold sendUploadParts. apply wp_bind, wp_gets, wp_bind.
  assert (Hloop : forall parts acc i, (forall part, part ∈ parts -> exists o s, partRange (PartSizes flags) part = Ok (o, s)) ->
    progress (initiated acc) (shouldComplete acc) (partlyZero acc) i ->
    wp (iterM (pick_part flags prio) acc parts) (fun r i' => progress (initiated r) (shouldComplete r) (partlyZero r) i') i).
  { induction parts as [|part parts IH]; intros acc i Hparts Hp; cbn [iterM]; [by wp_steps|]. destruct (Hparts part) as (o & s & Er); [by left|].
    apply wp_bind. wp_use pick_part_progress; [exact Er|exact Hp|]. intros [acc' cont] i' Hp'. cbn beta iota. destruct cont; [|by wp_steps].
    apply IH; [|done]. intros q Hq. apply Hparts. by right. }
  wp_use Hloop; [exact Hr|split_and!; [done|cbn; lia|by right]|]. intros p i1 (_ & _ & Hc).
  destruct Hc as [[-> ?]|(-> & -> & Ec & ->)].
  - wp_steps. by left.
  - cbn [flush_zero_parts]. wp_steps. destruct (_ && _ && _); wp_steps; right; by rewrite Ec.
Qed.
End progress.
(** C11: Progress, on mounts without PATCH and disk cache. For a file that has
    to be flushed (created or modified, closed or forced by [SyncFile]) and does
    not take the place of a deleted one, while nothing is being flushed, no
    flush lock is held and no error of an earlier flush is recorded, the flusher
    always starts something when it tries: the rename, the metadata, the whole
    file, an upload, a part, or the completion of the upload when every
    remaining part needs that first. *)
Theorem forced_flush_progresses priority i :
  mount_ok Q limit flags -> reachable (limit := limit) flags env i ->
  in_state (CacheState i) [ST_CREATED; ST_MODIFIED] = true -> flushInode i = true ->
  IsFlushing i = 0 -> no_flush_locks i -> flushError i = None ->
  exists i', TryFlush flags priority (loc i).1 false i = Ok (true, i') /\ 0 < IsFlushing i'.
Proof using HBL.
  intros HMt Hr Hst Hforce Hidle Hlocks Herr. pose proof HMt as []. pose proof (reachable_ok flags env HMt i (fun _ => True) True Hr) as Hok.
  assert (Hw : wp (TryFlush flags priority (loc i).1 false) (fun b i' => b = true /\ 0 < IsFlushing i') i).
  2: { apply wp_run in Hw as (b & i' & E & -> & ?). by exists i'. }
  unfold TryFlush. apply wp_bind, wp_getS. rewrite Z.eqb_refl. cbn [negb]. rewrite Herr, bool_decide_false by (by intros []). cbn [andb].
  assert (Hup : wp (sendUpload flags priority) (fun b i' => b = true /\ 0 < IsFlushing i') i); [|by destruct (CacheState i)].
  unfold sendUpload, begin_flush, go. apply wp_bind, wp_getS. rewrite Hidle, Z.eqb_refl.
  assert (Hwant : wantFlush i = true) by (unfold wantFlush; by rewrite Hforce).
  destruct (bool_decide (oldLoc i <> None) && true && bool_decide (mpu i = None)) eqn:E1.
  { unfold sendRename, begin_flush, go. wp_steps. destruct (oldLoc i); [|done]. wp_steps. split; [done|]. cbn. lia. }
  match goal with |- context [if ?c then bind (sendUpdateMeta _) _ else _] => destruct c end.
  { unfold sendUpdateMeta, set_userMetadataDirty, mod_attrs, begin_flush, go. wp_steps. split; [done|]. cbn. lia. }
  rewrite (proj2 (Z.leb_gt _ _)) by lia. unfold canPatch. rewrite mt_patch0. cbn [andb]. destruct (smallFile flags i && _).
  { rewrite Hwant. wp_steps. split; [done|]. cbn. lia. }
  clear E1. case_bool_decide as Em.
  { cbn [Z.ltb Z.compare]. unfold sendStartMultipart, begin_flush, go. wp_steps. split; [done|]. cbn. lia. }
  apply wp_bind. wp_use (sendUploadParts_progress HMt i); try done; [apply Hok| |].
  { intros part Hp. destruct (dirty_part_range flags HMt i part) as (o & s & ? & _); [apply Hok|done|]. eauto. }
  intros [init complete] i1 [[Hi ?]|[-> [= -> ->]]]; cbn [fst] in *; [rewrite Hi; by wp_steps|].
  apply wp_bind, wp_getS. rewrite unlocked, Hwant by done. cbn [andb negb]. wp_steps. split; [done|]. cbn. lia.
Qed.
End upload.
End UploadSpec.
