(* ===== verification/ReadWrite.v ===== *)
(** * Reading back what was written

    A write followed by a read of the same range, through [LoadRange],
    [CheckLoadRange], [GetData] and the readahead of the handle. *)

From stdpp Require Import strings.
From S2P Require Import Prelude BTree Parts BufferList BufferListInv BufferListView.
From S2P Require Import BufferListRemove BufferListAdd BufferListRead BufferListState BufferListSpec.
From S2P Require Import Locks Errors ReadAhead Attrs Inode FileIO Upload Machine ListEffect FileSpec FileInv FileSteps FlushSteps RequestSteps MachineSpec.

Module ReadWrite.
Import Errors BufferList BufferListInv BufferListView BufferListRemove BufferListAdd BufferListRead BufferListState BufferListSpec.
Import Inode FileIO Upload Machine ListEffect FileSpec FileInv FileSteps FlushSteps RequestSteps MachineSpec.

Section pending_data.
Context {M : Type -> Type} `{HBT : BTreeMap M} `{HBL : !BTreeMapLaws M} {Q : Type} `{HQ : BufferListHelpers Q}.
Context {limit : Z} `{HLaws : !BufferListHelpersLaws Q limit}.
Abbreviation I := (Inode M Q).
Abbreviation Inv := (@Inv M HBT Q HQ limit HLaws).
Implicit Types (l : bl M Q) (i : I) (x : Z).

(** The bytes of [data] are pending from [off] on. *)
Definition holds l (off : Z) (data : list byte) : Prop :=
  forall x v, znth data (x - off) = Some v -> pending l x = Some v.

Lemma pending_status l x v : Inv l -> pending l x = Some v -> status_at l x = Byte v.
Proof using HBL.
  intros HI. unfold pending, status_at. destruct (owner l x) as [b|] eqn:Eo; [|done]. destruct (is_state b BUF_DIRTY) eqn:Es; [|done].
  intros ->. apply is_state_true in Es. apply (owner_lookup l x b (inv_shape _ HI)) in Eo as (k & Hk & _).
  pose proof (inv_place _ HI k b Hk) as [Hp1 Hp2]. rewrite Es in Hp2.
  destruct (b_loading b); [|done]. destruct (b_onDisk b); [by destruct (Hp1 eq_refl)|]. destruct (b_data b), (b_zero b); naive_solver.
Qed.

Lemma GetData_holds l off (data : list byte) rid :
  Inv l -> 0 <= off -> 0 < zlen data -> off + zlen data < two64 -> holds l off data ->
  exists ds ids, GetData off (zlen data) rid l = Ok (ds, ids, None) /\ concat ds = data.
Proof using HBL.
  intros HI ? ? ? Hh. pose proof (GetData_spec l off (zlen data) rid HI ltac:(done) ltac:(done) ltac:(done)) as Hs.
  assert (Hb : forall x, off <= x < off + zlen data -> exists v, znth data (x - off) = Some v /\ status_at l x = Byte v).
  { intros x Hx. destruct (znth_Some data (x - off)) as [v Hv]; [lia|]. exists v. split; [done|]. by apply pending_status, Hh. }
  destruct (GetData off (zlen data) rid l) as [[[ds ids] [[]|]]|p|]; [| | | |done].
  - destruct Hs as (_ & x & Hx & _ & Est). destruct (Hb x Hx) as (v & _ & ?). congruence.
  - destruct Hs as (_ & x & Hx & _ & Est). destruct (Hb x Hx) as (v & _ & ?). congruence.
  - destruct Hs as (Hl & Hr & _). exists ds, ids. split; [done|]. apply znth_ext; [done|]. intros k Hk. rewrite Hl in Hk.
    destruct (Hr k Hk) as (v & -> & Es). destruct (Hb (off + k) ltac:(lia)) as (v' & Hv' & Es'). replace (off + k - off) with k in Hv' by lia. congruence.
  - destruct Hs as (_ & x & Hx & _ & Est). destruct (Hb x Hx) as (v & _ & ?). congruence.
Qed.

Lemma concat_limit_iov (ds : list (list byte)) : concat (limit_iov ds) = concat ds.
Proof.
  unfold limit_iov. case_match; [|done]. rewrite concat_app. cbn. rewrite app_nil_r, <- concat_app. by rewrite take_drop.
Qed.

(** Loading keeps pending bytes. *)
Lemma loads_holds i i' off data : loads (limit := limit) i i' -> holds (buffers i) off data -> holds (buffers i') off data.
Proof using HBL.
  intros (Hq & _) Hh x v Hv. destruct (ef_pending _ _ _ _ _ _ Hq x) as [->|[[]|[[]|[]]]]. by apply Hh.
Qed.

Context (flags : Flags) (env : Env) (HMt : mount_ok Q limit flags).
Context {base : Z -> option byte} {lost : Z -> Prop} {resets : Prop}.
Abbreviation ok := (FileInv.ok (limit := limit) (base := base) (lost := lost) (resets := resets) flags).

(** Nothing between the end of the object and the end of the file is missing. *)
Definition tail_present i : Prop := forall x, knownSize i <= x < Size i -> reads_as i x <> Hole.
Lemma tail_owner i x : tail_present i -> knownSize i <= x < Size i -> owner (buffers i) x <> None.
Proof. intros Ht Hx E. apply (Ht x Hx). unfold reads_as, status_at. by rewrite E. Qed.
Lemma tail_guard i : tail_present i -> load_guard i.
Proof.
  intros Ht. unfold load_guard. destruct (decide (Size i <= knownSize i)); [by left|right]. apply tail_owner; [done|lia].
Qed.

Lemma LoadRange_poll_holds i off (data : list byte) :
  Inv (buffers i) -> 0 <= off -> 0 < zlen data -> off + zlen data < two64 -> holds (buffers i) off data ->
  wp (LoadRange_poll off (zlen data)) (fun r i' => i' = i /\ r = LoadDone true None) i.
Proof using HBL.
  intros HI ? ? ? Hh. unfold LoadRange_poll. wp_steps. destruct (GetData_holds (buffers i) off data false) as (ds & ids & E & _); try done.
  eapply wp_liftO; [done|]. by wp_steps.
Qed.

Lemma LoadRange_holds cur i off (data : list byte) ra :
  ok cur i -> mpu i = None -> tail_present i -> 0 <= off -> 0 < zlen data -> off + zlen data <= Size i -> holds (buffers i) off data ->
  0 <= ra < 4611686018427387904 ->
  wp (LoadRange flags env off (zlen data) ra) (fun r i' => (exists miss, r = LoadDone miss None) /\ ok cur i' /\ loads (limit := limit) i i') i.
Proof using Type*.
  intros Hok Hm Htail Hoff Hlen Hsize Hh Hra. pose proof HMt as []. pose proof Hok as []. pose proof limit_range.
  unfold LoadRange. wp_steps. destruct (Z.leb_spec (Size i) off); [lia|]. u64s.
  assert (Es : (if Size i <=? off + zlen data then Size i - off else zlen data) = zlen data) by (destruct (Z.leb_spec (Size i) (off + zlen data)); lia).
  rewrite Es. set (ra1 := if zlen data <? ra then ra else zlen data).
  assert (Hra1 : zlen data <= ra1 < 4611686018427387904) by (unfold ra1; destruct (Z.ltb_spec (zlen data) ra); lia). u64s.
  set (ra2 := if Size i <? off + ra1 then Size i - off else ra1).
  assert (Hra2 : zlen data <= ra2 /\ off + ra2 <= Size i) by (unfold ra2; destruct (Z.ltb_spec (Size i) (off + ra1)); lia).
  destruct (GetHoles off ra2 (buffers i)) as [[holes loading] fc] eqn:EH.
  pose proof (GetHoles_spec (buffers i) off ra2 holes loading fc ok_list0 ltac:(lia) ltac:(lia) ltac:(lia) EH) as [Ho1 Ho2 _ Ho4].
  assert (fc = false) as ->.
  { destruct fc; [|done]. destruct (proj1 Ho4 eq_refl) as (x & b & _ & Eo & Es'%is_state_true).
    specialize (ok_mpu0 Hm x b Eo). unfold is_flushed, is_state in ok_mpu0. by rewrite Es' in ok_mpu0. }
  apply wp_bind. apply wp_mono with (fun err i1 => err = None /\ ok cur i1 /\ loads (limit := limit) i i1).
  { case_bool_decide as Hne; cbn [negb].
    - wp_steps. split_and!; try done. unfold loads. split_and!; try done. by apply effect_refl.
    - wp_use (loadFromServer_ok flags HMt cur i); [done|done|done|lia|lia|lia|intros x Hx; by apply Ho2|by apply tail_guard|].
      intros err i1 (Hok1 & Hl1 & Herr). split_and!; try done. destruct err as [e|]; [|done].
      destruct Herr as (x & Hx & Eo); [done|]. exfalso. eapply tail_owner; [exact Htail| |exact Eo]. lia. }
  intros err i1 (-> & Hok1 & Hl1). rewrite mt_disk0. wp_steps. unfold LoadRange_wait.
  destruct (_ || loading); wp_steps; [|split_and!; eauto]. wp_use LoadRange_poll_holds; [apply Hok1|done|done|lia|by eapply loads_holds|].
  intros r i2 [-> ->]. split_and!; eauto.
Qed.

Lemma ReadFile_holds cur i fh off (data : list byte) :
  ok cur i -> mpu i = None -> tail_present i -> 0 <= off < 9223372036854775808 -> 0 < zlen data < 9223372036854775808 ->
  off + zlen data <= Size i -> holds (buffers i) off data ->
  wp (ReadFile flags env fh off (zlen data)) (fun r i' => exists ds, r.1 = ReadReturn ds (zlen data) None /\ concat ds = data) i.
Proof using Type*.
  intros Hok Hm Htail ? ? Hsize Hh. pose proof HMt as []. pose proof limit_range. pose proof Hok as []. unfold ReadFile. wp_steps. u64s.
  destruct (Z.leb_spec (Size i) off) as [|Hlt]; [lia|]. rewrite (proj2 (Z.ltb_ge _ _)) by lia. unfold LockRange, Locks.LockRange. wp_steps.
  match goal with |- wp _ _ ?j => assert (Hok' : ok (reading off (zlen data) :: cur) j) end.
  { eapply (ok_push _ cur i); [done|apply (reading_ok flags HMt); unfold in_file; lia|done|cbn; lia|cbn; lia|cbn; symmetry; apply Permutation_cons_append| |cbn; lia].
    intros r. cbn. rewrite elem_of_app, list_elem_of_singleton. intros [Hr| ->]; [by apply ok_ranges0|cbn; lia]. }
  unfold CheckLoadRange. wp_steps. wp_use (LoadRange_holds (reading off (zlen data) :: cur)); [exact Hok'|done|done|lia|lia|done|done|apply mt_ahead0|].
  intros r i1 ((miss & ->) & Hok1 & Hl). unfold check_first. rewrite bool_decide_false by done. wp_steps. unfold ReadFile_loaded, UnlockRange. wp_steps.
  destruct (GetData_holds (buffers i1) off data false) as (ds & ids & E & Ed); [apply Hok1|lia|lia|lia|by eapply loads_holds; [exact Hl|]|].
  eapply wp_liftO; [done|]. wp_steps. exists (limit_iov ds). split; [done|]. by rewrite concat_limit_iov.
Qed.
End pending_data.

Section read_back.
Context {M : Type -> Type} `{HBT : BTreeMap M} `{HBL : !BTreeMapLaws M} {Q : Type} `{HQ : BufferListHelpers Q}.
Context {limit : Z} `{HLaws : !BufferListHelpersLaws Q limit}.
Context (flags : Flags) (env : Env) (HMt : mount_ok Q limit flags).
Abbreviation I := (Inode M Q).
Implicit Types (l : bl M Q) (i : I) (x : Z).

(** What writing leaves alone. *)
Lemma unchanged_on_buffers {A T} (f : I -> T) (m : St (bl M Q) A) : (forall l i, f (set_buffers l i) = f i) -> unchanged f (on_buffers m).
Proof. intros Hf i a i' E. unfold on_buffers in E. destruct (m (buffers i)) as [[b l]| |]; [|done..]. injection E as _ <-. apply Hf. Qed.
Lemma WriteFile_frame off (data spare : list byte) copyData enomem :
  unchanged (fun i => (mpu i, knownSize i)) (WriteFile flags off data spare copyData enomem).
Proof.
  unfold WriteFile, WriteFile_reserve, WriteFile_check, WriteFile_body, ResizeUnlocked, Resize_loop, SetCacheState, addModified, WakeupFlusher, mod_attrs, Use.
  unchanged; by apply unchanged_on_buffers.
Qed.

(** C6: Read your writes. In every reachable state of a file without a multipart
    upload in progress and without a missing byte behind the known end of the
    object ([tail_present]), once [WriteFile] of at least one byte has returned,
    [ReadFile] of the range that was written returns at once, with all of the
    data, whatever the handle's readahead asks the server for besides. *)
Theorem read_your_writes i off (data spare : list byte) copyData enomem fh i1 :
  reachable (limit := limit) flags env i -> mpu i = None -> tail_present i ->
  0 <= off < 9223372036854775808 -> 0 < zlen data < 9223372036854775808 ->
  WriteFile flags off data spare copyData enomem i = Ok (WriteDone, i1) ->
  exists ds fh' i2, ReadFile flags env fh off (zlen data) i1 = Ok (ReadReturn ds (zlen data) None, fh', i2) /\ concat ds = data.
Proof using HBL HMt.
  intros Hr Hm Htail Hoff Hlen Hw. pose proof (reachable_ok flags env HMt i (fun _ => True) True Hr) as Hok. pose proof HMt as [].
  pose proof (WriteFile_frame off data spare copyData enomem i _ _ Hw) as [= Em Ek].
  assert (Hr1 : reachable (limit := limit) flags env i1).
  { eapply (reach_step _ _ i (AWrite off data spare copyData enomem)); [done|done|]. cbn [run_action]. unfold bind. by rewrite Hw. }
  pose proof (reachable_ok flags env HMt i1 (fun _ => True) True Hr1) as Hok1.
  destruct (WriteFile_spec flags off data spare copyData enomem i) as (r & i' & E & Hspec); [apply Hok|done|apply Hok|done|done|].
  rewrite Hw in E. injection E as <- <-. destruct (limit <? off + zlen data); [by destruct Hspec|]. destruct (_ && _); [by destruct Hspec|].
  destruct (in_state _ _); [by destruct Hspec as [? _]|]. destruct (0 <? pauseWriters i); [by destruct Hspec as [? _]|].
  destruct Hspec as (_ & _ & (Es & Hv & Hp) & _).
  assert (Hread : wp (ReadFile flags env fh off (zlen data)) (fun r _ => exists ds, r.1 = ReadReturn ds (zlen data) None /\ concat ds = data) i1).
  { eapply (ReadFile_holds flags env HMt); [exact Hok1|congruence| |done|done|lia|exact Hp]. intros x Hx. rewrite Hv. destruct (znth data (x - off)) eqn:Ez; [done|].
    case_bool_decide; [done|]. apply Htail. split; [lia|]. destruct (decide (x < Size i)); [done|]. exfalso.
    destruct (znth_Some data (x - off)) as [v E]; [lia|]. congruence. }
  apply wp_run in Hread as ([r fh'] & i2 & E & ds & Er & Ed). cbn in Er. subst r. by exists ds, fh', i2.
Qed.
End read_back.
End ReadWrite.
