(* ===== verification/MachineExamples.v ===== *)
(** * A run of a small file

    A new file of 20 bytes is written, a multipart upload is started and its
    first part sent: the states of this run are those the theorems about runs
    and about single calls are applied to. *)

From stdpp Require Import strings.
From S2P Require Import Prelude BTree Parts BufferList BufferListInv BufferListView BufferListRead BufferListSpec Queues.
From S2P Require Import Locks Errors ReadAhead Attrs Inode FileIO Upload Machine ListEffect FileSpec FileInv FileSteps MachineSpec UploadSpec ReadWrite FileExamples.

Module MachineExamples.
Import Errors BufferList BufferListInv BufferListView BufferListRead BufferListSpec.
Import Inode FileIO Upload Machine ListEffect FileSpec FileInv FileSteps MachineSpec UploadSpec ReadWrite FileExamples.

Definition flags : Flags := small_flags true false false.

Lemma small_mount_ok : mount_ok (BufferQueue.t (gmap Z)) small_limit flags.
Proof.
  split; try done.
  - apply small_parts_ok.
  - intros fh. unfold ReadAhead.getReadAhead. repeat case_match; (split; [done|]); vm_compute; done.
Qed.

Definition run (acts : list action) (i : SmallInode) : SmallInode := fold_left (fun i a => after (run_action flags small_env a) i) acts i.
Definition new_file : SmallInode := small_file 0 ST_CREATED None.
Definition bytes20 : list byte := seqZ 1 20.
Definition written : SmallInode := run [AWrite 0 bytes20 [] false false] new_file.
Definition begun : SmallInode := run [ATryFlush 3 1 false; ATask 0 (Continue false)] written.
Definition uploading : SmallInode := run [ATask 0 Answered; ATryFlush 3 1 false; ATask 0 (Continue false)] begun.

Lemma reachable_run acts i :
  reachable (limit := small_limit) flags small_env i ->
  (forall n a, acts !! n = Some a -> action_ok (limit := small_limit) (run (take n acts) i) a) ->
  reachable (limit := small_limit) flags small_env (run acts i).
Proof.
  revert i. induction acts as [|a acts IH]; intros i Hr Ha; [done|]. cbn. apply IH.
  - apply (reach_after flags small_env small_mount_ok); [done|]. by apply (Ha 0%nat).
  - intros n a' Hn. by apply (Ha (S n)).
Qed.

Lemma reachable_written : reachable (limit := small_limit) flags small_env written.
Proof.
  apply reachable_run.
  - apply reach_open. split_and!; try (vm_compute; done). exists BufferQueue.empty. split_and!; [done|apply small_queue_ok|apply BufferQueue.empty_view].
  - intros [|n] a [= <-]. vm_compute. split_and!; congruence.
Qed.
Lemma reachable_begun : reachable (limit := small_limit) flags small_env begun.
Proof.
  apply reachable_run; [apply reachable_written|]. intros [|[|n]] a [= <-]; [done|].
  intros t. vm_compute. intros [= <-]. done.
Qed.
Lemma reachable_uploading : reachable (limit := small_limit) flags small_env uploading.
Proof.
  apply reachable_run; [apply reachable_begun|]. intros [|[|[|n]]] a [= <-]; [|done|].
  - intros t. vm_compute. intros [= <-]. done.
  - intros t Et. assert (Hg : load_guard (run (take 2 [ATask 0 Answered; ATryFlush 3 1 false; ATask 0 (Continue false)]) begun)).
    { right. vm_compute. discriminate. }
    revert Et. vm_compute. intros [= <-]. exact Hg.
Qed.

(** The first part is being sent, with its eight bytes. *)
Lemma uploading_tasks : exists p1 rq full up, (tasks uploading) = [p1; TPart 0 0 8 1 (PartUploading rq full up)] /\
  exclusive p1 = false /\ concat (rq_data rq) = [1; 2; 3; 4; 5; 6; 7; 8].
Proof. vm_compute. by eexists _, _, _, _. Qed.
(** ** The theorems at these states *)

Lemma written_ok : ok (limit := small_limit) (base := pending (buffers written)) (lost := fun _ => True) (resets := True) flags [] written.
Proof. exact (reachable_ok flags small_env small_mount_ok written (fun _ => True) True reachable_written). Qed.


(** The answer for the first part acknowledges byte 3, which was sent as 4; byte 12 stays pending. *)
Lemma pending_bytes_survive_witness :
  let i' := after (run_action flags small_env (ATask 1 (GotTag 5))) uploading in
  pending (buffers uploading) 3 = Some 4 /\ pending (buffers i') 3 = None /\ pending (buffers i') 12 = Some 13 /\
  (drops uploading (ATask 1 (GotTag 5)) /\ (forall x, pending (buffers i') x = None \/ takes uploading (ATask 1 (GotTag 5)) x) \/
   forall x, pending (buffers i') x = pending (buffers uploading) x \/ takes uploading (ATask 1 (GotTag 5)) x).
Proof.
  intros i'. split_and!; [vm_compute; reflexivity..|].
  apply (pending_bytes_survive flags small_env small_mount_ok uploading (ATask 1 (GotTag 5)) i' reachable_uploading).
  - intros t. vm_compute. intros [= <-]. exact I.
  - vm_compute. reflexivity.
Defined.

Lemma flushers_exclude_witness :
  (forall ts1 t ts2, tasks begun = ts1 ++ t :: ts2 -> exclusive t = true -> IsFlushing begun = MaxParallelParts flags /\
    forall t', t' ∈ ts1 ++ ts2 -> match t' with TRead _ _ _ _ | TReadFile _ _ _ _ | TResize _ | TDeleteOld _ _ | TDeleteEntry _ | TDeleteForget => True | _ => False end) /\
  zlen (filter (fun t => uploads_part t = true) (tasks begun)) <= MaxParallelParts flags.
Proof. exact (flushers_exclude flags small_env small_mount_ok begun reachable_begun). Defined.

Lemma flushed_has_upload_witness :
  exists b, owner (buffers written) 3 = Some b /\ (b_state b = BUF_CLEAN \/ b_state b = BUF_DIRTY) /\
    exists r, GetData 0 20 false (buffers written) = Ok r.
Proof.
  assert (exists b, owner (buffers written) 3 = Some b) as [b Eo] by (vm_compute; eexists; reflexivity).
  exists b. split; [exact Eo|].
  apply (flushed_has_upload flags small_env small_mount_ok written 3 b 0 20 false reachable_written); [vm_compute; reflexivity|exact Eo|lia|lia|vm_compute; reflexivity].
Defined.

Lemma read_your_writes_witness :
  let i1 := after (WriteFile flags 4 [9; 9; 9] [] false false) written in
  exists ds fh' i2, ReadFile flags small_env (ReadAhead.NewFileHandle (read_flags flags)) 4 3 i1 = Ok (ReadReturn ds 3 None, fh', i2) /\ concat ds = [9; 9; 9].
Proof.
  intros i1. apply (read_your_writes flags small_env small_mount_ok written 4 [9; 9; 9] [] false false (ReadAhead.NewFileHandle (read_flags flags)) i1 reachable_written).
  - vm_compute. reflexivity.
  - assert (Hall : Forall (fun x => reads_as written x <> Hole) (seqZ 0 20)) by (vm_compute; repeat constructor; discriminate).
    intros x Hx. rewrite Forall_forall in Hall. apply Hall. apply elem_of_seqZ. exact Hx.
  - lia.
  - vm_compute. split; reflexivity.
  - vm_compute. reflexivity.
Defined.

(** Cutting the file in the middle of the part that is being sent has to wait. *)
Lemma ResizeUnlocked_correct_witness :
  exists r i', ResizeUnlocked 4 uploading = Ok (r, i') /\
    (r = ResizeSync <-> exists x, 4 <= x < Size uploading /\ being_flushed uploading x) /\
    match r with
    | ResizeSync => i' = set_pauseWriters (pauseWriters uploading + 1) uploading
    | ResizeDone => resized (limit := small_limit) uploading 4 i'
    | ResizeBlocked => False
    end.
Proof.
  pose proof (reachable_ok flags small_env small_mount_ok uploading (fun _ => True) True reachable_uploading) as Hok.
  apply (ResizeUnlocked_correct (limit := small_limit) 4 uploading (ok_list _ _ _ Hok) (ok_ranges _ _ _ Hok) (ok_size _ _ _ Hok));
    [vm_compute; split; discriminate|vm_compute; discriminate].
Defined.

Lemma WriteFile_correct_witness :
  exists r i', WriteFile flags 30 [1; 2] [] false false written = Ok (r, i') /\ r = WriteDone /\ Size i' = 32.
Proof.
  destruct (WriteFile_correct flags 30 [1; 2] [] false false written) as (r & i' & E & H);
    [exact (ok_list _ _ _ written_ok)|reflexivity|vm_compute; split; discriminate|lia|vm_compute; split; reflexivity|].
  exists r, i'. split; [exact E|]. destruct H as (-> & _ & (Hs & _) & _). split; [reflexivity|]. rewrite Hs. vm_compute. reflexivity.
Defined.
(** The request for the first part of the written file, cut at byte 8. *)
Lemma request_carries_contents_witness :
  exists rq i', getMultiReader 0 8 written = Ok (Some rq, i') /\ concat (rq_data rq) = [1; 2; 3; 4; 5; 6; 7; 8] /\
    (forall x, carries (buffers i') (rq_ids rq) x <-> 0 <= x < 0 + 8 /\ pending (buffers i') x <> None).
Proof.
  destruct (request_carries_contents (limit := small_limit) 0 8 written) as (r & i' & E & _ & H);
    [exact (ok_list _ _ _ written_ok)|exact (ok_disk _ _ _ written_ok)| |lia|lia|reflexivity|].
  - intros x b Eo _ Es. pose proof (ok_mpu _ _ _ written_ok ltac:(vm_compute; reflexivity) x b Eo) as Hf. unfold is_flushed, is_state in Hf. rewrite Es in Hf. discriminate.
  - assert (exists rq, r = Some rq /\ concat (rq_data rq) = [1; 2; 3; 4; 5; 6; 7; 8]) as (rq & -> & Ed).
    { revert E. vm_compute. intros [= <- <-]. eexists. split; reflexivity. }
    exists rq, i'. split; [exact E|]. split; [exact Ed|]. apply H.
Defined.

Lemma commit_completes_witness :
  exists m i', mpu uploading = Some m /\
    commitMultipartUpload_done flags 20 (upload m) (inl (mkStored (Some (txt "e")) None None)) uploading = Ok (tt, i') /\
    mpu i' = None /\ knownSize i' = 20 /\ CacheState i' = ST_MODIFIED.
Proof.
  assert (exists m, mpu uploading = Some m) as [m Em] by (vm_compute; eexists; reflexivity).
  pose proof (reachable_ok flags small_env small_mount_ok uploading (fun _ => True) True reachable_uploading) as Hok.
  destruct (commit_completes flags uploading m 20 (mkStored (Some (txt "e")) None None) (txt "e") (ok_list _ _ _ Hok) (ok_disk _ _ _ Hok) Em) as (i' & E & Hm & Hk & _);
    [vm_compute; reflexivity|reflexivity|].
  exists m, i'. split_and!; [exact Em|exact E|exact Hm|exact Hk|].
  assert (Eu : upload m = 1) by (revert Em; vm_compute; intros [= <-]; reflexivity).
  rewrite Eu in E. revert E. clear. vm_compute. intros [= <-]. reflexivity.
Defined.

Lemma forced_flush_progresses_witness :
  exists i', TryFlush flags 3 (loc written).1 false written = Ok (true, i') /\ 0 < IsFlushing i'.
Proof.
  apply (forced_flush_progresses flags small_env 3 written small_mount_ok reachable_written); vm_compute; try reflexivity. constructor.
Defined.
End MachineExamples.
