(* ===== verification/Defects.v ===== *)
(** * Runs that show defects

    Executions of the machine on small files in which the code does something
    other than it means to.  Each is evaluated; none contradicts the theorems
    of the other files, whose hypotheses or conclusions exclude it. *)

From stdpp Require Import strings.
From S2P Require Import Prelude BTree Parts BufferList BufferListInv BufferListView BufferListRead BufferListSpec Queues.
From S2P Require Import Locks Errors ReadAhead Attrs Inode FileIO Upload Machine FileSpec FileExamples.

Module Defects.
Import Errors BufferList BufferListInv BufferListView BufferListRead BufferListSpec.
Import Inode FileIO Upload Machine FileSpec FileExamples.

(** Files up to [singleMB] MB are stored in one request. *)
Definition flags (singleMB : Z) : Flags :=
  mkFlags small_parts 2 4 16 singleMB 1 false false false 0 64 2 false false
    (Attrs.mkAttrFlags true false false (txt "mtime") (txt "uid") (txt "gid") (txt "mode") (txt "rdev") (txt "--symlink-target") 0 0 420 493)
    30 60 (ReadAhead.mkReadFlags 0 0 0 128 128 4).
Definition run (singleMB : Z) (acts : list action) (i : SmallInode) : SmallInode :=
  fold_left (fun i a => after (run_action (flags singleMB) small_env a) i) acts i.
Definition stored_ok : response := GotStored (mkStored (Some (txt "new")) None None).
Definition fh : ReadAhead.FileHandle := ReadAhead.NewFileHandle (read_flags (flags 0)).

(** ** A file moved away and then next to its old place

    The test for "moved back" compares the old name with the current name
    instead of the new one: after 1/f is moved to 2/f and then to 1/g, the file
    has forgotten that its object is still 1/f. *)
Example rename_forgets_object :
  let i := run 0 [ARename (2, txt "f") true; ARename (1, txt "g") true] (small_file 8 ST_CACHED None) in
  loc i = (1, txt "g") /\ oldLoc i = None /\ object_key i = (1, txt "g") /\ knownSize i = 8 /\ CacheState i = ST_MODIFIED.
Proof. vm_compute. split_and!; reflexivity. Qed.

(** And a real move back keeps the old place, so that the rename will copy the object onto itself and remove it. *)
Example rename_back_copies_onto_itself :
  let i := run 0 [ARename (1, txt "g") true; ARename (1, txt "f") true; ATryFlush 3 1 false; ATask 0 Answered] (small_file 8 ST_CACHED None) in
  loc i = (1, txt "f") /\ tasks i = [TRenameDelete (1, txt "f")].
Proof. vm_compute. split_and!; reflexivity. Qed.

(** ** A lock that is never released

    [flushSmallObject] finds out while loading that the object was removed: it
    drops the local version and returns with its range still locked, although
    nothing is being flushed any more; truncating the file waits forever. *)
Definition conflict : SmallInode :=
  run 1 [AWrite 0 [9] [] false false; ATryFlush 3 1 false; ATask 0 (Continue false);
         ATask 0 (Continue false); ATask 1 (Failed (Errno ENOENT)); ATask 0 (Continue false)] (small_file 8 ST_CACHED None).
Example conflict_leaks_lock :
  tasks conflict = [] /\ IsFlushing conflict = 0 /\ readRanges conflict = [Locks.mkRR 0 8 true] /\
  ResizeUnlocked 4 conflict = Ok (ResizeSync, set_pauseWriters 1 conflict).
Proof. vm_compute. split_and!; reflexivity. Qed.

(** ** A truncated file committed with its old tail

    The last part is uploaded, its end is rewritten and cut off again: nothing
    of the part is dirty any more, and the upload is committed with the part as
    it was stored, two bytes longer than the file. *)
Definition cut_again : SmallInode :=
  run 0 [AWrite 0 (seqZ 1 12) [] false false; ATryFlush 3 1 false; ATask 0 (Continue false); ATask 0 Answered;
         ATryFlush 3 1 false; ATask 0 (Continue false); ATask 1 (GotTag 50); ATask 0 (Continue false); ATask 0 (GotTag 51);
         AWrite 10 [98; 99] [] false false; AResize 10; ATryFlush 3 1 false; ATask 0 (Continue false)] (small_file 0 ST_CREATED None).
Example commit_keeps_cut_bytes :
  Size cut_again = 10 /\ tasks cut_again = [TCommit 10 1] /\ (Parts <$> mpu cut_again) = Some (<[0 := 50]> (<[1 := 51]> ∅)) /\
  exists rq full, tasks (run 0 [AWrite 0 (seqZ 1 12) [] false false; ATryFlush 3 1 false; ATask 0 (Continue false); ATask 0 Answered;
         ATryFlush 3 1 false; ATask 0 (Continue false); ATask 1 (GotTag 50); ATask 0 (Continue false)] (small_file 0 ST_CREATED None))
       = [TPart 1 8 8 1 (PartUploading rq full 1)] /\ concat (rq_data rq) = [9; 10; 11; 12].
Proof. vm_compute. split_and!; [reflexivity..|]. by eexists _, _. Qed.

(** ** A read in flight over a write and its flush

    The read was answered by the server before the file was overwritten and
    stored again; its data replaces the newer data in memory. *)
Example stale_read_replaces_stored_data :
  let acts := [ARead fh 0 4; ATask 0 (Continue false); ATask 1 Answered; AWrite 0 [9; 9; 9; 9] [] false false;
               ATryFlush 3 1 false; ATask 2 (Continue false)] in
  let i1 := run 1 acts (small_file 4 ST_CACHED None) in
  let i2 := run 1 [ATask 2 stored_ok; ATask 1 (GotChunk (Attrs.mkHead None None ∅) (inl [1; 1; 1; 1]))] i1 in
  (exists rq, tasks i1 !! 2%nat = Some (TSmallPut rq false) /\ concat (rq_data rq) = [9; 9; 9; 9]) /\
  CacheState i2 = ST_CACHED /\ reads_as i1 0 = Byte 9 /\ reads_as i2 0 = Byte 1.
Proof. vm_compute. split_and!; [by eexists|reflexivity..]. Qed.
(** ** Parts of zeroes are not flushed under memory pressure

    Part 1 was stored, dropped from memory and modified again, so it needs the
    upload to be completed before it can be stored once more; the only other
    dirty part holds zeroes.  The loop meant for such parts walks the list of
    partly empty parts instead, which is empty. *)
Definition pressed : SmallInode :=
  run 0 [AOpen; AWrite 0 (seqZ 1 16) [] false false; AResize 24; AOthers 200 0 1; ATryFlush 3 1 false; ATask 0 (Continue false); ATask 0 Answered;
         ATryFlush 3 1 false; ATask 0 (Continue false); ATask 0 (Continue false); ATask 0 (GotTag 50); ATask 0 (GotTag 51);
         AEvict 16 false; AWrite 8 [7] [] false false] (small_file 0 ST_CREATED None).
Example zero_parts_are_never_chosen :
  tasks pressed = [] /\ dirty_parts pressed = [2; 1] /\ wantFree pressed = 1 /\
  sendUploadParts (flags 0) 3 pressed = Ok ((false, false), pressed).
Proof. vm_compute. split_and!; reflexivity. Qed.

(** ** A dropped file that had grown

    After a conflict the size of the file is still that of the modified version:
    a read that starts where the object ends sends a request for no bytes. *)
Definition dropped : SmallInode :=
  run 0 [AWrite 8 (seqZ 1 8) [] false false; ARead fh 0 4; ATask 0 (Continue false); ATask 1 (Failed (Errno ENOENT)); ATask 0 (Synced None)]
    (small_file 8 ST_CACHED None).
Example read_at_known_end_requests_nothing :
  tasks dropped = [] /\ Size dropped = 16 /\ knownSize dropped = 8 /\
  tasks (run 0 [ARead fh 8 4] dropped) = [TRead (1, txt "f") 8 0 ReadStart].
Proof. vm_compute. split_and!; reflexivity. Qed.

(** ** A file that shrinks while it is truncated

    A file of eight bytes is to be cut to six while it is being stored, and
    waits for that; before it goes on, a listing shows that someone else has
    stored an object of two bytes.  The size is not compared again: the file
    ends up six bytes long, and the bytes after the second are neither in memory
    nor on the server. *)
Definition other_object : BlobItem := mkItem (Some (txt "other")) 2 None None None.
Definition shrunk : SmallInode :=
  run 1 [AWrite 0 (seqZ 1 8) [] false false; ATryFlush 3 1 false; ATask 0 (Continue false); AResize 6; ATask 0 stored_ok; ABlobItem other_object 0]
    (small_file 0 ST_CREATED None).
Example truncation_extends_shrunk_file :
  let i := run 1 [ATask 0 (Synced None)] shrunk in
  tasks shrunk = [TResize 6] /\ Size shrunk = 2 /\ Size i = 6 /\ knownSize i = 2 /\ reads_as i 3 = Hole.
Proof. vm_compute. split_and!; reflexivity. Qed.

(** ** A copy of an upload that was canceled

    While an upload is completed with copies, a read finds that the object was
    removed, and the cached version is dropped together with the upload.  The
    file is written again; the copy that finds no upload reports that the object
    does not exist, and the new data is dropped. *)
Definition canceled : SmallInode :=
  run 0 [AWrite 0 (seqZ 1 8) [] false false; ATryFlush 3 1 false; ATask 0 (Continue false); ATask 0 Answered; ATryFlush 3 1 false; ATask 0 (Continue false);
         ATask 0 (GotTag 50); ATryFlush 3 1 false; ATask 0 (Continue false); ARead fh 10 4; ATask 1 (Continue false); ATask 2 (Failed (Errno ENOENT));
         ATask 1 (Synced None); AWrite 0 [7] [] false false] (small_file 32 ST_CACHED None).
Example canceled_copy_drops_new_data :
  let i := run 0 [ATask 0 (Continue false); ATask 0 (Continue false)] canceled in
  tasks canceled = [TCopying (1, txt "f") 32 4 1 [(1, 8, 24)] [] None] /\ mpu canceled = None /\ CacheState canceled = ST_MODIFIED /\
  pending (buffers canceled) 0 = Some 7 /\ tasks i = [] /\ CacheState i = ST_CACHED /\ pending (buffers i) 0 = None.
Proof. vm_compute. split_and!; reflexivity. Qed.

(** ** Unlinking during the first upload of a patched file

    With [PreferPatchUploads] the first two parts are uploaded by
    [uploadMinMultipart].  Unlinking the file meanwhile drops the upload, and
    the goroutine aborts the upload that is not there. *)
Definition patch_flags : Flags :=
  mkFlags small_parts 2 4 16 0 1 true true false 0 64 2 false false (attr_flags (flags 0)) 30 60 (ReadAhead.mkReadFlags 0 0 0 128 128 4).
Definition unlinked_upload : SmallInode :=
  fold_left (fun i a => after (run_action patch_flags small_env a) i)
    [AWrite 0 (seqZ 1 20) [] false false; ATryFlush 3 1 false; ATask 0 (Continue false); ATask 0 Answered; ATask 0 (Continue false); AUnlink]
    (small_file 0 ST_CREATED None).
Example abort_without_upload_panics :
  (exists rq full up, tasks unlinked_upload = [TMinPart 0 (PartUploading rq full up)]) /\ mpu unlinked_upload = None /\
  run_action patch_flags small_env (ATask 0 (GotTag 50)) unlinked_upload = Panic NilDereference.
Proof. vm_compute. split_and!; [by eexists _, _, _|reflexivity..]. Qed.

(** ** An answer without a tag *)
Example missing_tag_panics (i : SmallInode) size modified class :
  updateFromFlush (flags 0) size (mkStored None modified class) i = Panic NilDereference.
Proof. destruct modified, class; reflexivity. Qed.
End Defects.
