(* ===== verification/Xattrs.v ===== *)
(** * Changing attributes

    [setUserMeta], [setFileMode], [fillXattr] and the extended attributes of
    [core/handles.go], and [SetAttributes] of [core/file.go], on top of the
    pure parts in [Attrs].  [fillXattr] releases the inode lock while it asks
    the server: [others] is whatever the other goroutines do to the inode in
    the meantime, and [head] the answer. *)

From stdpp Require Import strings.
From S2P Require Import Prelude BTree Parts BufferList BufferListInv Locks Queues Errors ReadAhead Attrs Inode FileIO FileExamples.

Module Xattrs.
Import Errors BufferList Inode FileIO Encoding.

Definition ENOATTR : error := OtherError 61.
Definition XATTR_CREATE : Z := 1.
Definition XATTR_REPLACE : Z := 2.

Section ops.
Context {M : Type -> Type} `{BTreeMap M} {Q : Type} `{BufferListHelpers Q}.
Context (flags : Flags) (env : Env).
Abbreviation I := (Inode M Q).
Abbreviation af := (attr_flags flags).
Context (others : St I unit) (head : Attrs.Head + error).

Definition userMetadata (i : I) : option (gmap text text) := Attrs.userMetadata (attrs i).

Definition fillXattr : St I (option error) :=
  let! m := gets userMetadata in
  match m with
  | Some _ => ret None
  | None =>
    others ;;;
    match head with
    | inr e =>
      let err := mapAwsError (Some e) in
      ret (if is_errno ENOENT err then None else err)
    | inl resp =>
      let! m := gets userMetadata in
      (match m with
       | None => mod_attrs (Attrs.fillXattrFromHead af (ToLower env) (ConvertFileMode env) resp)
       | Some _ => ret tt
       end) ;;; ret None
    end
  end.

(** [None] as a value is nil.  Assigning to a nil map panics; reading and deleting do not. *)
Definition setUserMeta (key : text) (value : option text) : St I (option error) :=
  let! m := gets userMetadata in
  let! stop := (match m, value with
                | None, None => ret (Some None)
                | None, Some _ => let! err := fillXattr in ret (Some <$> err)
                | Some _, _ => ret None
                end) in
  match stop with
  | Some err => ret err
  | None =>
    let! m := gets userMetadata in
    let old := default ∅ m !! key in
    match value with
    | None =>
      if bool_decide (old = None) then ret None
      else mod_attrs (Attrs.set_meta (delete key <$> m) 2) ;;; ret None
    | Some v =>
      if bool_decide (old = Some v) then ret None
      else match m with
           | None => panicS NilMap
           | Some mm => mod_attrs (Attrs.set_meta (Some (<[key := v]> mm)) 2) ;;; ret None
           end
    end
  end.

Definition setFileMode (newMode : Z) : St I (bool * option error) :=
  let! a := gets attrs in
  let prevMode := Attrs.Mode a in
  if Attrs.EnableSpecials af && negb (Z.land newMode Attrs.ModeDir =? Z.land prevMode Attrs.ModeDir) then
    ret (false, Some (Errno (if Z.land newMode Attrs.ModeDir =? 0 then EISDIR else ENOTDIR)))
  else
    let mode := if Attrs.EnableSpecials af
                then Z.lor (Z.land prevMode Attrs.ModePerm) (Z.land newMode Attrs.ModeType) else prevMode in
    let mode := if Attrs.EnablePerms af
                then Z.lor (Z.land mode Attrs.ModeType) (Z.land newMode Attrs.ModePerm) else mode in
    mod_attrs (Attrs.set_Mode mode) ;;;
    let changed := negb (prevMode =? mode) in
    let defaultMode := Attrs.FileMode af in
    let! err := (if negb (Z.land mode Attrs.ModeDevice =? 0)
                 then setUserMeta (Attrs.RdevAttr af) (Some (Sprintf_d (Attrs.Rdev a))) else ret None) in
    match err with
    | Some e => ret (changed, Some e)
    | None =>
      let! err := setUserMeta (Attrs.FileModeAttr af)
                    (if mode =? defaultMode then None else Some (Sprintf_d (ConvertGoMode env mode))) in
      ret (changed, err)
    end.

(** ** [SetAttributes] on a file that has a parent *)

(** A step that may fail, and tells whether it changed something. *)
Definition attr_step (cond : bool) (m : St I (bool * option error)) (modified : bool) : St I (bool * option error) :=
  if cond then let! '(c, err) := m in ret (modified || c, err) else ret (modified, None).
Definition and_then (r : bool * option error) (k : bool -> St I (bool * option error)) : St I (bool * option error) :=
  match r with (m, None) => k m | (m, Some e) => ret (m, Some e) end.
Definition store_owner (attr : text) (value dflt : Z) : St I (bool * option error) :=
  let! err := setUserMeta attr (if value =? dflt then None else Some (Sprintf_d value)) in ret (true, err).
(** The part after [ResizeUnlocked], which is not called when the size stays as it is. *)
Definition SetAttributes_rest (resized : bool) (mode mtime uid gid : option Z) : St I (option error) :=
  let! r := attr_step (bool_decide (is_Some mode)) (setFileMode (default 0 mode)) resized in
  let! r := and_then r (fun m =>
    let! a := gets attrs in
    attr_step (bool_decide (is_Some mtime) && Attrs.EnableMtime af && negb (bool_decide (mtime = Some (Attrs.Mtime a))))
      (mod_attrs (Attrs.set_Mtime (default 0 mtime)) ;;;
       let! err := setUserMeta (Attrs.MtimeAttr af) (Some (Sprintf_d (default 0 mtime))) in ret (true, err)) m) in
  let! r := and_then r (fun m =>
    let! a := gets attrs in
    attr_step (bool_decide (is_Some uid) && Attrs.EnablePerms af && negb (bool_decide (uid = Some (Attrs.Uid a))))
      (mod_attrs (Attrs.set_Uid (default 0 uid)) ;;; store_owner (Attrs.UidAttr af) (default 0 uid) (Attrs.flag_Uid af)) m) in
  let! r := and_then r (fun m =>
    let! a := gets attrs in
    attr_step (bool_decide (is_Some gid) && Attrs.EnablePerms af && negb (bool_decide (gid = Some (Attrs.Gid a))))
      (mod_attrs (Attrs.set_Gid (default 0 gid)) ;;; store_owner (Attrs.GidAttr af) (default 0 gid) (Attrs.flag_Gid af)) m) in
  match r with
  | (_, Some e) => ret (Some e)
  | (modified, None) =>
    let! st := gets CacheState in
    (if modified && bool_decide (st = ST_CACHED) then SetCacheState ST_MODIFIED ;;; WakeupFlusher else ret tt) ;;;
    ret None
  end.
(** Up to the resizing: an error, or the new size if there is one to set. *)
Definition SetAttributes_check (size : option Z) : St I (option error + option Z) :=
  let! i := getS in
  (* It's a deleted file. We don't support changing invisible files *)
  if in_state (CacheState i) [ST_DELETED; ST_DEAD] then ret (inl (Some (Errno ENOENT)))
  else match size with
       | None => ret (inr None)
       | Some s =>
         if s =? Size i then ret (inr None)
         else if getMaxFileSize (PartSizes flags) <? s then ret (inl (Some (Errno EFBIG)))
         else ret (inr (Some s))
       end.

(** ** Extended attributes *)

(** [cloud.Capabilities().Name + "."] *)
Context (xattrPrefix : text).
Definition has_prefix (p s : text) : bool := bool_decide (p `prefix_of` s).
Inductive xattr_map := UserMap | CloudMap.
Definition getXattrMap (name : text) (userOnly : bool) : St I ((xattr_map * text) + error) :=
  if has_prefix xattrPrefix name then
    if userOnly then ret (inr (Errno EPERM))
    else ret (inl (CloudMap, drop (length xattrPrefix) name))
  else if has_prefix (txt "user.") name && negb (bool_decide (name = txt "user." ++ Attrs.SymlinkAttr af)) then
    let! err := fillXattr in
    match err with
    | Some e => ret (inr e)
    | None =>
      let! m := gets userMetadata in
      if bool_decide (m = None) then ret (inr ENOATTR) else ret (inl (UserMap, drop 5 name))
    end
  else if userOnly then ret (inr (Errno EPERM)) else ret (inr ENOATTR).

(** The file becomes modified when its metadata changes. *)
Definition metadata_changed : St I unit :=
  let! st := gets CacheState in
  if bool_decide (st = ST_CACHED) then SetCacheState ST_MODIFIED ;;; WakeupFlusher else ret tt.
Definition SetXattr (name value : text) (xflags : Z) : St I (option error) :=
  if bool_decide (name = txt "debug") then ret None
  else
    let! st := gets CacheState in
    if in_state st [ST_DELETED; ST_DEAD] then ret (Some (Errno ENOENT))
    else
      let! r := getXattrMap name true in
      match r with
      | inr e => ret (if bool_decide (e = Errno EPERM) then None else Some e)   (* Silently ignore forbidden xattr operations *)
      | inl (_, name) =>
        let! m := gets (fun i => default ∅ (userMetadata i)) in
        let ok := bool_decide (is_Some (m !! name)) in
        if (xflags =? XATTR_CREATE) && ok then ret (Some (Errno EEXIST))
        else if (xflags =? XATTR_REPLACE) && negb ok then ret (Some ENOATTR)
        else
          mod_attrs (Attrs.set_meta (Some (<[name := value]> m)) 2) ;;;
          metadata_changed ;;;
          ret None
      end.
Definition RemoveXattr (name : text) : St I (option error) :=
  let! st := gets CacheState in
  if in_state st [ST_DELETED; ST_DEAD] then ret (Some (Errno ENOENT))
  else
    let! r := getXattrMap name true in
    match r with
    | inr e => ret (if bool_decide (e = Errno EPERM) then None else Some e)
    | inl (_, name) =>
      let! m := gets (fun i => default ∅ (userMetadata i)) in
      if bool_decide (is_Some (m !! name)) then
        mod_attrs (Attrs.set_meta (Some (delete name m)) 2) ;;;
        metadata_changed ;;;
        ret None
      else ret (Some ENOATTR)
    end.
Definition GetXattr (version name : text) : St I (text + error) :=
  if bool_decide (name = txt "geesefs") then ret (inl version)
  else
    let! r := getXattrMap name false in
    match r with
    | inr e => ret (inr e)
    | inl (which, name) =>
      let! a := gets attrs in
      let m := match which with UserMap => default ∅ (Attrs.userMetadata a) | CloudMap => Attrs.s3Metadata a end in
      ret (match m !! name with Some v => inl v | None => inr ENOATTR end)
    end.
(** The names, before they are sorted. *)
Definition ListXattr : St I (list text + error) :=
  let! err := fillXattr in
  match err with
  | Some e => ret (inr e)
  | None =>
    let! a := gets attrs in
    ret (inl ((app xattrPrefix <$> (map_to_list (Attrs.s3Metadata a)).*1) ++
              (app (txt "user.") <$> (map_to_list (default ∅ (Attrs.userMetadata a))).*1)))
  end.
End ops.
(** ** Properties *)

Section chmod.
Context {M : Type -> Type} `{BTreeMap M} {Q : Type} `{BufferListHelpers Q}.
Context (flags : Flags) (env : Env).
Abbreviation I := (Inode M Q).
Abbreviation af := (attr_flags flags).
Context (others : St I unit) (head : Attrs.Head + error) (IsPrint : Z -> bool).

(** The type bits of a file mode: a regular file, or one of the special types. *)
Definition file_types : list Z :=
  [0; Attrs.ModeDir; Attrs.ModeSymlink; Attrs.ModeNamedPipe; Attrs.ModeSocket; Attrs.ModeDevice; Z.lor Attrs.ModeDevice Attrs.ModeCharDevice].
(** What the mode conversions of the fuse library and [strings.ToLower] are
    relied on for: a mode of permission bits and one type has a Unix mode, from
    which it comes back. *)
Record env_ok : Prop := {
  mode_convert : forall m, Z.land m (Z.lor Attrs.ModePerm Attrs.ModeType) = m -> Z.land m Attrs.ModeType ∈ file_types ->
    0 <= ConvertGoMode env m < 2 ^ 32 /\ ConvertFileMode env (ConvertGoMode env m) = m;
  ToLower_is_ascii : ToLower_ascii (ToLower env);
}.
(** Metadata that survives the way to the server and back. *)
Definition meta_ok (m : gmap text text) : Prop := forall k v, m !! k = Some v -> plain_key k /\ safe_text IsPrint v.

Lemma setUserMeta_known key value i m :
  userMetadata i = Some m ->
  wp (setUserMeta flags env others head key value) (fun err i' => err = None /\
    userMetadata i' = Some (match value with Some v => <[key := v]> m | None => delete key m end) /\
    Attrs.Mode (attrs i') = Attrs.Mode (attrs i) /\ Attrs.Rdev (attrs i') = Attrs.Rdev (attrs i)) i.
Proof.
  intros Hm. unfold setUserMeta. wp_steps. rewrite Hm. wp_steps. rewrite Hm. cbn [default]. destruct value as [v|].
  - case_bool_decide as E; [wp_steps; by rewrite insert_id|]. unfold mod_attrs. by wp_steps.
  - case_bool_decide as E; [wp_steps; by rewrite delete_id|]. unfold mod_attrs. by wp_steps.
Qed.

Lemma modes_disjoint : Z.land Attrs.ModePerm Attrs.ModeType = 0.
Proof. reflexivity. Qed.

(** The mode [setFileMode] sets when it may set all of it. *)
Lemma all_mode_bits prev new :
  Z.lor (Z.land (Z.lor (Z.land prev Attrs.ModePerm) (Z.land new Attrs.ModeType)) Attrs.ModeType) (Z.land new Attrs.ModePerm) =
  Z.land new (Z.lor Attrs.ModePerm Attrs.ModeType).
Proof.
  rewrite Z.land_lor_distr_l, <- !Z.land_assoc, modes_disjoint, Z.land_0_r, Z.lor_0_l, Z.land_diag, (Z.lor_comm Attrs.ModePerm).
  by rewrite Z.land_lor_distr_r.
Qed.

Lemma Sprintf_d_safe n : 0 <= n -> safe_text IsPrint (Sprintf_d n).
Proof.
  intros Hn. unfold Sprintf_d. rewrite (proj2 (Z.ltb_ge n 0)) by lia.
  destruct (digits_chars (Z.to_nat n) n [] Hn) as (ds & -> & Hds & _). rewrite app_nil_r. exists ds.
  assert (Ha : Forall (fun b => 0 <= b < 128) ds) by (eapply Forall_impl; [done|]; cbn; lia).
  split; [by rewrite (proj1 (ascii_text ds Ha))|]. eapply Forall_impl; [done|]. intros b Hb. cbn in Hb.
  split; [apply ascii_valid; lia|right; lia].
Qed.

Lemma meta_ok_insert k v m : meta_ok m -> plain_key k -> safe_text IsPrint v -> meta_ok (<[k := v]> m).
Proof. intros Hm Hk Hv k' v' [[<- <-]|[_ ?]]%lookup_insert_Some; [done|]. by apply Hm. Qed.
Lemma meta_ok_delete k m : meta_ok m -> meta_ok (delete k m).
Proof. intros Hm k' v' [_ ?]%lookup_delete_Some. by apply Hm. Qed.

(** The mode and the device number an inode gets from metadata with all mode bits enabled. *)
Lemma setMetadata_mode metadata a0 :
  Attrs.EnablePerms af = true -> Attrs.EnableSpecials af = true -> Z.land (Attrs.Mode a0) Attrs.ModeType = 0 ->
  let m := unescapeMetadata (ToLower env) metadata in
  let a := Attrs.setMetadata af (ToLower env) (ConvertFileMode env) metadata a0 in
  match Attrs.parsed 32 (m !! Attrs.FileModeAttr af) with
  | None => Attrs.Mode a = Attrs.Mode a0
  | Some n => let mode := Z.land (ConvertFileMode env n) (Z.lor Attrs.ModePerm Attrs.ModeType) in
              Attrs.Mode a = mode /\ (Z.land mode Attrs.ModeDevice <> 0 -> Attrs.Rdev a = (ParseUint (default [] (m !! Attrs.RdevAttr af)) 32).1)
  end.
Proof.
  intros Hp Hs Ht. cbn zeta. unfold Attrs.setMetadata. rewrite Hp, Hs. cbn [orb andb].
  set (m := unescapeMetadata (ToLower env) metadata).
  match goal with |- context [Z.land (Attrs.Mode ?a) Attrs.ModeType =? 0] => set (a2 := a) end.
  assert (E2 : Attrs.Mode a2 = Attrs.Mode a0).
  { unfold a2. destruct (Attrs.EnableMtime af), (Attrs.parsed 64 (m !! Attrs.MtimeAttr af)), (Attrs.parsed 32 (m !! Attrs.UidAttr af)),
      (Attrs.parsed 32 (m !! Attrs.GidAttr af)); done. }
  destruct (Attrs.parsed 32 (m !! Attrs.FileModeAttr af)) as [n|]; [|done]. rewrite E2, Ht, Z.eqb_refl, Z.lxor_nilpotent, Z.land_0_r, Z.lor_0_l.
  cbn [Attrs.set_Mode Attrs.Mode]. set (mode := Z.land (ConvertFileMode env n) _). by destruct (Z.eqb_spec (Z.land mode Attrs.ModeDevice) 0).
Qed.

(** C40: A change of mode survives the way to the server and back, on a mount
    that keeps permissions and special files in metadata.  For a file whose
    metadata is known, with printable values under lower-case ASCII names, and
    a mode with one file type: [setFileMode] succeeds, sets exactly the
    permission and type bits asked for, and an inode built from the metadata as
    it is sent to the server has the same mode, and for a device the same
    device number. *)
Theorem chmod_round_trip newMode i m a0 :
  env_ok -> userMetadata i = Some m -> meta_ok m ->
  plain_key (Attrs.FileModeAttr af) -> plain_key (Attrs.RdevAttr af) -> Attrs.FileModeAttr af <> Attrs.RdevAttr af ->
  Attrs.EnablePerms af = true -> Attrs.EnableSpecials af = true ->
  0 <= Attrs.Rdev (attrs i) < 2 ^ 32 -> Z.land newMode Attrs.ModeType ∈ file_types -> Z.land newMode Attrs.ModeDir = Z.land (Attrs.Mode (attrs i)) Attrs.ModeDir ->
  Attrs.Mode a0 = Attrs.FileMode af -> Z.land (Attrs.FileMode af) Attrs.ModeType = 0 ->
  exists changed i', setFileMode flags env others head newMode i = Ok ((changed, None), i') /\
    let mode := Z.land newMode (Z.lor Attrs.ModePerm Attrs.ModeType) in
    let sent := default ∅ (escapeMetadata IsPrint (ToLower env) (userMetadata i')) in
    let a := Attrs.setMetadata af (ToLower env) (ConvertFileMode env) sent a0 in
    Attrs.Mode (attrs i') = mode /\ Attrs.Mode a = mode /\
    (Z.land mode Attrs.ModeDevice <> 0 -> mode <> Attrs.FileMode af -> Attrs.Rdev a = Attrs.Rdev (attrs i)).
Proof.
  intros [Hconv Hlow] Hm Hok Hkf Hkr Hne Hp Hs Hrdev Htype Hdir Ha0 Hft. set (mode := Z.land newMode _). set (isdev := negb (Z.land mode Attrs.ModeDevice =? 0)).
  set (m1 := if isdev then <[Attrs.RdevAttr af := Sprintf_d (Attrs.Rdev (attrs i))]> m else m).
  set (m2 := if mode =? Attrs.FileMode af then delete (Attrs.FileModeAttr af) m1 else <[Attrs.FileModeAttr af := Sprintf_d (ConvertGoMode env mode)]> m1).
  assert (Hrun : wp (setFileMode flags env others head newMode) (fun r i' => r.2 = None /\ Attrs.Mode (attrs i') = mode /\ userMetadata i' = Some m2) i).
  { unfold setFileMode. wp_steps. rewrite Hs, Hdir, Z.eqb_refl, Hp, all_mode_bits. cbn [andb negb]. fold mode. unfold mod_attrs. wp_steps. fold isdev.
    apply wp_mono with (fun err i' => err = None /\ userMetadata i' = Some m1 /\ Attrs.Mode (attrs i') = mode).
    { unfold m1. destruct isdev; [|by wp_steps]. wp_use setUserMeta_known; [exact Hm|]. intros err i' (-> & ? & ? & _). done. }
    intros err i' (-> & Hm1 & Hmode). wp_steps. wp_use setUserMeta_known; [exact Hm1|]. intros err i'' (-> & Hm2 & Hmode' & _). wp_steps.
    split_and!; [done|cbn in *; congruence|]. rewrite Hm2. unfold m2. by destruct (mode =? Attrs.FileMode af). }
  apply wp_run in Hrun as ([changed err] & i' & E & Herr & Hmode & Hm2). cbn in Herr. subst err. exists changed, i'. split; [done|]. cbn zeta. split; [done|].
  assert (Hbits : Z.land mode (Z.lor Attrs.ModePerm Attrs.ModeType) = mode) by (unfold mode; by rewrite <- Z.land_assoc, Z.land_diag).
  assert (Htype' : Z.land mode Attrs.ModeType ∈ file_types) by (unfold mode; rewrite <- Z.land_assoc; exact Htype).
  destruct (Hconv mode Hbits Htype') as [Hgo Hback].
  assert (Hok1 : meta_ok m1) by (unfold m1; destruct isdev; [apply meta_ok_insert; [done|done|apply Sprintf_d_safe; lia]|done]).
  assert (Hok2 : meta_ok m2) by (unfold m2; destruct (mode =? _); [by apply meta_ok_delete|apply meta_ok_insert; [done|done|apply Sprintf_d_safe; lia]]).
  rewrite Hm2. pose proof (setMetadata_mode (default ∅ (escapeMetadata IsPrint (ToLower env) (Some m2))) a0 Hp Hs) as Hset.
  rewrite unescape_escape_metadata in Hset by done. specialize (Hset ltac:(by rewrite Ha0)). cbn zeta in Hset.
  assert (Hmode2 : m2 !! Attrs.FileModeAttr af = if mode =? Attrs.FileMode af then None else Some (Sprintf_d (ConvertGoMode env mode))).
  { unfold m2. destruct (mode =? Attrs.FileMode af); [apply lookup_delete_eq|apply lookup_insert_eq]. }
  rewrite Hmode2 in Hset. destruct (Z.eqb_spec mode (Attrs.FileMode af)) as [Edef|Edef]; cbn [Attrs.parsed] in Hset.
  - split; [congruence|done].
  - rewrite ParseUint_Sprintf in Hset by done. destruct Hset as [-> Hr].
    rewrite Hback, Hbits in *. split; [done|]. intros Hdev _. rewrite Hr by done.
    assert (Hrdev2 : m2 !! Attrs.RdevAttr af = Some (Sprintf_d (Attrs.Rdev (attrs i)))).
    { unfold m2. rewrite lookup_insert_ne by done. unfold m1, isdev. rewrite (proj2 (Z.eqb_neq _ _)) by done. apply lookup_insert_eq. }
    rewrite Hrdev2. cbn [from_option id]. by rewrite ParseUint_Sprintf.
Qed.
End chmod.

Import FileExamples.
(** Unix modes: the file type is in the bits above 12. *)
Definition unix_types : list (Z * Z) :=
  [(0, 8); (Attrs.ModeDir, 4); (Attrs.ModeSymlink, 10); (Attrs.ModeNamedPipe, 1); (Attrs.ModeSocket, 12); (Attrs.ModeDevice, 6); (Z.lor Attrs.ModeDevice Attrs.ModeCharDevice, 2)].
Definition unix_of_go (m : Z) : Z :=
  Z.lor (Z.land m Attrs.ModePerm) (Z.shiftl (default 0 (snd <$> head (filter (fun t => t.1 = Z.land m Attrs.ModeType) unix_types))) 12).
Definition go_of_unix (u : Z) : Z :=
  Z.lor (Z.land u Attrs.ModePerm) (default Attrs.ModeDevice (fst <$> head (filter (fun t => t.2 = Z.shiftr u 12) unix_types))).
Definition unix_env : Env := mkEnv (ToLower small_env) go_of_unix unix_of_go (os_Remove small_env) (os_OpenFile small_env) (fd_ReadAt small_env).

Lemma unix_env_ok : env_ok unix_env.
Proof.
  split; [|done]. cbn. intros m Hm Ht.
  assert (Hall : forallb (fun p => forallb (fun t => let m := Z.lor p t in (0 <=? unix_of_go m) && (unix_of_go m <? 2 ^ 32) && (go_of_unix (unix_of_go m) =? m)) file_types) (seqZ 0 512) = true)
    by (vm_compute; reflexivity).
  rewrite forallb_forall in Hall. specialize (Hall (Z.land m Attrs.ModePerm)). rewrite forallb_forall in Hall.
  assert (Em : Z.lor (Z.land m Attrs.ModePerm) (Z.land m Attrs.ModeType) = m) by (by rewrite <- Z.land_lor_distr_r).
  specialize (fun H => Hall H (Z.land m Attrs.ModeType) (proj1 (list_elem_of_In _ _) Ht)). rewrite Em in Hall. cbn zeta in Hall.
  enough (H : (0 <=? unix_of_go m) && (unix_of_go m <? 2 ^ 32) && (go_of_unix (unix_of_go m) =? m) = true) by lia.
  apply Hall, list_elem_of_In, elem_of_seqZ. change Attrs.ModePerm with (Z.ones 9). rewrite Z.land_ones by lia. pose proof (Z.mod_pos_bound m (2 ^ 9)). lia.
Qed.
Lemma chmod_round_trip_witness :
  exists changed i', setFileMode (small_flags true false false) unix_env (ret tt) (inr EOF) (Z.lor 384 Attrs.ModeNamedPipe)
      (small_file 0 ST_CACHED (Some ∅)) = Ok ((changed, None), i') /\ Attrs.Mode (attrs i') = Z.lor 384 Attrs.ModeNamedPipe.
Proof.
  assert (Hk : forall k, forallb (fun b => (0 <=? b) && (b <? 128) && negb ((65 <=? b) && (b <=? 90))) k = true -> plain_key k).
  { intros k Hb. apply Forall_forall. intros b Hin. pose proof (proj1 (forallb_forall _ _) Hb b) as Hx.
    rewrite <- list_elem_of_In in Hx. specialize (Hx Hin). cbn in Hx. lia. }
  destruct (chmod_round_trip (small_flags true false false) unix_env (ret tt) (inr EOF) (fun _ => false) (Z.lor 384 Attrs.ModeNamedPipe)
    (small_file 0 ST_CACHED (Some ∅)) ∅ (Attrs.mk 0 0 0 0 420 0 None 0 ∅) unix_env_ok) as (changed & i' & E & Hmode & _).
  - reflexivity.
  - intros k v Hl. by rewrite lookup_empty in Hl.
  - apply Hk. reflexivity.
  - apply Hk. reflexivity.
  - discriminate.
  - reflexivity.
  - reflexivity.
  - cbn. lia.
  - apply list_elem_of_In. vm_compute. tauto.
  - reflexivity.
  - reflexivity.
  - reflexivity.
  - exists changed, i'. split; [exact E|exact Hmode].
Defined.
End Xattrs.
